(* ===== verification/_CoqProject ===== *)
-Q . S2P
Prelude.v
GoText.v
GoUnicode.v
GoEff.v
Scope.v
Sha256.v
Key.v
Models.v
Sql.v
Store.v
TenantRepo.v
ApiKeyRepo.v
SessionRepo.v
Address.v
MessageRepo.v
MessageQueries.v
ChatRepo.v
StoreOps.v
StoreTheorems.v
Mailbox.v
MailboxWrites.v
MailboxReads.v
Refinement.v
Config.v
GoTime.v
Json.v
JsonRoundTrip.v
Http.v
Middleware.v
Pending.v
WaAddress.v
MediaReference.v
MediaPath.v
Gateway.v
Demo.v
History.v
Manager.v
Contacts.v
Media.v
ManagerOps.v
ClientRegistry.v
FetchRace.v
Sessions.v
TenantApi.v
AdminApi.v
ToolTypes.v
McpServer.v
Routing.v
Server.v
Deployment.v
DemoServer.v
ToolHints.v
Migrate.v
Host.v
Daemon.v
Lifetime.v
