(* ===== verification/Prelude.v ===== *)
(** * A verification of the whats-cloud-mcp gateway

    The gateway puts several WhatsApp accounts, one per tenant, behind an
    HTTP API and an MCP endpoint.  This library models the Go program under
    [src/] from the SQL rows up to the process, as functions that evaluate,
    and proves what makes it correct: a tenant's key reaches that tenant's
    data and nobody else's, a key works from the moment it is shown until it
    is revoked, a person has one conversation under all the addresses
    WhatsApp gives them, and whatever fails, nothing stored is lost.

    ** The parts and how they interact

    A request enters [Server.serve]: the router of [Routing] finds the handler
    by the bytes of the path, in front of each handler stands the middleware of
    [Middleware] (origin, bearer token, scope), and behind it the handlers of [TenantApi], [AdminApi] and, at [/mcp], the
    tools of [McpServer].  Handlers reach the database through the
    repositories and WhatsApp through the interface
    [Sessions.SessionManager].  What the store promises as a whole is the
    book of mailboxes of [Mailbox].  [Deployment] implements that interface by the
    manager: [Manager] (pairing, sending, events), [History] and [Pending]
    (the asynchronous history of a conversation), [Media], [MediaPath] and
    [MediaReference] (attachments), [Contacts] (finding a destination) and
    [WaAddress] (which of a person's addresses is canonical).  [Daemon] boots
    all of it on the database that [Migrate] has upgraded, from the settings
    of [Config]; [Host] is what outlives a process, and [Lifetime] the
    processes that follow one another on it.

    ** Where each file of the program is modelled

    - [internal/store]: [Models] (models.go), [Store] (the tables and their
      constraints), [Sql] (what SQLite's LIKE, lower and ORDER BY mean),
      [TenantRepo], [ApiKeyRepo], [SessionRepo], [MessageRepo], [ChatRepo]
      (one per *_repo.go, a definition per method, statement by statement),
      [Address] (address.go), [StoreOps] (repositories.go: all the methods as
      one instruction set), [Host] and [Migrate] (store.go and migrations/).
      [Mailbox] is their abstract specification, [MailboxWrites],
      [MailboxReads] and [Refinement] the proof that they implement it.
    - [internal/auth]: [Scope] (scope.go), [Key] over [Sha256] (key.go),
      [Middleware] (middleware.go).
    - [internal/config]: [Config].  [internal/apierr] and the JSON helpers of
      [internal/httpapi]: [Http], over [Json] (the bytes of a document, written
      and read) and [JsonRoundTrip] (that reading finds what was written);
      times as text: [GoTime].
    - [internal/wa]: [WaAddress] (address.go), [Pending] (pending.go),
      [MediaReference] (media_reference.go), [MediaPath], [Media] and
      [FetchRace] (media.go), [History] (history.go), [Manager] (manager.go, groups.go),
      [Contacts] (contacts.go, groups.go), [Sessions] (session.go); the state
      of the manager is [Gateway.gateway], its registry of clients under
      interleaving [ClientRegistry].
    - [internal/httpapi]: [TenantApi] (tenant_handlers.go,
      media_handlers.go), [AdminApi] (admin_handlers.go), [Middleware]
      (origin.go), [Routing] and [Server] (server.go).
    - [internal/mcpserver]: [ToolTypes] (the structs and their JSON),
      [McpServer] (the tools), [ToolHints] (what their hints promise).
      [cmd/gateway]: [Deployment], [Daemon] and [Lifetime].
    - [GoText], [GoUnicode] and [GoEff] are what the program uses of the
      language and its standard library; [Prelude] is shared tactics and the
      lemmas on tables; [Demo] and [DemoServer] are a concrete environment.

    Names are the program's: [store.MessageRepo.ListByChat] is
    [MessageRepo.ListByChat], a field [WAJID] of a session is [s_WAJID].

    ** How code becomes definitions

    A function without effects is a function.  A function with effects is an
    [eff St A], a state transformer that draws from the environment by index
    ([GoEff]): the clock, the random bytes, the UUIDs and whether each SQL
    statement fails are functions of the index of the draw, so a theorem
    about every [Oracle] and every index holds whatever fails and whenever.
    An error is a value of [error]; [try!] is [if err != nil { return }].
    Transactions ([GoEff]) put the state back when their body fails.  A kill
    is a moment in the sequence of draws, from which on no statement, no
    commit and no write to the disk takes place ([Lifetime.die]).
    [zoom] runs a computation on a part of a larger state.  [evolves R m]
    says that every run of [m] stays within the relation [R], and is how
    frame conditions are proved, compositionally, along the calls.
    A string is its bytes, the body of a request and of an answer included;
    a 64-bit length is a number with its wrap-around
    written out ([MediaReference.int64]); SHA-256 is defined on 32-bit words.
    Locks and channels: the two registries that requests and events share are
    step relations over their critical sections, [Pending] for history
    requests and [ClientRegistry] for clients, each step a definition the
    sequential functions are composed of; the goroutines that a connection
    starts wait in [Gateway.g_background] until the scheduler takes one up
    ([Manager.run_background]), at any later time and in any order; what the fetches of one attachment
    do to each other on the disk is [FetchRace], whose steps are cut out of
    [Media.fetch] ([FetchRace.fetch_alone_steps]); [SyncHistory] is two functions, so
    that any steps may come between the request and the wait.  What requests
    share besides is the database, through one connection: the theorems about
    [StoreOps.run_calls] are about every order in which the repository calls of any number
    of handlers may arrive.

    ** The environment

    Code that is not in the repository is a class, and a theorem that needs
    its documented behaviour names it as a hypothesis: [Oracle] (SQL, clock,
    randomness), [Unicode] (Go's case and printing tables), [JidOps] with
    [JidLaws] and [WaClient] (whatsmeow), [MediaTypes] with [MediaTypeLaws]
    (whatsmeow's table of media types), [Disk] and [FileReads] (the file system), [ErrorTexts] (the texts
    of whatsmeow's errors), [Durations] (time.ParseDuration), [Waits] (how
    long the deployed waits last), [McpTransport] with [McpTransportLaws]
    (the MCP SDK), [Redirects] with [RedirectLaws] (how [http.ServeMux] redirects
    from a path that is not clean), [Machine] (the working directory, opening the file,
    whatsmeow's own upgrade).
    [Demo] and [DemoServer] give an instance of each, and the witnesses of
    the theorems run the program on it.

    ** What the theorems show

    - Isolation, at every layer: [StoreTheorems.store_isolates_tenants]
      for the store, [ManagerOps.manager_acts_for_its_tenant]
      for every operation and event of the manager,
      [Server.server_isolates_tenants] for every request without the admin
      token and [Server.admin_only_administers] for those with it,
      [McpServer.tool_needs_its_scope] and [ToolHints.read_only_tools_read]
      for the tools.
    - The store against its specification: [Refinement.store_refines_mailboxes]
      (a forward simulation, on success and on error, lifted to every
      sequence of calls, and the reads).
    - Integrity: [StoreTheorems.store_invariant], [AppendBatch_atomic],
      [redelivery_no_op]; [Daemon.boot_then_serve] carries the invariant
      from boot through every request and event, and
      [Lifetime.lives_lose_nothing] over any number of starts, shutdowns and
      kills in the middle of anything, for every database by its path.
    - Interleaving: [Pending.delivery_at_most_once],
      [ClientRegistry.client_registry] and
      [FetchRace.concurrent_fetches_agree].
    - The API: [Server.documented_api], every line of the README's table.
    - Credentials: [Middleware.authentication_exact],
      [AdminApi.issued_key_authenticates], [revoked_key_refused],
      [Scope.HasScope_correct], [Server.admin_only_administers].
    - One conversation per person: [WaAddress.writing_and_reading_agree],
      [StoreTheorems.one_conversation], [ListChats_one_per_person],
      [ManagerOps.events_file_conversations], [SendText_files_where_sent],
      [TenantApi.send_is_recorded] (up to the bytes of the listing that
      follows), [Migrate.repair_makes_canonical].  The hypotheses of these
      theorems are what whatsmeow documents: which of the addresses of an event
      belong together ([ManagerOps.well_addressed]) and that a lookup answers what
      its table, the one the store reads, holds ([Gateway.one_index];
      [Gateway.full_index] when the lookup must answer, as it must for
      [History.SyncHistory_reply]).
    - History and attachments: the theorems of [History], [Pending],
      [Media] and [MediaPath]: what is asked of the network, what is stored,
      what is final, and where files go.  [History.SyncHistory_reply] runs the
      request and the sync that answers it, each through its own
      canonicalisation.
    - Errors: [TenantApi.failures_tell_the_truth],
      [Server.errors_have_one_shape] (with the one path it is false of);
      [McpServer.tools_match_routes], failures included.
    - Bytes: [JsonRoundTrip.parse_encode], on which [TenantApi.send_is_recorded]
      and [Server.errors_have_one_shape] rest: what a client encodes is what
      the handlers read, and what they answer is what a client reads.
    - Ends: [ManagerOps.StartPairing_ends], [Migrate.Migrate_upgrades] and
      [interrupted_upgrade_completes].

    ** Fuel

    [GoUnicode.lower_go] and [quote_go] and [Key.shorten_loop] consume at least
    one byte per step and are given the length of the string, and any larger
    fuel answers the same (the lemmas [*_enough]).  The reader of [Json] is
    given two steps per byte, for the value and for its place in a list
    ([JsonRoundTrip.parse_enough]); it also stops, as encoding/json does, at a
    nesting of ten thousand.  [Manager.qr_loop] counts the items of the
    QR channel, which the environment may send without end until the timer
    fires: out of fuel it answers [None], "not ended yet".  whatsmeow closes
    the channel after the first item that is neither a code nor an error of
    pairing, and from that [StartPairing_ends] shows that two items are enough
    and that any larger fuel gives the same answer.  [Sha256.sha_blocks] takes
    sixteen words per step and is given their number.  Everything else is
    structural.  A base-62 secret of thirty-two bytes has at most forty-three
    digits, the width [Key] pads to.

    ** Not modelled

    - Two handlers inside one operation at once: a function that takes no
      lock runs without interruption, except where [Pending], [History],
      [ClientRegistry] and [FetchRace] split it.  SQLite's own concurrency is behind a connection pool of one.
    - The text of the SQL statements and of the indexes that only make
      queries faster; each statement is the function on rows it denotes.
      A database path with a character that is special in an URI ([Host]).
    - The schemas the SDK derives from the structs of the MCP tools and its
      protocol.  A connection that breaks in the middle of a body.
    - The parsing of a request line, a query and headers by [net/http], and the
      timeouts of [http.Server]; of [http.ServeMux] the status and the text of
      its redirects, which differ between versions of Go.
    - Years before 0 and after 9999; logging; everything inside whatsmeow. *)

From Stdlib Require Export Ascii.
From stdpp Require Export base tactics option list sorting gmap strings fin_maps.
From stdpp Require Export relations.
From Stdlib Require Export ZArith Lia ZifyBool.

#[export] Set Default Goal Selector "!".
#[export] Set Warnings "-clear-no-such-hyp,-register-all".

(** Notations of the development live in their own scope. *)
Declare Scope go_scope.
Delimit Scope go_scope with go.

(** ** Tactics *)

(** Split every conjunction, existential and boolean fact of the context. *)
Ltac break :=
  repeat match goal with
  | H : _ ∧ _ |- _ => destruct H
  | H : ∃ _, _ |- _ => destruct H
  | H : (_ && _)%bool = true |- _ => apply andb_true_iff in H
  | H : (_ || _)%bool = false |- _ => apply orb_false_iff in H
  | H : negb _ = true |- _ => apply negb_true_iff in H
  | H : negb _ = false |- _ => apply negb_false_iff in H
  | H : bool_decide _ = true |- _ => apply bool_decide_eq_true in H
  | H : bool_decide _ = false |- _ => apply bool_decide_eq_false in H
  end; simplify_eq/=.

(** Case analysis on the discriminee of some match or conditional. *)
Ltac cases :=
  match goal with
  | |- context [match ?x with _ => _ end] => destruct x eqn:?
  | H : context [match ?x with _ => _ end] |- _ => destruct x eqn:?
  end; simplify_eq/=.

(** Prove a closed decidable proposition by evaluating its decision. *)
Ltac by_decide := apply (bool_decide_unpack _); vm_compute; exact I.

(** Remember the equation of a decided proposition. *)
Ltac decide_all := repeat case_decide; simplify_eq/=; try done.

(** ** Lists *)

Lemma take_elem_of {A} (n : nat) (l : list A) (x : A) : x ∈ take n l → x ∈ l.
Proof. intros H. rewrite <- (take_drop n l). apply elem_of_app. by left. Qed.

Lemma NoDup_take {A} (n : nat) (l : list A) : NoDup l → NoDup (take n l).
Proof. intros H. rewrite <- (take_drop n l) in H. by apply NoDup_app in H as [? _]. Qed.

(** The first [n] elements of a sorted list dominate the remaining ones. *)
Lemma sorted_take_drop {A} (R : relation A) (n : nat) (l : list A) (x y : A) :
  StronglySorted R l → x ∈ take n l → y ∈ drop n l → R x y.
Proof.
  intros Hs Hx Hy. rewrite <- (take_drop n l) in Hs.
  eapply StronglySorted_app; eauto.
Qed.

Lemma StronglySorted_take {A} (R : relation A) (n : nat) (l : list A) :
  StronglySorted R l → StronglySorted R (take n l).
Proof.
  intros Hs. rewrite <- (take_drop n l) in Hs.
  by eapply StronglySorted_app in Hs as (_ & ? & _).
Qed.

(** A list no longer than the limit is kept whole. *)
Lemma take_or_short {A} (n : nat) (l : list A) (x : A) :
  x ∈ l → x ∈ take n l ∨ length (take n l) = n.
Proof.
  intros Hx. destruct (decide (length l ≤ n)) as [Hle|Hgt].
  - left. by rewrite take_ge by lia.
  - right. rewrite length_take. lia.
Qed.

Lemma NoDup_fmap_inj {A B} (f : A → B) (l : list A) :
  (∀ x y, x ∈ l → y ∈ l → f x = f y → x = y) → NoDup l → NoDup (f <$> l).
Proof.
  intros Hinj. induction 1 as [|x l Hx Hl IH]; csimpl; constructor.
  - intros (y & Hxy & Hy)%list_elem_of_fmap.
    apply Hx. rewrite (Hinj x y); [done| |by right|done]. left.
  - apply IH. intros a b Ha Hb. apply Hinj; by right.
Qed.

Lemma list_eq_nil {A} (l : list A) : (∀ x, x ∉ l) → l = [].
Proof. destruct l as [|x l]; [done|]. intros Hx. destruct (Hx x). left. Qed.

(** ** Tables

    A database table is a finite map from its primary key to its row; a query
    reads the rows that satisfy its WHERE clause, orders them and truncates
    the result to its LIMIT. *)

Definition rows {K V} `{Countable K} (m : gmap K V) : list V := (map_to_list m).*2.

Lemma elem_of_rows {K V} `{Countable K} (m : gmap K V) (v : V) :
  v ∈ rows m ↔ ∃ k, m !! k = Some v.
Proof.
  unfold rows. rewrite list_elem_of_fmap. split.
  - intros ([k v'] & -> & Hk%elem_of_map_to_list). by exists k.
  - intros [k Hk]. exists (k, v). by rewrite elem_of_map_to_list.
Qed.

Lemma NoDup_rows {K V} `{Countable K} (key : V → K) (m : gmap K V) :
  (∀ k v, m !! k = Some v → key v = k) → NoDup (rows m).
Proof.
  intros Hkey. apply NoDup_fmap_inj; [|apply NoDup_map_to_list].
  intros [k1 v1] [k2 v2] H1%elem_of_map_to_list H2%elem_of_map_to_list Hv.
  simpl in Hv; subst. apply Hkey in H1, H2. congruence.
Qed.

Lemma length_rows {K V} `{Countable K} (m : gmap K V) : length (rows m) = size m.
Proof. unfold rows. by rewrite length_fmap, length_map_to_list. Qed.

Lemma rows_empty {K V} `{Countable K} (m : gmap K V) : rows m = [] ↔ m = ∅.
Proof.
  rewrite <- (map_size_empty_iff m), <- length_rows. by destruct (rows m).
Qed.

(** [select P R n m] is the result of
    [SELECT * FROM m WHERE P ORDER BY R LIMIT n]. *)
Definition where_ {K V} `{Countable K} (P : V → Prop) `{∀ v, Decision (P v)}
    (m : gmap K V) : gmap K V :=
  filter (λ kv, P kv.2) m.

Definition select {K V} `{Countable K} (P : V → Prop) `{∀ v, Decision (P v)}
    (R : relation V) `{∀ x y, Decision (R x y)} (n : nat) (m : gmap K V) : list V :=
  take n (merge_sort R (rows (where_ P m))).

Section select.
Context {K V : Type} `{Countable K} (P : V → Prop) `{∀ v, Decision (P v)}.
Context (R : relation V) `{∀ x y, Decision (R x y)}.
Implicit Types (m : gmap K V) (n : nat).

Lemma where_lookup m k v : where_ P m !! k = Some v ↔ m !! k = Some v ∧ P v.
Proof. unfold where_. by rewrite map_lookup_filter_Some. Qed.

Lemma elem_of_where m v : v ∈ rows (where_ P m) ↔ (∃ k, m !! k = Some v) ∧ P v.
Proof.
  rewrite elem_of_rows. setoid_rewrite where_lookup.
  split; [intros (k & Hk & HP)|intros [[k Hk] HP]]; eauto.
Qed.

Lemma select_sound n m v : v ∈ select P R n m → (∃ k, m !! k = Some v) ∧ P v.
Proof.
  unfold select. intros Hv%take_elem_of.
  rewrite merge_sort_Permutation in Hv. by apply elem_of_where.
Qed.

Lemma select_sorted n m `{!Transitive R, !Total R} : StronglySorted R (select P R n m).
Proof. apply StronglySorted_take, (StronglySorted_merge_sort R). Qed.

Lemma select_length n m : length (select P R n m) ≤ n.
Proof. unfold select. rewrite length_take. lia. Qed.

Lemma select_count n m : length (select P R n m) = n `min` size (where_ P m).
Proof.
  unfold select. rewrite length_take, merge_sort_Permutation, length_rows. done.
Qed.

(** A row that the limit cuts off comes after every row that is returned. *)
Lemma select_complete n m k v `{!Transitive R, !Total R} :
  m !! k = Some v → P v →
  v ∈ select P R n m ∨
  (length (select P R n m) = n ∧ ∀ w, w ∈ select P R n m → R w v).
Proof.
  intros Hk HP.
  assert (Hin : v ∈ merge_sort R (rows (where_ P m))).
  { rewrite merge_sort_Permutation. apply elem_of_where. eauto. }
  unfold select.
  destruct (take_or_short n _ _ Hin) as [|Hlen]; [by left|].
  rewrite <- (take_drop n (merge_sort R _)) in Hin.
  apply elem_of_app in Hin as [|Hdrop]; [by left|right].
  split; [done|]. intros w Hw.
  eapply sorted_take_drop; eauto. by apply StronglySorted_merge_sort.
Qed.

Lemma select_nil n m :
  0 < n → (select P R n m = [] ↔ ∀ k v, m !! k = Some v → ¬ P v).
Proof.
  intros Hn. split.
  - intros Hnil k v Hk HP.
    assert (Hlen := select_count n m). rewrite Hnil in Hlen; simpl in Hlen.
    assert (size (where_ P m) ≠ 0); [|lia].
    apply map_size_ne_0_lookup_2 with k. exists v. by apply where_lookup.
  - intros Hno. destruct (select P R n m) as [|v l] eqn:E; [done|].
    destruct (select_sound n m v) as [[k Hk] HP]; [rewrite E; left|].
    exfalso. by eapply Hno.
Qed.

Lemma NoDup_select n m (key : V → K) :
  (∀ k v, m !! k = Some v → key v = k) → NoDup (select P R n m).
Proof.
  intros Hkey. apply NoDup_take. rewrite merge_sort_Permutation.
  apply (NoDup_rows key). intros k v [? _]%where_lookup. by apply Hkey.
Qed.

(** A query reads only the rows its WHERE clause selects. *)
Lemma select_ext n m1 m2 :
  where_ P m1 = where_ P m2 → select P R n m1 = select P R n m2.
Proof. unfold select. by intros ->. Qed.
End select.

(** Restricting a WHERE clause twice is restricting it once. *)
Lemma where_mono {K V} `{Countable K} (P Q : V → Prop)
    `{∀ v, Decision (P v), ∀ v, Decision (Q v)} (m1 m2 : gmap K V) :
  (∀ v, P v → Q v) → where_ Q m1 = where_ Q m2 → where_ P m1 = where_ P m2.
Proof.
  intros HPQ HQ. apply map_eq. intros k. apply option_eq. intros v.
  rewrite !where_lookup. split; intros [Hk HP].
  - assert (where_ Q m1 !! k = Some v) as Hv by (apply where_lookup; auto).
    rewrite HQ in Hv. apply where_lookup in Hv as [??]. done.
  - assert (where_ Q m2 !! k = Some v) as Hv by (apply where_lookup; auto).
    rewrite <- HQ in Hv. apply where_lookup in Hv as [??]. done.
Qed.

Lemma where_none {K V} `{Countable K} (P : V → Prop) `{∀ v, Decision (P v)}
    (m : gmap K V) :
  where_ P m = ∅ ↔ ∀ k v, m !! k = Some v → ¬ P v.
Proof.
  split.
  - intros He k v Hk HP.
    assert (Hv : where_ P m !! k = Some v) by (by apply where_lookup).
    rewrite He, lookup_empty in Hv. done.
  - intros Hno. apply map_empty. intros k. apply eq_None_not_Some.
    intros [v [Hk HP]%where_lookup]. by eapply Hno.
Qed.

(** Updating every row in place: [UPDATE m SET f WHERE P]. *)
Definition update_where {K V} `{Countable K} (P : V → Prop) `{∀ v, Decision (P v)}
    (f : V → V) (m : gmap K V) : gmap K V :=
  (λ v, if decide (P v) then f v else v) <$> m.

Lemma update_where_lookup {K V} `{Countable K} (P : V → Prop) `{∀ v, Decision (P v)}
    (f : V → V) (m : gmap K V) k :
  update_where P f m !! k = (λ v, if decide (P v) then f v else v) <$> (m !! k).
Proof. apply lookup_fmap. Qed.

Lemma update_where_none {K V} `{Countable K} (P : V → Prop) `{∀ v, Decision (P v)}
    (f : V → V) (m : gmap K V) :
  where_ P m = ∅ → update_where P f m = m.
Proof.
  intros Hno. apply map_eq. intros k. rewrite update_where_lookup.
  destruct (m !! k) as [v|] eqn:E; [|done]. simpl.
  rewrite decide_False; [done|]. by eapply where_none.
Qed.

Lemma update_where_Some {K V} `{Countable K} (P : V → Prop) `{∀ v, Decision (P v)}
    (f : V → V) (m : gmap K V) k w :
  update_where P f m !! k = Some w ↔
  ∃ v, m !! k = Some v ∧ w = if decide (P v) then f v else v.
Proof. rewrite update_where_lookup, fmap_Some. naive_solver. Qed.

(** ** Windows

    The abstract result of an ordered and limited query: the first [n] rows
    that satisfy [P], in order. *)
Record window {K V} `{Countable K} (P : V → Prop) `{∀ v, Decision (P v)} (R : relation V)
    (n : nat) (m : gmap K V) (l : list V) : Prop := {
  win_sorted : StronglySorted R l;
  win_NoDup : NoDup l;
  win_sound : ∀ v, v ∈ l → (∃ k, m !! k = Some v) ∧ P v;
  win_length : length l = n `min` size (where_ P m);
  win_first : ∀ k v w, m !! k = Some v → P v → v ∉ l → w ∈ l → R w v;
}.

Lemma select_window {K V} `{Countable K} (P : V → Prop) `{∀ v, Decision (P v)}
    (R : relation V) `{∀ x y, Decision (R x y), !Transitive R, !Total R} (key : V → K)
    n (m : gmap K V) :
  (∀ k v, m !! k = Some v → key v = k) → window P R n m (select P R n m).
Proof.
  intros Hkey. split.
  - by apply select_sorted.
  - by eapply NoDup_select.
  - intros v. apply select_sound.
  - apply select_count.
  - intros k v w Hv HP Hn Hw. destruct (select_complete P R n m k v Hv HP) as [|[_ Hall]]; auto.
    done.
Qed.

(** A row with fewer rows ahead of it than the window holds is in it. *)
Lemma window_holds {K V} `{Countable K} `{EqDecision V} (P Q : V → Prop) `{∀ v, Decision (P v), ∀ v, Decision (Q v)}
    (R : relation V) n (m : gmap K V) l k v :
  window P R n m l → m !! k = Some v → P v → (∀ w, P w → R w v → w ≠ v → Q w) →
  size (where_ Q m) < n → v ∈ l.
Proof.
  intros Hw Hk HP HQ Hsize.
  destruct (decide (v ∈ l)) as [|Hn]; [done|].
  assert (Hsub : l ⊆+ rows (where_ Q m)).
  { apply NoDup_submseteq; [by eapply win_NoDup|]. intros w Hin. apply elem_of_where.
    destruct (win_sound _ _ _ _ _ Hw w Hin) as [Hm HPw]. split; [done|].
    apply HQ; [done|by eapply win_first|by intros ->]. }
  apply submseteq_length in Hsub. rewrite length_rows in Hsub.
  pose proof (win_length _ _ _ _ _ Hw) as Hlen.
  assert (Hall : l ≡ₚ rows (where_ P m)).
  { apply submseteq_length_Permutation.
    - apply NoDup_submseteq; [by eapply win_NoDup|]. intros w Hin. apply elem_of_where.
      by eapply win_sound.
    - rewrite length_rows. lia. }
  rewrite Hall. apply elem_of_where. eauto.
Qed.

Lemma where_iff {K V} `{Countable K} (P Q : V → Prop)
    `{∀ v, Decision (P v), ∀ v, Decision (Q v)} (m : gmap K V) :
  (∀ v, P v ↔ Q v) → where_ P m = where_ Q m.
Proof. intros HPQ. apply map_filter_ext. intros k v _. apply HPQ. Qed.

Lemma select_iff {K V} `{Countable K} (P Q : V → Prop)
    `{∀ v, Decision (P v), ∀ v, Decision (Q v)} (R : relation V)
    `{∀ x y, Decision (R x y)} n (m : gmap K V) :
  (∀ v, P v ↔ Q v) → select P R n m = select Q R n m.
Proof. intros HPQ. unfold select. by rewrite (where_iff P Q m HPQ). Qed.

(** Filtering the rows of a restricted table is restricting it twice. *)
Lemma filter_rows {K V} `{Countable K} (P Q : V → Prop)
    `{∀ v, Decision (P v), ∀ v, Decision (Q v)} (key : V → K) (m : gmap K V) :
  (∀ k v, m !! k = Some v → key v = k) →
  length (filter P (rows (where_ Q m))) = size (where_ (λ v, Q v ∧ P v) m).
Proof.
  intros Hkey. rewrite <- length_rows. apply Permutation_length, NoDup_Permutation.
  - apply NoDup_filter, (NoDup_rows key). intros k v [? _]%where_lookup. by apply Hkey.
  - apply (NoDup_rows key). intros k v [? _]%where_lookup. by apply Hkey.
  - intros v. rewrite list_elem_of_filter, !elem_of_where. tauto.
Qed.

(** A total preorder has a first element in every list. *)
Lemma exists_first {A} (R : relation A) `{∀ x y, Decision (R x y), !Transitive R, !Total R}
    (l : list A) (x : A) :
  x ∈ l → ∃ y, y ∈ l ∧ ∀ z, z ∈ l → R y z.
Proof.
  assert (Hrefl : ∀ y, R y y) by (intros y; by destruct (total R y y)).
  revert x. induction l as [|a l IH]; intros x Hx; [by apply elem_of_nil in Hx|].
  destruct l as [|b l].
  { exists a. split; [left|]. by intros z ->%list_elem_of_singleton. }
  destruct (IH b) as (y & Hy & Hmin); [left|].
  destruct (total R a y) as [Hay|Hya].
  - exists a. split; [left|]. intros z [->|Hz]%elem_of_cons; [done|].
    etrans; [done|auto].
  - exists y. split; [by right|]. intros z [->|Hz]%elem_of_cons; auto.
Qed.
