(* ===== verification/GoText.v ===== *)
(** * Go strings

    The operations of Go's [strings], [unicode/utf8] and [unicode] packages the
    gateway uses.  A Go string is a sequence of bytes, modelled by [string].
    [TrimSpace] and [ToLower] work on runes: the white-space runes are listed
    here by their UTF-8 encodings; the case table of the non-ASCII runes is the
    parameter [Unicode]. *)

From S2P Require Import Prelude.

Implicit Types (c d : ascii) (s t u : string).

(** ** Appending *)

Lemma sapp_cons c s t : String c s +:+ t = String c (s +:+ t).
Proof. done. Qed.

Lemma sapp_nil_l s : "" +:+ s = s.
Proof. done. Qed.

Lemma sapp_nil_r s : s +:+ "" = s.
Proof. induction s as [|c s IH]; [done|]. by rewrite sapp_cons, IH. Qed.

Lemma sapp_assoc s t u : (s +:+ t) +:+ u = s +:+ (t +:+ u).
Proof. induction s as [|c s IH]; [done|]. by rewrite !sapp_cons, IH. Qed.

Lemma sapp_inj_l s t u : s +:+ t = s +:+ u → t = u.
Proof. induction s as [|c s IH]; [done|]. rewrite !sapp_cons. naive_solver. Qed.

Lemma slength_app s t : String.length (s +:+ t) = String.length s + String.length t.
Proof. induction s as [|c s IH]; [done|]. rewrite sapp_cons. simpl. by rewrite IH. Qed.

Create Rewrite HintDb text.
#[export] Hint Rewrite sapp_nil_l sapp_nil_r sapp_assoc sapp_cons : text.

(** ** Bytes *)

Definition byte_z c : Z := Z.of_N (N_of_ascii c).
Definition z_byte (z : Z) : ascii := ascii_of_N (Z.to_N z).

Lemma byte_z_range c : (0 ≤ byte_z c < 256)%Z.
Proof. unfold byte_z. pose proof (N_ascii_bounded c). lia. Qed.

Lemma z_byte_z c : z_byte (byte_z c) = c.
Proof. unfold z_byte, byte_z. by rewrite N2Z.id, ascii_N_embedding. Qed.

Lemma byte_z_byte z : (0 ≤ z < 256)%Z → byte_z (z_byte z) = z.
Proof. intros Hz. unfold byte_z, z_byte. rewrite N_ascii_embedding; lia. Qed.

Lemma byte_z_inj c d : byte_z c = byte_z d → c = d.
Proof. intros H. rewrite <- (z_byte_z c), <- (z_byte_z d). by f_equal. Qed.

Definition in_range (lo hi z : Z) : bool := ((lo <=? z) && (z <=? hi))%Z.

Definition is_lower_ascii c : bool := in_range 97 122 (byte_z c).
Definition is_upper_ascii c : bool := in_range 65 90 (byte_z c).
Definition is_digit c : bool := in_range 48 57 (byte_z c).
Definition is_ascii c : bool := (byte_z c <? 128)%Z.

(** All bytes of a string satisfy a predicate. *)
Fixpoint all_bytes (P : ascii → bool) s : bool :=
  match s with
  | EmptyString => true
  | String c s => P c && all_bytes P s
  end.

Fixpoint map_bytes (f : ascii → ascii) s : string :=
  match s with
  | EmptyString => EmptyString
  | String c s => String (f c) (map_bytes f s)
  end.

Lemma all_bytes_app P s t : all_bytes P (s +:+ t) = all_bytes P s && all_bytes P t.
Proof.
  induction s as [|c s IH]; [done|]. rewrite sapp_cons. simpl.
  by rewrite IH, andb_assoc.
Qed.

Lemma all_bytes_impl (P Q : ascii → bool) s :
  (∀ c, P c = true → Q c = true) → all_bytes P s = true → all_bytes Q s = true.
Proof.
  intros HPQ. induction s as [|c s IH]; [done|]. simpl. intros H. break.
  rewrite HPQ by done. by apply IH.
Qed.

Lemma length_map_bytes f s : String.length (map_bytes f s) = String.length s.
Proof. induction s as [|c s IH]; [done|]. simpl. by rewrite IH. Qed.

Lemma map_bytes_id f P s :
  (∀ c, P c = true → f c = c) → all_bytes P s = true → map_bytes f s = s.
Proof.
  intros Hf. induction s as [|c s IH]; [done|]. simpl. intros H. break.
  by rewrite Hf, IH.
Qed.

(** ** Prefixes, suffixes and reversal *)

Fixpoint strip_prefix p s : option string :=
  match p, s with
  | EmptyString, _ => Some s
  | String c p, String d s => if decide (c = d) then strip_prefix p s else None
  | String _ _, EmptyString => None
  end.

Definition has_prefix p s : bool := if strip_prefix p s is Some _ then true else false.

Lemma strip_prefix_spec p s t : strip_prefix p s = Some t ↔ s = p +:+ t.
Proof.
  revert s. induction p as [|c p IH]; intros s; simpl.
  - rewrite sapp_nil_l. split; congruence.
  - rewrite sapp_cons. destruct s as [|d s]; [done|].
    case_decide as Hc; [rewrite IH|]; split; congruence.
Qed.

Lemma has_prefix_spec p s : has_prefix p s = true ↔ ∃ t, s = p +:+ t.
Proof.
  unfold has_prefix. destruct (strip_prefix p s) as [t|] eqn:E.
  - apply strip_prefix_spec in E. naive_solver.
  - split; [done|]. intros [t Ht]. apply strip_prefix_spec in Ht. congruence.
Qed.

Fixpoint rev_app s t : string :=
  match s with
  | EmptyString => t
  | String c s => rev_app s (String c t)
  end.
Definition rev_string s : string := rev_app s "".

Lemma rev_app_spec s t : rev_app s t = rev_string s +:+ t.
Proof.
  unfold rev_string. revert t. induction s as [|c s IH]; intros t; [done|]. simpl.
  rewrite (IH (String c t)), (IH (String c "")), sapp_assoc. done.
Qed.

Lemma rev_string_cons c s : rev_string (String c s) = rev_string s +:+ String c "".
Proof. unfold rev_string at 1. simpl. apply rev_app_spec. Qed.

Lemma rev_string_app s t : rev_string (s +:+ t) = rev_string t +:+ rev_string s.
Proof.
  induction s as [|c s IH]; [by rewrite sapp_nil_l, sapp_nil_r|].
  by rewrite sapp_cons, !rev_string_cons, IH, sapp_assoc.
Qed.

Lemma rev_string_involutive s : rev_string (rev_string s) = s.
Proof.
  induction s as [|c s IH]; [done|].
  by rewrite rev_string_cons, rev_string_app, IH.
Qed.

Definition strip_suffix p s : option string :=
  rev_string <$> strip_prefix (rev_string p) (rev_string s).

Lemma strip_suffix_spec p s t : strip_suffix p s = Some t ↔ s = t +:+ p.
Proof.
  unfold strip_suffix. rewrite fmap_Some. setoid_rewrite strip_prefix_spec. split.
  - intros (u & Hs & ->).
    by rewrite <- (rev_string_involutive s), Hs, rev_string_app, rev_string_involutive.
  - intros ->. exists (rev_string t).
    by rewrite rev_string_app, rev_string_involutive.
Qed.

(** The slice [s[:n]]. *)
Fixpoint take_bytes (n : nat) s : string :=
  match n, s with
  | S n, String c s => String c (take_bytes n s)
  | _, _ => ""
  end.

Lemma take_bytes_app s t n :
  take_bytes (String.length s + n) (s +:+ t) = s +:+ take_bytes n t.
Proof. induction s as [|c s IH]; [done|]. simpl. by rewrite IH. Qed.

Lemma take_bytes_all n s : String.length s ≤ n → take_bytes n s = s.
Proof.
  revert n. induction s as [|c s IH]; intros [|n] Hn; simpl in *; [done|done|lia|].
  rewrite IH; [done|lia].
Qed.

Lemma take_bytes_length n s : String.length (take_bytes n s) ≤ String.length s.
Proof. revert n. induction s as [|c s IH]; intros [|n]; simpl; [lia..|]. specialize (IH n). lia. Qed.

(** Strings of equal length are split at the same place. *)
Lemma sapp_inj_length s1 s2 t1 t2 :
  s1 +:+ t1 = s2 +:+ t2 → String.length t1 = String.length t2 → s1 = s2 ∧ t1 = t2.
Proof.
  revert s2. induction s1 as [|c s1 IH]; intros [|d s2] Heq Hlen.
  - done.
  - rewrite sapp_cons, sapp_nil_l in Heq. subst t1. simpl in Hlen.
    rewrite slength_app in Hlen. lia.
  - rewrite sapp_cons, sapp_nil_l in Heq. subst t2. simpl in Hlen.
    rewrite slength_app in Hlen. lia.
  - rewrite !sapp_cons in Heq. injection Heq as -> Heq.
    by destruct (IH _ Heq Hlen) as [-> ->].
Qed.

Lemma sapp_inj_head s1 s2 t1 t2 :
  s1 +:+ t1 = s2 +:+ t2 → String.length s1 = String.length s2 → s1 = s2 ∧ t1 = t2.
Proof.
  intros E Hl. apply sapp_inj_length; [done|].
  apply (f_equal String.length) in E. rewrite !slength_app in E. lia.
Qed.

(** [strings.Contains] *)
Fixpoint contains u s : bool :=
  has_prefix u s ||
  match s with
  | EmptyString => false
  | String _ s => contains u s
  end.

Lemma contains_spec u s : contains u s = true ↔ ∃ a b, s = a +:+ u +:+ b.
Proof.
  induction s as [|c s IH]; simpl; rewrite orb_true_iff, has_prefix_spec.
  - split.
    + intros [[t Ht]|]; [|done]. exists "", t. done.
    + intros (a & b & H). left. destruct a; [by exists b|done].
  - rewrite IH. split.
    + intros [[t Ht]|(a & b & ->)].
      * exists "", t. done.
      * exists (String c a), b. by rewrite sapp_cons.
    + intros (a & b & H). destruct a as [|d a].
      * left. by exists b.
      * right. rewrite sapp_cons in H. simplify_eq. eauto.
Qed.

(** ** Searching for one byte *)

Fixpoint has_byte c s : bool :=
  match s with
  | EmptyString => false
  | String d s => bool_decide (d = c) || has_byte c s
  end.

(** [strings.Cut(s, c)] for a one-byte separator; it is also [IndexByte]
    followed by the two slices around the index. *)
Fixpoint cut c s : option (string * string) :=
  match s with
  | EmptyString => None
  | String d s =>
      if decide (d = c) then Some ("", s)
      else match cut c s with
           | Some (a, b) => Some (String d a, b)
           | None => None
           end
  end.

Lemma has_byte_app c s t : has_byte c (s +:+ t) = has_byte c s || has_byte c t.
Proof.
  induction s as [|d s IH]; [done|]. rewrite sapp_cons. simpl.
  by rewrite IH, orb_assoc.
Qed.

Lemma has_byte_all c P s : P c = false → all_bytes P s = true → has_byte c s = false.
Proof.
  intros Hc. induction s as [|d s IH]; [done|]. simpl. intros H. break.
  rewrite IH by done. rewrite bool_decide_eq_false_2; [done|]. intros ->. congruence.
Qed.

Lemma cut_app c s t : has_byte c s = false → cut c (s +:+ String c t) = Some (s, t).
Proof.
  induction s as [|d s IH]; simpl.
  - intros _. by rewrite decide_True.
  - intros H. break. by rewrite decide_False, IH.
Qed.

Lemma cut_Some c s a b :
  cut c s = Some (a, b) → s = a +:+ String c b ∧ has_byte c a = false.
Proof.
  revert a b. induction s as [|d s IH]; intros a b; simpl; [done|].
  case_decide; [naive_solver|].
  destruct (cut c s) as [[a' b']|] eqn:E; [|done]. intros [= <- <-].
  destruct (IH _ _ eq_refl) as [-> Hc]. rewrite sapp_cons. split; [done|]. simpl.
  by rewrite Hc, bool_decide_eq_false_2.
Qed.

Lemma cut_None c s : cut c s = None ↔ has_byte c s = false.
Proof.
  induction s as [|d s IH]; simpl; [done|].
  case_decide; [by rewrite bool_decide_eq_true_2|].
  rewrite bool_decide_eq_false_2 by done. simpl. rewrite <- IH.
  by destruct (cut c s) as [[a b]|].
Qed.

(** ** [strings.Split] and [strings.Join] on a one-byte separator *)

Fixpoint split_on c s : list string :=
  match s with
  | EmptyString => [""]
  | String d s =>
      if decide (d = c) then "" :: split_on c s
      else match split_on c s with
           | h :: tl => String d h :: tl
           | [] => [String d ""]
           end
  end.

Fixpoint join_with c (l : list string) : string :=
  match l with
  | [] => ""
  | [s] => s
  | s :: l => s +:+ String c (join_with c l)
  end.

Lemma split_on_clean c s : has_byte c s = false → split_on c s = [s].
Proof.
  induction s as [|d s IH]; simpl; [done|]. intros H. break.
  by rewrite decide_False, IH.
Qed.

Lemma split_on_app c s t :
  has_byte c s = false → split_on c (s +:+ String c t) = s :: split_on c t.
Proof.
  induction s as [|d s IH]; simpl.
  - intros _. by rewrite decide_True.
  - intros H. break. by rewrite decide_False, IH.
Qed.

(** Splitting undoes joining when no element holds the separator. *)
Lemma split_join c l :
  l ≠ [] → Forall (λ s, has_byte c s = false) l → split_on c (join_with c l) = l.
Proof.
  induction l as [|s l IH]; [done|]. intros _ [Hs Hl]%Forall_cons.
  destruct l as [|s' l]; [by apply split_on_clean|].
  change (join_with c (s :: s' :: l)) with (s +:+ String c (join_with c (s' :: l))).
  rewrite split_on_app by done. by rewrite IH.
Qed.

(** ** Percent escapes ([net/url]) *)

Definition hex_value (c : ascii) : option Z :=
  let b := byte_z c in
  if in_range 48 57 b then Some (b - 48)%Z
  else if in_range 97 102 b then Some (b - 87)%Z
  else if in_range 65 70 b then Some (b - 55)%Z
  else None.

Definition upper_hex (z : Z) : ascii :=
  z_byte (if (z <? 10)%Z then 48 + z else 55 + z)%Z.

Definition percent c : string :=
  String "%"%char (String (upper_hex (byte_z c / 16)) (String (upper_hex (byte_z c mod 16)) "")).

Definition unreserved c : bool :=
  is_lower_ascii c || is_upper_ascii c || is_digit c ||
  bool_decide (c = "-"%char ∨ c = "_"%char ∨ c = "."%char ∨ c = "~"%char).

(** What [url.PathEscape] leaves as it is. *)
Definition plain_in_path c : bool :=
  unreserved c || bool_decide (c ∈ ["$"; "&"; "+"; ":"; "="; "@"]%char).

Fixpoint PathEscape s : string :=
  match s with
  | EmptyString => ""
  | String c s => (if plain_in_path c then String c "" else percent c) +:+ PathEscape s
  end.

(** [url.PathUnescape], which refuses a [%] without two hexadecimal digits. *)
Fixpoint PathUnescape s : option string :=
  match s with
  | EmptyString => Some ""
  | String c t =>
      if decide (c = "%"%char) then
        match t with
        | String a (String b u) =>
            match hex_value a, hex_value b with
            | Some x, Some y => String (z_byte (16 * x + y)) <$> PathUnescape u
            | _, _ => None
            end
        | _ => None
        end
      else String c <$> PathUnescape t
  end.

Lemma upper_hex_value z : (0 ≤ z < 16)%Z → hex_value (upper_hex z) = Some z.
Proof.
  intros Hz. unfold hex_value, upper_hex. cbv zeta. destruct (z <? 10)%Z eqn:E; rewrite byte_z_byte by lia; unfold in_range;
    repeat case_match; try (f_equal; lia); lia.
Qed.

Lemma PathUnescape_PathEscape s : PathUnescape (PathEscape s) = Some s.
Proof.
  induction s as [|c s IH]; [done|]. simpl. destruct (plain_in_path c) eqn:Hp.
  - rewrite sapp_cons, sapp_nil_l. simpl. rewrite decide_False by (by intros ->). by rewrite IH.
  - unfold percent. rewrite !sapp_cons, sapp_nil_l. cbn [PathUnescape].
    rewrite decide_True by done. pose proof (byte_z_range c).
    rewrite !upper_hex_value by (Z.to_euclidean_division_equations; lia).
    rewrite IH. simpl. rewrite <- Z_div_mod_eq_full. by rewrite z_byte_z.
Qed.

(** An escaped segment holds no separator, and is empty or a dot segment only
    when the segment is. *)
Lemma PathEscape_no_slash s : has_byte "/" (PathEscape s) = false.
Proof.
  induction s as [|c s IH]; [done|]. simpl. rewrite has_byte_app, IH, orb_false_r.
  destruct (plain_in_path c) eqn:Hp; simpl.
  - rewrite orb_false_r. apply bool_decide_eq_false. by intros ->.
  - assert (Hx : ∀ z, (0 ≤ z < 16)%Z → bool_decide (upper_hex z = "/"%char) = false).
    { intros z Hz. apply bool_decide_eq_false. intros E.
      pose proof (upper_hex_value z Hz) as Hv. by rewrite E in Hv. }
    pose proof (byte_z_range c).
    by rewrite !Hx by (Z.to_euclidean_division_equations; lia).
Qed.

Lemma PathEscape_inj s t : PathEscape s = PathEscape t → s = t.
Proof.
  intros E. pose proof (PathUnescape_PathEscape s) as Hs. rewrite E, PathUnescape_PathEscape in Hs.
  by injection Hs.
Qed.
