(* ===== verification/GoUnicode.v ===== *)
(** * Runes: [strings.TrimSpace], [strings.ToLower], [strings.EqualFold]

    [TrimSpace] is exact: Unicode has twenty-five white-space runes and each is
    recognised by its UTF-8 encoding at either end of the string.  [ToLower]
    decodes UTF-8, maps every rune and encodes the result, as [strings.Map]
    does; the case table outside ASCII is data of Go's [unicode] package and
    stays the parameter [Unicode], and so is [strconv.IsPrint] there, which [%q] consults. *)

From S2P Require Import Prelude GoText.

Implicit Types (c d : ascii) (s t u p : string).

(** ** White space *)

Definition space1 (a : Z) : bool := in_range 9 13 a || (a =? 32)%Z.

(** U+0085 and U+00A0 *)
Definition space2 (a b : Z) : bool := ((a =? 194) && ((b =? 133) || (b =? 160)))%Z.

(** U+1680, U+2000 to U+200A, U+2028, U+2029, U+202F, U+205F and U+3000 *)
Definition space3 (a b c : Z) : bool :=
  ((a =? 225) && (b =? 154) && (c =? 128))%Z
  || ((a =? 226) && (b =? 128) &&
      (in_range 128 138 c || (c =? 168) || (c =? 169) || (c =? 175)))%Z
  || ((a =? 226) && (b =? 129) && (c =? 159))%Z
  || ((a =? 227) && (b =? 128) && (c =? 128))%Z.

Section trim.
Context (sp2 : Z → Z → bool) (sp3 : Z → Z → Z → bool).

(** Drop the white-space runes a string starts with. *)
Fixpoint trim_with s : string :=
  match s with
  | EmptyString => s
  | String c s1 =>
      if space1 (byte_z c) then trim_with s1
      else match s1 with
      | EmptyString => s
      | String d s2 =>
          if sp2 (byte_z c) (byte_z d) then trim_with s2
          else match s2 with
          | EmptyString => s
          | String e s3 =>
              if sp3 (byte_z c) (byte_z d) (byte_z e) then trim_with s3 else s
          end
      end
  end.

Definition head_space s : bool :=
  match s with
  | EmptyString => false
  | String c s1 =>
      space1 (byte_z c) ||
      match s1 with
      | EmptyString => false
      | String d s2 =>
          sp2 (byte_z c) (byte_z d) ||
          match s2 with
          | EmptyString => false
          | String e _ => sp3 (byte_z c) (byte_z d) (byte_z e)
          end
      end
  end.

Lemma trim_with_fixed s : head_space s = false → trim_with s = s.
Proof.
  destruct s as [|c [|d [|e s]]]; simpl; intros H; break; [done|..].
  - by rewrite H.
  - by rewrite H, H0.
  - by rewrite H, H0, H1.
Qed.

Lemma trim_with_head s : head_space (trim_with s) = false.
Proof.
  remember (String.length s) as n eqn:Hn. revert s Hn.
  induction n as [n IH] using lt_wf_ind. intros s ->.
  destruct s as [|c s1]; [done|]; simpl.
  destruct (space1 (byte_z c)) eqn:E1; [eapply IH; [|done]; simpl; lia|].
  destruct s1 as [|d s2]; [by simpl; rewrite E1|].
  destruct (sp2 _ _) eqn:E2; [eapply IH; [|done]; simpl; lia|].
  destruct s2 as [|e s3]; [by simpl; rewrite E1, E2|].
  destruct (sp3 _ _ _) eqn:E3; [eapply IH; [|done]; simpl; lia|].
  simpl. by rewrite E1, E2, E3.
Qed.

Lemma trim_with_idem s : trim_with (trim_with s) = trim_with s.
Proof. apply trim_with_fixed, trim_with_head. Qed.

Lemma trim_with_suffix s : ∃ u, s = u +:+ trim_with s.
Proof.
  remember (String.length s) as n eqn:Hn. revert s Hn.
  induction n as [n IH] using lt_wf_ind. intros s ->.
  destruct s as [|c s1]; [by exists ""|]; simpl.
  destruct (space1 (byte_z c)).
  { destruct (IH (String.length s1)) with (s := s1) as [u Hu]; [simpl; lia|done|].
    exists (String c u). by rewrite sapp_cons, <- Hu. }
  destruct s1 as [|d s2]; [by exists ""|].
  destruct (sp2 _ _).
  { destruct (IH (String.length s2)) with (s := s2) as [u Hu]; [simpl; lia|done|].
    exists (String c (String d u)). by rewrite !sapp_cons, <- Hu. }
  destruct s2 as [|e s3]; [by exists ""|].
  destruct (sp3 _ _ _); [|by exists ""].
  destruct (IH (String.length s3)) with (s := s3) as [u Hu]; [simpl; lia|done|].
  exists (String c (String d (String e u))). by rewrite !sapp_cons, <- Hu.
Qed.

Lemma head_space_app p s : head_space p = true → head_space (p +:+ s) = true.
Proof.
  destruct p as [|c [|d [|e p]]]; [done|..]; rewrite ?sapp_cons; simpl.
  - rewrite orb_false_r. by intros ->.
  - rewrite orb_false_r, !orb_true_iff. intuition auto.
  - done.
Qed.
End trim.

Definition trim_left s : string := trim_with space2 space3 s.
Definition trim_right s : string :=
  rev_string (trim_with (λ a b, space2 b a) (λ a b e, space3 e b a) (rev_string s)).

(** [strings.TrimSpace] *)
Definition TrimSpace s : string := trim_right (trim_left s).

Lemma trim_right_prefix s : ∃ u, s = trim_right s +:+ u.
Proof.
  unfold trim_right.
  destruct (trim_with_suffix (λ a b, space2 b a) (λ a b e, space3 e b a) (rev_string s))
    as [u Hu].
  exists (rev_string u).
  rewrite <- (rev_string_involutive s) at 1. rewrite Hu at 1.
  by rewrite rev_string_app.
Qed.

Lemma TrimSpace_idem s : TrimSpace (TrimSpace s) = TrimSpace s.
Proof.
  unfold TrimSpace. set (u := trim_left s).
  assert (Hu : head_space space2 space3 u = false) by apply trim_with_head.
  assert (Hv : trim_left (trim_right u) = trim_right u).
  { apply trim_with_fixed. destruct (trim_right_prefix u) as [x Hx].
    destruct (head_space _ _ (trim_right u)) eqn:E; [|done].
    apply (head_space_app _ _ _ x) in E. rewrite <- Hx in E. congruence. }
  rewrite Hv. unfold trim_right. by rewrite rev_string_involutive, trim_with_idem.
Qed.

(** A visible ASCII byte is no part of any white-space rune. *)
Definition visible c : bool := in_range 33 127 (byte_z c).

Lemma all_visible_rev s : all_bytes visible s = true → all_bytes visible (rev_string s) = true.
Proof.
  induction s as [|c s IH]; [done|]. simpl. intros H. break.
  rewrite rev_string_cons, all_bytes_app, IH by done. simpl. by rewrite H.
Qed.

Ltac byte_bool :=
  unfold visible, space1, space2, space3, in_range in *; lia.

Lemma visible_trim_with sp2 sp3 s :
  (∀ a b, in_range 33 127 a = true → sp2 a b = false) →
  (∀ a b e, in_range 33 127 a = true → sp3 a b e = false) →
  all_bytes visible s = true → trim_with sp2 sp3 s = s.
Proof.
  intros H2 H3 Hs. apply trim_with_fixed.
  destruct s as [|c [|d [|e s]]]; [done|..]; simpl in *; break; unfold visible in *;
    rewrite ?H2, ?H3, ?orb_false_r by done; byte_bool.
Qed.

Lemma TrimSpace_visible s : all_bytes visible s = true → TrimSpace s = s.
Proof.
  intros Hs. unfold TrimSpace, trim_left, trim_right.
  rewrite (visible_trim_with _ _ s); [|intros; byte_bool..|done].
  rewrite (visible_trim_with _ _ (rev_string s)); [|intros; byte_bool..|].
  - apply rev_string_involutive.
  - by apply all_visible_rev.
Qed.

(** The result of trimming is empty or starts with a byte that is no space. *)
Lemma TrimSpace_prefix s : ∃ u v, s = u +:+ TrimSpace s +:+ v.
Proof.
  unfold TrimSpace. destruct (trim_with_suffix space2 space3 s) as [u Hu].
  destruct (trim_right_prefix (trim_left s)) as [v Hv].
  exists u, v. rewrite <- Hv. done.
Qed.

(** ** UTF-8 *)

(** One step of Go's [range] over a string: a rune, or one byte that starts no
    valid encoding ([utf8.RuneError] of width one). *)
Inductive rune := Rune (r : Z) | BadByte.

Definition cont (b : Z) : bool := in_range 128 191 b.
Definition second3 (a b : Z) : bool :=
  ((a =? 224)%Z && in_range 160 191 b)
  || ((in_range 225 236 a || in_range 238 239 a) && cont b)
  || ((a =? 237)%Z && in_range 128 159 b).
Definition second4 (a b : Z) : bool :=
  ((a =? 240)%Z && in_range 144 191 b)
  || (in_range 241 243 a && cont b)
  || ((a =? 244)%Z && in_range 128 143 b).

Definition decode_rune s : option (rune * string) :=
  match s with
  | EmptyString => None
  | String c0 s1 =>
      let a := byte_z c0 in
      if (a <? 128)%Z then Some (Rune a, s1)
      else match s1 with
      | EmptyString => Some (BadByte, s1)
      | String c1 s2 =>
          let b := byte_z c1 in
          if in_range 194 223 a && cont b
          then Some (Rune ((a - 192) * 64 + (b - 128))%Z, s2)
          else match s2 with
          | EmptyString => Some (BadByte, s1)
          | String c2 s3 =>
              let c := byte_z c2 in
              if second3 a b && cont c
              then Some (Rune (((a - 224) * 64 + (b - 128)) * 64 + (c - 128))%Z, s3)
              else match s3 with
              | EmptyString => Some (BadByte, s1)
              | String c3 s4 =>
                  let d := byte_z c3 in
                  if second4 a b && cont c && cont d
                  then Some (Rune ((((a - 240) * 64 + (b - 128)) * 64 + (c - 128)) * 64
                                   + (d - 128))%Z, s4)
                  else Some (BadByte, s1)
              end
          end
      end
  end.

Definition RuneError : Z := 65533.

(** [utf8.AppendRune] *)
Definition encode_rune (r : Z) : string :=
  let r := if ((r <? 0) || (1114111 <? r) || in_range 55296 57343 r)%Z
           then RuneError else r in
  let tail k := z_byte (128 + (r / 2 ^ k) mod 64)%Z in
  if (r <? 128)%Z then String (z_byte r) ""
  else if (r <? 2048)%Z then String (z_byte (192 + r / 64)) (String (tail 0%Z) "")
  else if (r <? 65536)%Z then
    String (z_byte (224 + r / 4096)) (String (tail 6%Z) (String (tail 0%Z) ""))
  else String (z_byte (240 + r / 262144))
         (String (tail 12%Z) (String (tail 6%Z) (String (tail 0%Z) ""))).

Lemma decode_rune_shorter s r t :
  decode_rune s = Some (r, t) → String.length t < String.length s.
Proof.
  unfold decode_rune. destruct s as [|c0 [|c1 [|c2 [|c3 s]]]]; [done|..];
    repeat case_match; intros [= <- <-]; simpl; lia.
Qed.

(** ** Letter case *)

(** The case table and the printable runes outside ASCII. *)
Class Unicode := {
  unicode_lower : Z → Z;
  unicode_print : Z → bool;
}.

Definition ascii_lower c : ascii :=
  if is_upper_ascii c then z_byte (byte_z c + 32) else c.

Section lower.
Context `{Unicode}.

(** [unicode.ToLower] *)
Definition lower_rune (r : Z) : Z :=
  if (r <? 128)%Z then (if in_range 65 90 r then r + 32 else r)%Z else unicode_lower r.

Definition lower_item (r : rune) : string :=
  let m := lower_rune (match r with Rune r => r | BadByte => RuneError end) in
  if (m <? 0)%Z then "" else encode_rune m.

Fixpoint lower_go (fuel : nat) s : string :=
  match fuel, decode_rune s with
  | S fuel, Some (r, t) => lower_item r +:+ lower_go fuel t
  | _, _ => ""
  end.

(** [strings.ToLower]; every rune consumes at least one byte, so the length
    of the string is fuel enough. *)
Definition ToLower s : string := lower_go (String.length s) s.

Lemma lower_go_enough n m s :
  String.length s ≤ n → String.length s ≤ m → lower_go n s = lower_go m s.
Proof.
  revert m s. induction n as [|n IH]; intros m s Hn Hm.
  - destruct s; [|simpl in Hn; lia]. by destruct m.
  - destruct m as [|m]; [destruct s; [done|simpl in Hm; lia]|]. simpl.
    destruct (decode_rune s) as [[r t]|] eqn:E; [|done].
    apply decode_rune_shorter in E. f_equal. apply IH; lia.
Qed.

Lemma ToLower_step s r t :
  decode_rune s = Some (r, t) → ToLower s = lower_item r +:+ ToLower t.
Proof.
  intros E. unfold ToLower. destruct s as [|c s]; [done|].
  cbn [String.length lower_go]. rewrite E. f_equal.
  apply decode_rune_shorter in E. simpl in E. apply lower_go_enough; lia.
Qed.

Lemma ToLower_ascii_cons c s :
  is_ascii c = true → ToLower (String c s) = String (ascii_lower c) (ToLower s).
Proof.
  intros Hc. rewrite (ToLower_step _ (Rune (byte_z c)) s).
  - unfold lower_item, lower_rune. unfold is_ascii in Hc. rewrite Hc.
    unfold ascii_lower, is_upper_ascii. pose proof (byte_z_range c).
    destruct (in_range 65 90 (byte_z c)) eqn:E.
    + unfold encode_rune, in_range in *.
      repeat (case_match; [try lia|]); repeat case_match; try lia; done.
    + unfold encode_rune, in_range.
      repeat (case_match; [try lia|]); repeat case_match; try lia.
      by rewrite z_byte_z.
  - simpl. unfold is_ascii in Hc. by rewrite Hc.
Qed.

(** On ASCII strings, lower-casing is byte by byte. *)
Lemma ToLower_ascii s :
  all_bytes is_ascii s = true → ToLower s = map_bytes ascii_lower s.
Proof.
  induction s as [|c s IH]; [done|]. simpl. intros H0. break.
  by rewrite ToLower_ascii_cons, IH.
Qed.
End lower.

(** [strings.EqualFold(s, t)] for a [t] of ASCII letters other than k and s,
    the only letters with a case variant outside ASCII. *)
Definition EqualFold s t : bool :=
  bool_decide (map_bytes ascii_lower s = map_bytes ascii_lower t).

(** ** [strconv.Quote], the verb [%q] *)

Definition hex_digit (z : Z) : ascii :=
  z_byte (if (z <? 10)%Z then 48 + z else 87 + z).

(** [n] lower-case hexadecimal digits of [z]. *)
Fixpoint hex_digits (n : nat) (z : Z) : string :=
  match n with
  | O => ""
  | S n => hex_digits n (z / 16) +:+ String (hex_digit (z mod 16)) ""
  end.

Section quote.
Context `{Unicode}.

Definition is_print (r : Z) : bool :=
  if (r <? 128)%Z then in_range 32 126 r else unicode_print r.

Definition escape_rune (r : Z) : string :=
  let backslash t := String "\"%char t in
  if ((r =? 34) || (r =? 92))%Z then backslash (String (z_byte r) "")
  else if is_print r then encode_rune r
  else if (r =? 7)%Z then backslash "a"
  else if (r =? 8)%Z then backslash "b"
  else if (r =? 12)%Z then backslash "f"
  else if (r =? 10)%Z then backslash "n"
  else if (r =? 13)%Z then backslash "r"
  else if (r =? 9)%Z then backslash "t"
  else if (r =? 11)%Z then backslash "v"
  else if ((r <? 32) || (r =? 127))%Z then backslash (String "x" (hex_digits 2 r))
  else if (r <? 65536)%Z then backslash (String "u" (hex_digits 4 r))
  else backslash (String "U" (hex_digits 8 r)).

Fixpoint quote_go (fuel : nat) s : string :=
  match fuel, decode_rune s with
  | S fuel, Some (Rune r, t) => escape_rune r +:+ quote_go fuel t
  | S fuel, Some (BadByte, t) =>
      match s with
      | String c _ => String "\"%char (String "x" (hex_digits 2 (byte_z c)))
      | EmptyString => ""
      end +:+ quote_go fuel t
  | _, _ => ""
  end.

Lemma quote_go_enough n m s :
  String.length s ≤ n → String.length s ≤ m → quote_go n s = quote_go m s.
Proof.
  revert m s. induction n as [|n IH]; intros m s Hn Hm.
  - destruct s; [|simpl in Hn; lia]. by destruct m.
  - destruct m as [|m]; [destruct s; [done|simpl in Hm; lia]|]. simpl.
    destruct (decode_rune s) as [[r t]|] eqn:E; [|done].
    apply decode_rune_shorter in E. destruct r; f_equal; apply IH; lia.
Qed.

(** [%q]; the length of the string is fuel enough. *)
Definition Quote s : string :=
  String "034" (quote_go (String.length s) s) +:+ String "034" "".
End quote.

(** The runes outside ASCII without case and none printable: a concrete table
    for evaluating the development on ASCII inputs. *)
Definition ascii_unicode : Unicode :=
  {| unicode_lower := id; unicode_print := λ _, false |}.
