(* ===== verification/GoEff.v ===== *)
(** * Effects

    Errors are values, as in Go: sentinels compared by [errors.Is], wrapped
    texts, and errors that come from outside the program.  An effectful
    function is a state transformer that also draws from the environment: the
    clock, [uuid.NewString], [crypto/rand] and the outcome of every SQL
    statement.  The environment is the class [Oracle]; each draw consumes one
    index, so a theorem that holds for every oracle and every index holds for
    every behaviour of the environment. *)

From stdpp Require Import pretty.
From S2P Require Import Prelude GoText.

(** ** Errors *)

(** The sentinels of the packages [store], [auth], [wa] and [httpapi], and the
    three download failures of whatsmeow that [wa] compares against. *)
Inductive sentinel :=
  | ErrNotFound
  | ErrKeyNotFound
  | ErrInvalidTenantID
  | ErrNotPaired
  | ErrUnknownTenant
  | ErrInvalidJID
  | ErrNoAnchorMessage
  | ErrSyncInProgress
  | ErrSyncTimeout
  | ErrUnknownMessage
  | ErrNoMedia
  | ErrMediaUnavailable
  | ErrMediaTooLarge
  | ErrMediaTypeNotAllowed
  | ErrUnsafeMediaPath
  | ErrEmptyBody
  | ErrMediaDownloadFailedWith403
  | ErrMediaDownloadFailedWith404
  | ErrMediaDownloadFailedWith410.

#[export] Instance sentinel_eq_dec : EqDecision sentinel.
Proof. solve_decision. Defined.

Inductive error :=
  | Sentinel (s : sentinel)
  | New (text : string)                 (* errors.New, or fmt.Errorf without %w *)
  | External (text : string)            (* the driver, the network, the file system *)
  | Wrap (text : string) (e : error).   (* fmt.Errorf("text: %w", e) *)

(** [errors.Is] *)
Fixpoint errors_Is (e : error) (s : sentinel) : bool :=
  match e with
  | Sentinel s' => bool_decide (s' = s)
  | New _ | External _ => false
  | Wrap _ e => errors_Is e s
  end.

Inductive result (A : Type) :=
  | Ok (a : A)
  | Err (e : error).
Arguments Ok {A} a.
Arguments Err {A} e.

Definition is_Ok {A} (r : result A) : bool := if r is Ok _ then true else false.

(** [if err != nil { return wrap(err) }] *)
Definition map_err {A} (f : error → error) (r : result A) : result A :=
  match r with Ok a => Ok a | Err e => Err (f e) end.

(** ** The environment *)

Class Oracle := {
  (** the error of the n-th SQL operation, if it fails *)
  o_sql : nat → option string;
  (** the text of the driver's error for a violated constraint *)
  o_constraint : nat → string;
  (** [time.Now], in nanoseconds of the Unix epoch *)
  o_now : nat → Z;
  (** [uuid.NewString] *)
  o_uuid : nat → string;
  (** [rand.Read] into a buffer of thirty-two bytes *)
  o_rand : nat → result (list Z);
}.

Definition eff (St A : Type) : Type := nat → St → A * nat * St.

Definition ret {St A} (a : A) : eff St A := λ n s, (a, n, s).
Definition bind {St A B} (m : eff St A) (k : A → eff St B) : eff St B :=
  λ n s, let '(a, n', s') := m n s in k a n' s'.
Definition draw {St A} (f : nat → A) : eff St A := λ n s, (f n, S n, s).
Definition get {St} : eff St St := λ n s, (s, n, s).
Definition put {St} (s : St) : eff St () := λ n _, ((), n, s).

(** The three parts of a run. *)
Definition answer {St A} (m : eff St A) (n : nat) (s : St) : A := (m n s).1.1.
Definition next {St A} (m : eff St A) (n : nat) (s : St) : nat := (m n s).1.2.
Definition final {St A} (m : eff St A) (n : nat) (s : St) : St := (m n s).2.

(** A computation on one component of a larger state. *)
Definition zoom {S T A} (get : T → S) (set : S → T → T) (m : eff S A) : eff T A :=
  λ n t, let '(a, n', s') := m n (get t) in (a, n', set s' t).

Notation "'let!' x ':=' m 'in' k" := (bind m (λ x, k))
  (at level 10, x binder, m at level 100, k at level 200) : go_scope.

(** [x, err := m; if err != nil { return ..., err }] *)
Definition try {St A B} (m : eff St (result A)) (w : error → error)
    (k : A → eff St (result B)) : eff St (result B) :=
  bind m (λ r, match r with Ok a => k a | Err e => ret (Err (w e)) end).

Notation "'try!' x ':=' m 'in' k" := (try m id (λ x, k))
  (at level 10, x binder, m at level 100, k at level 200) : go_scope.
Notation "'try!' x ':=' m 'or' w 'in' k" := (try m w (λ x, k))
  (at level 10, x binder, m at level 100, w at level 100, k at level 200) : go_scope.

(** ** SQL statements

    A statement that fails changes nothing; one that runs may still be refused
    by a constraint, which is the answer [None].  The order of the draws is the order of the statements. *)
Section sql.
Context `{Oracle} {St : Type}.

(** [ExecContext]: the statement reports the rows it affected. *)
Definition exec {A} (stmt : St → option (A * St)) : eff St (result A) := λ n s,
  match o_sql n with
  | Some text => (Err (External text), S n, s)
  | None => match stmt s with
            | Some (a, s') => (Ok a, S n, s')
            | None => (Err (External (o_constraint n)), S n, s)
            end
  end.

(** [QueryContext], [QueryRowContext] and [Scan] *)
Definition query {A} (q : St → A) : eff St (result A) := λ n s,
  match o_sql n with
  | Some text => (Err (External text), S n, s)
  | None => (Ok (q s), S n, s)
  end.

(** An operation of the driver that touches no row: [BeginTx], [Prepare],
    [RowsAffected], reading the rows of a result. *)
Definition driver : eff St (result ()) := query (λ _, ()).

(** A transaction: the deferred [Rollback] undoes the body unless it ends in
    a successful [Commit]. *)
Definition transaction {A} (begin_err commit_err : error → error)
    (body : eff St (result A)) : eff St (result A) := λ n s,
  match driver n s with
  | (Err e, n1, _) => (Err (begin_err e), n1, s)
  | (Ok _, n1, _) =>
      match body n1 s with
      | (Err e, n2, _) => (Err e, n2, s)
      | (Ok a, n2, s2) =>
          match driver n2 s2 with
          | (Err e, n3, _) => (Err (commit_err e), n3, s)
          | (Ok _, n3, _) => (Ok a, n3, s2)
          end
      end
  end.

Definition now : eff St Z := draw o_now.
Definition new_id : eff St string := draw o_uuid.
End sql.

(** A database that answers every statement. *)
Definition answering `{Oracle} : Prop := ∀ n, o_sql n = None.

(** ** How a computation moves the state *)

Definition evolves {St A} (R : relation St) (m : eff St A) : Prop :=
  ∀ n s, R s (final m n s).

Create HintDb evolves discriminated.
#[export] Hint Constants Opaque : evolves.
#[export] Hint Variables Opaque : evolves.

Section evolves.
Context `{Oracle} {St : Type} (R : relation St) `{!PreOrder R}.

Lemma evolves_ret {A} (a : A) : evolves R (ret a).
Proof. intros n s. apply (reflexivity (R := R)). Qed.

Lemma evolves_draw {A} (f : nat → A) : evolves R (draw f).
Proof. intros n s. apply (reflexivity (R := R)). Qed.

Lemma evolves_get : evolves R get.
Proof. intros n s. apply (reflexivity (R := R)). Qed.

Lemma evolves_bind {A B} (m : eff St A) (k : A → eff St B) :
  evolves R m → (∀ a, evolves R (k a)) → evolves R (bind m k).
Proof.
  intros Hm Hk n s. specialize (Hm n s). unfold final, bind in *.
  destruct (m n s) as [[a n'] s']. simpl in *.
  etrans; [exact Hm|]. apply (Hk a n' s').
Qed.

Lemma evolves_try {A B} (m : eff St (result A)) w (k : A → eff St (result B)) :
  evolves R m → (∀ a, evolves R (k a)) → evolves R (try m w k).
Proof.
  intros Hm Hk. apply evolves_bind; [done|]. intros [a|e]; [apply Hk|apply evolves_ret].
Qed.

Lemma evolves_exec {A} (stmt : St → option (A * St)) :
  (∀ s a s', stmt s = Some (a, s') → R s s') → evolves R (exec stmt).
Proof.
  intros Hs n s. unfold final, exec. destruct (o_sql n); [apply (reflexivity (R := R))|].
  destruct (stmt s) as [[a s']|] eqn:E; [by eapply Hs|apply (reflexivity (R := R))].
Qed.

Lemma evolves_query {A} (q : St → A) : evolves R (query q).
Proof.
  intros n s. unfold final, query. destruct (o_sql n); apply (reflexivity (R := R)).
Qed.

Lemma evolves_driver : evolves R driver.
Proof. apply evolves_query. Qed.

Lemma evolves_transaction {A} b c (body : eff St (result A)) :
  evolves R body → evolves R (transaction b c body).
Proof.
  intros Hb n s. unfold final, transaction.
  destruct (driver n s) as [[[u|e] n1] s1]; [|apply (reflexivity (R := R))].
  specialize (Hb n1 s). unfold final in Hb.
  destruct (body n1 s) as [[[a|e] n2] s2]; [|apply (reflexivity (R := R))].
  destruct (driver n2 s2) as [[[?|?] n3] s3]; [exact Hb|apply (reflexivity (R := R))].
Qed.

Lemma evolves_if {A} (b : bool) (m1 m2 : eff St A) :
  evolves R m1 → evolves R m2 → evolves R (if b then m1 else m2).
Proof. by destruct b. Qed.

Lemma evolves_now : evolves R now.
Proof. apply evolves_draw. Qed.

Lemma evolves_new_id : evolves R new_id.
Proof. apply evolves_draw. Qed.
End evolves.

#[export] Hint Resolve evolves_ret evolves_draw evolves_get evolves_bind evolves_try
  evolves_query evolves_driver evolves_transaction evolves_if evolves_now
  evolves_new_id : evolves.
#[export] Hint Extern 0 (PreOrder _) => typeclasses eauto : evolves.

(** What every answer of a computation satisfies. *)
Definition answers {St A} (P : A → Prop) (m : eff St A) : Prop := ∀ n s, P (answer m n s).

Lemma evolves_bind_answers {St A B} (R : relation St) `{!PreOrder R} (P : A → Prop)
    (m : eff St A) (k : A → eff St B) :
  evolves R m → answers P m → (∀ a, P a → evolves R (k a)) → evolves R (bind m k).
Proof.
  intros Hm HP Hk n s. specialize (Hm n s). specialize (HP n s). unfold final, answer, bind in *.
  destruct (m n s) as [[a n'] s']. simpl in *. etrans; [exact Hm|]. by apply (Hk a HP n' s').
Qed.

Lemma answers_bind {St A B} (P : A → Prop) (Q : B → Prop) (m : eff St A) (k : A → eff St B) :
  answers P m → (∀ a, P a → answers Q (k a)) → answers Q (bind m k).
Proof.
  intros HP Hk n s. specialize (HP n s). unfold answer, bind in *.
  destruct (m n s) as [[a n'] s']. simpl in *. apply (Hk a HP n' s').
Qed.

Lemma answers_ret {St A} (P : A → Prop) (a : A) : P a → answers (St := St) P (ret a).
Proof. by intros Ha n s. Qed.

Lemma answers_any {St A} (m : eff St A) : answers (λ _, True) m.
Proof. done. Qed.

(** Decompose a computation down to its statements. *)
Ltac evolve :=
  repeat match goal with
  | |- PreOrder _ => typeclasses eauto
  | |- evolves _ (bind _ _) => apply evolves_bind; [ | |intros ?]
  | |- evolves _ (try _ _ _) => apply evolves_try; [ | |intros ?]
  | |- evolves _ (transaction _ _ _) => apply evolves_transaction
  | |- evolves _ (exec _) => apply evolves_exec; [ |intros ? ? ? ?]
  | |- evolves _ (match ?x with _ => _ end) => destruct x eqn:?
  | |- evolves _ _ => solve [eauto with evolves]
  end.

(** A read-only computation. *)
Definition reads {St A} (m : eff St A) : Prop := evolves eq m.

(** ** Two runs from states that agree

    [agrees E m]: started from two states related by [E], the computation
    returns the same answer and stays related.  With [E] saying that the two
    states hold the same rows of one tenant, this is tenant isolation. *)
Definition agrees {St A} (E : relation St) (m : eff St A) : Prop :=
  ∀ n s1 s2, E s1 s2 →
    answer m n s1 = answer m n s2 ∧ next m n s1 = next m n s2 ∧
    E (final m n s1) (final m n s2).

Create HintDb agrees discriminated.
#[export] Hint Constants Opaque : agrees.
#[export] Hint Variables Opaque : agrees.

Section agrees.
Context `{Oracle} {St : Type} (E : relation St).

Lemma agrees_ret {A} (a : A) : agrees E (ret a).
Proof. by intros n s1 s2 HE. Qed.

Lemma agrees_draw {A} (f : nat → A) : agrees E (draw f).
Proof. by intros n s1 s2 HE. Qed.

Lemma agrees_bind {A B} (m : eff St A) (k : A → eff St B) :
  agrees E m → (∀ a, agrees E (k a)) → agrees E (bind m k).
Proof.
  intros Hm Hk n s1 s2 HE. destruct (Hm n s1 s2 HE) as (Ha & Hn & HE').
  unfold answer, next, final, bind in *.
  destruct (m n s1) as [[a1 n1] t1], (m n s2) as [[a2 n2] t2]. simpl in *. subst.
  apply (Hk a2 n2 t1 t2 HE').
Qed.

Lemma agrees_try {A B} (m : eff St (result A)) w (k : A → eff St (result B)) :
  agrees E m → (∀ a, agrees E (k a)) → agrees E (try m w k).
Proof.
  intros Hm Hk. apply agrees_bind; [done|]. intros [a|e]; [apply Hk|apply agrees_ret].
Qed.

Lemma agrees_query {A} (q : St → A) :
  (∀ s1 s2, E s1 s2 → q s1 = q s2) → agrees E (query q).
Proof.
  intros Hq n s1 s2 HE. unfold answer, next, final, query.
  destruct (o_sql n); simpl; [done|]. split; [|done]. f_equal. by apply Hq.
Qed.

Lemma agrees_driver : agrees E driver.
Proof. by apply agrees_query. Qed.

Lemma agrees_if {A} (b : bool) (m1 m2 : eff St A) :
  agrees E m1 → agrees E m2 → agrees E (if b then m1 else m2).
Proof. by destruct b. Qed.

Lemma agrees_now : agrees E now.
Proof. apply agrees_draw. Qed.

Lemma agrees_new_id : agrees E new_id.
Proof. apply agrees_draw. Qed.
End agrees.

#[export] Hint Resolve agrees_ret agrees_draw agrees_bind agrees_try agrees_driver
  agrees_if agrees_now agrees_new_id : agrees.

Ltac agree :=
  repeat match goal with
  | |- agrees _ (bind _ _) => apply agrees_bind; [ |intros ?]
  | |- agrees _ (try _ _ _) => apply agrees_try; [ |intros ?]
  | |- agrees _ (query _) => apply agrees_query; intros ? ? ?
  | |- agrees _ (match ?x with _ => _ end) => destruct x eqn:?
  | |- agrees _ _ => solve [eauto with agrees]
  end.

(** ** What a computation answers when it succeeds *)

Definition yields {St A} (P : A → Prop) (m : eff St (result A)) : Prop :=
  ∀ n s a, answer m n s = Ok a → P a.

Section yields.
Context {St : Type}.

Lemma yields_ok {A} (P : A → Prop) (a : A) : P a → yields (St := St) P (ret (Ok a)).
Proof. by intros Ha n s b [= <-]. Qed.

Lemma yields_err {A} (P : A → Prop) e : yields (St := St) P (ret (Err e)).
Proof. done. Qed.

Lemma yields_bind {A B} (P : B → Prop) (m : eff St A) (k : A → eff St (result B)) :
  (∀ a, yields P (k a)) → yields P (bind m k).
Proof.
  intros Hk n s b. unfold answer, bind. destruct (m n s) as [[a n'] s']. apply Hk.
Qed.

Lemma yields_try {A B} (Q : A → Prop) (P : B → Prop) (m : eff St (result A)) w
    (k : A → eff St (result B)) :
  yields Q m → (∀ a, Q a → yields P (k a)) → yields P (try m w k).
Proof.
  intros Hm Hk n s b. specialize (Hm n s). unfold answer, try, bind in *.
  destruct (m n s) as [[[a|e] n'] s']; simpl in *; [|done]. apply Hk. by apply Hm.
Qed.

Lemma evolves_try_yields {A B} (R : relation St) `{!PreOrder R} (Q : A → Prop)
    (m : eff St (result A)) w (k : A → eff St (result B)) :
  evolves R m → yields Q m → (∀ a, Q a → evolves R (k a)) → evolves R (try m w k).
Proof.
  intros Hm HQ Hk n s. specialize (Hm n s). specialize (HQ n s).
  unfold final, answer, try, bind in *.
  destruct (m n s) as [[[a|e] n'] s']; simpl in *; [|done].
  etrans; [exact Hm|]. by apply Hk, HQ.
Qed.
End yields.

(** ** Runs taken apart *)

Section runs.
Context `{Oracle} {St : Type}.

Lemma bind_run {A B} (m : eff St A) (k : A → eff St B) n s a n' s' :
  m n s = (a, n', s') → bind m k n s = k a n' s'.
Proof. unfold bind. by intros ->. Qed.

Lemma bind_run_answer {A B} (m : eff St A) (k : A → eff St B) n s a n' s' :
  m n s = (a, n', s') → answer (bind m k) n s = answer (k a) n' s'.
Proof. intros E. unfold answer. by rewrite (bind_run _ _ _ _ _ _ _ E). Qed.

Lemma bind_run_final {A B} (m : eff St A) (k : A → eff St B) n s a n' s' :
  m n s = (a, n', s') → final (bind m k) n s = final (k a) n' s'.
Proof. intros E. unfold final. by rewrite (bind_run _ _ _ _ _ _ _ E). Qed.

Lemma bind_answer {A B} (m : eff St A) (k : A → eff St B) n s :
  answer (bind m k) n s = answer (k (answer m n s)) (next m n s) (final m n s).
Proof. unfold answer, next, final, bind. by destruct (m n s) as [[a n'] s']. Qed.

Lemma bind_final {A B} (m : eff St A) (k : A → eff St B) n s :
  final (bind m k) n s = final (k (answer m n s)) (next m n s) (final m n s).
Proof. unfold answer, next, final, bind. by destruct (m n s) as [[a n'] s']. Qed.

(** A computation that succeeds went through every step. *)
Lemma try_Ok {A B} (m : eff St (result A)) w (k : A → eff St (result B)) n s b :
  answer (try m w k) n s = Ok b →
  ∃ a n' s', m n s = (Ok a, n', s') ∧ answer (k a) n' s' = Ok b ∧
    final (try m w k) n s = final (k a) n' s'.
Proof.
  unfold answer, final, try, bind. destruct (m n s) as [[[a|e] n'] s']; [|done].
  intros Hb. by exists a, n', s'.
Qed.

Lemma exec_run {A} (stmt : St → option (A * St)) n s :
  (∃ a s', stmt s = Some (a, s') ∧ exec stmt n s = (Ok a, S n, s')) ∨
  (∃ e, exec stmt n s = (Err e, S n, s) ∧ (o_sql n = None → stmt s = None)).
Proof.
  unfold exec. destruct (o_sql n) eqn:Eo; [right; by eexists|].
  destruct (stmt s) as [[a s']|] eqn:E; [left; by eexists _, _|right; by eexists].
Qed.

Lemma exec_Ok {A} (stmt : St → option (A * St)) n s a n' s' :
  exec stmt n s = (Ok a, n', s') → stmt s = Some (a, s') ∧ n' = S n.
Proof.
  destruct (exec_run stmt n s) as [(b & t & Hs & ->)|(e & -> & _)]; [|done].
  by intros [= -> <- ->].
Qed.

Lemma query_run {A} (q : St → A) n s :
  query q n s = (Ok (q s), S n, s) ∨
  ∃ e, query q n s = (Err e, S n, s) ∧ o_sql n ≠ None.
Proof. unfold query. destruct (o_sql n); [right; by eexists|by left]. Qed.

Lemma query_Ok {A} (q : St → A) n s a n' s' :
  query q n s = (Ok a, n', s') → a = q s ∧ s' = s ∧ n' = S n.
Proof. destruct (query_run q n s) as [->|(e & -> & _)]; [|done]. by intros [= <- <- <-]. Qed.

Lemma transaction_Ok {A} b c (body : eff St (result A)) n s a :
  answer (transaction b c body) n s = Ok a →
  ∃ n' n'' s', body n' s = (Ok a, n'', s') ∧ final (transaction b c body) n s = s'.
Proof.
  unfold answer, final, transaction.
  destruct (driver n s) as [[[u|e] n1] s1]; [|done].
  destruct (body n1 s) as [[[x|e] n2] s2] eqn:E; [|done].
  destruct (driver n2 s2) as [[[v|e] n3] s3]; [|done]. simpl. intros [= ->]. eauto 6.
Qed.

Lemma transaction_Err {A} b c (body : eff St (result A)) n s e :
  answer (transaction b c body) n s = Err e → final (transaction b c body) n s = s.
Proof.
  unfold answer, final, transaction.
  destruct (driver n s) as [[[u|e'] n1] s1]; [|done].
  destruct (body n1 s) as [[[x|e'] n2] s2] eqn:E; [|done].
  by destruct (driver n2 s2) as [[[v|e'] n3] s3].
Qed.
End runs.

(** Replace the first computation of a [bind] by what it runs to. *)
Ltac run_with E :=
  rewrite (bind_run_answer _ _ _ _ _ _ _ E), (bind_run_final _ _ _ _ _ _ _ E).

(** ** Lifting along a component *)

Lemma evolves_zoom {S T A} (RS : relation S) (RT : relation T) get set (m : eff S A) :
  evolves RS m → (∀ t s', RS (get t) s' → RT t (set s' t)) →
  evolves RT (zoom get set m).
Proof.
  intros Hm HR n t. specialize (Hm n (get t)). unfold final, zoom in *.
  destruct (m n (get t)) as [[a n'] s']. by apply HR.
Qed.

(** Running an effect step by step on concrete or symbolic oracles. *)
Ltac run :=
  unfold transaction, driver, now, new_id in *;
  unfold answer, next, final, try, bind, ret, exec, query, draw, get, put in *;
  simpl in *.

(** An environment without faults: distinct identifiers, an advancing clock. *)
Definition quiet_oracle (rand : result (list Z)) : Oracle :=
  {| o_sql := λ _, None; o_constraint := λ _, "constraint failed"; o_now := λ n, Z.of_nat n;
     o_uuid := λ n, "id-" +:+ pretty n; o_rand := λ _, rand |}.
