(* ===== verification/Scope.v ===== *)
(** * Scopes ([internal/auth/scope.go])

    The grant language of tenant keys: exact scopes, resource wildcards and
    the global wildcard; the storage form the [api_keys.scopes] column holds;
    and the validation that guards key creation. *)

From S2P Require Import Prelude GoText GoUnicode GoEff.

Implicit Types (s t g r a required raw : string) (granted scopes : list string).

(** ** Vocabulary *)

Definition ScopeMessagesSend := "messages:send".
Definition ScopeMessagesRead := "messages:read".
Definition ScopeMediaRead := "media:read".
Definition ScopeMediaWrite := "media:write".
Definition ScopeSessionsRead := "sessions:read".

Definition Wildcard := "*".

Definition knownScopes : gmap string (gset string) :=
  {[ "messages" := {[ "send"; "read" ]};
     "media" := {[ "read"; "write" ]};
     "sessions" := {[ "read" ]} ]}.

Definition AllScopes : list string :=
  [ScopeMessagesSend; ScopeMessagesRead; ScopeMediaRead; ScopeMediaWrite;
   ScopeSessionsRead].

(** ** Operations *)

Definition splitScope s : option (string * string) :=
  match cut ":" s with
  | Some (resource, action) =>
      if decide (resource = "" ∨ action = "") then None else Some (resource, action)
  | None => None
  end.

(** The loop of [HasScope] over the granted scopes. *)
Fixpoint grants_any required resource granted : bool :=
  match granted with
  | [] => false
  | g :: granted =>
      let g := TrimSpace g in
      if decide (g = "") then grants_any required resource granted
      else if decide (g = Wildcard ∨ g = required) then true
      else match splitScope g with
           | None => grants_any required resource granted
           | Some (resource', action) =>
               if decide (action = Wildcard ∧ resource' = resource) then true
               else grants_any required resource granted
           end
  end.

Definition HasScope granted required : bool :=
  let required := TrimSpace required in
  if decide (required = "") then false
  else if contains Wildcard required then false
  else match splitScope required with
       | None => false
       | Some (resource, _) => grants_any required resource granted
       end.

(** The loop of [ParseScopes]: [seen] is the map of the parts already kept. *)
Fixpoint parse_parts (seen : gset string) (parts : list string) : list string :=
  match parts with
  | [] => []
  | part :: parts =>
      let part := TrimSpace part in
      if decide (part = "" ∨ part ∈ seen) then parse_parts seen parts
      else part :: parse_parts ({[part]} ∪ seen) parts
  end.

Definition ParseScopes raw : list string := parse_parts ∅ (split_on "," raw).

Definition FormatScopes scopes : string :=
  join_with "," (filter (λ s, s ≠ "") (TrimSpace <$> scopes)).

Section validate.
Context `{Unicode}.

Fixpoint ValidateScopes scopes : result () :=
  match scopes with
  | [] => Ok ()
  | s :: scopes =>
      let s := TrimSpace s in
      if decide (s = "" ∨ s = Wildcard) then ValidateScopes scopes
      else match splitScope s with
      | None => Err (New ("auth: malformed scope " +:+ Quote s))
      | Some (resource, action) =>
          match knownScopes !! resource with
          | None => Err (New ("auth: unknown scope resource " +:+ Quote resource))
          | Some actions =>
              if decide (action = Wildcard) then ValidateScopes scopes
              else if decide (action ∈ actions) then ValidateScopes scopes
              else Err (New ("auth: unknown scope action " +:+ Quote action
                             +:+ " for resource " +:+ Quote resource))
          end
      end
  end.
End validate.

(** ** What a scope means *)

(** The abstract specification: a grant covers [resource:action] when it is
    the global wildcard, the scope itself or the wildcard of its resource. *)
Definition covers g r a : Prop :=
  g = "*" ∨ g = r +:+ ":" +:+ a ∨ g = r +:+ ":*".

Lemma splitScope_Some s r a :
  splitScope s = Some (r, a) ↔
  s = r +:+ ":" +:+ a ∧ r ≠ "" ∧ a ≠ "" ∧ has_byte ":" r = false.
Proof.
  unfold splitScope. split.
  - destruct (cut ":" s) as [[r' a']|] eqn:E; [|done]. case_decide; [done|].
    intros [= <- <-]. apply cut_Some in E as [-> Hr]. naive_solver.
  - intros (-> & Hr & Ha & Hc).
    assert (E : cut ":" (r +:+ ":" +:+ a) = Some (r, a)) by (by apply cut_app).
    rewrite E. rewrite decide_False; [done|naive_solver].
Qed.

(** The tokens the grant loop looks at: trimmed and not empty. *)
Definition tokens scopes : list string := filter (λ s, s ≠ "") (TrimSpace <$> scopes).

Lemma elem_of_tokens t scopes :
  t ∈ tokens scopes ↔ t ≠ "" ∧ ∃ s, s ∈ scopes ∧ t = TrimSpace s.
Proof.
  unfold tokens. rewrite list_elem_of_filter, list_elem_of_fmap. naive_solver.
Qed.

Lemma grants_any_spec required r a granted :
  splitScope required = Some (r, a) →
  grants_any required r granted = true ↔ ∃ g, g ∈ tokens granted ∧ covers g r a.
Proof.
  intros Hreq. pose proof Hreq as (Hreq' & Hr & Ha & Hc)%splitScope_Some.
  induction granted as [|g granted IH]; simpl.
  { split; [done|]. by intros (g & Hg%elem_of_tokens & _); set_solver. }
  assert (Hcons : ∀ P : string → Prop, (∃ t, t ∈ tokens (g :: granted) ∧ P t) ↔
            (TrimSpace g ≠ "" ∧ P (TrimSpace g)) ∨ ∃ t, t ∈ tokens granted ∧ P t).
  { intros P. setoid_rewrite elem_of_tokens. set_solver. }
  rewrite Hcons, <- IH. clear Hcons IH. set (t := TrimSpace g).
  case_decide as Ht; [naive_solver|].
  case_decide as Hw.
  { split; [|done]. intros _. left. split; [done|]. unfold covers, Wildcard in *.
    subst required. naive_solver. }
  destruct (splitScope t) as [[r' a']|] eqn:Es.
  - apply splitScope_Some in Es as (Et & Hr' & Ha' & Hc').
    case_decide as Hm.
    + split; [|done]. intros _. left. split; [done|]. right. right.
      destruct Hm as [-> ->]. by rewrite Et.
    + split; [by right|]. intros [[_ Hcov]|]; [|done]. exfalso.
      destruct Hcov as [Hcov|[Hcov|Hcov]].
      * apply Hw. by left.
      * apply Hw. right. congruence.
      * apply Hm. assert (Some (r', a') = Some (r, "*")) as [= -> ->]; [|done].
        transitivity (splitScope t); [symmetry|]; apply splitScope_Some; naive_solver.
  - split; [by right|]. intros [[_ Hcov]|]; [|done]. exfalso.
    destruct Hcov as [Hcov|[Hcov|Hcov]].
    + apply Hw. by left.
    + apply Hw. right. congruence.
    + assert (splitScope t = Some (r, "*")); [|congruence].
      apply splitScope_Some. naive_solver.
Qed.

(** The whole decision, as a proposition. *)
Definition scope_granted granted required : Prop :=
  ∃ r a, TrimSpace required = r +:+ ":" +:+ a ∧ r ≠ "" ∧ a ≠ "" ∧
    has_byte ":" r = false ∧ contains "*" (TrimSpace required) = false ∧
    ∃ g, g ∈ granted ∧ covers (TrimSpace g) r a.

Lemma covers_not_empty r a : ¬ covers "" r a.
Proof. intros [?|[Hb|Hb]]; [done|..]; by destruct r. Qed.

Lemma exists_token (P : string → Prop) granted :
  ¬ P "" → (∃ g, g ∈ tokens granted ∧ P g) ↔ ∃ g, g ∈ granted ∧ P (TrimSpace g).
Proof.
  intros Hne. setoid_rewrite elem_of_tokens. split.
  - intros (t & (Ht & s & Hs & ->) & HP). eauto.
  - intros (g & Hg & HP). exists (TrimSpace g). split; [|done]. split; [|eauto].
    intros E. rewrite E in HP. done.
Qed.

Lemma HasScope_mono granted1 granted2 required :
  (∀ t, t ∈ tokens granted1 → t ∈ tokens granted2) →
  HasScope granted1 required = true → HasScope granted2 required = true.
Proof.
  intros Ht. unfold HasScope. case_decide; [done|]. case_match; [done|].
  destruct (splitScope (TrimSpace required)) as [[r a]|] eqn:E; [|done].
  rewrite !(grants_any_spec _ r a _ E). naive_solver.
Qed.

Lemma HasScope_tokens granted1 granted2 required :
  (∀ t, t ∈ tokens granted1 ↔ t ∈ tokens granted2) →
  HasScope granted1 required = HasScope granted2 required.
Proof.
  intros Ht. apply eq_iff_eq_true. split; apply HasScope_mono; naive_solver.
Qed.

(** ** Storage *)

Lemma parse_parts_elem seen parts t :
  t ∈ parse_parts seen parts ↔ t ∈ tokens parts ∧ t ∉ seen.
Proof.
  revert seen. induction parts as [|p parts IH]; intros seen; simpl; [set_solver|].
  assert (Hcons : t ∈ tokens (p :: parts) ↔ t ≠ "" ∧ t = TrimSpace p ∨ t ∈ tokens parts).
  { rewrite !elem_of_tokens. set_solver. }
  rewrite Hcons. case_decide as Hp.
  - rewrite IH. naive_solver.
  - rewrite elem_of_cons, IH. destruct (decide (t = TrimSpace p)); set_solver.
Qed.

Lemma parse_parts_NoDup seen parts :
  NoDup (parse_parts seen parts) ∧ ∀ t, t ∈ parse_parts seen parts → t ∉ seen.
Proof.
  split; [|by intros t [_ ?]%parse_parts_elem].
  revert seen. induction parts as [|p parts IH]; intros seen; simpl; [constructor|].
  case_decide; [apply IH|]. constructor; [|apply IH].
  intros [_ Hn]%parse_parts_elem. set_solver.
Qed.

Lemma tokens_parse_parts seen parts t :
  t ∈ tokens (parse_parts seen parts) ↔ t ∈ parse_parts seen parts.
Proof.
  rewrite elem_of_tokens. split.
  - intros (Ht & u & Hu & ->). pose proof Hu as [Hu' _]%parse_parts_elem.
    apply elem_of_tokens in Hu' as (_ & v & _ & ->). by rewrite TrimSpace_idem.
  - intros Ht. pose proof Ht as [Ht' _]%parse_parts_elem.
    apply elem_of_tokens in Ht' as (Hne & v & _ & Hv). split; [done|].
    exists t. split; [done|]. by rewrite Hv, TrimSpace_idem.
Qed.

(** Scopes whose trimmed form holds no comma survive the storage form. *)
Lemma tokens_storage scopes t :
  (∀ s, s ∈ scopes → has_byte "," (TrimSpace s) = false) →
  t ∈ tokens (ParseScopes (FormatScopes scopes)) ↔ t ∈ tokens scopes.
Proof.
  intros Hc. unfold ParseScopes. rewrite tokens_parse_parts, parse_parts_elem.
  unfold FormatScopes. fold (tokens scopes).
  destruct (decide (tokens scopes = [])) as [E|Hne].
  { rewrite E. simpl. split; [intros [Ht _]|by intros ?%elem_of_nil].
    apply elem_of_tokens in Ht as (Hn & s & Hs & ->).
    apply list_elem_of_singleton in Hs as ->. done. }
  rewrite split_join; [|done|].
  - rewrite !elem_of_tokens. setoid_rewrite elem_of_tokens. split.
    + intros [(Hn & s & (Hs & u & Hu & ->) & ->) _]. split; [done|].
      exists u. by rewrite TrimSpace_idem.
    + intros (Hn & s & Hs & ->). split; [|set_solver]. split; [done|].
      exists (TrimSpace s). rewrite TrimSpace_idem. naive_solver.
  - apply Forall_forall. intros u (_ & s & Hs & ->)%elem_of_tokens. by apply Hc.
Qed.

(** ** Validation *)

(** The scopes the gateway understands. *)
Definition understood t : Prop :=
  t = "*" ∨ ∃ r a actions, splitScope t = Some (r, a) ∧
    knownScopes !! r = Some actions ∧ (a = "*" ∨ a ∈ actions).

(** The finitely many understood scopes, listed. *)
Definition understood_list : list string :=
  ["*"; "messages:send"; "messages:read"; "messages:*"; "media:read"; "media:write";
   "media:*"; "sessions:read"; "sessions:*"].

Lemma understood_listed t : understood t → t ∈ understood_list.
Proof.
  intros [->|(r & a & actions & (-> & _)%splitScope_Some & Hr & Ha)]; [set_solver|].
  unfold knownScopes in Hr. rewrite !lookup_insert_Some, lookup_singleton_Some in Hr.
  destruct Hr as [[<- <-]|[_ [[<- <-]|[_ [<- <-]]]]];
    (destruct Ha as [->|Ha]; [by_decide|]);
    rewrite ?elem_of_union, ?elem_of_singleton in Ha; destruct_or?; subst; by_decide.
Qed.

Lemma understood_no_comma t : understood t → has_byte "," t = false.
Proof.
  intros Ht%understood_listed. unfold understood_list in Ht.
  repeat (apply elem_of_cons in Ht as [->|Ht]; [done|]). by apply elem_of_nil in Ht.
Qed.

(** Every understood scope opens some route. *)
Lemma understood_useful :
  Forall (λ t, existsb (HasScope [t]) AllScopes = true) understood_list.
Proof. repeat constructor. Qed.

Section properties.
Context `{Unicode}.

Lemma ValidateScopes_spec scopes :
  ValidateScopes scopes = Ok () ↔ ∀ t, t ∈ tokens scopes → understood t.
Proof.
  induction scopes as [|s scopes IH]; simpl.
  { split; [intros _ t Ht|done]. unfold tokens in Ht; set_solver. }
  assert (Hcons : (∀ t, t ∈ tokens (s :: scopes) → understood t) ↔
            (TrimSpace s = "" ∨ understood (TrimSpace s)) ∧
            ∀ t, t ∈ tokens scopes → understood t).
  { setoid_rewrite elem_of_tokens. split.
    - intros Hall. split.
      + destruct (decide (TrimSpace s = "")); [by left|right].
        apply Hall. split; [done|]. exists s. set_solver.
      + intros t (Ht & u & Hu & ->). apply Hall. set_solver.
    - intros [Hs Hall] t (Ht & u & [->|Hu]%elem_of_cons & ->); [naive_solver|].
      apply Hall. eauto. }
  rewrite Hcons, <- IH. clear Hcons IH. set (t := TrimSpace s).
  case_decide as Ht.
  { unfold understood, Wildcard in *. naive_solver. }
  unfold understood.
  destruct (splitScope t) as [[r a]|] eqn:E; [|unfold Wildcard in *; naive_solver].
  destruct (knownScopes !! r) as [actions|] eqn:Ek; [|unfold Wildcard in *; naive_solver].
  repeat case_decide; unfold Wildcard in *; naive_solver.
Qed.

(** C18: [HasScope] grants exactly the concrete scopes covered by some grant:
    the global wildcard, the scope itself or the wildcard of its resource.
    An empty, malformed or wildcard requirement, and the absence of a
    covering grant, always deny. *)
Theorem HasScope_correct granted required :
  HasScope granted required = true ↔ scope_granted granted required.
Proof.
  unfold HasScope, scope_granted. split.
  - case_decide as Hne; [done|]. destruct (contains _ _) eqn:Hw; [done|].
    destruct (splitScope _) as [[r a]|] eqn:E; [|done].
    rewrite (grants_any_spec _ _ _ _ E), (exists_token (λ g, covers g r a));
      [|apply covers_not_empty].
    apply splitScope_Some in E as (Heq & Hr & Ha & Hc). intros (g & Hg & Hcov).
    exists r, a. repeat split; eauto.
  - intros (r & a & Heq & Hr & Ha & Hc & Hw & g & Hg & Hcov).
    assert (E : splitScope (TrimSpace required) = Some (r, a)) by (by apply splitScope_Some).
    rewrite decide_False; [|intros E'; rewrite E' in E; done].
    unfold Wildcard. rewrite Hw, E, (grants_any_spec _ _ _ _ E).
    apply (exists_token (λ g, covers g r a)); [apply covers_not_empty|eauto].
Qed.

Lemma stored_scopes_grant scopes required :
  ValidateScopes scopes = Ok () →
  HasScope (ParseScopes (FormatScopes scopes)) required = HasScope scopes required.
Proof.
  intros Hv. apply HasScope_tokens. intros t. apply tokens_storage.
  intros s Hs. destruct (decide (TrimSpace s = "")) as [->|Hne]; [done|].
  apply understood_no_comma, (proj1 (ValidateScopes_spec scopes) Hv), elem_of_tokens.
  eauto.
Qed.

(** Writing validated scopes to the [scopes] column and reading them back
    changes no authorisation decision. *)
Theorem HasScope_storage scopes required :
  ValidateScopes scopes = Ok () →
  HasScope (ParseScopes (FormatScopes scopes)) required = HasScope scopes required.
Proof. apply stored_scopes_grant. Qed.

(** A validated, non-blank scope list grants at least one of the
    scopes some route requires: a typo cannot produce a key that opens
    nothing. *)
Theorem ValidateScopes_useful scopes :
  ValidateScopes scopes = Ok () → tokens scopes ≠ [] →
  ∃ required, required ∈ AllScopes ∧ HasScope scopes required = true.
Proof.
  intros Hv Hne. destruct (tokens scopes) as [|t ts] eqn:E; [done|].
  assert (Ht : t ∈ tokens scopes) by (rewrite E; left).
  pose proof (proj1 (ValidateScopes_spec scopes) Hv t Ht) as Hu%understood_listed.
  pose proof (proj1 (Forall_forall _ _) understood_useful t Hu) as (r & Hr & Hgr)%existsb_exists.
  exists r. split; [by apply list_elem_of_In|].
  eapply HasScope_mono, Hgr. intros t' (_ & s & Hs & ->)%elem_of_tokens.
  apply list_elem_of_singleton in Hs as ->.
  apply elem_of_tokens in Ht as (Hn & s & Hs & ->).
  apply elem_of_tokens. rewrite TrimSpace_idem. eauto.
Qed.
End properties.

(** ** Witnesses *)

Lemma HasScope_storage_witness :
  let _ := ascii_unicode in
  ValidateScopes [" messages:* "; ""; "media:read"] = Ok () ∧
  HasScope (ParseScopes (FormatScopes [" messages:* "; ""; "media:read"])) "messages:send"
  = HasScope [" messages:* "; ""; "media:read"] "messages:send".
Proof. split; [done|]. apply (HasScope_storage (H := ascii_unicode)). done. Defined.

Lemma ValidateScopes_useful_witness :
  ∃ required, required ∈ AllScopes ∧ HasScope ["media:*"] required = true.
Proof. by apply (ValidateScopes_useful (H := ascii_unicode)). Defined.
