(* ===== verification/Sha256.v ===== *)
(** * SHA-256

    Go's [crypto/sha256] and [encoding/hex]: the digest the gateway stores for
    an API key and names a media file by. *)

From S2P Require Import Prelude GoText GoUnicode.

Local Open Scope Z_scope.

(** ** Words of thirty-two bits *)

Definition w32 (z : Z) : Z := z mod 2 ^ 32.
Definition rotr (n x : Z) : Z := Z.lor (Z.shiftr x n) (w32 (Z.shiftl x (32 - n))).

Definition ch (x y z : Z) : Z := Z.lxor (Z.land x y) (Z.land (2 ^ 32 - 1 - x) z).
Definition maj (x y z : Z) : Z :=
  Z.lxor (Z.lxor (Z.land x y) (Z.land x z)) (Z.land y z).
Definition bsig0 (x : Z) : Z := Z.lxor (Z.lxor (rotr 2 x) (rotr 13 x)) (rotr 22 x).
Definition bsig1 (x : Z) : Z := Z.lxor (Z.lxor (rotr 6 x) (rotr 11 x)) (rotr 25 x).
Definition ssig0 (x : Z) : Z := Z.lxor (Z.lxor (rotr 7 x) (rotr 18 x)) (Z.shiftr x 3).
Definition ssig1 (x : Z) : Z := Z.lxor (Z.lxor (rotr 17 x) (rotr 19 x)) (Z.shiftr x 10).

(** The constants of FIPS 180-4: thirty-two bits of the fractional parts of the
    square roots (the initial state) and the cube roots (the round constants)
    of the first primes. *)
Definition primes : list Z :=
  filter (λ p, Forall (λ d, p mod d ≠ 0) (seqZ 2 (p - 2))) (seqZ 2 310).

(** The greatest [r + d], [d < 2 ^ bits], whose cube is at most [n]. *)
Fixpoint cube_root (bits : nat) (r n : Z) : Z :=
  match bits with
  | O => r
  | S k => let r' := r + 2 ^ Z.of_nat k in cube_root k (if r' ^ 3 <=? n then r' else r) n
  end.

Definition round_constants : list Z := Eval vm_compute in
  (λ p, w32 (cube_root 36 0 (p * 2 ^ 96))) <$> primes.

(** ** Padding and blocks *)

Definition bytes_of (s : string) : list Z :=
  (fix go s := match s with EmptyString => [] | String c s => byte_z c :: go s end) s.

(** [n] bytes of [z], the most significant first. *)
Fixpoint big_endian (n : nat) (z : Z) : list Z :=
  match n with
  | O => []
  | S n => z / 2 ^ (8 * Z.of_nat n) mod 256 :: big_endian n z
  end.

Definition pad (m : list Z) : list Z :=
  let zeros := (119 - Z.of_nat (length m) mod 64) mod 64 in
  m ++ [128] ++ replicate (Z.to_nat zeros) 0 ++ big_endian 8 (8 * Z.of_nat (length m)).

Fixpoint words (m : list Z) : list Z :=
  match m with
  | a :: b :: c :: d :: m => (((a * 256 + b) * 256 + c) * 256 + d) :: words m
  | _ => []
  end.

(** The message schedule of one block, latest word first. *)
Fixpoint schedule (n : nat) (rev_w : list Z) : list Z :=
  match n with
  | O => rev_w
  | S n =>
      let at_ i := nth i rev_w 0 in
      schedule n (w32 (ssig1 (at_ 1%nat) + at_ 6%nat + ssig0 (at_ 14%nat) + at_ 15%nat)
                  :: rev_w)
  end.

Record sha_state := Sha {
  sa : Z; sb : Z; sc : Z; sd : Z; se : Z; sf : Z; sg : Z; sh : Z
}.

Definition initial : sha_state := Eval vm_compute in
  let root i := w32 (Z.sqrt (nth i primes 0 * 2 ^ 64)) in
  Sha (root 0%nat) (root 1%nat) (root 2%nat) (root 3%nat)
      (root 4%nat) (root 5%nat) (root 6%nat) (root 7%nat).

Definition sha_round (s : sha_state) (kw : Z * Z) : sha_state :=
  let t1 := sh s + bsig1 (se s) + ch (se s) (sf s) (sg s) + kw.1 + kw.2 in
  let t2 := bsig0 (sa s) + maj (sa s) (sb s) (sc s) in
  Sha (w32 (t1 + t2)) (sa s) (sb s) (sc s) (w32 (sd s + t1)) (se s) (sf s) (sg s).

Definition sha_block (s : sha_state) (block : list Z) : sha_state :=
  let w := rev (schedule 48 (rev block)) in
  let t := fold_left sha_round (combine round_constants w) s in
  Sha (w32 (sa s + sa t)) (w32 (sb s + sb t)) (w32 (sc s + sc t)) (w32 (sd s + sd t))
      (w32 (se s + se t)) (w32 (sf s + sf t)) (w32 (sg s + sg t)) (w32 (sh s + sh t)).

(** One block is sixteen words; the number of words is fuel enough. *)
Fixpoint sha_blocks (fuel : nat) (s : sha_state) (w : list Z) : sha_state :=
  match fuel, w with
  | S fuel, _ :: _ => sha_blocks fuel (sha_block s (firstn 16 w)) (skipn 16 w)
  | _, _ => s
  end.

(** [sha256.Sum256] *)
Definition Sum256 (m : string) : list Z :=
  let w := words (pad (bytes_of m)) in
  let s := sha_blocks (length w) initial w in
  concat (big_endian 4 <$> [sa s; sb s; sc s; sd s; se s; sf s; sg s; sh s]).

(** [hex.EncodeToString] *)
Fixpoint EncodeToString (bs : list Z) : string :=
  match bs with
  | [] => ""
  | b :: bs => hex_digits 2 b +:+ EncodeToString bs
  end.

Definition sha256_hex (m : string) : string := EncodeToString (Sum256 m).

(** ** The digest is sixty-four lower-case hexadecimal digits *)

Definition is_hex (c : ascii) : bool := is_digit c || in_range 97 102 (byte_z c).

Lemma Sum256_length m : length (Sum256 m) = 32%nat.
Proof. done. Qed.

Lemma is_hex_digit z : is_hex (hex_digit (z mod 16)) = true.
Proof.
  unfold hex_digit, is_hex, is_digit, in_range.
  pose proof (Z.mod_pos_bound z 16 ltac:(lia)).
  rewrite !byte_z_byte; case_match; lia.
Qed.

Lemma hex_digits_hex n z : all_bytes is_hex (hex_digits n z) = true.
Proof.
  revert z. induction n as [|n IH]; intros z; [done|]. cbn [hex_digits].
  rewrite all_bytes_app, IH. simpl. by rewrite is_hex_digit.
Qed.

Lemma length_hex_digits n z : String.length (hex_digits n z) = n.
Proof.
  revert z. induction n as [|n IH]; intros z; [done|]. cbn [hex_digits].
  rewrite slength_app, IH. simpl. lia.
Qed.

Lemma EncodeToString_hex bs : all_bytes is_hex (EncodeToString bs) = true.
Proof.
  induction bs as [|b bs IH]; [done|]. cbn [EncodeToString].
  by rewrite all_bytes_app, hex_digits_hex, IH.
Qed.

Lemma length_EncodeToString bs : String.length (EncodeToString bs) = (2 * length bs)%nat.
Proof.
  induction bs as [|b bs IH]; [done|]. cbn [EncodeToString length].
  rewrite slength_app, length_hex_digits, IH. lia.
Qed.

Lemma sha256_hex_hex m : all_bytes is_hex (sha256_hex m) = true.
Proof. apply EncodeToString_hex. Qed.

Lemma sha256_hex_length m : String.length (sha256_hex m) = 64%nat.
Proof. unfold sha256_hex. by rewrite length_EncodeToString, Sum256_length. Qed.

Lemma is_hex_visible c : is_hex c = true → visible c = true.
Proof. unfold is_hex, is_digit, visible, in_range. lia. Qed.

Lemma is_hex_ascii c : is_hex c = true → is_ascii c = true.
Proof. unfold is_hex, is_digit, is_ascii, in_range. lia. Qed.

Lemma is_hex_lower c : is_hex c = true → ascii_lower c = c.
Proof.
  unfold is_hex, is_digit, ascii_lower, is_upper_ascii, in_range. intros H.
  case_match; [lia|done].
Qed.

(** The published test vectors. *)
Example sha256_empty :
  sha256_hex "" = "e3b0c44298fc1c149afbf4c8996fb92427ae41e4649b934ca495991b7852b855".
Proof. vm_compute. reflexivity. Qed.

Example sha256_abc :
  sha256_hex "abc" = "ba7816bf8f01cfea414140de5dae2223b00361a396177a9cb410ff61f20015ad".
Proof. vm_compute. reflexivity. Qed.

Example sha256_two_blocks :
  sha256_hex "abcdbcdecdefdefgefghfghighijhijkijkljklmklmnlmnomnopnopq"
  = "248d6a61d20638b8e5c026930c3e6039a33ce45964ff2167f6ecedd419db06c1".
Proof. vm_compute. reflexivity. Qed.

Example length_round_constants : length round_constants = 64%nat.
Proof. done. Qed.
