(* ===== verification/Key.v ===== *)
(** * API keys ([internal/auth/key.go])

    Key generation, the stored hash and the two comparisons.  The secret is
    the base-62 numeral of thirty-two random bytes. *)

From S2P Require Import Prelude GoText GoUnicode GoEff Sha256.

(** ** Base 62 *)

Definition keyPrefixLiteral := "wc_live".
Definition tenantShortLen : nat := 8.
Definition secretBytes : nat := 32.
Definition displayedSecretChars : nat := 6.
Definition base62Alphabet :=
  "0123456789ABCDEFGHIJKLMNOPQRSTUVWXYZabcdefghijklmnopqrstuvwxyz".

Definition char_at (s : string) (i : Z) : ascii :=
  default "000"%char (String.get (Z.to_nat i) s).

(** [big.Int.SetBytes]: the bytes are big-endian. *)
Definition SetBytes (raw : list Z) : Z := fold_left (λ n b, n * 256 + b)%Z raw 0%Z.

(** The [DivMod] loop of [encodeBase62] fills [width] positions from the
    last one; [width] is forty-three. *)
Fixpoint base62_loop (width : nat) (n : Z) : string :=
  match width with
  | O => ""
  | S width =>
      base62_loop width (n / 62) +:+ String (char_at base62Alphabet (n mod 62)) ""
  end.

Definition encodeBase62 (raw : list Z) : string := base62_loop 43 (SetBytes raw).

(** ** Keys *)

Record GeneratedKey := {
  Plaintext : string;
  Hash : string;
  Prefix : string;
}.

Definition HashKey (plaintext : string) : string := sha256_hex plaintext.

Section key.
Context `{Unicode}.

Definition is_alnum_rune (r : rune) : bool :=
  match r with
  | Rune r => in_range 97 122 r || in_range 48 57 r
  | BadByte => false
  end.

(** The loop of [shortenTenantID]; [b] is the string builder. *)
Fixpoint shorten_loop (fuel : nat) (b s : string) : string :=
  match fuel, decode_rune s with
  | S fuel, Some (r, s') =>
      let b := match r with
               | Rune z => if is_alnum_rune r then b +:+ encode_rune z else b
               | BadByte => b
               end in
      if decide (String.length b = tenantShortLen) then b else shorten_loop fuel b s'
  | _, _ => b
  end.

Definition shortenTenantID (tenantID : string) : string :=
  let s := ToLower tenantID in shorten_loop (String.length s) "" s.

Definition VerifyKey (plaintext expectedHash : string) : bool :=
  if decide (plaintext = "" ∨ expectedHash = "") then false
  else
    let actual := HashKey plaintext in
    let expected := ToLower (TrimSpace expectedHash) in
    bool_decide (actual = expected).

Definition VerifyAdminToken (configured presented : string) : bool :=
  if decide (configured = "" ∨ presented = "") then false
  else bool_decide (configured = presented).

Definition GenerateKey `{Oracle} {St : Type} (tenantID : string)
    : eff St (result GeneratedKey) :=
  let short := shortenTenantID tenantID in
  if decide (short = "") then ret (Err (Sentinel ErrInvalidTenantID))
  else (
    try! raw := draw o_rand in
    let secret := encodeBase62 raw in
    let plaintext := keyPrefixLiteral +:+ "_" +:+ short +:+ "_" +:+ secret in
    let prefixLen := String.length plaintext - String.length secret
                     + displayedSecretChars in
    ret (Ok {| Plaintext := plaintext;
               Hash := HashKey plaintext;
               Prefix := take_bytes prefixLen plaintext |}))%go.
End key.

(** ** Base 62 is injective *)

(** The value of a base-62 numeral. *)
Definition digit_value (c : ascii) : Z :=
  let z := byte_z c in
  if in_range 48 57 z then z - 48
  else if in_range 65 90 z then z - 55
  else z - 61.

Fixpoint numeral_value (acc : Z) (s : string) : Z :=
  match s with
  | EmptyString => acc
  | String c s => numeral_value (acc * 62 + digit_value c) s
  end.

Definition is_base62 (c : ascii) : bool :=
  is_digit c || is_upper_ascii c || is_lower_ascii c.

Lemma alphabet_digits :
  Forall (λ i, digit_value (char_at base62Alphabet i) = i ∧
               is_base62 (char_at base62Alphabet i) = true) (seqZ 0 62).
Proof. by_decide. Qed.

Lemma alphabet_digit i :
  (0 ≤ i < 62)%Z →
  digit_value (char_at base62Alphabet i) = i ∧ is_base62 (char_at base62Alphabet i) = true.
Proof.
  intros Hi. apply (proj1 (Forall_forall _ _) alphabet_digits). apply elem_of_seqZ. lia.
Qed.

Lemma numeral_value_app acc s t :
  numeral_value acc (s +:+ t) = numeral_value (numeral_value acc s) t.
Proof. revert acc. induction s as [|c s IH]; intros acc; [done|]. apply IH. Qed.

Lemma base62_loop_value width n :
  (0 ≤ n < 62 ^ Z.of_nat width)%Z → numeral_value 0 (base62_loop width n) = n.
Proof.
  revert n. induction width as [|width IH]; intros n Hn; [simpl in *; lia|].
  cbn [base62_loop]. rewrite numeral_value_app, IH.
  - simpl. rewrite (proj1 (alphabet_digit _ (Z.mod_pos_bound n 62 ltac:(lia)))).
    pose proof (Z.div_mod n 62). lia.
  - rewrite Nat2Z.inj_succ, Z.pow_succ_r in Hn by lia.
    split; [apply Z.div_pos; lia|]. apply Z.div_lt_upper_bound; lia.
Qed.

Lemma length_base62_loop width n : String.length (base62_loop width n) = width.
Proof.
  revert n. induction width as [|width IH]; intros n; [done|]. cbn [base62_loop].
  rewrite slength_app, IH. simpl. lia.
Qed.

Lemma base62_loop_alphabet width n : all_bytes is_base62 (base62_loop width n) = true.
Proof.
  revert n. induction width as [|width IH]; intros n; [done|]. cbn [base62_loop].
  rewrite all_bytes_app, IH. simpl.
  by rewrite (proj2 (alphabet_digit _ (Z.mod_pos_bound n 62 ltac:(lia)))).
Qed.

Definition is_bytes (raw : list Z) : Prop := Forall (λ b, 0 ≤ b < 256)%Z raw.

Lemma SetBytes_app raw b : SetBytes (raw ++ [b]) = (SetBytes raw * 256 + b)%Z.
Proof. unfold SetBytes. by rewrite fold_left_app. Qed.

Lemma SetBytes_bound raw :
  is_bytes raw → (0 ≤ SetBytes raw < 256 ^ Z.of_nat (length raw))%Z.
Proof.
  induction raw as [|b raw IH] using rev_ind; [done|].
  intros [Hraw [Hb _]%Forall_cons]%Forall_app. specialize (IH Hraw). simpl in Hb.
  rewrite SetBytes_app, length_app, Nat2Z.inj_add, Z.pow_add_r by lia.
  change (Z.of_nat (length [b])) with 1%Z. rewrite Z.pow_1_r.
  lia.
Qed.

Lemma SetBytes_inj raw1 raw2 :
  is_bytes raw1 → is_bytes raw2 → length raw1 = length raw2 →
  SetBytes raw1 = SetBytes raw2 → raw1 = raw2.
Proof.
  revert raw2. induction raw1 as [|b1 raw1 IH] using rev_ind; intros raw2 H1 H2 Hl Heq.
  - by destruct raw2.
  - destruct raw2 as [|b2 raw2 _] using rev_ind; [rewrite length_app in Hl; simpl in Hl; lia|].
    apply Forall_app in H1 as [H1 [Hb1 _]%Forall_cons].
    apply Forall_app in H2 as [H2 [Hb2 _]%Forall_cons].
    rewrite !SetBytes_app in Heq. rewrite !length_app in Hl. simpl in Hl.
    simpl in Hb1, Hb2. assert (b1 = b2 ∧ SetBytes raw1 = SetBytes raw2) as [-> ?] by lia.
    by rewrite (IH raw2) by (done || lia).
Qed.

Lemma encodeBase62_value raw :
  is_bytes raw → length raw = secretBytes → numeral_value 0 (encodeBase62 raw) = SetBytes raw.
Proof.
  intros Hraw Hl. apply base62_loop_value. apply SetBytes_bound in Hraw. rewrite Hl in Hraw.
  assert (256 ^ Z.of_nat secretBytes < 62 ^ Z.of_nat 43)%Z by (vm_compute; reflexivity).
  lia.
Qed.

Lemma encodeBase62_inj raw1 raw2 :
  is_bytes raw1 → is_bytes raw2 → length raw1 = secretBytes → length raw2 = secretBytes →
  encodeBase62 raw1 = encodeBase62 raw2 → raw1 = raw2.
Proof.
  intros H1 H2 Hl1 Hl2 Heq. apply SetBytes_inj; [done..|congruence|].
  by rewrite <- !encodeBase62_value, Heq.
Qed.

(** [encodeBase62] loses nothing of the thirty-two random bytes: forty-three
    digits of the alphabet, the width the code fixes, hold every 256-bit value,
    so the secret always has that length and reads back as the number its
    bytes denote. *)
Theorem encodeBase62_faithful raw :
  is_bytes raw → length raw = secretBytes →
  String.length (encodeBase62 raw) = 43 ∧
  all_bytes is_base62 (encodeBase62 raw) = true ∧
  numeral_value 0 (encodeBase62 raw) = SetBytes raw.
Proof.
  intros Hb Hl. split; [apply length_base62_loop|].
  split; [apply base62_loop_alphabet|by apply encodeBase62_value].
Qed.

(** ** Key generation *)

Section key_properties.
Context `{Unicode}.

(** The label of a tenant: at most eight lower-case letters and digits. *)
Definition is_label (c : ascii) : bool := is_lower_ascii c || is_digit c.

Lemma encode_alnum z :
  is_alnum_rune (Rune z) = true →
  String.length (encode_rune z) = 1 ∧ all_bytes is_label (encode_rune z) = true.
Proof.
  simpl. unfold in_range, encode_rune, in_range. intros Hz.
  repeat (case_match; try lia). split; [done|]. simpl.
  unfold is_label, is_lower_ascii, is_digit, in_range.
  rewrite !byte_z_byte by lia. lia.
Qed.

Lemma shorten_loop_enough n m b s :
  String.length s ≤ n → String.length s ≤ m → shorten_loop n b s = shorten_loop m b s.
Proof.
  revert m b s. induction n as [|n IH]; intros m b s Hn Hm.
  - destruct s; [|simpl in Hn; lia]. by destruct m.
  - destruct m as [|m]; [destruct s; [done|simpl in Hm; lia]|]. simpl.
    destruct (decode_rune s) as [[r t]|] eqn:E; [|done].
    apply decode_rune_shorter in E. case_decide; [done|]. apply IH; lia.
Qed.

Lemma shorten_loop_label fuel b s :
  String.length b < tenantShortLen → all_bytes is_label b = true →
  String.length (shorten_loop fuel b s) ≤ tenantShortLen ∧
  all_bytes is_label (shorten_loop fuel b s) = true.
Proof.
  revert b s. induction fuel as [|fuel IH]; intros b s Hl Hb; simpl; [split; [lia|done]|].
  destruct (decode_rune s) as [[[z|] s']|]; [| |split; [lia|done]].
  - destruct (is_alnum_rune (Rune z)) eqn:Ez; cbn [is_alnum_rune] in *.
    + apply encode_alnum in Ez as [Hz Hz'].
      assert (String.length (b +:+ encode_rune z) = S (String.length b)).
      { rewrite slength_app. lia. }
      assert (all_bytes is_label (b +:+ encode_rune z) = true).
      { by rewrite all_bytes_app, Hb, Hz'. }
      case_decide; [split; [lia|done]|]. apply IH; [lia|done].
    + case_decide; [lia|]. by apply IH.
  - case_decide; [lia|]. by apply IH.
Qed.

Lemma shortenTenantID_label tenantID :
  String.length (shortenTenantID tenantID) ≤ tenantShortLen ∧
  all_bytes is_label (shortenTenantID tenantID) = true.
Proof. apply shorten_loop_label; [unfold tenantShortLen; simpl; lia|done]. Qed.

(** A stored hash is its own normal form, so [VerifyKey] compares digests. *)
Lemma HashKey_normal p : ToLower (TrimSpace (HashKey p)) = HashKey p.
Proof.
  pose proof (sha256_hex_hex p) as Hx. unfold HashKey.
  rewrite TrimSpace_visible by (eapply all_bytes_impl, Hx; apply is_hex_visible).
  rewrite ToLower_ascii by (eapply all_bytes_impl, Hx; apply is_hex_ascii).
  eapply map_bytes_id, Hx. apply is_hex_lower.
Qed.

Lemma HashKey_not_empty p : HashKey p ≠ "".
Proof.
  intros E. pose proof (sha256_hex_length p) as Hl. unfold HashKey in E.
  rewrite E in Hl. done.
Qed.

Lemma VerifyKey_hash p q : p ≠ "" → VerifyKey p (HashKey q) = bool_decide (HashKey p = HashKey q).
Proof.
  intros Hp. unfold VerifyKey. rewrite decide_False.
  - by rewrite HashKey_normal.
  - intros [?|?%HashKey_not_empty]; done.
Qed.

Context `{Oracle} {St : Type}.

(** What one call of [GenerateKey] returns. *)
Lemma GenerateKey_run tenantID raw n (s : St) :
  o_rand n = Ok raw → shortenTenantID tenantID ≠ "" →
  let head := "wc_live_" +:+ shortenTenantID tenantID +:+ "_" in
  let plaintext := head +:+ encodeBase62 raw in
  GenerateKey tenantID n s =
    (Ok {| Plaintext := plaintext; Hash := HashKey plaintext;
           Prefix := head +:+ take_bytes 6 (encodeBase62 raw) |}, S n, s).
Proof.
  intros Hraw Hs. unfold GenerateKey. rewrite decide_False by done.
  unfold try, bind, draw, ret. rewrite Hraw. cbv zeta.
  change keyPrefixLiteral with "wc_live".
  set (short := shortenTenantID tenantID). set (secret := encodeBase62 raw).
  set (head := "wc_live_" +:+ short +:+ "_").
  assert (Hp : "wc_live" +:+ "_" +:+ short +:+ "_" +:+ secret = head +:+ secret).
  { unfold head. by rewrite !sapp_assoc. }
  rewrite Hp, slength_app.
  replace (String.length head + String.length secret - String.length secret)
    with (String.length head) by lia.
  by rewrite take_bytes_app.
Qed.

Lemma GenerateKey_answer tenantID raw n (s : St) :
  o_rand n = Ok raw → shortenTenantID tenantID ≠ "" →
  let head := "wc_live_" +:+ shortenTenantID tenantID +:+ "_" in
  let plaintext := head +:+ encodeBase62 raw in
  answer (GenerateKey tenantID) n s =
    Ok {| Plaintext := plaintext; Hash := HashKey plaintext;
          Prefix := head +:+ take_bytes 6 (encodeBase62 raw) |}.
Proof. intros. unfold answer. by rewrite (GenerateKey_run tenantID raw). Qed.

(** A generated key reads [wc_live_<label>_<secret>] where the label is one
    to eight lower-case letters and digits and the secret is the base-62
    numeral of the random bytes; its hash verifies the plaintext; and the
    stored prefix discloses exactly six characters of the secret. *)
Theorem GenerateKey_correct tenantID raw n (s : St) :
  o_rand n = Ok raw → shortenTenantID tenantID ≠ "" →
  let short := shortenTenantID tenantID in
  let secret := encodeBase62 raw in
  ∃ k, GenerateKey tenantID n s = (Ok k, S n, s) ∧
    Plaintext k = "wc_live_" +:+ short +:+ "_" +:+ secret ∧
    Prefix k = "wc_live_" +:+ short +:+ "_" +:+ take_bytes 6 secret ∧
    1 ≤ String.length short ≤ 8 ∧ all_bytes is_label short = true ∧
    all_bytes is_base62 secret = true ∧
    VerifyKey (Plaintext k) (Hash k) = true.
Proof.
  intros Hraw Hs short secret. rewrite (GenerateKey_run tenantID raw) by done.
  eexists. split; [done|]. cbn [Plaintext Prefix Hash].
  split; [by rewrite !sapp_assoc|]. split; [by rewrite !sapp_assoc|].
  pose proof (shortenTenantID_label tenantID) as [Hl Hb]. fold short in Hl, Hb, Hs |- *.
  split; [split; [|done]; destruct short; [done|simpl; lia]|].
  split; [done|]. split; [apply base62_loop_alphabet|].
  rewrite VerifyKey_hash by done. by apply bool_decide_eq_true_2.
Qed.

(** Keys minted from different random bytes are different strings, for one
    tenant or for two: an operator can never hold one key for two records. *)
Theorem GenerateKey_distinct t1 t2 raw1 raw2 n1 n2 (s1 s2 : St) k1 k2 :
  is_bytes raw1 → is_bytes raw2 → length raw1 = secretBytes → length raw2 = secretBytes →
  o_rand n1 = Ok raw1 → o_rand n2 = Ok raw2 →
  answer (GenerateKey t1) n1 s1 = Ok k1 → answer (GenerateKey t2) n2 s2 = Ok k2 →
  Plaintext k1 = Plaintext k2 → raw1 = raw2.
Proof.
  intros Hb1 Hb2 Hl1 Hl2 Ho1 Ho2 Hk1 Hk2 Heq.
  assert (Hp : ∀ t raw n (s : St) k, o_rand n = Ok raw → answer (GenerateKey t) n s = Ok k →
            ∃ h, Plaintext k = h +:+ encodeBase62 raw).
  { intros t raw n s k Ho Hk.
    destruct (decide (shortenTenantID t = "")) as [E|E].
    - unfold answer, GenerateKey in Hk. by rewrite decide_True in Hk.
    - rewrite (GenerateKey_answer t raw) in Hk by done.
      injection Hk as <-. by eexists. }
  destruct (Hp _ _ _ _ _ Ho1 Hk1) as [h1 E1], (Hp _ _ _ _ _ Ho2 Hk2) as [h2 E2].
  rewrite E1, E2 in Heq.
  apply sapp_inj_length in Heq as [_ Heq]; [|unfold encodeBase62; by rewrite !length_base62_loop].
  by apply encodeBase62_inj.
Qed.
End key_properties.

(** ** Witnesses *)

Definition test_raw : list Z := seqZ 7 32.

Definition test_oracle : Oracle := quiet_oracle (Ok test_raw).

Lemma test_raw_bytes : is_bytes test_raw.
Proof. unfold is_bytes, test_raw. by_decide. Qed.

Lemma encodeBase62_faithful_witness :
  String.length (encodeBase62 test_raw) = 43 ∧
  all_bytes is_base62 (encodeBase62 test_raw) = true ∧
  numeral_value 0 (encodeBase62 test_raw) = SetBytes test_raw.
Proof. apply encodeBase62_faithful; [apply test_raw_bytes|done]. Defined.

Lemma GenerateKey_correct_witness :
  ∃ k, GenerateKey (H := ascii_unicode) (H0 := test_oracle) "1F2E-3d" 0 () = (Ok k, 1, ()) ∧
    Plaintext k = "wc_live_1f2e3d_" +:+ encodeBase62 test_raw.
Proof.
  destruct (GenerateKey_correct (H := ascii_unicode) (H0 := test_oracle)
              "1F2E-3d" test_raw 0 ()) as (k & Hk & Hp & _); [done|done|].
  by exists k.
Defined.

(** Two draws of the generator. *)
Definition two_draws : Oracle :=
  {| o_sql := λ _, None; o_constraint := λ _, ""; o_now := λ _, 0%Z; o_uuid := λ _, "";
     o_rand := λ n, Ok (if n is O then test_raw else reverse test_raw) |}.

Lemma GenerateKey_distinct_witness :
  ∃ k1 k2,
    answer (GenerateKey (H := ascii_unicode) (H0 := two_draws) "acme") 0 () = Ok k1 ∧
    answer (GenerateKey (H := ascii_unicode) (H0 := two_draws) "acme") 1 () = Ok k2 ∧
    Plaintext k1 ≠ Plaintext k2.
Proof.
  pose proof (GenerateKey_answer (H := ascii_unicode) (H0 := two_draws)
                "acme" test_raw 0 () eq_refl ltac:(done)) as E1.
  pose proof (GenerateKey_answer (H := ascii_unicode) (H0 := two_draws)
                "acme" (reverse test_raw) 1 () eq_refl ltac:(done)) as E2.
  eexists _, _. split; [exact E1|]. split; [exact E2|]. intros Heq.
  assert (Hrev : is_bytes (reverse test_raw)) by apply Forall_reverse, test_raw_bytes.
  enough (test_raw = reverse test_raw) by done.
  exact (GenerateKey_distinct (H := ascii_unicode) (H0 := two_draws)
           "acme" "acme" test_raw (reverse test_raw) 0 1 () () _ _
           test_raw_bytes Hrev eq_refl eq_refl eq_refl eq_refl E1 E2 Heq).
Defined.
