(* ===== verification/Models.v ===== *)
(** * The data model ([internal/store/models.go])

    The rows of the gateway's own tables.  A Go pointer is an [option], a
    [time.Time] the nanoseconds of the Unix epoch, a [[]byte] column an
    [option string] whose [None] is SQL's NULL. *)

From S2P Require Import Prelude GoText GoUnicode GoEff.

(** The zero [time.Time], 1 January of year 1: what [IsZero] tests. *)
Definition zero_time : Z := (-62135596800 * 10 ^ 9)%Z.

Definition IsZero (t : Z) : bool := bool_decide (t = zero_time).

(** [uuid.NewString] *)
Definition NewID `{Oracle} {St} : eff St string := new_id.

Record Tenant := {
  t_ID : string;
  t_Name : string;
  t_CreatedAt : Z;
}.

Record APIKey := {
  k_ID : string;
  k_TenantID : string;
  k_Name : string;
  k_KeyHash : string;
  k_KeyPrefix : string;
  k_Scopes : list string;
  k_CreatedAt : Z;
  k_LastUsedAt : option Z;
  k_RevokedAt : option Z;
}.

Definition SessionPending := "pending".
Definition SessionConnected := "connected".
Definition SessionDisconnected := "disconnected".
Definition SessionLoggedOut := "logged_out".

(** [SessionStatus.Valid] *)
Definition status_Valid (s : string) : bool :=
  bool_decide (s ∈ [SessionPending; SessionConnected; SessionDisconnected; SessionLoggedOut]).

(** [SessionStatus.validate] *)
Definition status_validate `{Unicode} (s : string) : result () :=
  if status_Valid s then Ok ()
  else Err (New ("store: invalid session status " +:+ Quote s)).

Record Session := {
  s_ID : string;
  s_TenantID : string;
  s_WAJID : option string;
  s_Status : string;
  s_CreatedAt : Z;
  s_UpdatedAt : Z;
}.

Definition DirectionIn := "in".
Definition DirectionOut := "out".

(** [Direction.Valid] *)
Definition direction_Valid (d : string) : bool :=
  bool_decide (d = DirectionIn ∨ d = DirectionOut).

Definition MediaAvailable := "available".
Definition MediaUnavailable := "unavailable".
Definition MediaFailed := "failed".

Record Message := {
  m_ID : string;
  m_TenantID : string;
  m_ChatJID : string;
  m_SenderJID : string;
  m_WAMessageID : string;
  m_Direction : string;
  m_Body : string;
  m_MediaType : option string;
  m_MediaPath : option string;
  m_DirectPath : option string;
  m_MediaKey : option string;
  m_FileEncSHA256 : option string;
  m_FileSHA256 : option string;
  m_MMSType : option string;
  m_FileLength : option Z;
  m_MimeType : option string;
  m_MediaStatus : option string;
  m_MediaError : option string;
  m_MediaFetchedAt : option Z;
  m_Timestamp : Z;
  m_CreatedAt : Z;
}.

(** [Message.HasMediaReference] *)
Definition HasMediaReference (m : Message) : bool :=
  match m_DirectPath m with Some p => bool_decide (p ≠ "") | None => false end.

Record MediaUpdate := {
  u_Path : option string;
  u_Status : string;
  u_Error : string;
  u_FetchedAt : Z;
}.

Record Chat := {
  c_ChatJID : string;
  c_Name : string;
  c_LastMessageAt : Z;
  c_LastMessageBody : string;
  c_LastDirection : string;
  c_MessageCount : nat;
}.

Record NamedChat := {
  n_ChatJID : string;
  n_Name : string;
}.

#[export] Instance Tenant_eq_dec : EqDecision Tenant.
Proof. solve_decision. Defined.
#[export] Instance APIKey_eq_dec : EqDecision APIKey.
Proof. solve_decision. Defined.
#[export] Instance Session_eq_dec : EqDecision Session.
Proof. solve_decision. Defined.
#[export] Instance Message_eq_dec : EqDecision Message.
Proof. solve_decision. Defined.
#[export] Instance Chat_eq_dec : EqDecision Chat.
Proof. solve_decision. Defined.
#[export] Instance NamedChat_eq_dec : EqDecision NamedChat.
Proof. solve_decision. Defined.

(** ** Field updates *)

(** The fields an insert leaves to the repository. *)
Definition with_identity (id : string) (timestamp created : Z) (m : Message) : Message :=
  {| m_ID := id; m_TenantID := m_TenantID m; m_ChatJID := m_ChatJID m;
     m_SenderJID := m_SenderJID m; m_WAMessageID := m_WAMessageID m;
     m_Direction := m_Direction m; m_Body := m_Body m; m_MediaType := m_MediaType m;
     m_MediaPath := m_MediaPath m; m_DirectPath := m_DirectPath m;
     m_MediaKey := m_MediaKey m; m_FileEncSHA256 := m_FileEncSHA256 m;
     m_FileSHA256 := m_FileSHA256 m; m_MMSType := m_MMSType m;
     m_FileLength := m_FileLength m; m_MimeType := m_MimeType m;
     m_MediaStatus := m_MediaStatus m; m_MediaError := m_MediaError m;
     m_MediaFetchedAt := m_MediaFetchedAt m;
     m_Timestamp := timestamp; m_CreatedAt := created |}.

(** The bookkeeping of a media fetch: the path and the three status columns. *)
Definition with_media (path status error : option string) (fetched : option Z)
    (m : Message) : Message :=
  {| m_ID := m_ID m; m_TenantID := m_TenantID m; m_ChatJID := m_ChatJID m;
     m_SenderJID := m_SenderJID m; m_WAMessageID := m_WAMessageID m;
     m_Direction := m_Direction m; m_Body := m_Body m; m_MediaType := m_MediaType m;
     m_MediaPath := path; m_DirectPath := m_DirectPath m;
     m_MediaKey := m_MediaKey m; m_FileEncSHA256 := m_FileEncSHA256 m;
     m_FileSHA256 := m_FileSHA256 m; m_MMSType := m_MMSType m;
     m_FileLength := m_FileLength m; m_MimeType := m_MimeType m;
     m_MediaStatus := status; m_MediaError := error; m_MediaFetchedAt := fetched;
     m_Timestamp := m_Timestamp m; m_CreatedAt := m_CreatedAt m |}.

(** The columns a data migration repoints. *)
Definition with_addresses (chat sender direction : string) (m : Message) : Message :=
  {| m_ID := m_ID m; m_TenantID := m_TenantID m; m_ChatJID := chat;
     m_SenderJID := sender; m_WAMessageID := m_WAMessageID m;
     m_Direction := direction; m_Body := m_Body m; m_MediaType := m_MediaType m;
     m_MediaPath := m_MediaPath m; m_DirectPath := m_DirectPath m;
     m_MediaKey := m_MediaKey m; m_FileEncSHA256 := m_FileEncSHA256 m;
     m_FileSHA256 := m_FileSHA256 m; m_MMSType := m_MMSType m;
     m_FileLength := m_FileLength m; m_MimeType := m_MimeType m;
     m_MediaStatus := m_MediaStatus m; m_MediaError := m_MediaError m;
     m_MediaFetchedAt := m_MediaFetchedAt m;
     m_Timestamp := m_Timestamp m; m_CreatedAt := m_CreatedAt m |}.

(** Two versions of a row that differ in the fetch bookkeeping only. *)
Definition same_message (m m' : Message) : Prop :=
  m = with_media (m_MediaPath m) (m_MediaStatus m) (m_MediaError m) (m_MediaFetchedAt m) m'.

Lemma same_message_refl m : same_message m m.
Proof. by destruct m. Qed.

Lemma same_message_with_media p st e f m : same_message m (with_media p st e f m).
Proof. by destruct m. Qed.

Lemma same_message_trans m1 m2 m3 :
  same_message m1 m2 → same_message m2 m3 → same_message m1 m3.
Proof. unfold same_message. intros H1 H2. rewrite H2 in H1. exact H1. Qed.

#[export] Instance same_message_preorder : PreOrder same_message.
Proof.
  split; [intros m; apply same_message_refl|intros m1 m2 m3; apply same_message_trans].
Qed.
