(* ===== verification/Sql.v ===== *)
(** * The fragment of SQLite the store uses

    The order of TEXT columns, [LIKE ... ESCAPE '\'] and [lower].  Text is
    compared and matched by its bytes: SQLite's BINARY collation, and for the
    UTF-8 text the gateway stores the same as matching by characters. *)

From S2P Require Import Prelude GoText GoUnicode.

Implicit Types (s t p q : string) (c : ascii).

(** ** Order of text *)

Fixpoint text_leb s t : bool :=
  match s, t with
  | EmptyString, _ => true
  | _, EmptyString => false
  | String c s, String d t =>
      if (byte_z c <? byte_z d)%Z then true
      else if (byte_z d <? byte_z c)%Z then false else text_leb s t
  end.

Definition text_le s t : Prop := text_leb s t = true.

#[export] Instance text_le_dec s t : Decision (text_le s t) := decide (text_leb s t = true).

#[export] Instance text_le_total : Total text_le.
Proof.
  intros s. induction s as [|c s IH]; intros [|d t]; [by left|by left|by right|].
  unfold text_le in *. simpl. destruct (IH t); repeat case_match; auto; lia.
Qed.

Lemma text_le_refl s : text_le s s.
Proof. by destruct (total text_le s s). Qed.

#[export] Instance text_le_trans : Transitive text_le.
Proof.
  intros s. induction s as [|c s IH]; intros [|d t] [|e u]; unfold text_le in *; simpl;
    intros; try done.
  repeat case_match; try done; try lia. eauto.
Qed.

#[export] Instance text_le_anti : AntiSymm eq text_le.
Proof.
  intros s. induction s as [|c s IH]; intros [|d t]; unfold text_le in *; simpl;
    intros; try done.
  repeat case_match; try done; try lia.
  f_equal; [apply byte_z_inj; lia|by apply IH].
Qed.

(** A time column refined by a text column orders totally. *)
Lemma lex_total (x y : Z) (P Q : Prop) :
  P ∨ Q → ((y < x)%Z ∨ x = y ∧ P) ∨ ((x < y)%Z ∨ y = x ∧ Q).
Proof. destruct (Z.lt_trichotomy x y) as [|[|]]; naive_solver. Qed.

(** ** LIKE *)

(** [lower]: SQLite folds ASCII only. *)
Definition lower : string → string := map_bytes ascii_lower.

#[global] Arguments lower s : simpl never.

Lemma lower_cons c s : lower (String c s) = String (ascii_lower c) (lower s).
Proof. done. Qed.

Inductive pattern_item :=
  | AnySequence
  | AnyOne
  | Literal (c : ascii).

(** A pattern read with ESCAPE '\'.  An escape that ends the pattern matches
    nothing; it is read as [None]. *)
Fixpoint read_pattern p : option (list pattern_item) :=
  match p with
  | EmptyString => Some []
  | String "%" p => cons AnySequence <$> read_pattern p
  | String "_" p => cons AnyOne <$> read_pattern p
  | String "\" EmptyString => None
  | String "\" (String c p) => cons (Literal c) <$> read_pattern p
  | String c p => cons (Literal c) <$> read_pattern p
  end.

(** Whether some suffix of [s] satisfies [f]. *)
Fixpoint some_suffix (f : string → bool) s : bool :=
  f s || match s with EmptyString => false | String _ s => some_suffix f s end.

Fixpoint match_pattern (l : list pattern_item) s : bool :=
  match l with
  | [] => bool_decide (s = "")
  | AnySequence :: l => some_suffix (match_pattern l) s
  | AnyOne :: l =>
      match decode_rune s with Some (_, s) => match_pattern l s | None => false end
  | Literal c :: l =>
      match s with
      | EmptyString => false
      | String d s => bool_decide (ascii_lower c = ascii_lower d) && match_pattern l s
      end
  end.

(** [text LIKE pattern ESCAPE '\'] *)
Definition like pattern text : bool :=
  match read_pattern pattern with
  | Some l => match_pattern l text
  | None => false
  end.

(** [escapeLike] of [internal/store/message_repo.go]: every metacharacter is
    preceded by the escape character, in one pass over the bytes. *)
Fixpoint escapeLike s : string :=
  match s with
  | EmptyString => ""
  | String c s =>
      if decide (c = "\"%char ∨ c = "%"%char ∨ c = "_"%char)
      then String "\" (String c (escapeLike s))
      else String c (escapeLike s)
  end.

(** The pattern every search builds around the text it looks for. *)
Definition containing q : string := "%" +:+ escapeLike q +:+ "%".

Fixpoint literals s : list pattern_item :=
  match s with EmptyString => [] | String c s => Literal c :: literals s end.

Lemma read_pattern_escape s p l :
  read_pattern p = Some l → read_pattern (escapeLike s +:+ p) = Some (literals s ++ l).
Proof.
  intros Hp. induction s as [|c s IH]; [done|]. simpl escapeLike. simpl literals.
  case_decide as Hc.
  - rewrite !sapp_cons. simpl. destruct Hc as [->|[->| ->]]; by rewrite IH.
  - rewrite sapp_cons. rewrite <- app_comm_cons.
    destruct c as [[] [] [] [] [] [] [] []]; try (simpl; rewrite IH; done);
      exfalso; apply Hc; auto.
Qed.

Lemma match_literals s t l :
  match_pattern (literals s ++ l) t = true ↔
  ∃ u v, t = u +:+ v ∧ lower u = lower s ∧ match_pattern l v = true.
Proof.
  revert t. induction s as [|c s IH]; intros t; simpl.
  - split; [intros H; by exists "", t|]. intros (u & v & -> & Hu & Hv).
    destruct u; [done|discriminate Hu].
  - destruct t as [|d t].
    + split; [done|]. intros (u & v & Ht & Hu & _). destruct u; [discriminate Hu|done].
    + rewrite andb_true_iff, bool_decide_eq_true, IH. split.
      * intros (Hc & u & v & -> & Hu & Hv). exists (String d u), v.
        rewrite !lower_cons, Hu, Hc. done.
      * intros (u & v & Ht & Hu & Hv). destruct u as [|e u]; [discriminate Hu|].
        rewrite sapp_cons in Ht. injection Ht as <- ->. rewrite !lower_cons in Hu.
        injection Hu as Hc Hu.
        split; [done|]. by exists u, v.
Qed.

Lemma some_suffix_spec f s : some_suffix f s = true ↔ ∃ u v, s = u +:+ v ∧ f v = true.
Proof.
  induction s as [|c s IH]; simpl.
  - rewrite orb_false_r. split; [intros H; by exists "", ""|].
    intros (u & v & Hs & Hv). by destruct u, v.
  - rewrite orb_true_iff, IH. split.
    + intros [H|(u & v & -> & Hv)]; [by exists "", (String c s)|by exists (String c u), v].
    + intros (u & v & Hs & Hv). destruct u as [|d u]; [left; by rewrite Hs|right].
      rewrite sapp_cons in Hs. injection Hs as <- ->. by exists u, v.
Qed.

Lemma lower_app s t : lower (s +:+ t) = lower s +:+ lower t.
Proof.
  induction s as [|c s IH]; [done|]. by rewrite sapp_cons, !lower_cons, IH, sapp_cons.
Qed.

Lemma lower_split s t u : lower s = t +:+ u → ∃ s1 s2, s = s1 +:+ s2 ∧ lower s1 = t ∧ lower s2 = u.
Proof.
  revert t. induction s as [|c s IH]; intros t H.
  - destruct t; [|discriminate H]. simpl in H. subst. by exists "", "".
  - destruct t as [|d t].
    + exists "", (String c s). done.
    + rewrite lower_cons in H. injection H as <- H. apply IH in H as (s1 & s2 & -> & <- & <-).
      by exists (String c s1), s2.
Qed.

(** A search pattern matches the texts that contain the query literally, up to
    the case of ASCII letters. *)
Lemma like_containing q s : like (containing q) s = contains (lower q) (lower s).
Proof.
  unfold like, containing.
  change ("%" +:+ escapeLike q +:+ "%") with (String "%" (escapeLike q +:+ "%")).
  simpl read_pattern. rewrite (read_pattern_escape q "%" [AnySequence]) by done.
  simpl. apply eq_iff_eq_true. rewrite some_suffix_spec, contains_spec.
  setoid_rewrite match_literals. split.
  - intros (a & b & -> & u & v & -> & Hu & _). exists (lower a), (lower v).
    by rewrite !lower_app, Hu.
  - intros (a & b & Hs). apply lower_split in Hs as (a' & s2 & -> & Ha & Hs).
    apply lower_split in Hs as (u & v & -> & Hu & Hv).
    exists a', (u +:+ v). split; [done|]. exists u, v. split_and!; [done..|].
    simpl. apply some_suffix_spec. exists v, "". by rewrite sapp_nil_r.
Qed.

Lemma lower_idem s : lower (lower s) = lower s.
Proof.
  induction s as [|c s IH]; [done|]. rewrite !lower_cons, IH. f_equal.
  unfold ascii_lower. destruct (is_upper_ascii c) eqn:E; [|by rewrite E].
  case_match; [|done].
  unfold is_upper_ascii, in_range in *. rewrite byte_z_byte in *; lia.
Qed.

(** Folding both sides of a LIKE first changes nothing. *)
Lemma escapeLike_lower q : lower (escapeLike q) = escapeLike (lower q).
Proof.
  induction q as [|c q IH]; [done|]. rewrite lower_cons. simpl escapeLike.
  assert (Hc : (c = "\"%char ∨ c = "%"%char ∨ c = "_"%char) ↔
          (ascii_lower c = "\"%char ∨ ascii_lower c = "%"%char ∨ ascii_lower c = "_"%char)).
  { destruct c as [[] [] [] [] [] [] [] []]; vm_compute;
      split; (intros [H|[H|H]]; first [discriminate H|auto]). }
  do 2 case_decide; try tauto; by rewrite !lower_cons, IH.
Qed.

Lemma like_lower q s : like (lower (containing q)) (lower s) = contains (lower q) (lower s).
Proof.
  assert (E : lower (containing q) = containing (lower q)).
  { unfold containing. rewrite !lower_app, escapeLike_lower. done. }
  rewrite E, like_containing, !lower_idem. done.
Qed.
