(* ===== verification/Store.v ===== *)
(** * The database ([internal/store/store.go], [internal/store/migrations])

    The tables of the gateway as finite maps from their keys, whatsmeow's
    index of addresses next to them, the integrity constraints of the schema
    as an invariant, and the order in which a database may grow. *)

From S2P Require Import Prelude GoText GoUnicode GoEff Models Sql.

(** ** Rows that differ from the Go structs *)

(** [api_keys]: the scopes are one comma-separated text column. *)
Record ApiKeyRow := {
  r_ID : string;
  r_TenantID : string;
  r_Name : string;
  r_KeyHash : string;
  r_KeyPrefix : string;
  r_Scopes : string;
  r_CreatedAt : Z;
  r_LastUsedAt : option Z;
  r_RevokedAt : option Z;
}.

#[export] Instance ApiKeyRow_eq_dec : EqDecision ApiKeyRow.
Proof. solve_decision. Defined.

Definition set_revoked (at_ : Z) (r : ApiKeyRow) : ApiKeyRow :=
  {| r_ID := r_ID r; r_TenantID := r_TenantID r; r_Name := r_Name r;
     r_KeyHash := r_KeyHash r; r_KeyPrefix := r_KeyPrefix r; r_Scopes := r_Scopes r;
     r_CreatedAt := r_CreatedAt r; r_LastUsedAt := r_LastUsedAt r;
     r_RevokedAt := Some at_ |}.

Definition set_used (at_ : Z) (r : ApiKeyRow) : ApiKeyRow :=
  {| r_ID := r_ID r; r_TenantID := r_TenantID r; r_Name := r_Name r;
     r_KeyHash := r_KeyHash r; r_KeyPrefix := r_KeyPrefix r; r_Scopes := r_Scopes r;
     r_CreatedAt := r_CreatedAt r; r_LastUsedAt := Some at_;
     r_RevokedAt := r_RevokedAt r |}.

(** [chats], whose primary key is the tenant and the address *)
Record ChatRow := {
  h_Name : string;
  h_UpdatedAt : Z;
}.

(** ** The state

    [lid_map] is whatsmeow's table [whatsmeow_lid_map], from LID to phone
    number, absent until whatsmeow has upgraded its own schema; the gateway
    only reads it.  [lid_ready] is the flag a message repository keeps once it
    has seen the table.  [applied] is [wc_schema_migrations]. *)
Record db := {
  tenants : gmap string Tenant;
  api_keys : gmap string ApiKeyRow;
  sessions : gmap string Session;            (* by tenant: UNIQUE (tenant_id) *)
  messages : gmap string Message;
  chats : gmap (string * string) ChatRow;
  lid_map : option (gmap string string);
  lid_ready : bool;
  applied : gset string;
}.

Definition empty_db : db :=
  {| tenants := ∅; api_keys := ∅; sessions := ∅; messages := ∅; chats := ∅;
     lid_map := None; lid_ready := false; applied := ∅ |}.

Definition set_tenants (v : gmap string Tenant) (s : db) : db :=
  {| tenants := v; api_keys := api_keys s; sessions := sessions s; messages := messages s;
     chats := chats s; lid_map := lid_map s; lid_ready := lid_ready s; applied := applied s |}.
Definition set_api_keys (v : gmap string ApiKeyRow) (s : db) : db :=
  {| tenants := tenants s; api_keys := v; sessions := sessions s; messages := messages s;
     chats := chats s; lid_map := lid_map s; lid_ready := lid_ready s; applied := applied s |}.
Definition set_sessions (v : gmap string Session) (s : db) : db :=
  {| tenants := tenants s; api_keys := api_keys s; sessions := v; messages := messages s;
     chats := chats s; lid_map := lid_map s; lid_ready := lid_ready s; applied := applied s |}.
Definition set_messages (v : gmap string Message) (s : db) : db :=
  {| tenants := tenants s; api_keys := api_keys s; sessions := sessions s; messages := v;
     chats := chats s; lid_map := lid_map s; lid_ready := lid_ready s; applied := applied s |}.
Definition set_chats (v : gmap (string * string) ChatRow) (s : db) : db :=
  {| tenants := tenants s; api_keys := api_keys s; sessions := sessions s;
     messages := messages s; chats := v; lid_map := lid_map s; lid_ready := lid_ready s;
     applied := applied s |}.
Definition set_lid_ready (v : bool) (s : db) : db :=
  {| tenants := tenants s; api_keys := api_keys s; sessions := sessions s;
     messages := messages s; chats := chats s; lid_map := lid_map s; lid_ready := v;
     applied := applied s |}.
Definition set_applied (v : gset string) (s : db) : db :=
  {| tenants := tenants s; api_keys := api_keys s; sessions := sessions s;
     messages := messages s; chats := chats s; lid_map := lid_map s;
     lid_ready := lid_ready s; applied := v |}.

(** ** Reading a result set

    [QueryContext] may fail, scanning a row may fail, and [rows.Err] may
    report a failure at the end. *)
Definition read_rows `{Oracle} {A} (what scan : string) (q : db → list A)
    : eff db (result (list A)) :=
  (try! found := query q or Wrap what in
   try! _ := (if found is [] then ret (Ok ()) else driver) or Wrap scan in
   try! _ := driver in
   ret (Ok found))%go.

(** [QueryRowContext(...).Scan]: the first row, or [sql.ErrNoRows]. *)
Definition read_row `{Oracle} {A} (what : string) (q : db → option A)
    : eff db (result A) :=
  (try! found := query q or Wrap what in
   ret (match found with Some a => Ok a | None => Err (Sentinel ErrNotFound) end))%go.

(** [res.RowsAffected()] of an UPDATE that must have found a row. *)
Definition affected_some `{Oracle} (what : string) (n : nat) : eff db (result ()) :=
  (try! _ := driver or Wrap what in
   ret (if bool_decide (n = 0) then Err (Sentinel ErrNotFound) else Ok ()))%go.

(** ** Integrity *)

Record wf (s : db) : Prop := {
  wf_tenants : ∀ id t, tenants s !! id = Some t → t_ID t = id ∧ id ≠ "";
  wf_keys : ∀ id r, api_keys s !! id = Some r →
    r_ID r = id ∧ id ≠ "" ∧ r_KeyHash r ≠ "" ∧ is_Some (tenants s !! r_TenantID r);
  wf_key_hash : ∀ i j r q, api_keys s !! i = Some r → api_keys s !! j = Some q →
    r_KeyHash r = r_KeyHash q → i = j;
  wf_sessions : ∀ tid x, sessions s !! tid = Some x →
    s_TenantID x = tid ∧ is_Some (tenants s !! tid) ∧ status_Valid (s_Status x) = true;
  wf_messages : ∀ id m, messages s !! id = Some m →
    m_ID m = id ∧ is_Some (tenants s !! m_TenantID m) ∧ m_ChatJID m ≠ "" ∧
    m_WAMessageID m ≠ "" ∧ direction_Valid (m_Direction m) = true;
  wf_wa_id : ∀ i j m o, messages s !! i = Some m → messages s !! j = Some o →
    m_TenantID m = m_TenantID o → m_WAMessageID m = m_WAMessageID o → i = j;
  wf_chats : ∀ k h, chats s !! k = Some h →
    is_Some (tenants s !! k.1) ∧ h_Name h ≠ "";
  wf_lid_ready : lid_ready s = true → is_Some (lid_map s);
}.

Lemma wf_empty : wf empty_db.
Proof. split; intros *; simpl; rewrite ?lookup_empty; done. Qed.

(** ** Growth

    Nothing the repositories do removes a row: tenants are immutable, an API
    key keeps everything but its last use and never loses a revocation, a
    session keeps its identity, a message changes in its media bookkeeping
    only.  whatsmeow's table is never written. *)
Record key_le (r q : ApiKeyRow) : Prop := {
  key_le_id : r_ID q = r_ID r;
  key_le_tenant : r_TenantID q = r_TenantID r;
  key_le_hash : r_KeyHash q = r_KeyHash r;
  key_le_scopes : r_Scopes q = r_Scopes r;
  key_le_revoked : is_Some (r_RevokedAt r) → r_RevokedAt q = r_RevokedAt r;
}.

Definition table_le {K V} `{Countable K} (R : relation V) (m1 m2 : gmap K V) : Prop :=
  ∀ k v, m1 !! k = Some v → ∃ w, m2 !! k = Some w ∧ R v w.

Definition session_le (x y : Session) : Prop :=
  s_ID y = s_ID x ∧ s_TenantID y = s_TenantID x ∧ s_CreatedAt y = s_CreatedAt x.

Record db_le (s s' : db) : Prop := {
  le_tenants : table_le eq (tenants s) (tenants s');
  le_keys : table_le key_le (api_keys s) (api_keys s');
  le_sessions : table_le session_le (sessions s) (sessions s');
  le_messages : table_le same_message (messages s) (messages s');
  le_lid_map : lid_map s' = lid_map s;
  le_applied : applied s' = applied s;
}.

#[export] Instance key_le_preorder : PreOrder key_le.
Proof.
  split; [by split|]. intros r1 r2 r3 [] []. split; try congruence.
  intros H. rewrite key_le_revoked1; [auto|]. by rewrite key_le_revoked0.
Qed.

#[export] Instance session_le_preorder : PreOrder session_le.
Proof. split; [by intros ?|]. unfold session_le. intros ???. naive_solver congruence. Qed.

#[export] Instance table_le_preorder {K V} `{Countable K} (R : relation V) `{!PreOrder R} :
  PreOrder (table_le (K := K) R).
Proof.
  split.
  - intros m k v Hk. exists v. split; [done|reflexivity].
  - intros m1 m2 m3 H1 H2 k v Hk. destruct (H1 k v Hk) as (w & Hw & HR).
    destruct (H2 k w Hw) as (u & Hu & HR'). exists u. split; [done|by etrans].
Qed.

#[export] Instance db_le_preorder : PreOrder db_le.
Proof.
  split.
  - intros s. split; reflexivity.
  - intros s1 s2 s3 [] []. split; (etrans; [done..|]; try done); congruence.
Qed.

Lemma table_le_insert {K V} `{Countable K} (R : relation V) `{!PreOrder R}
    (m : gmap K V) k v :
  (∀ u, m !! k = Some u → R u v) → table_le R m (<[k:=v]> m).
Proof.
  intros Hk i u Hi. destruct (decide (i = k)) as [->|Hne].
  - exists v. rewrite lookup_insert_eq. auto.
  - exists u. rewrite lookup_insert_ne by done. split; [done|reflexivity].
Qed.

Lemma table_le_update {K V} `{Countable K} (R : relation V) `{!PreOrder R}
    (P : V → Prop) `{∀ v, Decision (P v)} f (m : gmap K V) :
  (∀ v, P v → R v (f v)) → table_le R m (update_where P f m).
Proof.
  intros Hf k v Hk. rewrite update_where_lookup, Hk. eexists. split; [done|].
  case_decide; [auto|reflexivity].
Qed.

(** ** Reads and writes on tenants

    A read leaves every table alone; it may only learn that whatsmeow's index
    has appeared. *)
Definition same_tables (s s' : db) : Prop :=
  s' = s ∨ s' = set_lid_ready true s ∧ is_Some (lid_map s).

#[export] Instance same_tables_preorder : PreOrder same_tables.
Proof.
  split; [by left|]. intros s1 s2 s3 [->|[-> H1]] [->|[-> H2]]; unfold same_tables; auto.
Qed.

Lemma same_tables_le s s' : same_tables s s' → db_le s s'.
Proof. intros [->|[-> _]]; [done|]. split; done. Qed.

Lemma same_tables_wf s s' : same_tables s s' → wf s → wf s'.
Proof. intros [->|[-> H]] []; [by split|]. split; done. Qed.

(** Two databases that hold the same data of one tenant. *)
Record tenant_data (tid : string) (s1 s2 : db) : Prop := {
  td_tenant : tenants s1 !! tid = tenants s2 !! tid;
  td_keys : where_ (λ r, r_TenantID r = tid) (api_keys s1)
          = where_ (λ r, r_TenantID r = tid) (api_keys s2);
  td_session : sessions s1 !! tid = sessions s2 !! tid;
  td_messages : where_ (λ m, m_TenantID m = tid) (messages s1)
              = where_ (λ m, m_TenantID m = tid) (messages s2);
  td_chats : filter (λ kh, kh.1.1 = tid) (chats s1)
           = filter (λ kh, kh.1.1 = tid) (chats s2);
}.

(** ... and see the same index of addresses. *)
Record same_tenant (tid : string) (s1 s2 : db) : Prop := {
  st_data : tenant_data tid s1 s2;
  st_lid_map : lid_map s1 = lid_map s2;
  st_lid_ready : lid_ready s1 = lid_ready s2;
}.

#[export] Instance tenant_data_preorder tid : PreOrder (tenant_data tid).
Proof.
  split; [by split|]. intros s1 s2 s3 [] []. split; by etrans.
Qed.

(** A write on behalf of one tenant leaves every other tenant's data alone. *)
Definition only_tenant (tid : string) (s s' : db) : Prop :=
  ∀ other, other ≠ tid → same_tenant other s s'.

#[export] Instance same_tenant_preorder tid : PreOrder (same_tenant tid).
Proof.
  split; [by intros s; split|]. intros s1 s2 s3 [] []. split; by etrans.
Qed.

#[export] Instance only_tenant_preorder tid : PreOrder (only_tenant tid).
Proof.
  split; [by intros s other _|]. intros s1 s2 s3 H1 H2 other Hne. by etrans; [apply H1|apply H2].
Qed.

(** Every write of the repositories: rows are never lost, and the integrity
    constraints survive. *)
Definition sound (s s' : db) : Prop := db_le s s' ∧ (wf s → wf s').

#[export] Instance sound_preorder : PreOrder sound.
Proof.
  split; [split; [reflexivity|done]|]. intros s1 s2 s3 [H1 W1] [H2 W2].
  split; [by etrans|auto].
Qed.

Lemma same_tables_sound s s' : same_tables s s' → sound s s'.
Proof. intros H. split; [by apply same_tables_le|intros; by eapply same_tables_wf]. Qed.

Lemma same_tables_data tid s s' : same_tables s s' → tenant_data tid s s'.
Proof. intros [->|[-> _]]; [done|]. by split. Qed.

(** Rows outside a WHERE clause. *)
Lemma where_insert_not {K V} `{Countable K} (P : V → Prop) `{∀ v, Decision (P v)}
    (m : gmap K V) k v :
  ¬ P v → (∀ u, m !! k = Some u → ¬ P u) → where_ P (<[k:=v]> m) = where_ P m.
Proof.
  intros Hv Hu. apply map_eq. intros i. apply option_eq. intros w.
  rewrite !where_lookup. destruct (decide (i = k)) as [->|Hne].
  - rewrite lookup_insert_eq. naive_solver.
  - by rewrite lookup_insert_ne.
Qed.

Lemma where_update_not {K V} `{Countable K} (P Q : V → Prop)
    `{∀ v, Decision (P v), ∀ v, Decision (Q v)} f (m : gmap K V) :
  (∀ v, P v → Q (f v) ↔ Q v) → (∀ v, P v → ¬ Q v) →
  where_ Q (update_where P f m) = where_ Q m.
Proof.
  intros Hf HQ. apply map_eq. intros i. apply option_eq. intros w.
  rewrite !where_lookup, update_where_lookup, fmap_Some. split.
  - intros [(v & Hv & ->) Hq]. case_decide as HP; [|done].
    exfalso. apply (HQ v HP). by apply Hf.
  - intros [Hw Hq]. split; [|done]. exists w. split; [done|].
    case_decide as HP; [|done]. by destruct (HQ w HP).
Qed.

Section reading.
Context `{Oracle}.

Lemma evolves_read_rows {A} (R : relation db) `{!PreOrder R} what scan (q : db → list A) :
  evolves R (read_rows what scan q).
Proof.
  unfold read_rows. apply evolves_try; [done|apply evolves_query; done|]. intros [|a l].
  all: repeat (apply evolves_try; [done|first [apply evolves_ret; done|apply evolves_driver; done]|intros ?]).
  all: by apply evolves_ret.
Qed.

Lemma evolves_read_row {A} (R : relation db) `{!PreOrder R} what (q : db → option A) :
  evolves R (read_row what q).
Proof.
  unfold read_row. apply evolves_try; [done|by apply evolves_query|].
  intros. by apply evolves_ret.
Qed.

Lemma evolves_affected_some (R : relation db) `{!PreOrder R} what n :
  evolves R (affected_some what n).
Proof.
  unfold affected_some. apply evolves_try; [done|by apply evolves_driver|].
  intros. by apply evolves_ret.
Qed.

Lemma agrees_read_rows {A} (E : relation db) what scan (q : db → list A) :
  (∀ s1 s2, E s1 s2 → q s1 = q s2) → agrees E (read_rows what scan q).
Proof.
  intros Hq. unfold read_rows. apply agrees_try; [by apply agrees_query|]. intros [|a l].
  all: repeat (apply agrees_try; [first [apply agrees_ret|apply agrees_driver]|intros ?]).
  all: apply agrees_ret.
Qed.

Lemma agrees_read_row {A} (E : relation db) what (q : db → option A) :
  (∀ s1 s2, E s1 s2 → q s1 = q s2) → agrees E (read_row what q).
Proof.
  intros Hq. unfold read_row. apply agrees_try; [by apply agrees_query|].
  intros. apply agrees_ret.
Qed.

(** What a read answers when the driver does not fail. *)
Lemma read_rows_Ok {A} what scan (q : db → list A) n s l :
  answer (read_rows what scan q) n s = Ok l → l = q s.
Proof.
  unfold read_rows. run. destruct (o_sql n); simpl; [done|].
  destruct (q s) as [|a l'] eqn:E; simpl; repeat (case_match; simplify_eq/=; try done); congruence.
Qed.

Lemma read_rows_answer {A} what scan (q : db → list A) n s :
  answering → answer (read_rows what scan q) n s = Ok (q s).
Proof.
  intros Ha. unfold read_rows. run. rewrite Ha. simpl.
  destruct (q s); simpl; by rewrite ?Ha; simpl; rewrite ?Ha.
Qed.

Lemma read_row_answer {A} what (q : db → option A) n s :
  answering →
  answer (read_row what q) n s =
  match q s with Some a => Ok a | None => Err (Sentinel ErrNotFound) end.
Proof. intros Ha. unfold read_row. run. by rewrite Ha. Qed.

Lemma read_row_Ok {A} what (q : db → option A) n s a :
  answer (read_row what q) n s = Ok a → q s = Some a.
Proof.
  unfold read_row. run. destruct (o_sql n); simpl; [done|].
  destruct (q s); simpl; congruence.
Qed.

Lemma read_row_NotFound {A} what (q : db → option A) n s :
  answer (read_row what q) n s = Err (Sentinel ErrNotFound) → q s = None.
Proof.
  unfold read_row. run. destruct (o_sql n); simpl; [done|]. by destruct (q s).
Qed.
End reading.

#[export] Hint Resolve evolves_read_rows evolves_read_row evolves_affected_some : evolves.
