(* ===== verification/TenantRepo.v ===== *)
(** * Tenants ([internal/store/tenant_repo.go]) *)

From S2P Require Import Prelude GoText GoUnicode GoEff Models Sql Store.

(** [ORDER BY created_at ASC, id ASC] *)
Definition tenant_order (a b : Tenant) : Prop :=
  (t_CreatedAt a < t_CreatedAt b)%Z ∨
  t_CreatedAt a = t_CreatedAt b ∧ text_le (t_ID a) (t_ID b).

#[export] Instance tenant_order_dec a b : Decision (tenant_order a b).
Proof. unfold tenant_order. apply _. Defined.

Section tenant.
Context `{Oracle}.

Definition insert_tenant (t : Tenant) (s : db) : option (nat * db) :=
  match tenants s !! t_ID t with
  | Some _ => None
  | None => Some (1, set_tenants (<[t_ID t := t]> (tenants s)) s)
  end.

Definition Create (t : Tenant) : eff db (result ()) :=
  (if decide (t_ID t = "") then ret (Err (New "store: tenant id is required"))
   else
     let! created := (if IsZero (t_CreatedAt t) then now else ret (t_CreatedAt t)) in
     try! _ := exec (insert_tenant {| t_ID := t_ID t; t_Name := t_Name t;
                                      t_CreatedAt := created |})
       or Wrap "store: create tenant" in
     ret (Ok ()))%go.

Definition Get (id : string) : eff db (result Tenant) :=
  read_row "store: get tenant" (λ s, tenants s !! id).

Definition List_ : eff db (result (list Tenant)) :=
  read_rows "store: list tenants" "store: scan tenant"
    (λ s, merge_sort tenant_order (rows (tenants s))).

(** ** What creating a tenant does *)

Lemma insert_tenant_sound t s a s' :
  t_ID t ≠ "" → insert_tenant t s = Some (a, s') → sound s s'.
Proof.
  intros Hid. unfold insert_tenant. case_match eqn:E; [done|]. intros [= <- <-]. split.
  - split; try reflexivity. simpl. apply (table_le_insert eq). congruence.
  - intros Hwf.
    assert (Hk : ∀ i, is_Some (tenants s !! i) → is_Some (<[t_ID t:=t]> (tenants s) !! i))
      by (intros; apply lookup_insert_is_Some'; auto).
    split; simpl; try apply Hwf.
    + intros id u [[<- <-]|[_ Hu]]%lookup_insert_Some; [done|by eapply wf_tenants].
    + intros id r Hr. destruct (wf_keys _ Hwf id r Hr) as (?&?&?&?). auto.
    + intros id x Hx. destruct (wf_sessions _ Hwf id x Hx) as (?&?&?). auto.
    + intros id m Hm. destruct (wf_messages _ Hwf id m Hm) as (?&?&?&?&?). auto 6.
    + intros k h Hh. destruct (wf_chats _ Hwf k h Hh) as (?&?). auto.
Qed.

Lemma insert_tenant_only t s a s' :
  insert_tenant t s = Some (a, s') → only_tenant (t_ID t) s s'.
Proof.
  unfold insert_tenant. case_match eqn:E; [done|]. intros [= <- <-] other Hne.
  split; [split|..]; simpl; try done. by rewrite lookup_insert_ne.
Qed.

Lemma tenant_Create_evolves (R : relation db) `{!PreOrder R} t :
  (∀ u s a s', t_ID u = t_ID t → t_ID u ≠ "" → insert_tenant u s = Some (a, s') → R s s') →
  evolves R (Create t).
Proof.
  intros HR. unfold Create. case_decide as Hid; evolve. by eapply HR; [..|eassumption].
Qed.

Lemma tenant_Create_sound t : evolves sound (Create t).
Proof. apply tenant_Create_evolves; [apply _|]. intros. by eapply insert_tenant_sound. Qed.

Lemma tenant_Create_only t : evolves (only_tenant (t_ID t)) (Create t).
Proof.
  apply tenant_Create_evolves; [apply _|]. intros u s a s' <- _. apply insert_tenant_only.
Qed.

Lemma tenant_Get_agrees tid : agrees (same_tenant tid) (Get tid).
Proof. apply agrees_read_row. intros s1 s2 [[] _ _]. done. Qed.
End tenant.
