(* ===== verification/ApiKeyRepo.v ===== *)
(** * API keys ([internal/store/apikey_repo.go]) *)

From S2P Require Import Prelude GoText GoUnicode GoEff Scope Models Sql Store.

(** [ORDER BY created_at ASC, id ASC] *)
Definition key_order (a b : ApiKeyRow) : Prop :=
  (r_CreatedAt a < r_CreatedAt b)%Z ∨
  r_CreatedAt a = r_CreatedAt b ∧ text_le (r_ID a) (r_ID b).

#[export] Instance key_order_dec a b : Decision (key_order a b).
Proof. unfold key_order. apply _. Defined.

Definition scanAPIKey (r : ApiKeyRow) : APIKey :=
  {| k_ID := r_ID r; k_TenantID := r_TenantID r; k_Name := r_Name r;
     k_KeyHash := r_KeyHash r; k_KeyPrefix := r_KeyPrefix r;
     k_Scopes := ParseScopes (r_Scopes r); k_CreatedAt := r_CreatedAt r;
     k_LastUsedAt := r_LastUsedAt r; k_RevokedAt := r_RevokedAt r |}.

Definition live_with_hash (hash : string) (r : ApiKeyRow) : Prop :=
  r_KeyHash r = hash ∧ r_RevokedAt r = None.

Definition revocable (tenantID keyID : string) (r : ApiKeyRow) : Prop :=
  r_ID r = keyID ∧ r_TenantID r = tenantID ∧ r_RevokedAt r = None.

#[export] Instance live_with_hash_dec hash r : Decision (live_with_hash hash r).
Proof. unfold live_with_hash. apply _. Defined.
#[export] Instance revocable_dec tenantID keyID r : Decision (revocable tenantID keyID r).
Proof. unfold revocable. apply _. Defined.

Section apikey.
Context `{Oracle}.

(** The INSERT: a repeated id or hash and an unknown tenant are refused. *)
Definition insert_key (r : ApiKeyRow) (s : db) : option (nat * db) :=
  if decide (is_Some (api_keys s !! r_ID r)) then None
  else if decide (where_ (λ q, r_KeyHash q = r_KeyHash r) (api_keys s) = ∅)
  then if decide (is_Some (tenants s !! r_TenantID r))
       then Some (1, set_api_keys (<[r_ID r := r]> (api_keys s)) s)
       else None
  else None.

Definition Create (k : APIKey) : eff db (result ()) :=
  (if decide (k_ID k = "") then ret (Err (New "store: api key id is required"))
   else if decide (k_TenantID k = "")
   then ret (Err (New "store: api key tenant id is required"))
   else if decide (k_KeyHash k = "") then ret (Err (New "store: api key hash is required"))
   else
     let! created := (if IsZero (k_CreatedAt k) then now else ret (k_CreatedAt k)) in
     try! _ := exec (insert_key
        {| r_ID := k_ID k; r_TenantID := k_TenantID k; r_Name := k_Name k;
           r_KeyHash := k_KeyHash k; r_KeyPrefix := k_KeyPrefix k;
           r_Scopes := FormatScopes (k_Scopes k); r_CreatedAt := created;
           r_LastUsedAt := None; r_RevokedAt := None |}) or Wrap "store: create api key" in
     ret (Ok ()))%go.

Definition find_live (hash : string) (s : db) : option APIKey :=
  scanAPIKey <$> head (rows (where_ (live_with_hash hash) (api_keys s))).

Definition GetByHash (keyHash : string) : eff db (result APIKey) :=
  if decide (keyHash = "") then ret (Err (Sentinel ErrNotFound))
  else read_row "store: get api key" (find_live keyHash).

Definition ListByTenant (tenantID : string) : eff db (result (list APIKey)) :=
  read_rows "store: list api keys" "store: scan api key" (λ s,
    scanAPIKey <$> merge_sort key_order (rows (where_ (λ r, r_TenantID r = tenantID) (api_keys s)))).

Definition update_keys (P : ApiKeyRow → Prop) `{∀ r, Decision (P r)} (f : ApiKeyRow → ApiKeyRow)
    (s : db) : option (nat * db) :=
  Some (size (where_ P (api_keys s)), set_api_keys (update_where P f (api_keys s)) s).

Definition Revoke (tenantID keyID : string) : eff db (result ()) :=
  (let! t := now in
   try! affected := exec (update_keys (revocable tenantID keyID) (set_revoked t))
     or Wrap "store: revoke api key" in
   affected_some "store: revoke api key" affected)%go.

Definition MarkUsed (keyID : string) : eff db (result ()) :=
  (let! t := now in
   try! _ := exec (update_keys (λ r, r_ID r = keyID) (set_used t))
     or Wrap "store: mark api key used" in
   ret (Ok ()))%go.

(** ** Soundness of the statements *)

Lemma insert_key_Some r s a s' :
  insert_key r s = Some (a, s') →
  api_keys s !! r_ID r = None ∧
  (∀ i q, api_keys s !! i = Some q → r_KeyHash q ≠ r_KeyHash r) ∧
  is_Some (tenants s !! r_TenantID r) ∧ s' = set_api_keys (<[r_ID r := r]> (api_keys s)) s.
Proof.
  unfold insert_key. repeat case_decide; try done. intros [= <- <-].
  rewrite <- eq_None_not_Some in *. split_and!; try done. exact (proj1 (where_none _ _) H1).
Qed.

Lemma insert_key_sound r s a s' :
  r_ID r ≠ "" → r_KeyHash r ≠ "" → insert_key r s = Some (a, s') → sound s s'.
Proof.
  intros Hid Hh (Hnew & Huniq & Ht & ->)%insert_key_Some. split.
  - split; try reflexivity. simpl. apply table_le_insert; [apply _|]. congruence.
  - intros Hwf. split; simpl; try apply Hwf.
    + intros id q [[<- <-]|[_ Hq]]%lookup_insert_Some; [done|by eapply wf_keys].
    + intros i j q1 q2 [[<- <-]|[_ H1]]%lookup_insert_Some [[<- <-]|[_ H2]]%lookup_insert_Some Heq.
      * done.
      * by destruct (Huniq j q2 H2).
      * by destruct (Huniq i q1 H1).
      * by eapply wf_key_hash.
Qed.

Lemma insert_key_only r s a s' :
  insert_key r s = Some (a, s') → only_tenant (r_TenantID r) s s'.
Proof.
  intros (Hnew & _ & _ & ->)%insert_key_Some other Hne. split; [split|..]; simpl; try done.
  symmetry. apply where_insert_not; congruence.
Qed.

Lemma update_keys_sound (P : ApiKeyRow → Prop) `{∀ r, Decision (P r)} f s a s' :
  (∀ r, P r → key_le r (f r)) → update_keys P f s = Some (a, s') → sound s s'.
Proof.
  intros Hf [= <- <-]. split.
  - split; try reflexivity. simpl. by apply table_le_update; [apply _|].
  - intros Hwf.
    assert (Hg : ∀ id q, update_where P f (api_keys s) !! id = Some q →
              ∃ r, api_keys s !! id = Some r ∧ key_le r q).
    { intros id q (r & Hr & ->)%update_where_Some. exists r. split; [done|].
      case_decide; [auto|reflexivity]. }
    split; simpl; try apply Hwf.
    + intros id q Hq. destruct (Hg id q Hq) as (r & Hr & []).
      pose proof (wf_keys _ Hwf id r Hr). congruence.
    + intros i j q1 q2 H1 H2 Heq.
      destruct (Hg i q1 H1) as (r1 & Hr1 & []), (Hg j q2 H2) as (r2 & Hr2 & []).
      eapply wf_key_hash; [done..|congruence].
Qed.

Lemma update_keys_only (P : ApiKeyRow → Prop) `{∀ r, Decision (P r)} f tid s a s' :
  (∀ r, P r → r_TenantID r = tid ∧ r_TenantID (f r) = tid) →
  update_keys P f s = Some (a, s') → only_tenant tid s s'.
Proof.
  intros Hf [= <- <-] other Hne. split; [split|..]; simpl; try done. symmetry.
  apply where_update_not; intros r HP; destruct (Hf r HP) as [H1 H2]; [split|intros ?]; congruence.
Qed.

Lemma set_revoked_le t tid kid r : revocable tid kid r → key_le r (set_revoked t r).
Proof. intros (_ & _ & Hr). split; try done. rewrite Hr. by intros [? ?]. Qed.

Lemma set_used_le t r : key_le r (set_used t r).
Proof. by split. Qed.

(** ** The operations *)

Lemma key_Create_evolves (R : relation db) `{!PreOrder R} k :
  (∀ r s a s', r_TenantID r = k_TenantID k → r_ID r ≠ "" → r_KeyHash r ≠ "" →
     insert_key r s = Some (a, s') → R s s') →
  evolves R (Create k).
Proof.
  intros HR. unfold Create. do 3 (case_decide; [by apply evolves_ret|]). evolve.
  by eapply HR; [..|eassumption].
Qed.

Lemma key_Create_sound k : evolves sound (Create k).
Proof. apply key_Create_evolves; [apply _|]. intros. by eapply insert_key_sound. Qed.

Lemma key_Create_only k : evolves (only_tenant (k_TenantID k)) (Create k).
Proof.
  apply key_Create_evolves; [apply _|]. intros r s a s' <- _ _. apply insert_key_only.
Qed.

Lemma Revoke_sound tid kid : evolves sound (Revoke tid kid).
Proof.
  unfold Revoke. evolve. eapply update_keys_sound; [|done]. intros. by eapply set_revoked_le.
Qed.

Lemma Revoke_only tid kid : evolves (only_tenant tid) (Revoke tid kid).
Proof.
  unfold Revoke. evolve. eapply update_keys_only; [|done]. intros r (_ & Ht & _). done.
Qed.

Lemma MarkUsed_sound kid : evolves sound (MarkUsed kid).
Proof. unfold MarkUsed. evolve. eapply update_keys_sound; [|done]. intros. apply set_used_le. Qed.

(** Marking a key used touches the row of that key alone. *)
Lemma MarkUsed_only kid r n s :
  wf s → api_keys s !! kid = Some r → only_tenant (r_TenantID r) s (final (MarkUsed kid) n s).
Proof.
  intros Hwf Hr other Hne. unfold MarkUsed, update_keys. run.
  destruct (o_sql (S n)); simpl; [done|].
  split; [split|..]; simpl; try done. symmetry. apply map_eq. intros i. apply option_eq. intros q.
  rewrite !where_lookup, update_where_lookup, fmap_Some. split.
  - intros [(v & Hv & ->) Hq]. case_decide as Hid; [|done].
    destruct (wf_keys _ Hwf _ _ Hv) as [Hi _]. rewrite <- Hi, Hid, Hr in Hv. simplify_eq/=.
  - intros [Hq Ht]. split; [|done]. exists q. split; [done|]. case_decide as Hid; [|done].
    destruct (wf_keys _ Hwf _ _ Hq) as [Hi _]. rewrite <- Hi, Hid, Hr in Hq. congruence.
Qed.

(** ... and in that row the time of its last use alone. *)
Definition forget_use (r : ApiKeyRow) : ApiKeyRow :=
  {| r_ID := r_ID r; r_TenantID := r_TenantID r; r_Name := r_Name r; r_KeyHash := r_KeyHash r;
     r_KeyPrefix := r_KeyPrefix r; r_Scopes := r_Scopes r; r_CreatedAt := r_CreatedAt r;
     r_LastUsedAt := None; r_RevokedAt := r_RevokedAt r |}.

Definition but_use (s s' : db) : Prop :=
  set_api_keys (forget_use <$> api_keys s') s' = set_api_keys (forget_use <$> api_keys s) s.

#[export] Instance but_use_preorder : PreOrder but_use.
Proof. split; [done|]. unfold but_use. intros s1 s2 s3. congruence. Qed.

Lemma MarkUsed_but_use kid : evolves but_use (MarkUsed kid).
Proof.
  unfold MarkUsed, update_keys. evolve. simplify_eq. unfold but_use, set_api_keys. simpl. f_equal.
  apply map_eq. intros i. rewrite !lookup_fmap, update_where_lookup.
  destruct (api_keys _ !! i) as [r|]; simpl; [|done]. by case_decide.
Qed.

Lemma GetByHash_reads hash : reads (GetByHash hash).
Proof. unfold reads, GetByHash. case_decide; eauto with evolves. Qed.

Lemma ListByTenant_reads tid : reads (ListByTenant tid).
Proof. unfold reads, ListByTenant. eauto with evolves. Qed.

Lemma ListByTenant_agrees tid : agrees (same_tenant tid) (ListByTenant tid).
Proof. apply agrees_read_rows. intros s1 s2 [[_ Hk _ _ _] _ _]. by rewrite Hk. Qed.

(** ** Looking keys up *)

Lemma find_live_Some hash s k :
  find_live hash s = Some k →
  ∃ id r, api_keys s !! id = Some r ∧ r_KeyHash r = hash ∧ r_RevokedAt r = None ∧
    k = scanAPIKey r.
Proof.
  unfold find_live. intros (r & Hr & ->)%fmap_Some.
  apply head_Some_elem_of, elem_of_where in Hr as [[id Hid] []]. eauto 6.
Qed.

(** Two live rows never share a hash, so the lookup is exact. *)
Lemma find_live_found hash s id r :
  wf s → api_keys s !! id = Some r → r_KeyHash r = hash → r_RevokedAt r = None →
  find_live hash s = Some (scanAPIKey r).
Proof.
  intros Hwf Hr Hh Hl.
  assert (Hin : r ∈ rows (where_ (live_with_hash hash) (api_keys s)))
    by (apply elem_of_where; split; [eauto|done]).
  destruct (find_live hash s) as [k|] eqn:E.
  - apply find_live_Some in E as (j & q & Hq & Hqh & _ & ->).
    assert (id = j) as <- by (eapply wf_key_hash; [done..|congruence]). congruence.
  - unfold find_live in E. apply fmap_None in E. destruct (rows _); [|done].
    by apply elem_of_nil in Hin.
Qed.

Lemma find_live_gone hash s id r :
  wf s → api_keys s !! id = Some r → r_KeyHash r = hash → is_Some (r_RevokedAt r) →
  find_live hash s = None.
Proof.
  intros Hwf Hr Hh [t Ht]. destruct (find_live hash s) as [k|] eqn:E; [|done].
  apply find_live_Some in E as (j & q & Hq & Hqh & Hql & ->).
  assert (id = j) as <- by (eapply wf_key_hash; [done..|congruence]). congruence.
Qed.

Lemma GetByHash_Ok hash n s k :
  answer (GetByHash hash) n s = Ok k → hash ≠ "" ∧ find_live hash s = Some k.
Proof.
  unfold GetByHash. case_decide; [done|]. intros Hk%read_row_Ok. done.
Qed.

(** What a successful creation leaves behind. *)
Lemma key_Create_Ok k n s :
  answer (Create k) n s = Ok () →
  ∃ created, k_KeyHash k ≠ "" ∧
    api_keys (final (Create k) n s) !! k_ID k =
    Some {| r_ID := k_ID k; r_TenantID := k_TenantID k; r_Name := k_Name k;
            r_KeyHash := k_KeyHash k; r_KeyPrefix := k_KeyPrefix k;
            r_Scopes := FormatScopes (k_Scopes k); r_CreatedAt := created;
            r_LastUsedAt := None; r_RevokedAt := None |}.
Proof.
  unfold Create. do 3 (case_decide; [done|]). rewrite bind_answer, bind_final.
  generalize (answer (if IsZero (k_CreatedAt k) then now else ret (k_CreatedAt k)) n s).
  intros created (a & n1 & s1 & He & _ & ->)%try_Ok. exists created. split; [done|].
  apply exec_Ok in He as [(_ & _ & _ & ->)%insert_key_Some _].
  unfold final, ret. simpl. by rewrite lookup_insert_eq.
Qed.

(** What a successful revocation leaves behind. *)
Lemma Revoke_Ok tid kid n s :
  answer (Revoke tid kid) n s = Ok () →
  ∃ id r t, api_keys s !! id = Some r ∧ r_ID r = kid ∧ r_TenantID r = tid ∧
    api_keys (final (Revoke tid kid) n s) !! id = Some (set_revoked t r).
Proof.
  unfold Revoke, affected_some. run. destruct (o_sql (S n)); simpl; [done|].
  destruct (o_sql (S (S n))); simpl; [done|].
  case_bool_decide as Hz; [done|]. intros _.
  destruct (decide (where_ (revocable tid kid) (api_keys s) = ∅)) as [E|E];
    [by rewrite E, map_size_empty in Hz|].
  apply map_choose in E as (id & r & (Hr & HP)%where_lookup). pose proof HP as (Hid & Ht & _).
  exists id, r, (o_now n). split_and!; try done.
  rewrite update_where_lookup, Hr. simpl. by rewrite decide_True.
Qed.
End apikey.
