(* ===== verification/SessionRepo.v ===== *)
(** * Sessions ([internal/store/session_repo.go]) *)

From S2P Require Import Prelude GoText GoUnicode GoEff Models Sql Store.

(** [ORDER BY created_at ASC, id ASC] *)
Definition session_order (a b : Session) : Prop :=
  (s_CreatedAt a < s_CreatedAt b)%Z ∨
  s_CreatedAt a = s_CreatedAt b ∧ text_le (s_ID a) (s_ID b).

#[export] Instance session_order_dec a b : Decision (session_order a b).
Proof. unfold session_order. apply _. Defined.

(** A blank [wa_jid] column reads as no JID. *)
Definition scanSession (x : Session) : Session :=
  {| s_ID := s_ID x; s_TenantID := s_TenantID x;
     s_WAJID := match s_WAJID x with
                | Some jid => if decide (jid = "") then None else Some jid
                | None => None
                end;
     s_Status := s_Status x; s_CreatedAt := s_CreatedAt x; s_UpdatedAt := s_UpdatedAt x |}.

Definition with_status (status : string) (waJID : option string) (updated : Z)
    (x : Session) : Session :=
  {| s_ID := s_ID x; s_TenantID := s_TenantID x; s_WAJID := waJID;
     s_Status := status; s_CreatedAt := s_CreatedAt x; s_UpdatedAt := updated |}.

Section session.
Context `{Unicode} `{Oracle}.

Definition GetByTenant (tenantID : string) : eff db (result Session) :=
  read_row "store: get session" (λ s, scanSession <$> sessions s !! tenantID).

(** [INSERT ... ON CONFLICT (tenant_id) DO NOTHING] *)
Definition insert_session (x : Session) (s : db) : option (nat * db) :=
  match sessions s !! s_TenantID x with
  | Some _ => Some (0, s)
  | None =>
      if decide (where_ (λ y, s_ID y = s_ID x) (sessions s) = ∅)
      then if decide (is_Some (tenants s !! s_TenantID x))
           then Some (1, set_sessions (<[s_TenantID x := x]> (sessions s)) s)
           else None
      else None
  end.

Definition EnsureForTenant (tenantID : string) : eff db (result Session) :=
  (let! existing := GetByTenant tenantID in
   match existing with
   | Ok x => ret (Ok x)
   | Err e =>
       if errors_Is e ErrNotFound then
         let! t := now in
         let! id := NewID in
         try! _ := exec (insert_session
            {| s_ID := id; s_TenantID := tenantID; s_WAJID := None;
               s_Status := SessionPending; s_CreatedAt := t; s_UpdatedAt := t |})
           or Wrap "store: create session" in
         GetByTenant tenantID
       else ret (Err e)
   end)%go.

Definition update_session (tenantID : string) (f : Session → Session) (s : db)
    : option (nat * db) :=
  match sessions s !! tenantID with
  | None => Some (0, s)
  | Some x => Some (1, set_sessions (<[tenantID := f x]> (sessions s)) s)
  end.

Definition UpdateStatus (tenantID status waJID : string) : eff db (result ()) :=
  match status_validate status with
  | Err e => ret (Err e)
  | Ok _ =>
      (let! t := now in
       try! affected := exec (update_session tenantID (λ x,
           with_status status (if decide (waJID = "") then s_WAJID x else Some waJID) t x))
         or Wrap "store: update session status" in
       affected_some "store: update session status" affected)%go
  end.

Definition List_ : eff db (result (list Session)) :=
  read_rows "store: list sessions" "store: scan session"
    (λ s, scanSession <$> merge_sort session_order (rows (sessions s))).

(** ** The statements *)

Lemma set_sessions_sound (m : gmap string Session) s :
  table_le session_le (sessions s) m →
  (wf s → ∀ tid x, m !! tid = Some x →
     s_TenantID x = tid ∧ is_Some (tenants s !! tid) ∧ status_Valid (s_Status x) = true) →
  sound s (set_sessions m s).
Proof.
  intros Hle Hm. split; [split; try reflexivity; done|].
  intros Hwf. split; simpl; try apply Hwf. by apply Hm.
Qed.

Lemma insert_session_sound x s a s' :
  status_Valid (s_Status x) = true → insert_session x s = Some (a, s') → sound s s'.
Proof.
  intros Hv. unfold insert_session. destruct (sessions s !! _) eqn:E.
  { by intros [= <- <-]. }
  repeat case_decide; try done. intros [= <- <-]. apply set_sessions_sound.
  - apply table_le_insert; [apply _|]. congruence.
  - intros Hwf tid y [[<- <-]|[_ Hy]]%lookup_insert_Some; [done|by eapply wf_sessions].
Qed.

Lemma insert_session_only x s a s' :
  insert_session x s = Some (a, s') → only_tenant (s_TenantID x) s s'.
Proof.
  unfold insert_session. destruct (sessions s !! _) eqn:E; [by intros [= <- <-]|].
  repeat case_decide; try done. intros [= <- <-] other Hne. split; [split|..]; simpl; try done.
  by rewrite lookup_insert_ne.
Qed.

Lemma update_session_sound tid f s a s' :
  (∀ x, session_le x (f x) ∧ status_Valid (s_Status (f x)) = true) →
  update_session tid f s = Some (a, s') → sound s s'.
Proof.
  intros Hf. unfold update_session. destruct (sessions s !! tid) as [x|] eqn:E;
    intros [= <- <-]; [|done].
  apply set_sessions_sound.
  - apply table_le_insert; [apply _|]. rewrite E. intros u [= <-]. apply Hf.
  - intros Hwf tid' y [[<- <-]|[_ Hy]]%lookup_insert_Some; [|by eapply wf_sessions].
    destruct (wf_sessions _ Hwf tid x E) as (Ht & Hs & _).
    destruct (Hf x) as [(_ & Ht' & _) Hv]. split_and!; [congruence|done..].
Qed.

Lemma update_session_only tid f s a s' :
  update_session tid f s = Some (a, s') → only_tenant tid s s'.
Proof.
  unfold update_session. destruct (sessions s !! tid); intros [= <- <-]; [|done].
  intros other Hne. split; [split|..]; simpl; try done. by rewrite lookup_insert_ne.
Qed.

(** ** The operations *)

Lemma session_GetByTenant_reads tid : reads (GetByTenant tid).
Proof. unfold reads, GetByTenant. eauto with evolves. Qed.

Lemma session_GetByTenant_agrees tid : agrees (same_tenant tid) (GetByTenant tid).
Proof. apply agrees_read_row. intros s1 s2 [[_ _ Hs _ _] _ _]. by rewrite Hs. Qed.

Lemma evolves_GetByTenant (R : relation db) `{!PreOrder R} tid : evolves R (GetByTenant tid).
Proof. apply evolves_read_row, _. Qed.

Hint Resolve evolves_GetByTenant : evolves.

Lemma EnsureForTenant_evolves (R : relation db) `{!PreOrder R} tid :
  (∀ x s a s', s_TenantID x = tid → status_Valid (s_Status x) = true →
     insert_session x s = Some (a, s') → R s s') →
  evolves R (EnsureForTenant tid).
Proof. intros HR. unfold EnsureForTenant, NewID. evolve. by eapply HR; [..|eassumption]. Qed.

Lemma EnsureForTenant_sound tid : evolves sound (EnsureForTenant tid).
Proof. apply EnsureForTenant_evolves; [apply _|]. intros. by eapply insert_session_sound. Qed.

Lemma EnsureForTenant_only tid : evolves (only_tenant tid) (EnsureForTenant tid).
Proof.
  apply EnsureForTenant_evolves; [apply _|]. intros x s a s' <- _. apply insert_session_only.
Qed.

Lemma status_validate_Ok status u : status_validate status = Ok u → status_Valid status = true.
Proof. unfold status_validate. by case_match. Qed.

Lemma UpdateStatus_evolves (R : relation db) `{!PreOrder R} tid status jid :
  (∀ f s a s', (∀ x, session_le x (f x) ∧ status_Valid (s_Status (f x)) = true) →
     update_session tid f s = Some (a, s') → R s s') →
  evolves R (UpdateStatus tid status jid).
Proof.
  intros HR. unfold UpdateStatus. destruct (status_validate status) as [u|e] eqn:E; evolve.
  apply status_validate_Ok in E. by eapply HR; [|eassumption].
Qed.

Lemma UpdateStatus_sound tid status jid : evolves sound (UpdateStatus tid status jid).
Proof. apply UpdateStatus_evolves; [apply _|]. intros. by eapply update_session_sound. Qed.

Lemma UpdateStatus_only tid status jid : evolves (only_tenant tid) (UpdateStatus tid status jid).
Proof.
  apply UpdateStatus_evolves; [apply _|]. intros f s a s' _. apply update_session_only.
Qed.

(** The pairing life cycle touches sessions and nothing else. *)
Definition only_sessions (s s' : db) : Prop := ∃ m, s' = set_sessions m s.

#[local] Instance only_sessions_preorder : PreOrder only_sessions.
Proof.
  split; [intros []; by eexists|]. intros s1 s2 s3 [m1 ->] [m2 ->]. by exists m2.
Qed.

Lemma insert_session_sessions x s a s' : insert_session x s = Some (a, s') → only_sessions s s'.
Proof.
  unfold insert_session. destruct (sessions s !! _); [intros [= <- <-]; reflexivity|].
  repeat case_decide; try done. intros [= <- <-]. by eexists.
Qed.

Lemma update_session_sessions tid f s a s' :
  update_session tid f s = Some (a, s') → only_sessions s s'.
Proof.
  unfold update_session. destruct (sessions s !! tid); intros [= <- <-]; [by eexists|reflexivity].
Qed.

Lemma EnsureForTenant_sessions tid : evolves only_sessions (EnsureForTenant tid).
Proof. apply EnsureForTenant_evolves; [apply _|]. intros. by eapply insert_session_sessions. Qed.

Lemma UpdateStatus_sessions tid status jid : evolves only_sessions (UpdateStatus tid status jid).
Proof. apply UpdateStatus_evolves; [apply _|]. intros. by eapply update_session_sessions. Qed.
End session.
