(* ===== verification/Address.v ===== *)
(** * Addresses in the store ([internal/store/address.go])

    WhatsApp addresses one person by phone number and by LID.  The store folds
    the two through whatsmeow's index, either on the way into a query (the
    aliases of the address a caller holds) or on the way out (the canonical
    address of a row).  Both ways describe the same conversations. *)

From S2P Require Import Prelude GoText GoUnicode GoEff Models Sql Store.

Implicit Types (a x y u server : string) (m : gmap string string).

Definition lidMapTable := "whatsmeow_lid_map".
Definition phoneServer := "s.whatsapp.net".
Definition lidServer := "lid".

(** ** Taking an address apart *)

Definition splitAddress address : option (string * string) :=
  match cut "@" address with
  | None => None
  | Some (user, server) =>
      if decide (user = "" ∨ server = "") then None
      else
        let user := match cut ":" user with Some (u, _) => u | None => user end in
        if decide (user = "") then None else Some (user, server)
  end.

Definition nonADAddress address : string :=
  match splitAddress address with
  | Some (user, server) => user +:+ "@" +:+ server
  | None => address
  end.

(** A bare user: what both columns of the index hold. *)
Definition bare u : Prop := u ≠ "" ∧ has_byte "@" u = false ∧ has_byte ":" u = false.

Lemma splitAddress_bare u server :
  bare u → server ≠ "" → splitAddress (u +:+ "@" +:+ server) = Some (u, server).
Proof.
  intros (Hu & Hat & Hcolon) Hs. unfold splitAddress.
  change ("@" +:+ server) with (String "@" server). rewrite cut_app by done.
  rewrite decide_False by naive_solver.
  rewrite (proj2 (cut_None ":" u)) by done. by rewrite decide_False.
Qed.

Lemma splitAddress_Some address u server :
  splitAddress address = Some (u, server) → bare u ∧ server ≠ "".
Proof.
  unfold splitAddress. destruct (cut "@" address) as [[v t]|] eqn:E; [|done].
  apply cut_Some in E as [-> Hat]. case_decide; [done|].
  destruct (cut ":" v) as [[w r]|] eqn:Ec.
  - apply cut_Some in Ec as [-> Hc]. case_decide; [done|]. intros [= <- <-].
    rewrite has_byte_app in Hat. unfold bare. break. naive_solver.
  - apply cut_None in Ec. case_decide; [done|]. intros [= <- <-]. unfold bare. naive_solver.
Qed.

Lemma nonADAddress_split address u server :
  splitAddress address = Some (u, server) →
  splitAddress (nonADAddress address) = Some (u, server).
Proof.
  intros E. unfold nonADAddress. rewrite E. apply splitAddress_Some in E as [??].
  by apply splitAddress_bare.
Qed.

Lemma nonADAddress_idem address : nonADAddress (nonADAddress address) = nonADAddress address.
Proof.
  destruct (splitAddress address) as [[u t]|] eqn:E.
  - pose proof (nonADAddress_split _ _ _ E) as E'. unfold nonADAddress at 1. rewrite E'.
    unfold nonADAddress. by rewrite E.
  - unfold nonADAddress. by rewrite E, E.
Qed.

(** ** whatsmeow's index *)

(** What whatsmeow keeps in the index: bare users, each phone number once. *)
Record lid_map_ok m : Prop := {
  lid_bare : ∀ l p, m !! l = Some p → bare l ∧ bare p;
  lid_inj : ∀ l k p, m !! l = Some p → m !! k = Some p → l = k;
}.

Definition pn_of m u : option string := m !! u.
Definition lid_of m u : option string := head (map_to_list (filter (λ kv, kv.2 = u) m)).*1.

Lemma lid_of_Some m u l : lid_of m u = Some l → m !! l = Some u.
Proof.
  unfold lid_of. intros Hl%head_Some_elem_of.
  apply list_elem_of_fmap in Hl as ([k v] & -> & Hk%elem_of_map_to_list).
  by apply map_lookup_filter_Some in Hk as [Hk [= ->]].
Qed.

Lemma lid_of_None m u l : lid_of m u = None → m !! l ≠ Some u.
Proof.
  unfold lid_of. intros Hn Hl.
  assert (Hin : (l, u) ∈ map_to_list (filter (λ kv, kv.2 = u) m))
    by (by apply elem_of_map_to_list, map_lookup_filter_Some).
  destruct (map_to_list _); [by apply elem_of_nil in Hin|done].
Qed.

(** The projection of the joins: [coalesce(lid.pn || '@s.whatsapp.net', column)]
    where the join matches [column = lid.lid || '@lid']. *)
Definition canonical m address : string :=
  match strip_suffix ("@" +:+ lidServer) address with
  | Some u => match pn_of m u with
              | Some pn => pn +:+ "@" +:+ phoneServer
              | None => address
              end
  | None => address
  end.

(** The aliases of an address, from the index. *)
Definition aliases_of m address : list string :=
  address ::
  match splitAddress address with
  | Some (u, server) =>
      if decide (server = lidServer)
      then match pn_of m u with Some p => [p +:+ "@" +:+ phoneServer] | None => [] end
      else if decide (server = phoneServer)
      then match lid_of m u with Some l => [l +:+ "@" +:+ lidServer] | None => [] end
      else []
  | None => []
  end.

(** Folding a phone address or an address outside the index does nothing. *)
Lemma canonical_phone m u : canonical m (u +:+ "@" +:+ phoneServer) = u +:+ "@" +:+ phoneServer.
Proof.
  unfold canonical. destruct (strip_suffix _ _) as [v|] eqn:E; [|done].
  apply strip_suffix_spec in E. exfalso.
  apply (f_equal rev_string) in E. rewrite !rev_string_app in E.
  unfold phoneServer, lidServer in E. vm_compute (rev_string "@") in E.
  unfold rev_string at 1 in E. simpl in E.
  rewrite !sapp_cons in E. discriminate E.
Qed.

Lemma canonical_lid m u :
  canonical m (u +:+ "@" +:+ lidServer) =
  match m !! u with Some p => p +:+ "@" +:+ phoneServer | None => u +:+ "@" +:+ lidServer end.
Proof.
  unfold canonical.
  rewrite (proj2 (strip_suffix_spec ("@" +:+ lidServer) (u +:+ "@" +:+ lidServer) u)); done.
Qed.

Lemma canonical_cases m address :
  canonical m address = address ∨
  ∃ l p, m !! l = Some p ∧ address = l +:+ "@" +:+ lidServer ∧
    canonical m address = p +:+ "@" +:+ phoneServer.
Proof.
  unfold canonical. destruct (strip_suffix _ _) as [l|] eqn:E; [|by left].
  apply strip_suffix_spec in E. unfold pn_of.
  destruct (m !! l) as [p|] eqn:Hl; [right; eauto|by left].
Qed.

Lemma canonical_empty address : canonical ∅ address = address.
Proof.
  destruct (canonical_cases ∅ address) as [?|(l & p & Hl & _)]; [done|].
  by rewrite lookup_empty in Hl.
Qed.

Lemma canonical_idem m address : canonical m (canonical m address) = canonical m address.
Proof.
  destruct (canonical_cases m address) as [E|(l & p & _ & _ & E)]; rewrite E.
  - done.
  - apply canonical_phone.
Qed.

Lemma bare_inj u v s t :
  bare u → bare v → s ≠ "" → t ≠ "" → u +:+ "@" +:+ s = v +:+ "@" +:+ t → u = v ∧ s = t.
Proof.
  intros Hu Hv Hs Ht E.
  pose proof (splitAddress_bare u s Hu Hs) as E1.
  rewrite E, (splitAddress_bare v t Hv Ht) in E1. by simplify_eq.
Qed.

Section index.
Context (m : gmap string string) (Hm : lid_map_ok m).

(** What folds to an address: itself, or the LID of its phone number. *)
Lemma canonical_inv y z :
  canonical m y = z →
  y = z ∨ ∃ l p, m !! l = Some p ∧ y = l +:+ "@" +:+ lidServer ∧ z = p +:+ "@" +:+ phoneServer.
Proof. intros <-. destruct (canonical_cases m y) as [->|]; naive_solver. Qed.

Lemma lid_phone_users l p u t :
  m !! l = Some p → p +:+ "@" +:+ phoneServer = u +:+ "@" +:+ t → bare u → t ≠ "" →
  p = u ∧ t = phoneServer.
Proof.
  intros Hl E Hu Ht. destruct (lid_bare _ Hm l p Hl) as [_ Hp].
  by apply bare_inj in E as [-> <-].
Qed.

Lemma canonical_split x u t :
  splitAddress x = Some (u, t) → x = u +:+ "@" +:+ t →
  ∀ y, canonical m y = canonical m x ↔ y ∈ aliases_of m x.
Proof.
  intros E Hx y. pose proof (splitAddress_Some _ _ _ E) as [Hu Ht].
  unfold aliases_of. rewrite E, elem_of_cons. unfold pn_of.
  split.
  - intros Hy. destruct (decide (t = lidServer)) as [->|Hl].
    + rewrite Hx, canonical_lid in Hy. destruct (m !! u) as [p|] eqn:Hup.
      * apply canonical_inv in Hy as [->|(l & q & Hlq & -> & Hq)]; [set_solver|].
        apply (lid_phone_users u) in Hq as [<- _]; [|done|by eapply (lid_bare _ Hm)|done].
        left. rewrite Hx. by rewrite (lid_inj _ Hm l u p Hlq Hup).
      * apply canonical_inv in Hy as [->|(l & q & Hlq & -> & Hq)]; [left; congruence|].
        symmetry in Hq. by apply (lid_phone_users l) in Hq as [_ [=]].
    + destruct (decide (t = phoneServer)) as [->|Hp].
      * rewrite Hx, canonical_phone in Hy.
        apply canonical_inv in Hy as [->|(l & q & Hlq & -> & Hq)]; [left; congruence|].
        symmetry in Hq. apply (lid_phone_users l) in Hq as [-> _]; [|done..].
        right. destruct (lid_of m u) as [k|] eqn:Hk.
        -- apply lid_of_Some in Hk. rewrite (lid_inj _ Hm l k u Hlq Hk). set_solver.
        -- by destruct (lid_of_None m u l Hk).
      * destruct (canonical_cases m x) as [Ex|(l & p & Hlp & E1 & _)].
        -- rewrite Ex, Hx in Hy.
           apply canonical_inv in Hy as [->|(l & q & Hlq & -> & Hq)]; [left; congruence|].
           symmetry in Hq. by apply (lid_phone_users l) in Hq as [_ ?].
        -- rewrite Hx in E1. destruct (lid_bare _ Hm l p Hlp) as [Hbl _].
           by apply bare_inj in E1 as [_ ?].
  - intros [->|Hy]; [done|]. rewrite Hx. case_decide as Hl.
    + subst t. rewrite canonical_lid. destruct (m !! u) as [p|] eqn:Hup; [|set_solver].
      apply list_elem_of_singleton in Hy as ->. apply canonical_phone.
    + case_decide as Hp; [|set_solver]. subst t. rewrite canonical_phone.
      destruct (lid_of m u) as [k|] eqn:Hk; [|set_solver].
      apply list_elem_of_singleton in Hy as ->. apply lid_of_Some in Hk.
      by rewrite canonical_lid, Hk.
Qed.

(** Folding keeps an address without a device suffix free of one. *)
Lemma canonical_plain x : nonADAddress x = x → nonADAddress (canonical m x) = canonical m x.
Proof.
  intros Hx. destruct (canonical_cases m x) as [->|(l & p & Hl & _ & ->)]; [done|].
  unfold nonADAddress. rewrite splitAddress_bare; [done| |done].
  apply (lid_bare _ Hm l p Hl).
Qed.

(** The aliases of an address without a device suffix are exactly the
    addresses that fold to the same canonical address. *)
Lemma aliases_canonical x y :
  nonADAddress x = x → canonical m y = canonical m x ↔ y ∈ aliases_of m x.
Proof.
  intros Hx. unfold nonADAddress in Hx. destruct (splitAddress x) as [[u t]|] eqn:E.
  { by eapply canonical_split. }
  unfold aliases_of. rewrite E.
  assert (Hno : ∀ v s, bare v → s ≠ "" → x ≠ v +:+ "@" +:+ s).
  { intros v s Hv Hs ->. by rewrite splitAddress_bare in E. }
  destruct (canonical_cases m x) as [Ex|(l & p & Hlp & E1 & _)].
  - rewrite Ex, list_elem_of_singleton. split; [|congruence].
    intros [->|(l & q & Hlq & -> & Hq)]%canonical_inv; [done|].
    by destruct (Hno q phoneServer); [apply (lid_bare _ Hm l q Hlq)| |].
  - by destruct (Hno l lidServer); [apply (lid_bare _ Hm l p Hlp)| |].
Qed.
End index.

(** ** The runtime *)

Section runtime.
Context `{Oracle}.

(** The index as a query sees it; an absent table has no rows. *)
Definition lids (s : db) : gmap string string := default ∅ (lid_map s).

Definition tableExists (name : string) (present : db → bool) : eff db (result bool) :=
  (try! found := query present or Wrap ("store: look up table " +:+ name) in
   ret (Ok found))%go.

Definition lidMapReady : eff db bool :=
  (let! s := get in
   if lid_ready s then ret true
   else
     let! present := tableExists lidMapTable (λ s, bool_decide (is_Some (lid_map s))) in
     match present with
     | Ok true => let! s := get in let! _ := put (set_lid_ready true s) in ret true
     | _ => ret false
     end)%go.

(** The two functions of [canonicalAddressing]: the canonical chat and sender
    of a row, the raw columns when the index is not there yet. *)
Record canonicalAddressing := {
  addr_chat : db → Message → string;
  addr_sender : db → Message → string;
}.

Definition addressing_when (ready : bool) : canonicalAddressing :=
  if ready then {| addr_chat s (m : Message) := canonical (lids s) (m_ChatJID m);
                   addr_sender s (m : Message) := canonical (lids s) (m_SenderJID m) |}
  else {| addr_chat _ (m : Message) := m_ChatJID m;
          addr_sender _ (m : Message) := m_SenderJID m |}.

Definition addressing : eff db canonicalAddressing :=
  (let! ready := lidMapReady in ret (addressing_when ready))%go.

Definition chatAliases (chatJID : string) : eff db (list string) :=
  (let address := nonADAddress chatJID in
   let aliases := [address] in
   match splitAddress address with
   | None => ret aliases
   | Some (user, server) =>
       let! ready := lidMapReady in
       if negb ready then ret aliases
       else
         let lookup (q : gmap string string → option string) (wantedServer : string) :=
           let! mapped := query (λ s, lid_map s ≫= q) in
           ret (match mapped with
                | Ok (Some mapped) =>
                    if decide (mapped = "") then aliases
                    else aliases ++ [mapped +:+ "@" +:+ wantedServer]
                | _ => aliases
                end) in
         if decide (server = lidServer) then lookup (λ m, pn_of m user) phoneServer
         else if decide (server = phoneServer) then lookup (λ m, lid_of m user) lidServer
         else ret aliases
   end)%go.

(** ** Reading the index changes no table *)

Lemma lidMapReady_same : evolves same_tables lidMapReady.
Proof.
  intros n s. unfold lidMapReady, tableExists. run.
  destruct (lid_ready s); [by left|]. destruct (o_sql n); simpl; [by left|].
  case_bool_decide; simpl; [by right|by left].
Qed.

Lemma lidMapReady_answer n s :
  wf s → answering → answer lidMapReady n s = bool_decide (is_Some (lid_map s)).
Proof.
  intros Hwf Ha. unfold lidMapReady, tableExists. run.
  destruct (lid_ready s) eqn:E.
  - apply wf_lid_ready in E; [|done]. by rewrite bool_decide_eq_true_2.
  - rewrite Ha. simpl. by case_bool_decide.
Qed.

Lemma lidMapReady_agrees tid : agrees (same_tenant tid) lidMapReady.
Proof.
  intros n s1 s2 HE. pose proof HE as [Hd Hl Hr]. unfold lidMapReady, tableExists. run.
  rewrite <- Hr. destruct (lid_ready s1) eqn:E1; [done|]. destruct (o_sql n); simpl; [done|].
  rewrite Hl. case_bool_decide; simpl; [|done]. split_and!; [done..|].
  split; [|done..]. destruct Hd; by split.
Qed.

Lemma addressing_same : evolves same_tables addressing.
Proof.
  unfold addressing. apply evolves_bind; [apply _|apply lidMapReady_same|].
  intros. apply evolves_ret, _.
Qed.

Lemma agrees_addressing {B} tid (k : canonicalAddressing → eff db B) :
  (∀ ready, agrees (same_tenant tid) (k (addressing_when ready))) →
  agrees (same_tenant tid) (bind addressing k).
Proof.
  intros Hk n s1 s2 HE. destruct (lidMapReady_agrees tid n s1 s2 HE) as (Ha & Hn & Hf).
  unfold answer, next, final, addressing, bind, ret in *.
  destruct (lidMapReady n s1) as [[r1 n1] t1], (lidMapReady n s2) as [[r2 n2] t2].
  simpl in *. subst. apply (Hk r2 n2 t1 t2 Hf).
Qed.

Lemma lids_agree tid s1 s2 : same_tenant tid s1 s2 → lids s1 = lids s2.
Proof. intros [_ Hl _]. unfold lids. by rewrite Hl. Qed.

Lemma addressing_when_agrees tid ready s1 s2 :
  same_tenant tid s1 s2 →
  addr_chat (addressing_when ready) s1 = addr_chat (addressing_when ready) s2 ∧
  addr_sender (addressing_when ready) s1 = addr_sender (addressing_when ready) s2.
Proof. intros HE%lids_agree. destruct ready; simpl; by rewrite ?HE. Qed.

Lemma lids_same s s' : same_tables s s' → lids s' = lids s.
Proof. by intros [->|[-> _]]. Qed.

(** What the queries project on a database that answers. *)
Lemma addressing_answer n s s' :
  wf s → answering → same_tables s s' →
  let addr := answer addressing n s in
  (∀ m : Message, addr_chat addr s' m = canonical (lids s) (m_ChatJID m)) ∧
  (∀ m : Message, addr_sender addr s' m = canonical (lids s) (m_SenderJID m)).
Proof.
  intros Hwf Ha Hs%lids_same. pose proof (lidMapReady_answer n s Hwf Ha) as Hr.
  unfold answer, addressing, bind, ret in *.
  destruct (lidMapReady n s) as [[r n'] t]. simpl in *. subst.
  case_bool_decide as Hl; simpl; [by rewrite Hs|]. unfold lids.
  rewrite <- eq_None_not_Some in Hl. rewrite Hl. simpl.
  split; intros m; by rewrite canonical_empty.
Qed.

Lemma chatAliases_same jid : evolves same_tables (chatAliases jid).
Proof.
  unfold chatAliases. destruct (splitAddress _) as [[u t]|]; [|apply evolves_ret, _].
  apply evolves_bind; [apply _|apply lidMapReady_same|]. intros []; simpl; evolve.
Qed.

Lemma chatAliases_agrees tid jid : agrees (same_tenant tid) (chatAliases jid).
Proof.
  unfold chatAliases. destruct (splitAddress _) as [[u t]|]; [|apply agrees_ret].
  apply agrees_bind; [apply lidMapReady_agrees|]. intros []; simpl; agree.
  all: by match goal with H : same_tenant _ _ _ |- _ => destruct H as [_ -> _] end.
Qed.


(** One lookup in the index, as a table that may be absent. *)
Lemma lookup_lids (q : gmap string string → option string) s :
  q ∅ = None → lid_map s ≫= q = q (lids s).
Proof. intros Hq. unfold lids. by destruct (lid_map s). Qed.

Lemma lid_of_empty u : lid_of ∅ u = None.
Proof. done. Qed.

(** A run finds the aliases, or gives up and keeps the address alone; a
    database that answers finds them. *)
Lemma chatAliases_cases jid n s :
  wf s → lid_map_ok (lids s) →
  answer (chatAliases jid) n s = aliases_of (lids s) (nonADAddress jid) ∨
  answer (chatAliases jid) n s = [nonADAddress jid] ∧ ¬ answering.
Proof.
  intros Hwf Hm. unfold chatAliases, aliases_of.
  destruct (splitAddress (nonADAddress jid)) as [[u t]|] eqn:E; [|by left].
  pose proof (lidMapReady_same n s) as Hs. pose proof (lidMapReady_answer n s Hwf) as Hr.
  unfold answer, final, bind in *. destruct (lidMapReady n s) as [[r n'] s']. simpl in *.
  apply lids_same in Hs as Hl. destruct r; simpl.
  - assert (Hq : ∀ q, q ∅ = None → lid_map s' ≫= q = q (lids s))
      by (intros; rewrite <- Hl; by apply lookup_lids).
    repeat case_decide; try (by left).
    all: unfold query; destruct (o_sql n') eqn:Eo; simpl; [right; split; [done|]; congruence|left].
    all: rewrite Hq by done.
    all: match goal with |- context [match ?x with _ => _ end] => destruct x as [p|] eqn:Ep end.
    all: try done.
    all: rewrite decide_False; [done|]; intros ->.
    + by apply (lid_bare _ Hm) in Ep as [_ [? _]].
    + by apply lid_of_Some, (lid_bare _ Hm) in Ep as [[? _] _].
  - destruct (lid_map s) as [m|] eqn:Em.
    + right. split; [done|]. intros Ha. specialize (Hr Ha). by rewrite bool_decide_eq_true_2 in Hr.
    + left. unfold lids. rewrite Em. simpl. by repeat case_decide.
Qed.

(** Whatever happens, the aliases name one conversation only... *)
Lemma chatAliases_sound jid n s y :
  wf s → lid_map_ok (lids s) → y ∈ answer (chatAliases jid) n s →
  canonical (lids s) y = canonical (lids s) (nonADAddress jid).
Proof.
  intros Hwf Hm. destruct (chatAliases_cases jid n s Hwf Hm) as [->|[-> _]].
  - intros Hy. apply aliases_canonical; [done|apply nonADAddress_idem|done].
  - by intros ->%list_elem_of_singleton.
Qed.

(** ... and a database that answers names all of it. *)
Lemma chatAliases_answer jid n s :
  wf s → lid_map_ok (lids s) → answering →
  answer (chatAliases jid) n s = aliases_of (lids s) (nonADAddress jid).
Proof.
  intros Hwf Hm Ha. by destruct (chatAliases_cases jid n s Hwf Hm) as [|[_ []]].
Qed.

Lemma elem_of_chatAliases jid n s y :
  wf s → lid_map_ok (lids s) → answering →
  y ∈ answer (chatAliases jid) n s ↔
  canonical (lids s) y = canonical (lids s) (nonADAddress jid).
Proof.
  intros Hwf Hm Ha. rewrite chatAliases_answer by done. symmetry.
  apply aliases_canonical; [done|apply nonADAddress_idem].
Qed.

(** The address itself is always among its aliases. *)
Lemma chatAliases_self jid n s :
  wf s → lid_map_ok (lids s) → nonADAddress jid ∈ answer (chatAliases jid) n s.
Proof.
  intros Hwf Hm. destruct (chatAliases_cases jid n s Hwf Hm) as [->|[-> _]]; [left|set_solver].
Qed.
End runtime.
