(* ===== verification/MessageRepo.v ===== *)
(** * Messages ([internal/store/message_repo.go])

    The message log: inserts that a redelivery leaves alone, batches that are
    all or nothing, the queries over one conversation and over all of them,
    and the one update, of the media bookkeeping. *)

From stdpp Require Import pretty.
From S2P Require Import Prelude GoText GoUnicode GoEff Models Sql Store Address.

Definition defaultMessageLimit : Z := 50.
Definition maxMessageLimit : Z := 500.

Definition normalizeLimit (limit : Z) : nat :=
  if decide (limit <= 0)%Z then Z.to_nat defaultMessageLimit
  else if decide (limit > maxMessageLimit)%Z then Z.to_nat maxMessageLimit
  else Z.to_nat limit.

Lemma normalizeLimit_positive limit : 0 < normalizeLimit limit.
Proof.
  unfold normalizeLimit, maxMessageLimit, defaultMessageLimit. repeat case_decide; lia.
Qed.

(** [ORDER BY timestamp DESC, id DESC] and [ORDER BY timestamp ASC, id ASC] *)
Definition newest_first (a b : Message) : Prop :=
  (m_Timestamp b < m_Timestamp a)%Z ∨
  m_Timestamp a = m_Timestamp b ∧ text_le (m_ID b) (m_ID a).

Definition oldest_first (a b : Message) : Prop := newest_first b a.

#[export] Instance newest_first_dec a b : Decision (newest_first a b).
Proof. unfold newest_first. apply _. Defined.
#[export] Instance oldest_first_dec a b : Decision (oldest_first a b) :=
  newest_first_dec b a.

Section message.
Context `{Unicode} `{Oracle}.

(** ** Writing *)

Definition prepareMessage (m : Message) : eff db (result Message) :=
  (if decide (m_TenantID m = "")
   then ret (Err (New "store: message tenant id is required"))
   else if decide (m_ChatJID m = "")
   then ret (Err (New "store: message chat jid is required"))
   else if decide (m_WAMessageID m = "")
   then ret (Err (New "store: message wa_message_id is required"))
   else if negb (direction_Valid (m_Direction m))
   then ret (Err (New ("store: invalid message direction " +:+ Quote (m_Direction m))))
   else
     let! id := (if decide (m_ID m = "") then NewID else ret (m_ID m)) in
     let! timestamp := (if IsZero (m_Timestamp m) then now else ret (m_Timestamp m)) in
     let! created := (if IsZero (m_CreatedAt m) then now else ret (m_CreatedAt m)) in
     ret (Ok (with_identity id timestamp created m)))%go.

(** [messageArgs]: the bookkeeping columns of a fetch are not inserted. *)
Definition messageArgs (m : Message) : Message :=
  with_media (m_MediaPath m) None None None m.

(** Two rows for one WhatsApp message. *)
Definition same_wa_id (m o : Message) : Prop :=
  m_TenantID o = m_TenantID m ∧ m_WAMessageID o = m_WAMessageID m.

#[export] Instance same_wa_id_dec m o : Decision (same_wa_id m o).
Proof. unfold same_wa_id. apply _. Defined.

(** [INSERT ... ON CONFLICT (tenant_id, wa_message_id) DO NOTHING]: the conflict
    target is examined first, then the primary key and the foreign key. *)
Definition insertMessage (m : Message) (s : db) : option (nat * db) :=
  if decide (where_ (same_wa_id m) (messages s) = ∅)
  then if decide (is_Some (messages s !! m_ID m)) then None
       else if decide (is_Some (tenants s !! m_TenantID m))
       then Some (1, set_messages (<[m_ID m := messageArgs m]> (messages s)) s)
       else None
  else Some (0, s).

Definition Append (m : Message) : eff db (result ()) :=
  (try! m := prepareMessage m in
   try! _ := exec (insertMessage m) or Wrap "store: append message" in
   ret (Ok ()))%go.

Fixpoint prepare_all (i : nat) (ms : list Message) : eff db (result (list Message)) :=
  (match ms with
   | [] => ret (Ok [])
   | m :: ms =>
       try! ready := prepareMessage m
         or Wrap ("store: append batch: message " +:+ pretty i) in
       try! rest := prepare_all (S i) ms in
       ret (Ok (ready :: rest))
   end)%go.

Fixpoint insert_all (inserted : nat) (ms : list Message) : eff db (result nat) :=
  (match ms with
   | [] => ret (Ok inserted)
   | m :: ms =>
       try! affected := exec (insertMessage m) or Wrap "store: append batch" in
       try! _ := driver or Wrap "store: append batch" in
       insert_all (inserted + affected) ms
   end)%go.

Definition AppendBatch (ms : list Message) : eff db (result nat) :=
  (match ms with
   | [] => ret (Ok 0)
   | _ =>
       try! prepared := prepare_all 0 ms in
       transaction (Wrap "store: begin message batch") (Wrap "store: commit message batch")
         (try! _ := driver or Wrap "store: prepare message batch" in
          insert_all 0 prepared)
   end)%go.

(** ** Reading one conversation *)

(** [collectMessages] after [QueryContext] *)
Definition collect (what : string) (q : db → list Message) : eff db (result (list Message)) :=
  read_rows what "store: scan message" q.

Definition first_or_not_found (found : list Message) : result Message :=
  match found with [] => Err (Sentinel ErrNotFound) | m :: _ => Ok m end.

Definition in_chat (tenantID : string) (aliases : list string) (m : Message) : Prop :=
  m_TenantID m = tenantID ∧ m_ChatJID m ∈ aliases.

#[export] Instance in_chat_dec tenantID aliases m : Decision (in_chat tenantID aliases m).
Proof. unfold in_chat. apply _. Defined.

Definition OldestByChat (tenantID chatJID : string) : eff db (result Message) :=
  (let! aliases := chatAliases chatJID in
   try! found := collect "store: oldest message" (λ s,
     select (in_chat tenantID aliases) oldest_first 1 (messages s)) in
   ret (first_or_not_found found))%go.

Definition ListByChat (tenantID chatJID : string) (limit : Z)
    : eff db (result (list Message)) :=
  (let! aliases := chatAliases chatJID in
   collect "store: list messages" (λ s,
     select (in_chat tenantID aliases) newest_first (normalizeLimit limit) (messages s)))%go.

Definition addressed_by (tenantID id : string) (m : Message) : Prop :=
  m_TenantID m = tenantID ∧ (m_ID m = id ∨ m_WAMessageID m = id).

#[export] Instance addressed_by_dec tenantID id m : Decision (addressed_by tenantID id m).
Proof. unfold addressed_by. apply _. Defined.

Definition GetByID (tenantID id : string) : eff db (result Message) :=
  (if decide (tenantID = "" ∨ id = "") then ret (Err (Sentinel ErrNotFound))
   else
     try! found := collect "store: get message" (λ s,
       select (addressed_by tenantID id) newest_first 1 (messages s)) in
     ret (first_or_not_found found))%go.

Definition body_matches (tenantID query : string) (m : Message) : Prop :=
  m_TenantID m = tenantID ∧ like (containing query) (m_Body m) = true.

#[export] Instance body_matches_dec tenantID query m : Decision (body_matches tenantID query m).
Proof. unfold body_matches. apply _. Defined.

Definition Search (tenantID query : string) (limit : Z) : eff db (result (list Message)) :=
  let query := TrimSpace query in
  if decide (query = "") then ret (Ok [])
  else collect "store: search messages" (λ s,
    select (body_matches tenantID query) newest_first (normalizeLimit limit) (messages s)).

(** ** Reading all conversations *)

Definition own_messages (tenantID : string) (s : db) : list Message :=
  rows (where_ (λ m, m_TenantID m = tenantID) (messages s)).

(** The rows of a list that share the canonical address of [m]. *)
Definition partition_of (chat : Message → string) (l : list Message) (m : Message)
    : list Message :=
  filter (λ o, chat o = chat m) l.

(** [row_number() OVER (PARTITION BY chat ORDER BY timestamp DESC, id DESC)] *)
Definition row_number (chat : Message → string) (l : list Message) (m : Message) : nat :=
  S (length (filter (λ o, newest_first o m ∧ o ≠ m) (partition_of chat l m))).

(** One row of the listing: the newest message of a conversation. *)
Definition chat_row (chat : Message → string) (tenantID : string) (s : db) (l : list Message)
    (m : Message) : Chat :=
  {| c_ChatJID := chat m;
     c_Name := match chats s !! (tenantID, chat m) with Some h => h_Name h | None => "" end;
     c_LastMessageAt := m_Timestamp m;
     c_LastMessageBody := m_Body m;
     c_LastDirection := m_Direction m;
     c_MessageCount := length (partition_of chat l m) |}.

(** [ORDER BY timestamp DESC, chat_jid ASC] *)
Definition chat_order (a b : Chat) : Prop :=
  (c_LastMessageAt b < c_LastMessageAt a)%Z ∨
  c_LastMessageAt a = c_LastMessageAt b ∧ text_le (c_ChatJID a) (c_ChatJID b).

#[export] Instance chat_order_dec a b : Decision (chat_order a b).
Proof. unfold chat_order. apply _. Defined.

Definition chat_rows (chat : Message → string) (tenantID : string) (s : db) : list Chat :=
  let l := own_messages tenantID s in
  chat_row chat tenantID s l <$> filter (λ m, row_number chat l m = 1) l.

Definition ListChats (tenantID : string) (limit : Z) : eff db (result (list Chat)) :=
  (let! addr := addressing in
   read_rows "store: list chats" "store: scan chat" (λ s,
     take (normalizeLimit limit)
       (merge_sort chat_order (chat_rows (addr_chat addr s) tenantID s))))%go.

Definition chat_matches (pattern : string) (chat sender : Message → string) (m : Message)
    : bool :=
  like pattern (chat m) || like pattern (m_ChatJID m) ||
  like pattern (sender m) || like pattern (m_SenderJID m).

(** [max(timestamp)] of a group that is not empty *)
Definition latest (l : list Message) : Z :=
  match l with
  | [] => zero_time
  | m :: l => foldr (λ o t, Z.max (m_Timestamp o) t) (m_Timestamp m) l
  end.

(** [ORDER BY max(timestamp) DESC, chat ASC] over the groups. *)
Definition group_order (a b : string * Z) : Prop :=
  (b.2 < a.2)%Z ∨ a.2 = b.2 ∧ text_le a.1 b.1.

#[export] Instance group_order_dec a b : Decision (group_order a b).
Proof. unfold group_order. apply _. Defined.

Definition chat_groups (pattern : string) (chat sender : Message → string)
    (l : list Message) : list (string * Z) :=
  let matched := filter (λ m, chat_matches pattern chat sender m = true) l in
  (λ g, (g, latest (filter (λ m, chat m = g) matched))) <$> remove_dups (chat <$> matched).

Definition SearchChats (tenantID query : string) (limit : Z)
    : eff db (result (list string)) :=
  (let query := TrimSpace query in
   if decide (query = "") then ret (Ok [])
   else
     let! addr := addressing in
     read_rows "store: search chats" "store: scan chat jid" (λ s,
       take (normalizeLimit limit)
         (merge_sort group_order
            (chat_groups (containing query) (addr_chat addr s) (addr_sender addr s)
               (own_messages tenantID s))).*1))%go.

(** ** The media bookkeeping *)

Definition apply_media (upd : MediaUpdate) (fetched : Z) (m : Message) : Message :=
  with_media (match u_Path upd with Some p => Some p | None => m_MediaPath m end)
    (Some (u_Status upd))
    (if decide (u_Error upd = "") then None else Some (u_Error upd))
    (Some fetched) m.

Definition owned_id (tenantID id : string) (m : Message) : Prop :=
  m_TenantID m = tenantID ∧ m_ID m = id.

#[export] Instance owned_id_dec tenantID id m : Decision (owned_id tenantID id m).
Proof. unfold owned_id. apply _. Defined.

Definition UpdateMedia (tenantID id : string) (upd : MediaUpdate) : eff db (result ()) :=
  (if decide (tenantID = "" ∨ id = "") then ret (Err (Sentinel ErrNotFound))
   else
     let! fetched := (if IsZero (u_FetchedAt upd) then now else ret (u_FetchedAt upd)) in
     try! affected := exec (λ s,
         Some (size (where_ (owned_id tenantID id) (messages s)),
               set_messages (update_where (owned_id tenantID id) (apply_media upd fetched)
                               (messages s)) s))
       or Wrap "store: update message media" in
     affected_some "store: update message media" affected)%go.
End message.

(** ** Order of messages *)

#[export] Instance newest_first_total : Total newest_first.
Proof.
  intros a b. apply lex_total, (total text_le).
Qed.

#[export] Instance newest_first_trans : Transitive newest_first.
Proof.
  intros a b c. unfold newest_first. intros [?|[? Hab]] [?|[? Hbc]]; try (left; lia).
  right. split; [lia|]. by etrans.
Qed.

#[export] Instance oldest_first_total : Total oldest_first.
Proof. intros a b. apply (total newest_first). Qed.

#[export] Instance oldest_first_trans : Transitive oldest_first.
Proof. intros a b c Hab Hbc. by apply (transitivity (R := newest_first) Hbc Hab). Qed.

Lemma newest_first_anti a b : newest_first a b → newest_first b a → m_ID a = m_ID b.
Proof.
  unfold newest_first. intros [?|[? H1]] [?|[? H2]]; try lia. by apply (anti_symm text_le).
Qed.

#[export] Instance chat_order_total : Total chat_order.
Proof.
  intros a b. apply lex_total, (total text_le).
Qed.

#[export] Instance chat_order_trans : Transitive chat_order.
Proof.
  intros a b c. unfold chat_order. intros [?|[? Hab]] [?|[? Hbc]]; try (left; lia).
  right. split; [lia|]. by etrans.
Qed.

#[export] Instance group_order_total : Total group_order.
Proof. intros a b. apply lex_total, (total text_le). Qed.

#[export] Instance group_order_trans : Transitive group_order.
Proof.
  intros a b c. unfold group_order. intros [?|[? Hab]] [?|[? Hbc]]; try (left; lia).
  right. split; [lia|]. by etrans.
Qed.

(** ** Inserting *)

(** What [prepareMessage] lets through. *)
Record insertable (m : Message) : Prop := {
  ins_chat : m_ChatJID m ≠ "";
  ins_wa_id : m_WAMessageID m ≠ "";
  ins_direction : direction_Valid (m_Direction m) = true;
}.

Section writing.
Context `{Unicode} `{Oracle}.

Lemma insertMessage_cases m s a s' :
  insertMessage m s = Some (a, s') →
  (a = 0 ∧ s' = s ∧ ∃ i o, messages s !! i = Some o ∧ same_wa_id m o) ∨
  (a = 1 ∧ (∀ i o, messages s !! i = Some o → ¬ same_wa_id m o) ∧
   messages s !! m_ID m = None ∧ is_Some (tenants s !! m_TenantID m) ∧
   s' = set_messages (<[m_ID m := messageArgs m]> (messages s)) s).
Proof.
  unfold insertMessage. destruct (decide (where_ _ _ = ∅)) as [E|E].
  - repeat case_decide; try done. intros [= <- <-]. right.
    rewrite <- eq_None_not_Some in *. split_and!; try done. exact (proj1 (where_none _ _) E).
  - intros [= <- <-]. left. split_and!; [done..|].
    apply map_choose in E as (i & o & [Ho Hs]%where_lookup). eauto.
Qed.

Lemma insertMessage_sound m s a s' :
  insertable m → insertMessage m s = Some (a, s') → sound s s'.
Proof.
  intros [] [(_ & -> & _)|(_ & Hno & Hnew & Ht & ->)]%insertMessage_cases; [done|]. split.
  - split; try reflexivity. simpl. apply table_le_insert; [apply _|]. congruence.
  - intros Hwf. split; simpl; try apply Hwf.
    + intros id o [[<- <-]|[_ Ho]]%lookup_insert_Some; [done|by eapply wf_messages].
    + intros i j o1 o2 [[<- <-]|[_ H1]]%lookup_insert_Some
        [[<- <-]|[_ H2]]%lookup_insert_Some Heq Heq'.
      * done.
      * by destruct (Hno j o2 H2).
      * by destruct (Hno i o1 H1).
      * by eapply wf_wa_id.
Qed.

Lemma insertMessage_only m s a s' :
  insertMessage m s = Some (a, s') → only_tenant (m_TenantID m) s s'.
Proof.
  intros [(_ & -> & _)|(_ & Hno & Hnew & Ht & ->)]%insertMessage_cases; [done|].
  intros other Hne. split; [split|..]; simpl; try done. symmetry. apply where_insert_not; simpl; congruence.
Qed.

(** The rows added so far: an insert adds as many rows as it reports. *)
Lemma insertMessage_count m s a s' :
  insertMessage m s = Some (a, s') → size (messages s') = size (messages s) + a.
Proof.
  intros [(-> & -> & _)|(-> & _ & Hnew & _ & ->)]%insertMessage_cases; [lia|].
  simpl. rewrite map_size_insert_None by done. lia.
Qed.

(** The message is stored afterwards, whether it is new or not. *)
Definition stored (m : Message) (s : db) : Prop :=
  ∃ i o, messages s !! i = Some o ∧ same_wa_id m o.

Lemma insertMessage_stored m s a s' : insertMessage m s = Some (a, s') → stored m s'.
Proof.
  intros [(_ & -> & ?)|(_ & _ & _ & _ & ->)]%insertMessage_cases; [done|].
  exists (m_ID m), (messageArgs m). simpl. by rewrite lookup_insert_eq.
Qed.

Lemma stored_le m s s' : db_le s s' → stored m s → stored m s'.
Proof.
  intros Hle (i & o & Hi & Hs). destruct (le_messages _ _ Hle i o Hi) as (o' & Ho' & Hso).
  exists i, o'. split; [done|]. unfold same_message in Hso. destruct Hs.
  rewrite Hso in *. by split.
Qed.

Lemma insertMessage_redelivered m s : stored m s → insertMessage m s = Some (0, s).
Proof.
  intros (i & o & Ho & Hs). unfold insertMessage. rewrite decide_False; [done|].
  intros E. by eapply (proj1 (where_none _ _)) in E.
Qed.

(** ** Preparing *)

Definition prepared_from (m m' : Message) : Prop :=
  insertable m' ∧ m_TenantID m' ≠ "" ∧
  m' = with_identity (m_ID m') (m_Timestamp m') (m_CreatedAt m') m.

Lemma prepareMessage_yields m : yields (prepared_from m) (prepareMessage m).
Proof.
  unfold prepareMessage. repeat (case_decide; [apply yields_err|]).
  destruct (direction_Valid (m_Direction m)) eqn:E; simpl; [|apply yields_err].
  do 3 (apply yields_bind; intros ?). apply yields_ok. by split.
Qed.

Lemma prepareMessage_same m : evolves eq (prepareMessage m).
Proof.
  unfold prepareMessage, NewID. repeat (case_decide; [apply evolves_ret, _|]).
  destruct (negb _); evolve.
Qed.

Lemma prepareMessage_evolves (R : relation db) `{!PreOrder R} m : evolves R (prepareMessage m).
Proof. intros n s. rewrite <- (prepareMessage_same m n s). reflexivity. Qed.

Lemma prepare_all_yields i ms :
  yields (Forall2 prepared_from ms) (prepare_all i ms).
Proof.
  revert i. induction ms as [|m ms IH]; intros i; simpl; [by apply yields_ok|].
  eapply yields_try; [apply prepareMessage_yields|]. intros m' Hm'.
  eapply yields_try; [apply IH|]. intros ms' Hms'. apply yields_ok. by constructor.
Qed.

Lemma prepare_all_evolves (R : relation db) `{!PreOrder R} i ms : evolves R (prepare_all i ms).
Proof.
  revert i. induction ms as [|m ms IH]; intros i; simpl; [by apply evolves_ret|].
  apply evolves_try; [done|by apply prepareMessage_evolves|]. intros m'. evolve.
Qed.

(** ** Append and AppendBatch *)

Lemma insert_all_evolves (R : relation db) `{!PreOrder R} n ms :
  (∀ m s a s', m ∈ ms → insertMessage m s = Some (a, s') → R s s') →
  evolves R (insert_all n ms).
Proof.
  revert n. induction ms as [|m ms IH]; intros n HR; simpl; [by apply evolves_ret|].
  evolve.
  - eapply (HR m); [left|done].
  - apply IH. intros. eapply HR; [by right|done].
Qed.

Lemma Append_evolves (R : relation db) `{!PreOrder R} m :
  (∀ m' s a s', prepared_from m m' → insertMessage m' s = Some (a, s') → R s s') →
  evolves R (Append m).
Proof.
  intros HR. unfold Append.
  eapply evolves_try_yields; [done|by apply prepareMessage_evolves|apply prepareMessage_yields|].
  intros m' Hm'. evolve. by eapply HR.
Qed.

Lemma AppendBatch_evolves (R : relation db) `{!PreOrder R} ms :
  (∀ m m' s a s', m ∈ ms → prepared_from m m' → insertMessage m' s = Some (a, s') → R s s') →
  evolves R (AppendBatch ms).
Proof.
  intros HR. unfold AppendBatch. destruct ms as [|m0 ms]; [by apply evolves_ret|].
  eapply evolves_try_yields; [done|by apply prepare_all_evolves|apply prepare_all_yields|].
  intros prepared Hp. apply evolves_transaction, evolves_try; [done|done| |].
  { by apply evolves_driver. }
  intros _. apply insert_all_evolves; [done|]. intros m' s a s' Hin.
  apply list_elem_of_lookup in Hin as [i Hi].
  destruct (Forall2_lookup_r _ _ _ _ _ Hp Hi) as (m & Hm & Hpm).
  eapply HR; [by eapply list_elem_of_lookup_2|done].
Qed.

Lemma Append_sound m : evolves sound (Append m).
Proof.
  apply Append_evolves; [apply _|]. intros m' s a s' [? _]. by apply insertMessage_sound.
Qed.

Lemma prepared_tenant m m' : prepared_from m m' → m_TenantID m' = m_TenantID m.
Proof. intros (_ & _ & ->). done. Qed.

Lemma Append_only m : evolves (only_tenant (m_TenantID m)) (Append m).
Proof.
  apply Append_evolves; [apply _|]. intros m' s a s' <-%prepared_tenant.
  apply insertMessage_only.
Qed.

Lemma AppendBatch_sound ms : evolves sound (AppendBatch ms).
Proof.
  apply AppendBatch_evolves; [apply _|]. intros m m' s a s' _ [? _].
  by apply insertMessage_sound.
Qed.

Lemma AppendBatch_only tid ms :
  (∀ m, m ∈ ms → m_TenantID m = tid) → evolves (only_tenant tid) (AppendBatch ms).
Proof.
  intros Ht. apply AppendBatch_evolves; [apply _|].
  intros m m' s a s' Hm Hp. rewrite <- (Ht m Hm), <- (prepared_tenant m m' Hp).
  apply insertMessage_only.
Qed.

(** ** UpdateMedia *)

Lemma update_messages_sound (P : Message → Prop) `{∀ m, Decision (P m)} f s :
  (∀ m, same_message m (f m)) →
  sound s (set_messages (update_where P f (messages s)) s).
Proof.
  intros Hf. split.
  - split; try reflexivity. simpl. apply table_le_update; [apply _|auto].
  - intros Hwf.
    assert (Hg : ∀ id q, update_where P f (messages s) !! id = Some q →
              ∃ m, messages s !! id = Some m ∧ same_message m q).
    { intros id q (m & Hm & ->)%update_where_Some. exists m. split; [done|].
      case_decide; [auto|reflexivity]. }
    split; simpl; try apply Hwf.
    + intros id q Hq. destruct (Hg id q Hq) as (m & Hm & Hs).
      pose proof (wf_messages _ Hwf id m Hm) as Hw. by rewrite Hs in Hw.
    + intros i j q1 q2 Hq1 Hq2 Ht Hi.
      destruct (Hg i q1 Hq1) as (m1 & Hm1 & E1), (Hg j q2 Hq2) as (m2 & Hm2 & E2).
      eapply wf_wa_id; [done..| |]; rewrite E1, E2; done.
Qed.

Lemma apply_media_same upd t m : same_message m (apply_media upd t m).
Proof. apply same_message_with_media. Qed.

Lemma UpdateMedia_evolves (R : relation db) `{!PreOrder R} tid id upd :
  (∀ t s, R s (set_messages (update_where (owned_id tid id) (apply_media upd t)
                               (messages s)) s)) →
  evolves R (UpdateMedia tid id upd).
Proof.
  intros HR. unfold UpdateMedia. case_decide; [by apply evolves_ret|]. evolve.
  simplify_eq. apply HR.
Qed.

(** An update that runs: a stored row of the tenant is found and changed. *)
Lemma UpdateMedia_run tid id upd n s m :
  answering → tid ≠ "" → id ≠ "" → messages s !! id = Some m → owned_id tid id m →
  ∃ t n', UpdateMedia tid id upd n s =
    (Ok (), n', set_messages (update_where (owned_id tid id) (apply_media upd t) (messages s)) s).
Proof.
  intros Ha Ht Hi Hm Ho. unfold UpdateMedia. rewrite decide_False by naive_solver.
  unfold affected_some. run. destruct (IsZero (u_FetchedAt upd)); rewrite !Ha; simpl; rewrite ?Ha.
  all: rewrite bool_decide_eq_false_2; [by eexists _, _|].
  all: apply map_size_ne_0_lookup_2 with id; exists m; by apply where_lookup.
Qed.

Lemma UpdateMedia_sound tid id upd : evolves sound (UpdateMedia tid id upd).
Proof.
  unfold UpdateMedia. case_decide; [apply evolves_ret, _|]. evolve.
  simplify_eq. apply update_messages_sound. intros. apply apply_media_same.
Qed.

Lemma UpdateMedia_only tid id upd : evolves (only_tenant tid) (UpdateMedia tid id upd).
Proof.
  unfold UpdateMedia. case_decide; [apply evolves_ret, _|]. evolve. simplify_eq.
  intros other Hne. split; [split|..]; simpl; try done. symmetry.
  apply where_update_not; intros m [Ht _]; simpl; [split|intros ?]; congruence.
Qed.

(** ** What the writes answer *)

Lemma insert_all_Ok c ms n s k :
  answer (insert_all c ms) n s = Ok k →
  let s' := final (insert_all c ms) n s in
  size (messages s') + c = size (messages s) + k ∧ Forall (λ m, stored m s') ms.
Proof.
  revert c n s. induction ms as [|m ms IH]; intros c n s; simpl.
  { intros [= <-]. by split. }
  intros (a & n1 & s1 & He & Hb & Hf)%try_Ok. rewrite Hf.
  apply exec_Ok in He as [He ->].
  apply try_Ok in Hb as (u & n2 & s2 & Hd & Hb & Hf'). rewrite Hf'.
  apply query_Ok in Hd as (_ & -> & ->).
  pose proof (IH _ _ _ Hb) as [Hs Ha]. apply insertMessage_count in He as Hc.
  split; [lia|]. constructor; [|done].
  eapply stored_le; [|by eapply insertMessage_stored].
  apply insert_all_evolves; [apply _|]. intros m' t b t' _ Ht.
  apply insertMessage_cases in Ht as [(_ & -> & _)|(_ & _ & Hnew & _ & ->)]; [done|].
  split; try reflexivity. simpl. apply table_le_insert; [apply _|]. congruence.
Qed.

Lemma stored_prepared m m' s : prepared_from m m' → stored m' s ↔ stored m s.
Proof. by intros (_ & _ & ->). Qed.

(** A batch that succeeds is the run of its inserts. *)
Lemma AppendBatch_run ms n s k :
  answer (AppendBatch ms) n s = Ok k →
  ∃ prepared n', Forall2 prepared_from ms prepared ∧
    answer (insert_all 0 prepared) n' s = Ok k ∧
    final (AppendBatch ms) n s = final (insert_all 0 prepared) n' s.
Proof.
  unfold AppendBatch. destruct ms as [|m0 ms].
  { intros [= <-]. by exists [], n. }
  generalize (m0 :: ms). intros l (prepared & n1 & s1 & Hp & Hb & Hf)%try_Ok. rewrite Hf.
  pose proof (prepare_all_yields 0 l n s prepared) as Hy.
  pose proof (prepare_all_evolves eq 0 l n s) as Hs1.
  unfold answer, final in Hy, Hs1. rewrite Hp in Hy, Hs1. simpl in Hs1. subst s1.
  apply transaction_Ok in Hb as (n2 & n3 & s2 & Hb & Hf2). rewrite Hf2.
  assert (Hb' : answer (try driver (Wrap "store: prepare message batch")
            (λ _, insert_all 0 prepared)) n2 s = Ok k) by (unfold answer; by rewrite Hb).
  apply try_Ok in Hb' as (u & n4 & s4 & Hd & Ha & Hf3).
  apply query_Ok in Hd as (_ & -> & ->).
  unfold final in Hf3 at 1. rewrite Hb in Hf3. simpl in Hf3.
  exists prepared, (S n2). auto.
Qed.

Lemma stored_all_prepared ms prepared s :
  Forall2 prepared_from ms prepared →
  Forall (λ m, stored m s) prepared ↔ Forall (λ m, stored m s) ms.
Proof.
  induction 1 as [|m m' r r' Hm _ IH]; [done|].
  by rewrite !Forall_cons, IH, (stored_prepared m m').
Qed.

Lemma AppendBatch_Ok ms n s k :
  answer (AppendBatch ms) n s = Ok k →
  let s' := final (AppendBatch ms) n s in
  size (messages s') = size (messages s) + k ∧ Forall (λ m, stored m s') ms.
Proof.
  intros (prepared & n' & Hp & Ha & ->)%AppendBatch_run.
  pose proof (insert_all_Ok _ _ _ _ _ Ha) as [Hs Hst].
  split; [lia|]. exact (proj1 (stored_all_prepared _ _ _ Hp) Hst).
Qed.

Lemma AppendBatch_Err ms n s e :
  answer (AppendBatch ms) n s = Err e → final (AppendBatch ms) n s = s.
Proof.
  unfold AppendBatch. destruct ms as [|m0 ms]; [done|]. set (l := m0 :: ms).
  pose proof (prepare_all_evolves eq 0 l n s) as Hs1.
  unfold answer, final, try, bind in *. destruct (prepare_all 0 l n s) as [[[p|e'] n1] s1];
    simpl in *; subst; [|done].
  intros Ht. by eapply transaction_Err.
Qed.

(** A redelivery changes nothing. *)
Lemma Append_redelivered m n s : stored m s → final (Append m) n s = s.
Proof.
  intros Hst. unfold Append.
  pose proof (prepareMessage_same m n s) as Hs. pose proof (prepareMessage_yields m n s) as Hy.
  unfold answer, final, try, bind in *.
  destruct (prepareMessage m n s) as [[[m'|e] n1] s1]; simpl in *; subst; [|done].
  destruct (exec_run (insertMessage m') n1 s1) as [(a & s2 & Hi & ->)|(e & -> & _)]; [|done].
  rewrite insertMessage_redelivered in Hi; [simplify_eq; done|].
  by apply (stored_prepared m); [apply Hy|].
Qed.

Lemma insert_all_redelivered c ms n s :
  Forall (λ m, stored m s) ms →
  final (insert_all c ms) n s = s ∧ ∀ k, answer (insert_all c ms) n s = Ok k → k = c.
Proof.
  intros Hst. revert c n. induction Hst as [|m ms Hm _ IH]; intros c n; simpl.
  { split; [done|]. by intros k [= <-]. }
  unfold answer, final, try, bind.
  destruct (exec_run (insertMessage m) n s) as [(a & s2 & Hi & ->)|(e & -> & _)]; [|done].
  rewrite insertMessage_redelivered in Hi by done. simplify_eq.
  unfold driver. destruct (query_run (λ _ : db, ()) (S n) s2) as [->|(e & -> & _)]; [|done].
  rewrite Nat.add_0_r. apply IH.
Qed.

Lemma AppendBatch_redelivered ms n s :
  Forall (λ m, stored m s) ms →
  final (AppendBatch ms) n s = s ∧ ∀ k, answer (AppendBatch ms) n s = Ok k → k = 0.
Proof.
  intros Hst. destruct (answer (AppendBatch ms) n s) as [k|e] eqn:E.
  - apply AppendBatch_run in E as (prepared & n' & Hp & Ha & ->).
    apply (proj2 (stored_all_prepared _ _ s Hp)) in Hst.
    destruct (insert_all_redelivered 0 prepared n' s Hst) as [Hf Hk].
    split; [done|]. intros k' [= <-]. by apply Hk.
  - split; [by eapply AppendBatch_Err|done].
Qed.

Lemma Append_Ok m n s : answer (Append m) n s = Ok () → stored m (final (Append m) n s).
Proof.
  unfold Append. intros (m' & n1 & s1 & Hp & Hb & ->)%try_Ok.
  pose proof (prepareMessage_yields m n s m') as Hy. unfold answer in Hy. rewrite Hp in Hy.
  apply try_Ok in Hb as (a & n2 & s2 & He & _ & ->).
  apply exec_Ok in He as [He _]. apply (stored_prepared m m'); [by apply Hy|].
  by eapply insertMessage_stored.
Qed.

(** The identifiers drawn from here on are new to the table. *)
Definition fresh_ids (n : nat) (s : db) : Prop :=
  ∀ k, n ≤ k → o_uuid k ≠ "" ∧ messages s !! o_uuid k = None.

(** What an append that is accepted leaves: nothing when the message was
    stored before, else its row, with the time it had. *)
Definition appended (m : Message) (s s' : db) : Prop :=
  (stored m s ∧ s' = s) ∨
  (¬ stored m s ∧ ∃ t c, (IsZero (m_Timestamp m) = false → t = m_Timestamp m) ∧
     s' = set_messages (<[m_ID m := messageArgs (with_identity (m_ID m) t c m)]> (messages s)) s).

Lemma insertMessage_appended m t c s :
  messages s !! m_ID m = None → is_Some (tenants s !! m_TenantID m) →
  (IsZero (m_Timestamp m) = false → t = m_Timestamp m) →
  ∃ a s', insertMessage (with_identity (m_ID m) t c m) s = Some (a, s') ∧ appended m s s'.
Proof.
  intros Hnew Hten Ht. unfold insertMessage. destruct (decide (where_ _ _ = ∅)) as [E|E].
  - simpl. rewrite Hnew. rewrite decide_False by (by intros []). rewrite decide_True by done.
    do 2 eexists. split; [done|]. right. split; [|by exists t, c].
    intros (i & o & Hi & Ho). exact (proj1 (where_none _ _) E i o Hi Ho).
  - do 2 eexists. split; [done|]. left. split; [|done].
    apply map_choose in E as (i & o & [Hi Ho]%where_lookup). by exists i, o.
Qed.

(** A complete row of a known tenant is accepted, whether it is new or not. *)
Lemma Append_appended m n s :
  answering → m_TenantID m ≠ "" → insertable m → m_ID m ≠ "" →
  messages s !! m_ID m = None → is_Some (tenants s !! m_TenantID m) →
  answer (Append m) n s = Ok () ∧ appended m s (final (Append m) n s).
Proof.
  intros Ha Ht [Hc Hw Hd] Hid Hnew Hten. unfold Append, prepareMessage.
  rewrite !decide_False, Hd by done. simpl.
  unfold answer, final, try, bind, ret, exec.
  destruct (IsZero (m_Timestamp m)) eqn:Ez, (IsZero (m_CreatedAt m));
    simpl; unfold now, draw; rewrite Ha;
    match goal with |- context [insertMessage (with_identity _ ?t ?c _)] =>
      destruct (insertMessage_appended m t c s) as (a & s' & -> & Hs');
        [done|done|by rewrite ?Ez|done] end.
Qed.

Lemma appended_row m s s' :
  appended m s s' →
  ∃ i row, messages s' !! i = Some row ∧ same_wa_id m row ∧
    (¬ stored m s → i = m_ID m ∧ m_ChatJID row = m_ChatJID m ∧ m_SenderJID row = m_SenderJID m ∧
       m_Direction row = m_Direction m ∧ m_Body row = m_Body m ∧
       (IsZero (m_Timestamp m) = false → m_Timestamp row = m_Timestamp m)).
Proof.
  intros [[(i & o & Hi & Ho) ->]|(Hno & t & c & Ht & ->)].
  - exists i, o. split_and!; [done..|]. intros Hn. destruct Hn. by exists i, o.
  - eexists (m_ID m), _. simpl. rewrite lookup_insert_eq. split_and!; [done..|by split|].
    intros _. by split_and!.
Qed.
End writing.
