(* ===== verification/MessageQueries.v ===== *)
(** * What the message queries answer

    Reading one conversation and listing all of them are two views of the same
    folding of addresses; both read one tenant only, and neither writes. *)

From S2P Require Import Prelude GoText GoUnicode GoEff Models Sql Store Address MessageRepo.

(** The rows of one conversation, named by any of its addresses. *)
Definition conversation (s : db) (tenantID jid : string) (m : Message) : Prop :=
  m_TenantID m = tenantID ∧
  canonical (lids s) (m_ChatJID m) = canonical (lids s) (nonADAddress jid).

#[export] Instance conversation_dec s tenantID jid m :
  Decision (conversation s tenantID jid m).
Proof. unfold conversation. apply _. Defined.

Lemma wf_message_key s : wf s → ∀ k m, messages s !! k = Some m → m_ID m = k.
Proof. intros Hwf k m Hm. by apply (wf_messages _ Hwf k m Hm). Qed.

Section queries.
Context `{Unicode} `{Oracle}.

(** ** No query writes *)

Lemma collect_same what q : evolves same_tables (collect what q).
Proof. apply evolves_read_rows, _. Qed.

Lemma ListByChat_same tid jid limit : evolves same_tables (ListByChat tid jid limit).
Proof.
  apply evolves_bind; [apply _|apply chatAliases_same|]. intros. apply collect_same.
Qed.

Lemma OldestByChat_same tid jid : evolves same_tables (OldestByChat tid jid).
Proof.
  apply evolves_bind; [apply _|apply chatAliases_same|]. intros.
  apply evolves_try; [apply _|apply collect_same|]. intros. apply evolves_ret, _.
Qed.

Lemma GetByID_same tid id : evolves same_tables (GetByID tid id).
Proof.
  unfold GetByID. case_decide; [apply evolves_ret, _|].
  apply evolves_try; [apply _|apply collect_same|]. intros. apply evolves_ret, _.
Qed.

Lemma Search_same tid q limit : evolves same_tables (Search tid q limit).
Proof. unfold Search. case_decide; [apply evolves_ret, _|apply collect_same]. Qed.

Lemma ListChats_same tid limit : evolves same_tables (ListChats tid limit).
Proof.
  apply evolves_bind; [apply _|apply addressing_same|]. intros. apply evolves_read_rows, _.
Qed.

Lemma SearchChats_same tid q limit : evolves same_tables (SearchChats tid q limit).
Proof.
  unfold SearchChats. case_decide; [apply evolves_ret, _|].
  apply evolves_bind; [apply _|apply addressing_same|]. intros. apply evolves_read_rows, _.
Qed.

(** ** Every query reads one tenant *)

Section isolation.
Context (tid : string).

Lemma select_agrees (P : Message → Prop) `{∀ m, Decision (P m)} R
    `{∀ x y, Decision (R x y)} n s1 s2 :
  (∀ m, P m → m_TenantID m = tid) → same_tenant tid s1 s2 →
  select P R n (messages s1) = select P R n (messages s2).
Proof.
  intros HP [[_ _ _ Hm _] _ _]. apply select_ext. by eapply where_mono, Hm.
Qed.

Lemma own_messages_agrees s1 s2 :
  same_tenant tid s1 s2 → own_messages tid s1 = own_messages tid s2.
Proof. intros [[_ _ _ Hm _] _ _]. unfold own_messages. by rewrite Hm. Qed.

Lemma chats_agrees s1 s2 jid :
  same_tenant tid s1 s2 → chats s1 !! (tid, jid) = chats s2 !! (tid, jid).
Proof.
  intros [[_ _ _ _ Hc] _ _]. apply option_eq. intros h.
  assert (Hw : ∀ s, chats s !! (tid, jid) = Some h ↔
            filter (λ kh, kh.1.1 = tid) (chats s) !! (tid, jid) = Some h).
  { intros s. rewrite map_lookup_filter_Some. naive_solver. }
  by rewrite Hw, Hc, <- Hw.
Qed.

Lemma chat_rows_agrees chat s1 s2 :
  same_tenant tid s1 s2 → chat_rows chat tid s1 = chat_rows chat tid s2.
Proof.
  intros HE. unfold chat_rows. rewrite (own_messages_agrees s1 s2 HE).
  apply list_fmap_ext. intros i m _. unfold chat_row. by rewrite (chats_agrees s1 s2 _ HE).
Qed.

Lemma ListByChat_agrees jid limit : agrees (same_tenant tid) (ListByChat tid jid limit).
Proof.
  apply agrees_bind; [apply chatAliases_agrees|]. intros aliases.
  apply agrees_read_rows. intros s1 s2. by apply select_agrees; intros m [? _].
Qed.

Lemma OldestByChat_agrees jid : agrees (same_tenant tid) (OldestByChat tid jid).
Proof.
  apply agrees_bind; [apply chatAliases_agrees|]. intros aliases.
  apply agrees_try; [|intros; apply agrees_ret].
  apply agrees_read_rows. intros s1 s2. by apply select_agrees; intros m [? _].
Qed.

Lemma GetByID_agrees id : agrees (same_tenant tid) (GetByID tid id).
Proof.
  unfold GetByID. case_decide; [apply agrees_ret|].
  apply agrees_try; [|intros; apply agrees_ret].
  apply agrees_read_rows. intros s1 s2. by apply select_agrees; intros m [? _].
Qed.

Lemma Search_agrees q limit : agrees (same_tenant tid) (Search tid q limit).
Proof.
  unfold Search. case_decide; [apply agrees_ret|].
  apply agrees_read_rows. intros s1 s2. by apply select_agrees; intros m [? _].
Qed.

Lemma ListChats_agrees limit : agrees (same_tenant tid) (ListChats tid limit).
Proof.
  apply agrees_addressing. intros ready. apply agrees_read_rows. intros s1 s2 HE.
  destruct (addressing_when_agrees tid ready s1 s2 HE) as [-> _].
  by rewrite (chat_rows_agrees _ s1 s2 HE).
Qed.

Lemma SearchChats_agrees q limit : agrees (same_tenant tid) (SearchChats tid q limit).
Proof.
  unfold SearchChats. case_decide; [apply agrees_ret|].
  apply agrees_addressing. intros ready. apply agrees_read_rows. intros s1 s2 HE.
  destruct (addressing_when_agrees tid ready s1 s2 HE) as [-> ->].
  by rewrite (own_messages_agrees s1 s2 HE).
Qed.
End isolation.

(** ** Reading one conversation *)

Lemma same_tables_messages s s' : same_tables s s' → messages s' = messages s ∧ lids s' = lids s.
Proof. by intros [->|[-> _]]. Qed.

(** After its aliases are known, a query by conversation selects that
    conversation. *)
Lemma select_conversation s tid jid n (R : relation Message)
    `{∀ x y, Decision (R x y)} k :
  wf s → lid_map_ok (lids s) → answering →
  select (in_chat tid (answer (chatAliases jid) n s)) R k
    (messages (final (chatAliases jid) n s)) =
  select (conversation s tid jid) R k (messages s).
Proof.
  intros Hwf Hm Ha. destruct (same_tables_messages _ _ (chatAliases_same jid n s)) as [-> _].
  apply select_iff. intros m. unfold in_chat, conversation.
  by rewrite elem_of_chatAliases.
Qed.

Lemma ListByChat_answer tid jid limit n s :
  wf s → lid_map_ok (lids s) → answering →
  answer (ListByChat tid jid limit) n s =
  Ok (select (conversation s tid jid) newest_first (normalizeLimit limit) (messages s)).
Proof.
  intros Hwf Hm Ha. unfold ListByChat. rewrite bind_answer. unfold collect.
  rewrite read_rows_answer by done. f_equal. by apply select_conversation.
Qed.

Lemma try_answer {St A B} (m : eff St (result A)) (k : A → eff St (result B)) n s a :
  answer m n s = Ok a → answer (try m id k) n s = answer (k a) (next m n s) (final m n s).
Proof.
  unfold answer, next, final, try, bind. destruct (m n s) as [[r n'] s']. simpl. by intros ->.
Qed.

Lemma OldestByChat_answer tid jid n s :
  wf s → lid_map_ok (lids s) → answering →
  answer (OldestByChat tid jid) n s =
  first_or_not_found (select (conversation s tid jid) oldest_first 1 (messages s)).
Proof.
  intros Hwf Hm Ha. unfold OldestByChat. rewrite bind_answer.
  erewrite try_answer by (by apply read_rows_answer). unfold ret, answer. simpl. f_equal.
  apply (select_conversation s tid jid n oldest_first 1 Hwf Hm Ha).
Qed.

(** A window of one row holds the extremum. *)
Lemma window_first (P : Message → Prop) `{∀ m, Decision (P m)} R k s l m :
  window P R k (messages s) (m :: l) →
  (∃ i, messages s !! i = Some m) ∧ P m ∧
  ∀ i o, messages s !! i = Some o → P o → o = m ∨ R m o.
Proof.
  intros Hw. destruct (win_sound _ _ _ _ _ Hw m) as [Hm HP]; [left|].
  split_and!; [done..|]. intros i o Ho HPo.
  destruct (decide (o ∈ m :: l)) as [[->|Hin]%elem_of_cons|Hn]; [by left|right|right].
  - pose proof (win_sorted _ _ _ _ _ Hw) as Hs. apply StronglySorted_inv in Hs as [_ Hs].
    by eapply Forall_forall in Hs.
  - eapply (win_first _ _ _ _ _ Hw); [done..|left].
Qed.

(** ** Listing conversations *)

Lemma own_messages_key s tid m :
  m ∈ own_messages tid s ↔ (∃ i, messages s !! i = Some m) ∧ m_TenantID m = tid.
Proof. exact (elem_of_where (λ m, m_TenantID m = tid) (messages s) m). Qed.

Lemma row_number_first chat l m :
  row_number chat l m = 1 ↔
  ∀ o, o ∈ l → chat o = chat m → o = m ∨ ¬ newest_first o m.
Proof.
  unfold row_number, partition_of. split.
  - intros [= Hnil%nil_length_inv] o Ho Hc.
    destruct (decide (o = m)) as [|Hne]; [by left|right]. intros Hn.
    assert (Hin : o ∈ filter (λ o, newest_first o m ∧ o ≠ m) (filter (λ o, chat o = chat m) l))
      by (by rewrite !list_elem_of_filter).
    rewrite Hnil in Hin. by apply elem_of_nil in Hin.
  - intros Hall. f_equal. apply length_zero_iff_nil, list_eq_nil. intros o.
    rewrite !list_elem_of_filter. intros ([Hn Hne] & Hc & Ho).
    by destruct (Hall o Ho Hc).
Qed.

(** The newest row of each conversation is unique... *)
Lemma row_number_inj chat l m o :
  m ∈ l → o ∈ l → row_number chat l m = 1 → row_number chat l o = 1 →
  chat m = chat o → m = o.
Proof.
  intros Hm Ho H1 H2 Hc. rewrite row_number_first in H1, H2.
  destruct (H1 o Ho (eq_sym Hc)) as [|Hn1]; [done|].
  destruct (H2 m Hm Hc) as [|Hn2]; [done|].
  by destruct (total newest_first m o).
Qed.

(** ... and exists. *)
Lemma row_number_exists s tid chat m :
  wf s → m ∈ own_messages tid s →
  ∃ o, o ∈ own_messages tid s ∧ chat o = chat m ∧
    row_number chat (own_messages tid s) o = 1.
Proof.
  intros Hwf Hm.
  destruct (exists_first newest_first (partition_of chat (own_messages tid s) m) m)
    as (o & [Hoc Ho]%list_elem_of_filter & Hfirst); [by apply list_elem_of_filter|].
  exists o. split_and!; [done..|]. apply row_number_first. intros p Hp Hpc.
  destruct (decide (p = o)) as [|Hne]; [by left|right]. intros Hn. apply Hne.
  assert (Hid : m_ID p = m_ID o).
  { apply newest_first_anti; [done|]. apply Hfirst, list_elem_of_filter. by rewrite Hpc, Hoc. }
  apply own_messages_key in Hp as [[i Hi] _], Ho as [[j Hj] _].
  apply (wf_message_key s Hwf) in Hi as Ei, Hj as Ej. congruence.
Qed.

(** One summary per conversation. *)
Lemma chat_rows_NoDup s tid chat :
  wf s → NoDup (c_ChatJID <$> chat_rows chat tid s).
Proof.
  intros Hwf. unfold chat_rows. rewrite <- list_fmap_compose.
  apply NoDup_fmap_inj.
  - intros m o [H1 Hm]%list_elem_of_filter [H2 Ho]%list_elem_of_filter Hc.
    by eapply row_number_inj.
  - apply NoDup_filter, (NoDup_rows m_ID). intros k m [Hk _]%where_lookup.
    by apply wf_message_key with s.
Qed.

Lemma elem_of_chat_rows s tid chat c :
  c ∈ chat_rows chat tid s ↔
  ∃ m, m ∈ own_messages tid s ∧ row_number chat (own_messages tid s) m = 1 ∧
    c = chat_row chat tid s (own_messages tid s) m.
Proof.
  unfold chat_rows. rewrite list_elem_of_fmap. setoid_rewrite list_elem_of_filter. naive_solver.
Qed.

Lemma chat_rows_ext chat1 chat2 tid s :
  (∀ m, chat1 m = chat2 m) → chat_rows chat1 tid s = chat_rows chat2 tid s.
Proof.
  intros Hc.
  assert (Hp : ∀ l m, partition_of chat1 l m = partition_of chat2 l m).
  { intros l m. apply list_filter_iff. intros o. by rewrite !Hc. }
  unfold chat_rows. set (l := own_messages tid s).
  assert (Hf : filter (λ m, row_number chat1 l m = 1) l = filter (λ m, row_number chat2 l m = 1) l).
  { apply list_filter_iff. intros m. unfold row_number. by rewrite Hp. }
  rewrite Hf. apply list_fmap_ext. intros i m _. unfold chat_row. by rewrite Hc, Hp.
Qed.

Lemma ListChats_answer tid limit n s :
  wf s → answering →
  answer (ListChats tid limit) n s =
  Ok (take (normalizeLimit limit) (merge_sort chat_order
        (chat_rows (λ m, canonical (lids s) (m_ChatJID m)) tid s))).
Proof.
  intros Hwf Ha. unfold ListChats. rewrite bind_answer, read_rows_answer by done.
  pose proof (addressing_same n s) as Hs.
  destruct (addressing_answer n s _ Hwf Ha Hs) as [Hc _].
  destruct Hs as [E|[E _]]; rewrite E in Hc |- *; do 3 f_equal; (etrans; [apply chat_rows_ext, Hc|done]).
Qed.

(** The address of a summary names the conversation of its newest message. *)
Lemma conversation_of_row s tid m o :
  lid_map_ok (lids s) → nonADAddress (m_ChatJID m) = m_ChatJID m →
  conversation s tid (canonical (lids s) (m_ChatJID m)) o ↔
  m_TenantID o = tid ∧ canonical (lids s) (m_ChatJID o) = canonical (lids s) (m_ChatJID m).
Proof.
  intros Hm Hp. unfold conversation. by rewrite canonical_plain, canonical_idem.
Qed.

(** The summary of a conversation and reading it agree. *)
Lemma chat_row_agrees s tid m n :
  let chat := λ m, canonical (lids s) (m_ChatJID m) in
  let l := own_messages tid s in
  wf s → lid_map_ok (lids s) → nonADAddress (m_ChatJID m) = m_ChatJID m → 0 < n →
  m ∈ l → row_number chat l m = 1 →
  head (select (conversation s tid (chat m)) newest_first n (messages s)) = Some m ∧
  c_MessageCount (chat_row chat tid s l m) =
    size (where_ (conversation s tid (chat m)) (messages s)).
Proof.
  intros chat l Hwf Hm Hp Hn Hml Hr.
  assert (Hconv : ∀ o, conversation s tid (chat m) o ↔ m_TenantID o = tid ∧ chat o = chat m)
    by (intros; by apply conversation_of_row).
  pose proof Hml as [[i Hi] Ht]%own_messages_key. split.
  - pose proof (select_window (conversation s tid (chat m)) newest_first m_ID n (messages s)
                  (wf_message_key s Hwf)) as Hw.
    destruct (select _ _ _ _) as [|h r] eqn:E; simpl.
    + eapply select_nil in E; [|done|exact Hi]. destruct E. by apply Hconv.
    + apply window_first in Hw as ([j Hj] & [Hht Hhc]%Hconv & Hold). f_equal.
      destruct (Hold i m Hi) as [|Hnew]; [by apply Hconv|done|].
      destruct (proj1 (row_number_first chat l m) Hr h) as [|Hno]; [|done..].
      apply own_messages_key. eauto.
  - simpl. unfold partition_of, l, own_messages.
    rewrite (filter_rows _ _ m_ID) by (by apply wf_message_key).
    f_equal. apply where_iff. intros o. by rewrite Hconv.
Qed.

(** ** Updating the bookkeeping of one message *)

Lemma UpdateMedia_rows tid id upd n s i m :
  messages s !! i = Some m →
  ∃ m' t, messages (final (UpdateMedia tid id upd) n s) !! i = Some m' ∧
    (m' = m ∨ (owned_id tid id m ∧ m' = apply_media upd t m)) .
Proof.
  intros Hi. unfold UpdateMedia. case_decide as Hz; [exists m, 0%Z; auto|].
  rewrite bind_final. generalize (answer (if IsZero (u_FetchedAt upd) then now
    else ret (u_FetchedAt upd)) n s). intros t.
  assert (Hs : final (if IsZero (u_FetchedAt upd) then now else ret (u_FetchedAt upd)) n s = s)
    by (by destruct (IsZero _)).
  rewrite Hs. generalize (next (if IsZero (u_FetchedAt upd) then now
    else ret (u_FetchedAt upd)) n s). intros n1.
  unfold final, try, bind.
  destruct (exec_run (λ s, Some (size (where_ (owned_id tid id) (messages s)),
     set_messages (update_where (owned_id tid id) (apply_media upd t) (messages s)) s)) n1 s)
    as [(a & s2 & [= <- <-] & ->)|(e & -> & _)]; [|exists m, t; auto].
  unfold affected_some, try, bind, driver.
  match goal with |- context [query ?q ?k ?u] =>
    destruct (query_run q k u) as [->|(e & -> & _)] end; simpl.
  all: exists (if decide (owned_id tid id m) then apply_media upd t m else m), t.
  all: rewrite update_where_lookup, Hi; simpl; split; [done|]; case_decide; auto.
Qed.
(** ** Looking up one message *)

Lemma first_selected (P : Message → Prop) `{∀ m, Decision (P m)} s m :
  wf s →
  head (select P newest_first 1 (messages s)) = Some m ↔
  messages s !! m_ID m = Some m ∧ P m ∧
  ∀ i o, messages s !! i = Some o → P o → newest_first m o.
Proof.
  intros Hwf. pose proof (wf_message_key s Hwf) as Hkey.
  pose proof (select_window P newest_first m_ID 1 (messages s) Hkey) as Hw.
  destruct (select P newest_first 1 (messages s)) as [|x l] eqn:E; simpl.
  - split; [done|]. intros (Hm & HP & _).
    eapply select_nil in E; [|lia|exact Hm]. done.
  - apply window_first in Hw as ([i Hi] & HPx & Hx).
    assert (Hself : newest_first x x) by (destruct (total newest_first x x); done).
    split.
    + intros [= ->]. pose proof (Hkey i m Hi) as <-. split_and!; [done..|].
      intros j o Ho HPo. by destruct (Hx j o Ho HPo) as [->|].
    + intros (Hm & HPm & Hbest). f_equal.
      destruct (Hx _ m Hm HPm) as [->|Hle]; [done|].
      pose proof (newest_first_anti x m Hle (Hbest i x Hi HPx)) as Hid.
      pose proof (Hkey i x Hi) as <-. rewrite Hid in Hi. congruence.
Qed.

Lemma GetByID_iff tid id n s m :
  wf s → answering →
  answer (GetByID tid id) n s = Ok m ↔
  tid ≠ "" ∧ id ≠ "" ∧ messages s !! m_ID m = Some m ∧ addressed_by tid id m ∧
  ∀ i o, messages s !! i = Some o → addressed_by tid id o → newest_first m o.
Proof.
  intros Hwf Ha. unfold GetByID. case_decide as Hz.
  { simpl. naive_solver. }
  erewrite try_answer by (by apply read_rows_answer).
  pose proof (first_selected (addressed_by tid id) s m Hwf) as Hf.
  apply Decidable.not_or in Hz as [Ht Hi]. unfold ret, answer. simpl.
  destruct (select _ _ _ _) as [|x l]; simpl in *.
  - split; [done|]. intros (_ & _ & Hm). by apply Hf in Hm.
  - split.
    + intros [= ->]. split_and!; [done..|apply Hf; done|apply Hf; done|apply Hf; done].
    + intros (_ & _ & Hm). apply Hf in Hm as [= ->]. done.
Qed.

(** A lookup that succeeds answers a stored row of the tenant. *)
Lemma GetByID_stored tid id n s m :
  wf s → answer (GetByID tid id) n s = Ok m →
  tid ≠ "" ∧ id ≠ "" ∧ messages s !! m_ID m = Some m ∧ addressed_by tid id m.
Proof.
  intros Hwf. unfold GetByID. case_decide as Hz; [done|]. intros Hg.
  apply try_Ok in Hg as (l & n' & s' & Hrun & Hans & _).
  assert (Hl : l = select (addressed_by tid id) newest_first 1 (messages s)).
  { apply (read_rows_Ok "store: get message" "store: scan message"
      (λ s, select (addressed_by tid id) newest_first 1 (messages s)) n s).
    unfold answer, collect in *. by rewrite Hrun. }
  pose proof (first_selected (addressed_by tid id) s m Hwf) as [Hf _].
  unfold answer, ret in Hans. simpl in Hans. subst l.
  destruct (select _ _ _ _) as [|x l]; [done|]. simpl in Hans. injection Hans as ->.
  destruct Hf as (Hm & HP & _); [done|]. by apply Decidable.not_or in Hz as [? ?].
Qed.

(** A lookup answers the same message after a media update, with its new
    bookkeeping. *)
Lemma GetByID_updated tid id n n' s s' m g :
  wf s → wf s' → answering → (∀ o, same_message o (g o)) →
  messages s' = update_where (owned_id tid (m_ID m)) g (messages s) →
  answer (GetByID tid id) n s = Ok m → answer (GetByID tid id) n' s' = Ok (g m).
Proof.
  intros Hwf Hwf' Ha Hg Hs' Hm.
  apply (GetByID_iff tid id n s m Hwf Ha) in Hm as (Ht & Hi & Hrow & Hadd & Hbest).
  assert (Hsame : ∀ o, m_ID (g o) = m_ID o ∧ m_TenantID (g o) = m_TenantID o ∧
            m_WAMessageID (g o) = m_WAMessageID o ∧ m_Timestamp (g o) = m_Timestamp o).
  { intros o. pose proof (Hg o) as Ho. unfold same_message in Ho.
    set (go := g o) in *. clearbody go. by rewrite Ho. }
  destruct (Hsame m) as (E1 & E2 & E3 & E4).
  apply GetByID_iff; [done..|]. split_and!; [done..| | |].
  - rewrite Hs', update_where_lookup, E1, Hrow. simpl. rewrite decide_True; [done|].
    split; [apply Hadd|done].
  - unfold addressed_by in *. by rewrite E1, E2, E3.
  - intros i o Ho Ho'. rewrite Hs', update_where_lookup in Ho.
    apply fmap_Some in Ho as (o0 & Ho0 & ->).
    assert (Hn : newest_first m o0).
    { apply (Hbest i o0 Ho0). case_decide; [|done]. unfold addressed_by in *.
      destruct (Hsame o0) as (F1 & F2 & F3 & _). by rewrite F1, F2, F3 in Ho'. }
    unfold newest_first in *. rewrite E1, E4. case_decide; [|done].
    destruct (Hsame o0) as (F1 & _ & _ & F4). by rewrite F1, F4.
Qed.
End queries.
