(* ===== verification/ChatRepo.v ===== *)
(** * Chat names ([internal/store/chat_repo.go]) *)

From S2P Require Import Prelude GoText GoUnicode GoEff Models Sql Store.
From S2P Require MessageRepo.

(** [ORDER BY name ASC, chat_jid ASC] *)
Definition name_order (a b : NamedChat) : Prop :=
  (text_le (n_Name a) (n_Name b) ∧ n_Name a ≠ n_Name b) ∨
  n_Name a = n_Name b ∧ text_le (n_ChatJID a) (n_ChatJID b).

#[export] Instance name_order_dec a b : Decision (name_order a b).
Proof. unfold name_order. apply _. Defined.

Section chatrepo.
Context `{Unicode} `{Oracle}.

(** [INSERT ... ON CONFLICT (tenant_id, chat_jid) DO UPDATE] *)
Definition upsertChat (tenantID chatJID name : string) (updated : Z) (s : db)
    : option (nat * db) :=
  if decide (is_Some (tenants s !! tenantID))
  then Some (1, set_chats (<[(tenantID, chatJID) := {| h_Name := name; h_UpdatedAt := updated |}]>
                             (chats s)) s)
  else None.

Definition Upsert (tenantID : string) (chat : NamedChat) : eff db (result ()) :=
  (let name := TrimSpace (n_Name chat) in
   if decide (name = "") then ret (Ok ())
   else
     let! t := now in
     try! _ := exec (upsertChat tenantID (n_ChatJID chat) name t)
       or Wrap "store: upsert chat name" in
     ret (Ok ()))%go.

Fixpoint upsert_all (tenantID : string) (t : Z) (l : list NamedChat) : eff db (result ()) :=
  (match l with
   | [] => ret (Ok ())
   | chat :: l =>
       let name := TrimSpace (n_Name chat) in
       if decide (name = "") then upsert_all tenantID t l
       else
         try! _ := exec (upsertChat tenantID (n_ChatJID chat) name t)
           or Wrap ("store: upsert chat name " +:+ Quote (n_ChatJID chat)) in
         upsert_all tenantID t l
   end)%go.

Definition UpsertBatch (tenantID : string) (l : list NamedChat) : eff db (result ()) :=
  (match l with
   | [] => ret (Ok ())
   | _ =>
       transaction (Wrap "store: begin chat name batch") (Wrap "store: commit chat name batch")
         (try! _ := driver or Wrap "store: prepare chat name batch" in
          let! t := now in
          upsert_all tenantID t l)
   end)%go.

Definition named (kh : (string * string) * ChatRow) : NamedChat :=
  {| n_ChatJID := kh.1.2; n_Name := h_Name kh.2 |}.

(** The names of one tenant. *)
Definition own_names (tenantID : string) (s : db) : list NamedChat :=
  named <$> map_to_list (filter (λ kh, kh.1.1 = tenantID) (chats s)).

Definition name_matches (query : string) (c : NamedChat) : bool :=
  like (lower (containing query)) (lower (n_Name c)).

Definition Search (tenantID query : string) (limit : Z) : eff db (result (list NamedChat)) :=
  let query := TrimSpace query in
  if decide (query = "") then ret (Ok [])
  else read_rows "store: search chat names" "store: scan chat name" (λ s,
    take (MessageRepo.normalizeLimit limit)
      (merge_sort name_order
         (filter (λ c, name_matches query c = true) (own_names tenantID s)))).

(** ** Writes *)

#[export] Instance name_order_total : Total name_order.
Proof.
  intros a b. unfold name_order. destruct (decide (n_Name a = n_Name b)) as [E|E].
  - rewrite E. destruct (total text_le (n_ChatJID a) (n_ChatJID b)); auto.
  - destruct (total text_le (n_Name a) (n_Name b)); auto.
Qed.

#[export] Instance name_order_trans : Transitive name_order.
Proof.
  intros a b c [[H1 N1]|[E1 H1]] [[H2 N2]|[E2 H2]]; unfold name_order.
  - left. split; [by etrans|]. intros E. apply N1. apply (anti_symm text_le); [done|].
    by rewrite E.
  - left. rewrite <- E2. done.
  - left. rewrite E1. done.
  - right. split; [congruence|by etrans].
Qed.

Lemma upsertChat_sound tid jid name t s a s' :
  name ≠ "" → upsertChat tid jid name t s = Some (a, s') → sound s s'.
Proof.
  intros Hn. unfold upsertChat. case_decide as Ht; [|done]. intros [= <- <-]. split.
  - split; reflexivity.
  - intros Hwf. split; simpl; try apply Hwf.
    intros k h [[<- <-]|[_ Hh]]%lookup_insert_Some; [done|by eapply wf_chats].
Qed.

Lemma upsertChat_only tid jid name t s a s' :
  upsertChat tid jid name t s = Some (a, s') → only_tenant tid s s'.
Proof.
  unfold upsertChat. case_decide as Ht; [|done]. intros [= <- <-] other Hne.
  split; [split|..]; simpl; try done. symmetry. apply map_filter_insert_not. simpl. intros; congruence.
Qed.

Lemma upsert_all_evolves (R : relation db) `{!PreOrder R} tid t l :
  (∀ jid name t s a s', name ≠ "" → upsertChat tid jid name t s = Some (a, s') → R s s') →
  evolves R (upsert_all tid t l).
Proof.
  intros HR. induction l as [|c l IH]; simpl; [by apply evolves_ret|].
  case_decide; [done|]. evolve. by eapply HR.
Qed.

Lemma Upsert_evolves (R : relation db) `{!PreOrder R} tid c :
  (∀ jid name t s a s', name ≠ "" → upsertChat tid jid name t s = Some (a, s') → R s s') →
  evolves R (Upsert tid c).
Proof.
  intros HR. unfold Upsert. case_decide; [by apply evolves_ret|]. evolve. by eapply HR.
Qed.

Lemma UpsertBatch_evolves (R : relation db) `{!PreOrder R} tid l :
  (∀ jid name t s a s', name ≠ "" → upsertChat tid jid name t s = Some (a, s') → R s s') →
  evolves R (UpsertBatch tid l).
Proof.
  intros HR. unfold UpsertBatch. destruct l as [|c l]; [by apply evolves_ret|].
  apply evolves_transaction, evolves_try; [done|done|by apply evolves_driver|].
  intros _. apply evolves_bind; [done|by apply evolves_now|]. intros t.
  by apply upsert_all_evolves.
Qed.

Lemma Upsert_sound tid c : evolves sound (Upsert tid c).
Proof. apply Upsert_evolves; [apply _|]. intros. by eapply upsertChat_sound. Qed.

Lemma Upsert_only tid c : evolves (only_tenant tid) (Upsert tid c).
Proof. apply Upsert_evolves; [apply _|]. intros. by eapply upsertChat_only. Qed.

Lemma UpsertBatch_sound tid l : evolves sound (UpsertBatch tid l).
Proof. apply UpsertBatch_evolves; [apply _|]. intros. by eapply upsertChat_sound. Qed.

Lemma UpsertBatch_only tid l : evolves (only_tenant tid) (UpsertBatch tid l).
Proof. apply UpsertBatch_evolves; [apply _|]. intros. by eapply upsertChat_only. Qed.

(** ** Reads *)

Lemma chat_Search_same tid q limit : evolves same_tables (Search tid q limit).
Proof. unfold Search. case_decide; [apply evolves_ret, _|apply evolves_read_rows, _]. Qed.

Lemma chat_Search_agrees tid q limit : agrees (same_tenant tid) (Search tid q limit).
Proof.
  unfold Search. case_decide; [apply agrees_ret|]. apply agrees_read_rows.
  intros s1 s2 [[_ _ _ _ Hc] _ _]. unfold own_names. by rewrite Hc.
Qed.

Lemma elem_of_own_names tid s c :
  c ∈ own_names tid s ↔ ∃ h, chats s !! (tid, n_ChatJID c) = Some h ∧ n_Name c = h_Name h.
Proof.
  unfold own_names. rewrite list_elem_of_fmap. split.
  - intros ([[t j] h] & -> & Hk%elem_of_map_to_list).
    apply map_lookup_filter_Some in Hk as [Hk Ht]. simpl in *. subst. eauto.
  - intros (h & Hh & Hn). exists ((tid, n_ChatJID c), h). destruct c as [j nm].
    unfold named. simpl in *. subst. split; [done|].
    by apply elem_of_map_to_list, map_lookup_filter_Some.
Qed.
End chatrepo.
