(* ===== verification/StoreOps.v ===== *)
(** * The store as a whole

    Every operation of the five repositories as one instruction set, so that
    an invariant of the database is proved once for every sequence of calls. *)

From S2P Require Import Prelude GoText GoUnicode GoEff Models Sql Store Address.
From S2P Require TenantRepo ApiKeyRepo SessionRepo MessageRepo MessageQueries ChatRepo.

(** The operations that write. *)
Inductive write_op :=
  | CreateTenant (t : Tenant)
  | CreateKey (k : APIKey)
  | RevokeKey (tenantID keyID : string)
  | MarkKeyUsed (keyID : string)
  | EnsureSession (tenantID : string)
  | UpdateSession (tenantID status waJID : string)
  | AppendMessage (m : Message)
  | AppendMessages (ms : list Message)
  | UpdateMessageMedia (tenantID id : string) (upd : MediaUpdate)
  | UpsertChat (tenantID : string) (c : NamedChat)
  | UpsertChats (tenantID : string) (l : list NamedChat).

(** The operations that read on behalf of one tenant. *)
Inductive read_op :=
  | GetTenant
  | ListKeys
  | GetSession
  | ListConversation (chatJID : string) (limit : Z)
  | OldestMessage (chatJID : string)
  | GetMessage (id : string)
  | SearchMessages (query : string) (limit : Z)
  | ListConversations (limit : Z)
  | SearchConversations (query : string) (limit : Z)
  | SearchNames (query : string) (limit : Z).

(** What a read may answer. *)
Inductive read_answer :=
  | ATenant (r : result Tenant)
  | AKeys (r : result (list APIKey))
  | ASession (r : result Session)
  | AMessages (r : result (list Message))
  | AMessage (r : result Message)
  | AChats (r : result (list Chat))
  | AAddresses (r : result (list string))
  | ANames (r : result (list NamedChat)).

Section ops.
Context `{Unicode} `{Oracle}.

Definition answer_as {A B} (f : A → B) (m : eff db A) : eff db B :=
  (let! a := m in ret (f a))%go.

(** What a write reports. *)
Definition failure {A} (r : result A) : option error :=
  match r with Ok _ => None | Err e => Some e end.

Definition run_write (o : write_op) : eff db (option error) :=
  match o with
  | CreateTenant t => answer_as failure (TenantRepo.Create t)
  | CreateKey k => answer_as failure (ApiKeyRepo.Create k)
  | RevokeKey tid kid => answer_as failure (ApiKeyRepo.Revoke tid kid)
  | MarkKeyUsed kid => answer_as failure (ApiKeyRepo.MarkUsed kid)
  | EnsureSession tid => answer_as failure (SessionRepo.EnsureForTenant tid)
  | UpdateSession tid st jid => answer_as failure (SessionRepo.UpdateStatus tid st jid)
  | AppendMessage m => answer_as failure (MessageRepo.Append m)
  | AppendMessages ms => answer_as failure (MessageRepo.AppendBatch ms)
  | UpdateMessageMedia tid id upd => answer_as failure (MessageRepo.UpdateMedia tid id upd)
  | UpsertChat tid c => answer_as failure (ChatRepo.Upsert tid c)
  | UpsertChats tid l => answer_as failure (ChatRepo.UpsertBatch tid l)
  end.

Definition run_read (tid : string) (o : read_op) : eff db read_answer :=
  match o with
  | GetTenant => answer_as ATenant (TenantRepo.Get tid)
  | ListKeys => answer_as AKeys (ApiKeyRepo.ListByTenant tid)
  | GetSession => answer_as ASession (SessionRepo.GetByTenant tid)
  | ListConversation jid limit => answer_as AMessages (MessageRepo.ListByChat tid jid limit)
  | OldestMessage jid => answer_as AMessage (MessageRepo.OldestByChat tid jid)
  | GetMessage id => answer_as AMessage (MessageRepo.GetByID tid id)
  | SearchMessages q limit => answer_as AMessages (MessageRepo.Search tid q limit)
  | ListConversations limit => answer_as AChats (MessageRepo.ListChats tid limit)
  | SearchConversations q limit => answer_as AAddresses (MessageRepo.SearchChats tid q limit)
  | SearchNames q limit => answer_as ANames (ChatRepo.Search tid q limit)
  end.

(** Any interleaving of calls, of any tenants. *)
Inductive call := Write (o : write_op) | Read (tenantID : string) (o : read_op).

Definition run_call (c : call) : eff db () :=
  match c with
  | Write o => answer_as (λ _, ()) (run_write o)
  | Read tid o => answer_as (λ _, ()) (run_read tid o)
  end.

Fixpoint run_calls (l : list call) : eff db () :=
  (match l with
   | [] => ret ()
   | c :: l => let! _ := run_call c in run_calls l
   end)%go.

(** ** Every call is sound *)

Lemma answer_as_evolves (R : relation db) `{!PreOrder R} {A B} (f : A → B) (m : eff db A) :
  evolves R m → evolves R (answer_as f m).
Proof. intros Hm. apply evolves_bind; [done|done|]. intros. by apply evolves_ret. Qed.

Lemma answer_as_agrees E {A B} (f : A → B) (m : eff db A) :
  agrees E m → agrees E (answer_as f m).
Proof. intros Hm. apply agrees_bind; [done|]. intros. apply agrees_ret. Qed.

Lemma run_write_sound o : evolves sound (run_write o).
Proof.
  destruct o; apply answer_as_evolves; try apply _.
  - apply TenantRepo.tenant_Create_sound.
  - apply ApiKeyRepo.key_Create_sound.
  - apply ApiKeyRepo.Revoke_sound.
  - apply ApiKeyRepo.MarkUsed_sound.
  - apply SessionRepo.EnsureForTenant_sound.
  - apply SessionRepo.UpdateStatus_sound.
  - apply MessageRepo.Append_sound.
  - apply MessageRepo.AppendBatch_sound.
  - apply MessageRepo.UpdateMedia_sound.
  - apply ChatRepo.Upsert_sound.
  - apply ChatRepo.UpsertBatch_sound.
Qed.

Lemma reads_same {A} (m : eff db A) : reads m → evolves same_tables m.
Proof. intros Hm n s. rewrite <- (Hm n s). reflexivity. Qed.

Lemma run_read_same tid o : evolves same_tables (run_read tid o).
Proof.
  destruct o; apply answer_as_evolves; try apply _.
  - apply evolves_read_row, _.
  - apply reads_same, ApiKeyRepo.ListByTenant_reads.
  - apply reads_same, SessionRepo.session_GetByTenant_reads.
  - apply MessageQueries.ListByChat_same.
  - apply MessageQueries.OldestByChat_same.
  - apply MessageQueries.GetByID_same.
  - apply MessageQueries.Search_same.
  - apply MessageQueries.ListChats_same.
  - apply MessageQueries.SearchChats_same.
  - apply ChatRepo.chat_Search_same.
Qed.

Lemma run_call_sound c : evolves sound (run_call c).
Proof.
  destruct c as [o|tid o]; (apply answer_as_evolves; [apply _|]); [apply run_write_sound|].
  intros n s. apply same_tables_sound, run_read_same.
Qed.

Lemma run_calls_sound l : evolves sound (run_calls l).
Proof.
  induction l as [|c l IH]; simpl; [apply evolves_ret, _|].
  apply evolves_bind; [apply _|apply run_call_sound|done].
Qed.

Lemma run_read_agrees tid o : agrees (same_tenant tid) (run_read tid o).
Proof.
  destruct o; apply answer_as_agrees.
  - apply TenantRepo.tenant_Get_agrees.
  - apply ApiKeyRepo.ListByTenant_agrees.
  - apply SessionRepo.session_GetByTenant_agrees.
  - apply MessageQueries.ListByChat_agrees.
  - apply MessageQueries.OldestByChat_agrees.
  - apply MessageQueries.GetByID_agrees.
  - apply MessageQueries.Search_agrees.
  - apply MessageQueries.ListChats_agrees.
  - apply MessageQueries.SearchChats_agrees.
  - apply ChatRepo.chat_Search_agrees.
Qed.

(** The tenant on whose behalf a call writes; marking a key used names a key,
    whose tenant is the caller's. *)
Definition written_for (tid : string) (o : write_op) : Prop :=
  match o with
  | CreateTenant t => t_ID t = tid
  | CreateKey k => k_TenantID k = tid
  | RevokeKey t _ | EnsureSession t | UpdateSession t _ _ | UpdateMessageMedia t _ _
  | UpsertChat t _ | UpsertChats t _ => t = tid
  | MarkKeyUsed _ => False
  | AppendMessage m => m_TenantID m = tid
  | AppendMessages ms => ∀ m, m ∈ ms → m_TenantID m = tid
  end.

Lemma run_write_only tid o : written_for tid o → evolves (only_tenant tid) (run_write o).
Proof.
  destruct o; simpl; intros Ht; subst; try done; apply answer_as_evolves; try apply _.
  - apply TenantRepo.tenant_Create_only.
  - apply ApiKeyRepo.key_Create_only.
  - apply ApiKeyRepo.Revoke_only.
  - apply SessionRepo.EnsureForTenant_only.
  - apply SessionRepo.UpdateStatus_only.
  - apply MessageRepo.Append_only.
  - by apply MessageRepo.AppendBatch_only.
  - apply MessageRepo.UpdateMedia_only.
  - apply ChatRepo.Upsert_only.
  - apply ChatRepo.UpsertBatch_only.
Qed.
End ops.
