(* ===== verification/StoreTheorems.v ===== *)
(** * What the store promises

    The contract of [internal/store/repositories.go], proved of the
    repositories: tenants are isolated, nothing is lost, a revocation is
    final, a batch is all or nothing, a redelivery is a no-op, a conversation
    is the same under all of its addresses, and the listing of conversations
    agrees with reading each of them. *)

From stdpp Require Import pretty.
From S2P Require Import Prelude GoText GoUnicode GoEff Models Sql Store Address.
From S2P Require Import MessageRepo MessageQueries StoreOps.
From S2P Require TenantRepo ApiKeyRepo SessionRepo ChatRepo.

(** ** A small database

    Two tenants; one of them holds a conversation stored under both addresses
    of a person, and a group. *)
Definition demo_unicode : Unicode := ascii_unicode.
Definition demo_oracle : Oracle := quiet_oracle (Ok []).

Definition demo_lids : gmap string string := {["15285906083900" := "573004725680"]}.

Definition demo_message (tid chat wa body : string) (t : Z) : Message :=
  {| m_ID := ""; m_TenantID := tid; m_ChatJID := chat; m_SenderJID := chat;
     m_WAMessageID := wa; m_Direction := DirectionIn; m_Body := body; m_MediaType := None;
     m_MediaPath := None; m_DirectPath := None; m_MediaKey := None;
     m_FileEncSHA256 := None; m_FileSHA256 := None; m_MMSType := None;
     m_FileLength := None; m_MimeType := None; m_MediaStatus := None;
     m_MediaError := None; m_MediaFetchedAt := None; m_Timestamp := t;
     m_CreatedAt := zero_time |}.

Definition demo_key (tid id hash : string) : APIKey :=
  {| k_ID := id; k_TenantID := tid; k_Name := "laptop"; k_KeyHash := hash;
     k_KeyPrefix := "wc_live_"; k_Scopes := ["messages:*"]; k_CreatedAt := 7;
     k_LastUsedAt := None; k_RevokedAt := None |}.

Definition demo_start : db :=
  {| tenants := ∅; api_keys := ∅; sessions := ∅; messages := ∅; chats := ∅;
     lid_map := Some demo_lids; lid_ready := false; applied := ∅ |}.

Definition demo_calls : list call :=
  [Write (CreateTenant {| t_ID := "acme"; t_Name := "Acme"; t_CreatedAt := 1 |});
   Write (CreateTenant {| t_ID := "beta"; t_Name := "Beta"; t_CreatedAt := 2 |});
   Write (CreateKey (demo_key "acme" "k1" "h1"));
   Write (CreateKey (demo_key "beta" "k2" "h2"));
   Write (AppendMessage (demo_message "acme" "573004725680@s.whatsapp.net" "W1" "hola" 10));
   Write (AppendMessage (demo_message "acme" "15285906083900@lid" "W2" "100% seguro" 20));
   Write (AppendMessage (demo_message "acme" "1203@g.us" "W3" "grupo" 15));
   Write (AppendMessage (demo_message "beta" "573004725680@s.whatsapp.net" "W1" "ciao" 30))].

Definition demo_db : db :=
  final (run_calls (H := demo_unicode) (H0 := demo_oracle) demo_calls) 0 demo_start.

(** Proofs treat the demo database as a name; only evaluation unfolds it. *)
#[global] Opaque demo_db.

Lemma demo_answering : answering (H := demo_oracle).
Proof. done. Qed.

Lemma demo_wf : wf demo_db.
Proof.
  Transparent demo_db. unfold demo_db. Opaque demo_db.
  apply (run_calls_sound (H := demo_unicode) (H0 := demo_oracle) demo_calls 0 demo_start).
  split; intros *; simpl; rewrite ?lookup_empty; done.
Qed.

Lemma demo_lids_ok : lid_map_ok (lids demo_db).
Proof.
  assert (E : lids demo_db = demo_lids) by (vm_compute; reflexivity). rewrite E.
  unfold demo_lids. split.
  - intros l p [<- <-]%lookup_singleton_Some. unfold bare. by_decide.
  - intros l k p [<- <-]%lookup_singleton_Some [<- _]%lookup_singleton_Some. done.
Qed.

(** Identifiers the environment hands out from a draw on are new to a table
    filled before it. *)
Lemma demo_oracle_fresh K n s :
  map_Forall (λ i _, i ∈ (λ k : nat, "id-" +:+ pretty k) <$> seq 0 K) (messages s) → K ≤ n →
  fresh_ids (H0 := demo_oracle) n s.
Proof.
  intros Hall Hn k Hk. split; [discriminate|].
  destruct (messages s !! o_uuid k) as [m|] eqn:E; [|done]. exfalso.
  specialize (Hall _ _ E). apply list_elem_of_fmap in Hall as (j & Ej & Hj%elem_of_seq).
  change ("id-" +:+ pretty k = "id-" +:+ pretty j) in Ej. 
  apply (inj (String.append "id-")) in Ej. apply (inj (pretty (A := nat))) in Ej. lia.
Qed.

Lemma demo_fresh n : 100 ≤ n → fresh_ids (H0 := demo_oracle) n demo_db.
Proof. apply demo_oracle_fresh. by_decide. Qed.

Section contract.
Context `{Unicode} `{Oracle}.

(** C5: the store keeps tenants apart, call by call.  Every read on behalf of
    a tenant answers from that tenant's rows alone: two databases that agree on
    one tenant's rows (and on whatsmeow's index) give the same answer, whatever
    they hold of other tenants.  And a write on behalf of a tenant changes
    nothing that any other tenant can read. *)
Theorem store_isolates_tenants tid :
  (∀ o n s1 s2, same_tenant tid s1 s2 →
     answer (run_read tid o) n s1 = answer (run_read tid o) n s2) ∧
  (∀ o other q n n' s, written_for tid o → other ≠ tid →
     answer (run_read other q) n' (final (run_write o) n s) = answer (run_read other q) n' s).
Proof.
  split.
  - intros o n s1 s2 HE. by apply (run_read_agrees tid o n s1 s2 HE).
  - intros o other q n n' s Ho Hne. symmetry. apply (run_read_agrees other q n').
    by apply (run_write_only tid o Ho n s).
Qed.

(** C3: the integrity constraints of the schema hold in every reachable state,
    and no sequence of calls loses data: every tenant is unchanged, every key
    keeps its hash, tenant, scopes and revocation, every session its identity,
    and every message all of its columns but the media bookkeeping. *)
Theorem store_invariant l n s :
  wf s → wf (final (run_calls l) n s) ∧ db_le s (final (run_calls l) n s).
Proof. intros Hwf. destruct (run_calls_sound l n s) as [Hle Hw]. auto. Qed.

(** Once a revocation has succeeded, no sequence of later calls brings the
    key back: looking its hash up never answers a key again. *)
Theorem revocation_final tid kid hash n n1 n2 s l :
  wf s →
  (∃ r, api_keys s !! kid = Some r ∧ r_KeyHash r = hash) →
  answer (ApiKeyRepo.Revoke tid kid) n s = Ok () →
  ∀ k, answer (ApiKeyRepo.GetByHash hash) n2
         (final (run_calls l) n1 (final (ApiKeyRepo.Revoke tid kid) n s)) ≠ Ok k.
Proof.
  intros Hwf (r0 & Hr0 & Hh) Hrev k.
  destruct (ApiKeyRepo.Revoke_Ok tid kid n s Hrev) as (id & r & t & Hr & Hid & Ht & Hr').
  destruct (wf_keys _ Hwf id r Hr) as (Hk & _). rewrite Hid in Hk. subst id.
  rewrite Hr0 in Hr. injection Hr as ->.
  destruct (ApiKeyRepo.Revoke_sound tid kid n s) as [_ Hw1].
  set (s1 := final (ApiKeyRepo.Revoke tid kid) n s) in *.
  destruct (run_calls_sound l n1 s1) as [Hle Hw2]. set (s2 := final (run_calls l) n1 s1) in *.
  destruct (le_keys _ _ Hle _ _ Hr') as (q & Hq & Hle'). destruct Hle'.
  intros [_ Hf]%ApiKeyRepo.GetByHash_Ok.
  erewrite (ApiKeyRepo.find_live_gone hash s2 kid q) in Hf; [done|auto|done|..].
  - by rewrite key_le_hash.
  - rewrite key_le_revoked; simpl; done.
Qed.

(** A key that was created is found by its hash, with its tenant, name and
    the scopes it was given as they read back from storage. *)
Theorem created_key_found k n n' s :
  wf s →
  answer (ApiKeyRepo.Create k) n s = Ok () → answering →
  ∃ created,
    answer (ApiKeyRepo.GetByHash (k_KeyHash k)) n' (final (ApiKeyRepo.Create k) n s) =
    Ok {| k_ID := k_ID k; k_TenantID := k_TenantID k; k_Name := k_Name k;
          k_KeyHash := k_KeyHash k; k_KeyPrefix := k_KeyPrefix k;
          k_Scopes := Scope.ParseScopes (Scope.FormatScopes (k_Scopes k));
          k_CreatedAt := created; k_LastUsedAt := None; k_RevokedAt := None |}.
Proof.
  intros Hwf Hc Ha. destruct (ApiKeyRepo.key_Create_sound k n s) as [_ Hw].
  specialize (Hw Hwf).
  destruct (ApiKeyRepo.key_Create_Ok k n s Hc) as (created & Hh & Hr).
  exists created. unfold ApiKeyRepo.GetByHash. rewrite decide_False by done.
  rewrite read_row_answer by done.
  by rewrite (ApiKeyRepo.find_live_found _ _ _ _ Hw Hr).
Qed.

(** A batch is all or nothing.  When it succeeds, every message of it is
    stored and the number it answers is the number of rows added; when it
    fails, at any message or at any step of the transaction, the database is
    untouched. *)
Theorem AppendBatch_atomic ms n s :
  let s' := final (AppendBatch ms) n s in
  match answer (AppendBatch ms) n s with
  | Ok k => size (messages s') = size (messages s) + k ∧ Forall (λ m, stored m s') ms
  | Err _ => s' = s
  end.
Proof.
  destruct (answer (AppendBatch ms) n s) as [k|e] eqn:E.
  - by apply AppendBatch_Ok.
  - by eapply AppendBatch_Err.
Qed.

(** C17: a message that is stored can be redelivered at any later time, by the
    live stream or by any history sync: the database does not change, and the
    sync counts no new row for it. *)
Theorem redelivery_no_op m ms l n1 n2 s :
  stored m s → (∀ o, o ∈ ms → stored o s) →
  let s' := final (run_calls l) n1 s in
  final (Append m) n2 s' = s' ∧
  final (AppendBatch ms) n2 s' = s' ∧
  (∀ k, answer (AppendBatch ms) n2 s' = Ok k → k = 0).
Proof.
  intros Hm Hms s'. destruct (run_calls_sound l n1 s) as [Hle _]. fold s' in Hle.
  split; [by eapply Append_redelivered, stored_le|].
  apply AppendBatch_redelivered, Forall_forall. intros o Ho. by eapply stored_le, Hms.
Qed.

(** Reading a conversation answers its newest messages, newest first: as
    many as the limit (fifty when it is not positive, at most five hundred)
    and the conversation allow, each one a message of that tenant and
    conversation, none of them older than one left out. *)
Theorem ListByChat_newest tid jid limit n s :
  wf s → lid_map_ok (lids s) → answering →
  ∃ l, answer (ListByChat tid jid limit) n s = Ok l ∧
    window (conversation s tid jid) newest_first (normalizeLimit limit) (messages s) l ∧
    1 ≤ normalizeLimit limit ≤ 500.
Proof.
  intros Hwf Hm Ha. eexists. split; [by apply ListByChat_answer|]. split.
  - apply (select_window _ _ m_ID). by apply wf_message_key.
  - unfold normalizeLimit, maxMessageLimit, defaultMessageLimit.
    repeat case_decide; lia.
Qed.

(** C13: a conversation is the same under all of its addresses: the phone number
    and the LID of one person, with or without a device, list the same
    messages and share the anchor of a history request. *)
Theorem one_conversation tid jid jid' limit n n' s :
  wf s → lid_map_ok (lids s) → answering →
  canonical (lids s) (nonADAddress jid) = canonical (lids s) (nonADAddress jid') →
  answer (ListByChat tid jid limit) n s = answer (ListByChat tid jid' limit) n' s ∧
  answer (OldestByChat tid jid) n s = answer (OldestByChat tid jid') n' s.
Proof.
  intros Hwf Hm Ha Hc. rewrite !ListByChat_answer, !OldestByChat_answer by done.
  assert (Hiff : ∀ m, conversation s tid jid m ↔ conversation s tid jid' m)
    by (intros m; unfold conversation; by rewrite Hc).
  split; do 2 f_equal; by apply select_iff.
Qed.

(** The anchor of a history request is the oldest stored message of the
    whole conversation, and there is none only when nothing is stored. *)
Theorem OldestByChat_anchor tid jid n s :
  wf s → lid_map_ok (lids s) → answering →
  match answer (OldestByChat tid jid) n s with
  | Ok m => (∃ i, messages s !! i = Some m) ∧ conversation s tid jid m ∧
      ∀ i o, messages s !! i = Some o → conversation s tid jid o →
        (m_Timestamp m <= m_Timestamp o)%Z
  | Err e => e = Sentinel ErrNotFound ∧
      ∀ i o, messages s !! i = Some o → ¬ conversation s tid jid o
  end.
Proof.
  intros Hwf Hm Ha. rewrite OldestByChat_answer by done.
  pose proof (select_window (conversation s tid jid) oldest_first m_ID 1 (messages s)
                (wf_message_key s Hwf)) as Hw.
  destruct (select _ _ _ _) as [|m l] eqn:E; simpl.
  - split; [done|]. eapply select_nil; [|exact E]. lia.
  - apply window_first in Hw as (Hi & Hc & Hold). split_and!; [done..|].
    intros i o Ho Hco. destruct (Hold i o Ho Hco) as [->|Hle]; [done|].
    unfold oldest_first, newest_first in Hle. lia.
Qed.

(** C12: the listing of conversations has one entry per person, most recent
    first and within the limit.  Each entry is what reading the conversation
    under the reported address says: its first message gives the time, body
    and direction, and the count is the number of its messages.  An entry is
    missing only when the limit is reached. *)
Theorem ListChats_one_per_person tid limit n n' s :
  wf s → lid_map_ok (lids s) → answering →
  (∀ i m, messages s !! i = Some m → m_TenantID m = tid →
     nonADAddress (m_ChatJID m) = m_ChatJID m) →
  ∃ cs, answer (ListChats tid limit) n s = Ok cs ∧
    NoDup (c_ChatJID <$> cs) ∧ StronglySorted chat_order cs ∧
    length cs ≤ normalizeLimit limit ∧
    (∀ c, c ∈ cs → ∃ m l,
       answer (ListByChat tid (c_ChatJID c) limit) n' s = Ok (m :: l) ∧
       c_LastMessageAt c = m_Timestamp m ∧ c_LastMessageBody c = m_Body m ∧
       c_LastDirection c = m_Direction m ∧
       c_MessageCount c = size (where_ (conversation s tid (c_ChatJID c)) (messages s))) ∧
    (length cs < normalizeLimit limit → ∀ i m, messages s !! i = Some m →
       m_TenantID m = tid → canonical (lids s) (m_ChatJID m) ∈ c_ChatJID <$> cs).
Proof.
  intros Hwf Hm Ha Hplain. set (chat := λ m, canonical (lids s) (m_ChatJID m)).
  set (all := chat_rows chat tid s). set (k := normalizeLimit limit).
  exists (take k (merge_sort chat_order all)).
  split; [by apply ListChats_answer|].
  assert (Hperm : merge_sort chat_order all ≡ₚ all) by apply merge_sort_Permutation.
  assert (Hk : 0 < k) by (subst k; apply normalizeLimit_positive).
  split_and!.
  - rewrite fmap_take. apply NoDup_take. rewrite Hperm. by apply chat_rows_NoDup.
  - by apply StronglySorted_take, (StronglySorted_merge_sort chat_order).
  - rewrite length_take. lia.
  - intros c Hc%take_elem_of. rewrite Hperm in Hc.
    apply elem_of_chat_rows in Hc as (m & Hml & Hr & ->).
    pose proof Hml as [[i Hi] Ht]%own_messages_key.
    destruct (chat_row_agrees s tid m k Hwf Hm (Hplain i m Hi Ht) Hk Hml Hr) as [Hh Hcount].
    rewrite ListByChat_answer by done. fold k. simpl c_ChatJID.
    destruct (select _ _ _ _) as [|h r]; simplify_eq/=. eauto 8.
  - intros Hlen i m Hi Ht.
    rewrite take_ge by (rewrite length_take in Hlen; lia).
    destruct (row_number_exists s tid chat m Hwf) as (o & Ho & Hoc & Hr);
      [by apply own_messages_key; eauto|].
    apply list_elem_of_fmap. exists (chat_row chat tid s (own_messages tid s) o).
    split; [done|]. rewrite Hperm. apply elem_of_chat_rows. eauto.
Qed.

(** Recording the outcome of a media fetch touches one message of the
    caller's tenant and nothing in it but the media bookkeeping; the path is
    replaced only by a new one, so a failure loses neither the reference nor
    bytes fetched before. *)
Theorem UpdateMedia_frame tid id upd n s i m :
  messages s !! i = Some m →
  ∃ m', messages (final (UpdateMedia tid id upd) n s) !! i = Some m' ∧
    same_message m m' ∧
    (m_TenantID m ≠ tid ∨ m_ID m ≠ id → m' = m) ∧
    (u_Path upd = None → m_MediaPath m' = m_MediaPath m).
Proof.
  intros Hi. destruct (UpdateMedia_rows tid id upd n s i m Hi) as (m' & t & Hm' & Hcase).
  exists m'. split; [done|]. destruct Hcase as [->|[[Ht Hid] ->]].
  - split_and!; [reflexivity|done..].
  - split_and!; [apply apply_media_same|naive_solver|]. simpl. by intros ->.
Qed.

(** Searching message bodies finds the messages that contain the query
    literally, whatever wildcards it holds, up to the case of ASCII letters:
    the newest of them, within the limit. *)
Theorem Search_literal tid q limit n s :
  wf s → answering → TrimSpace q ≠ "" →
  ∃ l, answer (Search tid q limit) n s = Ok l ∧
    window (λ m, m_TenantID m = tid ∧
              contains (lower (TrimSpace q)) (lower (m_Body m)) = true)
      newest_first (normalizeLimit limit) (messages s) l.
Proof.
  intros Hwf Ha Hq. unfold Search, collect. rewrite decide_False by done.
  eexists. split; [by apply read_rows_answer|].
  rewrite (select_iff _ (λ m, m_TenantID m = tid ∧
              contains (lower (TrimSpace q)) (lower (m_Body m)) = true)).
  - apply (select_window _ _ m_ID). by apply wf_message_key.
  - intros m. unfold body_matches. by rewrite like_containing.
Qed.

(** A message is looked up by the gateway's id or by WhatsApp's, inside one
    tenant: the answer carries that id and that tenant, and an id that only
    other tenants use is answered as if it did not exist. *)
Theorem GetByID_owned tid id n s :
  wf s → answering →
  match answer (GetByID tid id) n s with
  | Ok m => messages s !! m_ID m = Some m ∧ m_TenantID m = tid ∧
      (m_ID m = id ∨ m_WAMessageID m = id)
  | Err e => e = Sentinel ErrNotFound ∧ (tid ≠ "" → id ≠ "" →
      ∀ i m, messages s !! i = Some m → m_TenantID m = tid →
        m_ID m ≠ id ∧ m_WAMessageID m ≠ id)
  end.
Proof.
  intros Hwf Ha. unfold GetByID. case_decide as Hz; [simpl; naive_solver|].
  erewrite try_answer by (by apply read_rows_answer).
  pose proof (select_window (addressed_by tid id) newest_first m_ID 1 (messages s)
                (wf_message_key s Hwf)) as Hw.
  unfold ret, answer. simpl. destruct (select _ _ _ _) as [|m l] eqn:E; simpl.
  - split; [done|]. intros _ _ i m Hi Ht.
    eapply select_nil in E; [|lia|exact Hi]. unfold addressed_by in E. naive_solver.
  - apply window_first in Hw as ([i Hi] & [Ht Hid] & _).
    pose proof (wf_message_key s Hwf i m Hi) as <-. done.
Qed.

(** Ensuring a session never replaces one: the tenant's session is
    answered if there is one, else a pending one is created, and a second
    call answers the same session and changes nothing. *)
Theorem EnsureForTenant_once tid n n' s x :
  wf s → answering → answer (SessionRepo.EnsureForTenant tid) n s = Ok x →
  let s' := final (SessionRepo.EnsureForTenant tid) n s in
  s_TenantID x = tid ∧
  (∀ y, sessions s !! tid = Some y → s' = s ∧ x = SessionRepo.scanSession y) ∧
  (sessions s !! tid = None → s_Status x = SessionPending ∧ s_WAJID x = None) ∧
  answer (SessionRepo.EnsureForTenant tid) n' s' = Ok x ∧
  final (SessionRepo.EnsureForTenant tid) n' s' = s'.
Proof.
  intros Hwf Ha. unfold SessionRepo.EnsureForTenant, SessionRepo.GetByTenant, NewID.
  unfold read_row. run. rewrite !Ha. simpl.
  destruct (sessions s !! tid) as [y|] eqn:E; simpl.
  - intros [= <-]. rewrite E. simpl. pose proof (wf_sessions _ Hwf tid y E) as [Ht _].
    split_and!; try done. by intros z [= <-].
  - rewrite !Ha. simpl. unfold SessionRepo.insert_session. simpl. rewrite E.
    repeat (case_decide; [|done]). simpl. rewrite !Ha. simpl. rewrite lookup_insert_eq. simpl.
    intros [= <-]. done.
Qed.
End contract.

(** ** Witnesses *)

#[local] Existing Instance demo_unicode.
#[local] Existing Instance demo_oracle.

Definition demo_altro : Message := demo_message "beta" "1203@g.us" "W9" "altro" 40.

(** The demo database after the other tenant has gone on writing. *)
Definition demo_more : db :=
  final (run_calls [Write (AppendMessage demo_altro);
                    Write (EnsureSession "beta")]) 40 demo_db.

Lemma demo_same_tenant : same_tenant "acme" demo_db demo_more.
Proof.
  set (w1 := AppendMessage demo_altro). set (w2 := EnsureSession "beta").
  assert (E : demo_more = final (run_write w2) (next (run_write w1) 40 demo_db)
                            (final (run_write w1) 40 demo_db)).
  { unfold demo_more, run_calls, run_call. by rewrite !bind_final. }
  rewrite E. etrans; [by apply (run_write_only "beta" w1)|].
  by apply (run_write_only "beta" w2).
Qed.

Lemma store_isolates_tenants_witness :
  (demo_db ≠ demo_more ∧
   answer (run_read "acme" (ListConversations 10)) 3 demo_db =
   answer (run_read "acme" (ListConversations 10)) 3 demo_more) ∧
  answer (run_read "acme" (GetMessage "W1")) 9
    (final (run_write (AppendMessage demo_altro)) 40 demo_db) =
  answer (run_read "acme" (GetMessage "W1")) 9 demo_db.
Proof.
  split_and!.
  - intros E. apply (f_equal (λ s, size (messages s))) in E. vm_compute in E. discriminate E.
  - apply (proj1 (store_isolates_tenants "acme")), demo_same_tenant.
  - by apply (proj2 (store_isolates_tenants "beta")).
Defined.

Lemma store_invariant_witness :
  wf (final (run_calls demo_calls) 0 empty_db) ∧
  db_le empty_db (final (run_calls demo_calls) 0 empty_db).
Proof. apply (store_invariant demo_calls 0 empty_db), wf_empty. Defined.

Lemma revocation_final_witness :
  answer (ApiKeyRepo.Revoke "acme" "k1") 50 demo_db = Ok () ∧
  ∀ k, answer (ApiKeyRepo.GetByHash "h1") 70
         (final (run_calls [Write (MarkKeyUsed "k1"); Write (CreateKey (demo_key "acme" "k3" "h1"))]) 60
            (final (ApiKeyRepo.Revoke "acme" "k1") 50 demo_db)) ≠ Ok k.
Proof.
  assert (Hr : answer (ApiKeyRepo.Revoke "acme" "k1") 50 demo_db = Ok ())
    by (vm_compute; reflexivity).
  split; [exact Hr|]. apply revocation_final; [exact demo_wf| |exact Hr].
  eexists. split; vm_compute; reflexivity.
Defined.

Lemma created_key_found_witness :
  ∃ created, answer (ApiKeyRepo.GetByHash "h3") 60
      (final (ApiKeyRepo.Create (demo_key "beta" "k3" "h3")) 50 demo_db) =
    Ok {| k_ID := "k3"; k_TenantID := "beta"; k_Name := "laptop"; k_KeyHash := "h3";
          k_KeyPrefix := "wc_live_"; k_Scopes := ["messages:*"]; k_CreatedAt := created;
          k_LastUsedAt := None; k_RevokedAt := None |}.
Proof.
  apply (created_key_found (demo_key "beta" "k3" "h3")).
  - exact demo_wf.
  - vm_compute. reflexivity.
  - exact demo_answering.
Defined.

Lemma demo_stored wa :
  wa = "W1" ∨ wa = "W2" → stored (demo_message "acme" "x" wa "later" 99) demo_db.
Proof.
  intros Hwa.
  assert (Hx : Exists (λ o, m_TenantID o = "acme" ∧ m_WAMessageID o = wa) (rows (messages demo_db)))
    by (destruct Hwa as [->| ->]; by_decide).
  apply Exists_exists in Hx as (o & [i Hi]%elem_of_rows & Ho).
  exists i, o. split; [exact Hi|exact Ho].
Qed.

Lemma redelivery_no_op_witness :
  let m1 := demo_message "acme" "x" "W1" "later" 99 in
  let m2 := demo_message "acme" "x" "W2" "later" 99 in
  final (AppendBatch [m1; m2]) 80 demo_db = demo_db ∧
  answer (AppendBatch [m1; m2]) 80 demo_db = Ok 0.
Proof.
  destruct (redelivery_no_op (demo_message "acme" "x" "W1" "later" 99)
    [demo_message "acme" "x" "W1" "later" 99; demo_message "acme" "x" "W2" "later" 99]
    [] 0 80 demo_db) as (_ & Hf & _).
  - apply demo_stored. by left.
  - intros o Ho. apply elem_of_cons in Ho as [->|Ho]; [exact (demo_stored "W1" (or_introl eq_refl))|].
    apply list_elem_of_singleton in Ho as ->. exact (demo_stored "W2" (or_intror eq_refl)).
  - split; [exact Hf|]. vm_compute. reflexivity.
Defined.

Lemma ListByChat_newest_witness :
  ∃ l, answer (ListByChat "acme" "573004725680:3@s.whatsapp.net" 0) 0 demo_db = Ok l ∧
    m_Body <$> l = ["100% seguro"; "hola"].
Proof.
  destruct (ListByChat_newest "acme" "573004725680:3@s.whatsapp.net" 0 0 demo_db
              demo_wf demo_lids_ok demo_answering) as (l & Hl & _).
  exists l. split; [exact Hl|].
  assert (E : m_Body <$> match answer (ListByChat "acme" "573004725680:3@s.whatsapp.net" 0) 0 demo_db
                         with Ok l => l | Err _ => [] end = ["100% seguro"; "hola"])
    by (vm_compute; reflexivity).
  by rewrite Hl in E.
Defined.

Lemma one_conversation_witness :
  answer (ListByChat "acme" "15285906083900:7@lid" 5) 0 demo_db =
  answer (ListByChat "acme" "573004725680@s.whatsapp.net" 5) 9 demo_db.
Proof.
  apply (one_conversation "acme" "15285906083900:7@lid" "573004725680@s.whatsapp.net" 5 0 9 demo_db
           demo_wf demo_lids_ok demo_answering).
  vm_compute. reflexivity.
Defined.

Lemma OldestByChat_anchor_witness :
  ∃ m, answer (OldestByChat "acme" "15285906083900@lid") 0 demo_db = Ok m ∧ m_Body m = "hola".
Proof.
  pose proof (OldestByChat_anchor "acme" "15285906083900@lid" 0 demo_db
                demo_wf demo_lids_ok demo_answering) as Hold.
  assert (E : match answer (OldestByChat "acme" "15285906083900@lid") 0 demo_db with
              | Ok m => m_Body m = "hola" | Err _ => False end) by (vm_compute; reflexivity).
  destruct (answer _ _ _) as [m|e]; [by exists m|done].
Defined.

Lemma demo_plain i m :
  messages demo_db !! i = Some m → m_TenantID m = "acme" →
  nonADAddress (m_ChatJID m) = m_ChatJID m.
Proof.
  intros Hi _.
  assert (Hall : Forall (λ m, nonADAddress (m_ChatJID m) = m_ChatJID m) (rows (messages demo_db)))
    by by_decide.
  apply (proj1 (Forall_forall _ _) Hall), elem_of_rows. exists i. exact Hi.
Qed.

Lemma ListChats_one_per_person_witness :
  ∃ cs, answer (ListChats "acme" 10) 0 demo_db = Ok cs ∧
    c_ChatJID <$> cs = ["573004725680@s.whatsapp.net"; "1203@g.us"].
Proof.
  destruct (ListChats_one_per_person "acme" 10 0 0 demo_db
              demo_wf demo_lids_ok demo_answering demo_plain) as (cs & Hcs & _).
  exists cs. split; [exact Hcs|].
  assert (E : c_ChatJID <$> match answer (ListChats "acme" 10) 0 demo_db
                            with Ok l => l | Err _ => [] end =
              ["573004725680@s.whatsapp.net"; "1203@g.us"]) by (vm_compute; reflexivity).
  by rewrite Hcs in E.
Defined.

Definition demo_failure : MediaUpdate :=
  {| u_Path := None; u_Status := MediaFailed; u_Error := "timeout"; u_FetchedAt := 77 |}.

Lemma UpdateMedia_frame_witness :
  ∃ m m', messages demo_db !! "id-10" = Some m ∧
    messages (final (UpdateMedia "acme" "id-10" demo_failure) 0 demo_db) !! "id-10" = Some m' ∧
    same_message m m' ∧ m_MediaStatus m' = Some "failed".
Proof.
  destruct (messages demo_db !! "id-10") as [m|] eqn:E; [|vm_compute in E; discriminate E].
  destruct (UpdateMedia_frame "acme" "id-10" demo_failure 0 demo_db "id-10" m E)
    as (m' & Hm' & Hs & _).
  exists m, m'. split; [done|]. split; [exact Hm'|]. split; [exact Hs|].
  assert (Ev : (messages (final (UpdateMedia "acme" "id-10" demo_failure) 0 demo_db) !! "id-10")
               ≫= m_MediaStatus = Some "failed") by (vm_compute; reflexivity).
  by rewrite Hm' in Ev.
Defined.

Lemma Search_literal_witness :
  ∃ l, answer (Search "acme" " 0% S " 5) 0 demo_db = Ok l ∧ m_Body <$> l = ["100% seguro"].
Proof.
  destruct (Search_literal "acme" " 0% S " 5 0 demo_db demo_wf demo_answering) as (l & Hl & _);
    [done|].
  exists l. split; [exact Hl|].
  assert (E : m_Body <$> match answer (Search "acme" " 0% S " 5) 0 demo_db
                         with Ok l => l | Err _ => [] end = ["100% seguro"])
    by (vm_compute; reflexivity).
  by rewrite Hl in E.
Defined.

Lemma GetByID_owned_witness :
  ∃ m, answer (GetByID "beta" "W1") 0 demo_db = Ok m ∧ m_TenantID m = "beta".
Proof.
  pose proof (GetByID_owned "beta" "W1" 0 demo_db demo_wf demo_answering) as Hg.
  destruct (answer (GetByID "beta" "W1") 0 demo_db) as [m|e] eqn:E.
  - exists m. split; [reflexivity|exact (proj1 (proj2 Hg))].
  - vm_compute in E. discriminate E.
Defined.

Lemma EnsureForTenant_once_witness :
  ∃ x, answer (SessionRepo.EnsureForTenant "acme") 50 demo_db = Ok x ∧
    s_Status x = SessionPending ∧
    answer (SessionRepo.EnsureForTenant "acme") 60
      (final (SessionRepo.EnsureForTenant "acme") 50 demo_db) = Ok x.
Proof.
  destruct (answer (SessionRepo.EnsureForTenant "acme") 50 demo_db) as [x|e] eqn:E;
    [|vm_compute in E; discriminate E].
  destruct (EnsureForTenant_once "acme" 50 60 demo_db x demo_wf demo_answering E)
    as (_ & _ & Hp & Ha & _).
  exists x. split; [done|]. split; [|exact Ha].
  apply Hp. vm_compute. reflexivity.
Defined.
