(* ===== verification/Mailbox.v ===== *)
(** * What the store promises ([internal/store/store.go], the repositories)

    The abstract specification of the store: a book of accounts, one per
    tenant, each a small mailbox that knows its messages by their WhatsApp
    ids, its keys, its session and the names of its chats.  Row ids, indexes,
    clocks, transactions and the order of the statements are gone.  Every
    operation of the repositories implements its step on the book, or reports
    an error; what a tenant reads is a function of its own account. *)

From S2P Require Import Prelude GoText GoUnicode GoEff Models Sql Store Address MessageRepo.
From S2P Require Import MessageQueries StoreOps.
From S2P Require TenantRepo ApiKeyRepo SessionRepo ChatRepo.

#[local] Existing Instance ChatRepo.name_order_dec.
#[local] Existing Instance ChatRepo.name_order_trans.
#[local] Existing Instance ChatRepo.name_order_total.

(** ** The specification *)

Record key := { ky_Hash : string; ky_Name : string; ky_Scopes : string; ky_Live : bool }.

Record account := {
  a_Name : string;
  a_Keys : gmap string key;                          (* by their id *)
  a_Session : option (string * option string);       (* status, WhatsApp address *)
  a_Log : gmap string Message;                       (* by WhatsApp message id *)
  a_Names : gmap string string;                      (* by the address of the chat *)
}.

Definition new_account (name : string) : account :=
  {| a_Name := name; a_Keys := ∅; a_Session := None; a_Log := ∅; a_Names := ∅ |}.

Definition with_keys (v : gmap string key) (a : account) : account :=
  {| a_Name := a_Name a; a_Keys := v; a_Session := a_Session a; a_Log := a_Log a;
     a_Names := a_Names a |}.
Definition with_session (v : option (string * option string)) (a : account) : account :=
  {| a_Name := a_Name a; a_Keys := a_Keys a; a_Session := v; a_Log := a_Log a;
     a_Names := a_Names a |}.
Definition with_log (v : gmap string Message) (a : account) : account :=
  {| a_Name := a_Name a; a_Keys := a_Keys a; a_Session := a_Session a; a_Log := v;
     a_Names := a_Names a |}.
Definition with_names (v : gmap string string) (a : account) : account :=
  {| a_Name := a_Name a; a_Keys := a_Keys a; a_Session := a_Session a; a_Log := a_Log a;
     a_Names := v |}.

(** A step of one account. *)
Definition on_account (tid : string) (P : account → account → Prop) (b b' : gmap string account)
    : Prop :=
  ∃ a a', b !! tid = Some a ∧ P a a' ∧ b' = <[tid := a']> b.

(** A message arrives: the first delivery of a WhatsApp id counts. *)
Definition receive (m : Message) (a : account) : account :=
  match a_Log a !! m_WAMessageID m with
  | Some _ => a
  | None => with_log (<[m_WAMessageID m := messageArgs m]> (a_Log a)) a
  end.

Definition post (b : gmap string account) (m : Message) : gmap string account :=
  alter (receive m) (m_TenantID m) b.

(** A chat gets a name; a blank one says nothing. *)
Definition remember (tid : string) (b : gmap string account) (c : NamedChat) : gmap string account :=
  if decide (TrimSpace (n_Name c) = "") then b
  else alter (λ a, with_names (<[n_ChatJID c := TrimSpace (n_Name c)]> (a_Names a)) a) tid b.

Definition revoke (k : key) : key :=
  {| ky_Hash := ky_Hash k; ky_Name := ky_Name k; ky_Scopes := ky_Scopes k; ky_Live := false |}.

(** What each operation does to the book when it succeeds. *)
Definition performs (o : write_op) (b b' : gmap string account) : Prop :=
  match o with
  | CreateTenant t => b !! t_ID t = None ∧ b' = <[t_ID t := new_account (t_Name t)]> b
  | CreateKey k =>
      (∀ tid a i q, b !! tid = Some a → a_Keys a !! i = Some q → ky_Hash q ≠ k_KeyHash k) ∧
      on_account (k_TenantID k) (λ a a', a_Keys a !! k_ID k = None ∧
        a' = with_keys (<[k_ID k := {| ky_Hash := k_KeyHash k; ky_Name := k_Name k;
                                       ky_Scopes := Scope.FormatScopes (k_Scopes k);
                                       ky_Live := true |}]> (a_Keys a)) a) b b'
  | RevokeKey tid kid =>
      on_account tid (λ a a', ∃ k, a_Keys a !! kid = Some k ∧ ky_Live k = true ∧
        a' = with_keys (<[kid := revoke k]> (a_Keys a)) a) b b'
  | MarkKeyUsed _ => b' = b
  | EnsureSession tid =>
      on_account tid (λ a a', a' =
        with_session (Some (default (SessionPending, None) (a_Session a))) a) b b'
  | UpdateSession tid status jid =>
      on_account tid (λ a a', ∃ x, a_Session a = Some x ∧ a' =
        with_session (Some (status, if decide (jid = "") then x.2 else Some jid)) a) b b'
  | AppendMessage m =>
      ∃ m', prepared_from m m' ∧ is_Some (b !! m_TenantID m') ∧ b' = post b m'
  | AppendMessages ms =>
      ∃ ms', Forall2 prepared_from ms ms' ∧ Forall (λ m, is_Some (b !! m_TenantID m)) ms' ∧
        b' = foldl post b ms'
  | UpdateMessageMedia tid id upd =>
      on_account tid (λ a a', ∃ w m t, a_Log a !! w = Some m ∧ m_ID m = id ∧
        a' = with_log (<[w := apply_media upd t m]> (a_Log a)) a) b b'
  | UpsertChat tid c =>
      (TrimSpace (n_Name c) ≠ "" → is_Some (b !! tid)) ∧ b' = remember tid b c
  | UpsertChats tid l =>
      Forall (λ c, TrimSpace (n_Name c) ≠ "" → is_Some (b !! tid)) l ∧
      b' = foldl (remember tid) b l
  end.

(** Operations whose error means that nothing happened.  The others ask how
    many rows a statement changed, or read the row back, once it has run. *)
Definition all_or_nothing (o : write_op) : bool :=
  match o with
  | RevokeKey _ _ | EnsureSession _ | UpdateSession _ _ _ | UpdateMessageMedia _ _ _ => false
  | _ => true
  end.

Definition outcome (o : write_op) (e : option error) (b b' : gmap string account) : Prop :=
  match e with
  | None => performs o b b'
  | Some _ => b' = b ∨ all_or_nothing o = false ∧ performs o b b'
  end.

(** ** What a tenant reads, from its account *)

(** Two messages are of one conversation; the one that heads it in a list. *)
Definition heads (L : gmap string string) (l : list Message) (m : Message) : Prop :=
  Forall (λ o, canonical L (m_ChatJID o) = canonical L (m_ChatJID m) →
               o = m ∨ ¬ newest_first o m) l.

#[export] Instance heads_dec L l m : Decision (heads L l m).
Proof. unfold heads. apply _. Defined.

Definition entry (L : gmap string string) (a : account) (m : Message) : Chat :=
  let chat := canonical L (m_ChatJID m) in
  {| c_ChatJID := chat; c_Name := default "" (a_Names a !! chat);
     c_LastMessageAt := m_Timestamp m; c_LastMessageBody := m_Body m;
     c_LastDirection := m_Direction m;
     c_MessageCount :=
       length (filter (λ o, canonical L (m_ChatJID o) = chat) (rows (a_Log a))) |}.

Definition entries (L : gmap string string) (a : account) : list Chat :=
  entry L a <$> filter (heads L (rows (a_Log a))) (rows (a_Log a)).

Definition names (a : account) : list NamedChat :=
  (λ jn, {| n_ChatJID := jn.1; n_Name := jn.2 |}) <$> map_to_list (a_Names a).

(** The reads an account answers; the others show columns it does not have. *)
Definition observe `{Unicode} (L : gmap string string) (a : account) (o : read_op)
    : option read_answer :=
  match o with
  | ListConversation jid limit =>
      Some (AMessages (Ok (select
        (λ m, canonical L (m_ChatJID m) = canonical L (nonADAddress jid)) newest_first
        (normalizeLimit limit) (a_Log a))))
  | OldestMessage jid =>
      Some (AMessage (first_or_not_found (select
        (λ m, canonical L (m_ChatJID m) = canonical L (nonADAddress jid)) oldest_first 1 (a_Log a))))
  | GetMessage id =>
      Some (AMessage (if decide (id = "") then Err (Sentinel ErrNotFound)
        else first_or_not_found (select (λ m, m_ID m = id ∨ m_WAMessageID m = id) newest_first 1
                                   (a_Log a))))
  | SearchMessages q limit =>
      Some (AMessages (Ok (if decide (TrimSpace q = "") then []
        else select (λ m, contains (lower (TrimSpace q)) (lower (m_Body m)) = true) newest_first
               (normalizeLimit limit) (a_Log a))))
  | ListConversations limit =>
      Some (AChats (Ok (take (normalizeLimit limit) (merge_sort chat_order (entries L a)))))
  | SearchNames q limit =>
      Some (ANames (Ok (if decide (TrimSpace q = "") then []
        else take (normalizeLimit limit) (merge_sort ChatRepo.name_order
               (filter (λ c, contains (lower (TrimSpace q)) (lower (n_Name c)) = true) (names a))))))
  | _ => None
  end.

(** ** Runs of the specification *)

(** The writes of a run, with what each reported. *)
Fixpoint history `{Unicode} `{Oracle} (calls : list call) (n : nat) (s : db)
    : list (write_op * option error) :=
  match calls with
  | [] => []
  | c :: calls =>
      let rest := history calls (next (run_call c) n s) (final (run_call c) n s) in
      match c with
      | Write o => (o, answer (run_write o) n s) :: rest
      | Read _ _ => rest
      end
  end.

(** A run of the specification with these outcomes. *)
Inductive explains
    : list (write_op * option error) → gmap string account → gmap string account → Prop :=
  | explains_nil b : explains [] b b
  | explains_cons o e h b b1 b2 : outcome o e b b1 → explains h b1 b2 → explains ((o, e) :: h) b b2.

(** ** The abstraction *)

(** A table by another key. *)
Definition index {K V W} `{Countable K} (key : K → V → string) (val : V → W) (m : gmap K V)
    : gmap string W :=
  list_to_map ((λ kv, (key kv.1 kv.2, val kv.2)) <$> map_to_list m).

Definition keyed_by {K V} `{Countable K} (key : K → V → string) (m : gmap K V) : Prop :=
  ∀ k1 k2 v1 v2, m !! k1 = Some v1 → m !! k2 = Some v2 → key k1 v1 = key k2 v2 → k1 = k2.

Lemma index_lookup {K V W} `{Countable K} (key : K → V → string) (val : V → W) (m : gmap K V) j w :
  keyed_by key m →
  index key val m !! j = Some w ↔ ∃ k v, m !! k = Some v ∧ key k v = j ∧ val v = w.
Proof.
  intros Hkey. unfold index. rewrite <- elem_of_list_to_map.
  - rewrite list_elem_of_fmap. split.
    + intros ([k v] & [= -> ->] & Hk%elem_of_map_to_list). by exists k, v.
    + intros (k & v & Hk & <- & <-). exists (k, v). by rewrite elem_of_map_to_list.
  - rewrite <- list_fmap_compose. apply NoDup_fmap_inj; [|apply NoDup_map_to_list].
    intros [k1 v1] [k2 v2] H1%elem_of_map_to_list H2%elem_of_map_to_list Heq. simpl in Heq.
    assert (k1 = k2) as -> by (by eapply Hkey). congruence.
Qed.

Lemma index_None {K V W} `{Countable K} (key : K → V → string) (val : V → W) (m : gmap K V) j :
  keyed_by key m → index key val m !! j = None ↔ ∀ k v, m !! k = Some v → key k v ≠ j.
Proof.
  intros Hkey. rewrite eq_None_not_Some. split.
  - intros Hn k v Hk Hj. apply Hn. exists (val v). apply index_lookup; [done|]. by exists k, v.
  - intros Hn [w (k & v & Hk & Hj & _)%index_lookup]; [by eapply Hn|done].
Qed.

Definition key_of (r : ApiKeyRow) : key :=
  {| ky_Hash := r_KeyHash r; ky_Name := r_Name r; ky_Scopes := r_Scopes r;
     ky_Live := bool_decide (r_RevokedAt r = None) |}.

Definition keys_of (s : db) (tid : string) : gmap string key :=
  key_of <$> where_ (λ r, r_TenantID r = tid) (api_keys s).

Definition session_of (s : db) (tid : string) : option (string * option string) :=
  (λ x, (s_Status x, s_WAJID (SessionRepo.scanSession x))) <$> sessions s !! tid.

Definition log_of (s : db) (tid : string) : gmap string Message :=
  index (λ _ m, m_WAMessageID m) id (where_ (λ m, m_TenantID m = tid) (messages s)).

Definition names_of (s : db) (tid : string) : gmap string string :=
  index (λ k _, k.2) h_Name (filter (λ kh, kh.1.1 = tid) (chats s)).

Definition account_of (s : db) (tid : string) (t : Tenant) : account :=
  {| a_Name := t_Name t; a_Keys := keys_of s tid; a_Session := session_of s tid;
     a_Log := log_of s tid; a_Names := names_of s tid |}.

Definition book_of (s : db) : gmap string account := map_imap (λ tid t, Some (account_of s tid t)) (tenants s).

Lemma book_lookup s tid : book_of s !! tid = account_of s tid <$> tenants s !! tid.
Proof. unfold book_of. rewrite map_lookup_imap. by destruct (tenants s !! tid). Qed.

Lemma keys_of_lookup s tid i k :
  keys_of s tid !! i = Some k ↔ ∃ r, api_keys s !! i = Some r ∧ r_TenantID r = tid ∧ k = key_of r.
Proof.
  unfold keys_of. rewrite lookup_fmap, fmap_Some. setoid_rewrite where_lookup. naive_solver.
Qed.

Lemma log_keyed s tid :
  wf s → keyed_by (λ _ m, m_WAMessageID m) (where_ (λ m, m_TenantID m = tid) (messages s)).
Proof.
  intros Hwf i j m o [Hm Ht]%where_lookup [Ho Ht']%where_lookup Heq.
  eapply wf_wa_id; [done..| |done]. congruence.
Qed.

Lemma log_of_lookup s tid w m :
  wf s →
  log_of s tid !! w = Some m ↔
  ∃ i, messages s !! i = Some m ∧ m_TenantID m = tid ∧ m_WAMessageID m = w.
Proof.
  intros Hwf. unfold log_of. rewrite index_lookup by by apply log_keyed.
  setoid_rewrite where_lookup. naive_solver.
Qed.

Lemma names_keyed s tid :
  keyed_by (λ (k : string * string) (_ : ChatRow), k.2) (filter (λ kh, kh.1.1 = tid) (chats s)).
Proof.
  intros [t1 j1] [t2 j2] h1 h2 [_ E1]%map_lookup_filter_Some [_ E2]%map_lookup_filter_Some E3.
  simpl in *. congruence.
Qed.

Lemma names_of_lookup s tid j : names_of s tid !! j = h_Name <$> chats s !! (tid, j).
Proof.
  apply option_eq. intros x. unfold names_of. rewrite index_lookup by apply names_keyed.
  rewrite fmap_Some. split.
  - intros ([t j'] & h & [Hh Ht]%map_lookup_filter_Some & Hj & Hx). simpl in *. subst. by exists h.
  - intros (h & Hh & ->). exists (tid, j), h. split; [|done]. by apply map_lookup_filter_Some.
Qed.

(** What the other tenants have is all that their accounts show. *)
Lemma account_of_same tid s s' t : tenant_data tid s s' → account_of s tid t = account_of s' tid t.
Proof.
  intros [_ Hk Hs Hm Hc]. unfold account_of, keys_of, session_of, log_of, names_of.
  by rewrite Hk, Hs, Hm, Hc.
Qed.

(** A write for one tenant changes one account of the book. *)
Lemma book_of_only tid s s' t :
  only_tenant tid s s' → tenants s' !! tid = Some t →
  book_of s' = <[tid := account_of s' tid t]> (book_of s).
Proof.
  intros Ho Ht. apply map_eq. intros i. rewrite book_lookup.
  destruct (decide (i = tid)) as [->|Hne]; [by rewrite Ht, lookup_insert_eq|].
  rewrite lookup_insert_ne, book_lookup by done. destruct (Ho i Hne) as [Hd _ _].
  rewrite <- (td_tenant _ _ _ Hd). destruct (tenants s !! i); [|done]. simpl. f_equal.
  symmetry. by apply account_of_same.
Qed.

Lemma book_same s s' :
  tenants s' = tenants s → (∀ tid, keys_of s' tid = keys_of s tid) → sessions s' = sessions s →
  messages s' = messages s → chats s' = chats s → book_of s' = book_of s.
Proof.
  intros Ht Hk Hs Hm Hc. apply map_eq. intros tid. rewrite !book_lookup, Ht.
  destruct (tenants s !! tid); [|done]. simpl. f_equal.
  unfold account_of, session_of, log_of, names_of. by rewrite Hk, Hs, Hm, Hc.
Qed.

Lemma same_tables_book s s' : same_tables s s' → book_of s' = book_of s.
Proof. by intros [->|[-> _]]; [|apply book_same]. Qed.
