(* ===== verification/MailboxWrites.v ===== *)
(** * Every write implements its step on the book

    What each SQL statement does to the accounts of [Mailbox], and from that
    what each operation of the repositories does, on success and on error. *)

From S2P Require Import Prelude GoText GoUnicode GoEff Models Sql Store Address MessageRepo.
From S2P Require Import MessageQueries StoreOps Mailbox.
From S2P Require TenantRepo ApiKeyRepo SessionRepo ChatRepo.

(** ** What each statement does to the book *)

Section statements.
Context `{Unicode} `{Oracle}.

(** A statement on behalf of a known tenant is a step of its account. *)
Lemma account_step (P : account → account → Prop) tid s s' t :
  only_tenant tid s s' → tenants s' = tenants s → tenants s !! tid = Some t →
  P (account_of s tid t) (account_of s' tid t) → on_account tid P (book_of s) (book_of s').
Proof.
  intros Ho E Ht HP. exists (account_of s tid t), (account_of s' tid t).
  split; [by rewrite book_lookup, Ht|]. split; [done|].
  apply book_of_only; [done|by rewrite E].
Qed.

Lemma new_tenant t s a s' :
  wf s → TenantRepo.insert_tenant t s = Some (a, s') →
  book_of s !! t_ID t = None ∧ book_of s' = <[t_ID t := new_account (t_Name t)]> (book_of s).
Proof.
  intros Hwf Hi. pose proof (TenantRepo.insert_tenant_only t s a s' Hi) as Ho.
  unfold TenantRepo.insert_tenant in Hi. destruct (tenants s !! t_ID t) eqn:Et; [done|].
  injection Hi as <- <-. split; [by rewrite book_lookup, Et|].
  assert (Hno : ¬ is_Some (tenants s !! t_ID t)) by (rewrite Et; by intros []).
  rewrite (book_of_only _ _ _ t Ho) by apply lookup_insert_eq. f_equal.
  unfold account_of, new_account. f_equal; simpl.
  - apply map_eq. intros i. apply option_eq. intros k. rewrite keys_of_lookup, lookup_empty.
    split; [|done]. intros (r & Hr & Ht & _). exfalso. apply Hno. rewrite <- Ht.
    by apply (wf_keys _ Hwf i r Hr).
  - unfold session_of. simpl. destruct (sessions s !! t_ID t) eqn:Es; [|done].
    by destruct (wf_sessions _ Hwf _ _ Es) as (_ & ? & _).
  - apply map_empty. intros w. apply index_None.
    { apply (log_keyed _ (t_ID t) Hwf). }
    intros i m [Hm Ht]%where_lookup _. apply Hno. rewrite <- Ht.
    by apply (wf_messages _ Hwf i m Hm).
  - apply map_empty. intros j. rewrite names_of_lookup. simpl.
    destruct (chats s !! (t_ID t, j)) eqn:Ec; [|done].
    by destruct (wf_chats _ Hwf _ _ Ec) as [? _].
Qed.

Lemma new_key r s a s' :
  wf s → r_RevokedAt r = None → ApiKeyRepo.insert_key r s = Some (a, s') →
  (∀ tid x i q, book_of s !! tid = Some x → a_Keys x !! i = Some q → ky_Hash q ≠ r_KeyHash r) ∧
  on_account (r_TenantID r) (λ x x', a_Keys x !! r_ID r = None ∧
    x' = with_keys (<[r_ID r := key_of r]> (a_Keys x)) x) (book_of s) (book_of s').
Proof.
  intros Hwf Hlive Hi. pose proof (ApiKeyRepo.insert_key_only r s a s' Hi) as Ho.
  apply ApiKeyRepo.insert_key_Some in Hi as (Hnew & Huniq & [t Ht] & ->). split.
  - intros tid x i q Hx Hq. rewrite book_lookup in Hx.
    apply fmap_Some in Hx as (u & _ & ->). simpl in Hq.
    apply keys_of_lookup in Hq as (r' & Hr' & _ & ->). simpl. by eapply Huniq.
  - apply (account_step _ _ _ _ t Ho); [done..|]. simpl. split.
    + apply eq_None_not_Some. intros [k (r' & Hr' & _)%keys_of_lookup]. congruence.
    + unfold account_of, with_keys, keys_of. f_equal. simpl.
      rewrite <- fmap_insert. f_equal. unfold where_.
      by rewrite map_filter_insert_True.
Qed.

(** Revoking finds the one live row of that id, or none. *)
Lemma revoked_key tid kid t s n s' :
  wf s → ApiKeyRepo.update_keys (ApiKeyRepo.revocable tid kid) (set_revoked t) s = Some (n, s') →
  (n = 0 ∧ s' = s) ∨
  on_account tid (λ x x', ∃ k, a_Keys x !! kid = Some k ∧ ky_Live k = true ∧
    x' = with_keys (<[kid := revoke k]> (a_Keys x)) x) (book_of s) (book_of s').
Proof.
  intros Hwf Hi.
  assert (Ho : only_tenant tid s s').
  { eapply ApiKeyRepo.update_keys_only; [|exact Hi]. by intros r (_ & ? & _). }
  injection Hi as <- <-.
  destruct (decide (where_ (ApiKeyRepo.revocable tid kid) (api_keys s) = ∅)) as [E|E].
  { left. rewrite E, map_size_empty. split; [done|]. rewrite update_where_none by done.
    by destruct s. }
  right. apply map_choose in E as (id & r & (Hr & Hid & Htid & Hlive)%where_lookup).
  destruct (wf_keys _ Hwf id r Hr) as (Hid' & _ & _ & [u Hu]). rewrite Htid in Hu.
  assert (id = kid) as -> by congruence.
  apply (account_step _ _ _ _ u Ho); [done..|]. exists (key_of r). simpl. split_and!.
  - apply keys_of_lookup. by exists r.
  - simpl. by rewrite Hlive.
  - unfold account_of, with_keys. f_equal. simpl. apply map_eq. intros i. apply option_eq. intros k.
    rewrite keys_of_lookup, lookup_insert_Some, keys_of_lookup. simpl.
    setoid_rewrite update_where_Some. split.
    + intros (r' & (q & Hq & ->) & Hrt & ->). destruct (decide (i = kid)) as [->|Hne].
      * left. split; [done|]. rewrite Hr in Hq. injection Hq as <-. by rewrite decide_True.
      * right. split; [done|]. rewrite decide_False in *; [by exists q|..].
        all: intros (Hq' & _); destruct (wf_keys _ Hwf i q Hq); congruence.
    + intros [[<- <-]|[Hne (q & Hq & Hqt & ->)]].
      * exists (set_revoked t r). split; [|done]. exists r. split; [done|]. by rewrite decide_True.
      * exists q. split; [|done]. exists q. split; [done|]. rewrite decide_False; [done|].
        intros (Hq' & _). destruct (wf_keys _ Hwf i q Hq). congruence.
Qed.

(** The book does not know when a key was last used. *)
Lemma used_key kid t s n s' :
  ApiKeyRepo.update_keys (λ r, r_ID r = kid) (set_used t) s = Some (n, s') → book_of s' = book_of s.
Proof.
  intros [= <- <-]. apply book_same; try done. intros tid. apply map_eq. intros i.
  apply option_eq. intros k. rewrite !keys_of_lookup. simpl. setoid_rewrite update_where_Some.
  split.
  - intros (r' & (q & Hq & ->) & Hrt & ->). exists q. split_and!; [done|by case_decide|].
    by case_decide.
  - intros (q & Hq & Hqt & ->). eexists. split; [by exists q|]. by case_decide.
Qed.

Lemma session_step tid s m x t :
  only_tenant tid s (set_sessions m s) → tenants s !! tid = Some t → m !! tid = Some x →
  on_account tid (λ a a', a' = with_session (Some (s_Status x, s_WAJID (SessionRepo.scanSession x))) a)
    (book_of s) (book_of (set_sessions m s)).
Proof.
  intros Ho Ht Hx. apply (account_step _ _ _ _ t Ho); [done..|].
  unfold account_of, with_session, session_of. f_equal. simpl. by rewrite Hx.
Qed.

Lemma received m s a s' :
  insertable m → wf s → insertMessage m s = Some (a, s') →
  is_Some (book_of s !! m_TenantID m) ∧ book_of s' = post (book_of s) m.
Proof.
  intros Hins Hwf Hi. pose proof (insertMessage_only m s a s' Hi) as Ho.
  pose proof (proj2 (insertMessage_sound m s a s' Hins Hi) Hwf) as Hwf'.
  apply insertMessage_cases in Hi as [(_ & -> & i & o & Hm & Ht & Hw)|(_ & Hno & Hnew & [t Ht] & ->)].
  - destruct (wf_messages _ Hwf i o Hm) as (_ & [t Hten] & _). rewrite Ht in Hten.
    rewrite !book_lookup, Hten. split; [by eexists|]. symmetry.
    apply map_eq. intros j. unfold post. destruct (decide (j = m_TenantID m)) as [->|Hne].
    + rewrite lookup_alter_eq, book_lookup, Hten. simpl. f_equal. unfold receive. simpl.
      assert (El : log_of s (m_TenantID m) !! m_WAMessageID m = Some o)
        by (apply log_of_lookup; [done|by exists i]).
      by rewrite El.
    + by rewrite lookup_alter_ne.
  - rewrite book_lookup, Ht. split; [by eexists|].
    rewrite (book_of_only _ _ _ t Ho) by done. unfold post.
    apply map_eq. intros j. destruct (decide (j = m_TenantID m)) as [->|Hne];
      [|by rewrite lookup_insert_ne, lookup_alter_ne].
    rewrite lookup_insert_eq, lookup_alter_eq, book_lookup, Ht. simpl. f_equal.
    assert (El : log_of s (m_TenantID m) !! m_WAMessageID m = None).
    { apply eq_None_not_Some. intros [o (i & Ho' & Hot & Hw)%log_of_lookup]; [|done].
      by apply (Hno i o Ho'). }
    unfold receive. simpl. rewrite El. unfold account_of, with_log. f_equal.
    apply map_eq. intros w. apply option_eq. intros x. simpl.
    rewrite log_of_lookup, lookup_insert_Some, log_of_lookup by done. simpl.
    setoid_rewrite lookup_insert_Some. split.
    + intros (i & [[<- <-]|[Hne Hi]] & Hxt & Hxw); [by left|].
      right. split; [|by exists i]. intros <-. by destruct (Hno i x Hi).
    + intros [[<- <-]|[Hne (i & Hi & Hxt & Hxw)]]; [by exists (m_ID m); auto|].
      exists i. split; [right|done]. split; [congruence|done].
Qed.

(** The bookkeeping of one stored message, or of none. *)
Lemma media_recorded_step tid id upd t s :
  wf s →
  let s' := set_messages (update_where (owned_id tid id) (apply_media upd t) (messages s)) s in
  where_ (owned_id tid id) (messages s) = ∅ ∧ s' = s ∨
  on_account tid (λ a a', ∃ w m, a_Log a !! w = Some m ∧ m_ID m = id ∧
    a' = with_log (<[w := apply_media upd t m]> (a_Log a)) a) (book_of s) (book_of s').
Proof.
  intros Hwf s'.
  assert (Ho : only_tenant tid s s').
  { intros other Hne. split; [split|..]; simpl; try done. symmetry.
    apply where_update_not; intros m [Ht _]; simpl; [split|intros ?]; congruence. }
  assert (Hwf' : wf s').
  { apply update_messages_sound; [|done]. intros. apply apply_media_same. }
  destruct (decide (where_ (owned_id tid id) (messages s) = ∅)) as [E|E].
  { left. split; [done|]. unfold s'. rewrite update_where_none by done. by destruct s. }
  right. apply map_choose in E as (i & m & (Hm & Ht & Hid)%where_lookup).
  destruct (wf_messages _ Hwf i m Hm) as (Hid' & [u Hu] & _). rewrite Ht in Hu.
  assert (i = id) as -> by congruence.
  apply (account_step _ _ _ _ u Ho); [done..|]. exists (m_WAMessageID m), m. simpl. split_and!.
  - apply log_of_lookup; [done|]. by exists id.
  - done.
  - unfold account_of, with_log. f_equal. apply map_eq. intros w. apply option_eq. intros x.
    simpl. rewrite log_of_lookup, lookup_insert_Some, log_of_lookup by done. simpl.
    setoid_rewrite update_where_Some. split.
    + intros (i & (q & Hq & ->) & Hxt & Hxw). destruct (decide (i = id)) as [->|Hne].
      * left. rewrite Hm in Hq. injection Hq as <-. by rewrite decide_True in *.
      * destruct (wf_messages _ Hwf i q Hq) as (Hqi & _).
        rewrite decide_False in * by (intros [_ ?]; congruence).
        right. split; [|by exists i]. intros E. apply Hne. eapply (wf_wa_id _ Hwf); [done..| |]; congruence.
    + intros [[<- <-]|[Hne (i & Hi & Hxt & Hxw)]].
      * exists id. split; [|done]. exists m. split; [done|]. by rewrite decide_True.
      * exists i. split; [|done]. exists x. split; [done|].
        destruct (wf_messages _ Hwf i x Hi) as (Hxi & _).
        rewrite decide_False; [done|]. intros [_ Hxid]. apply Hne.
        assert (i = id) as -> by congruence. congruence.
Qed.

Lemma named_chat tid c t s a s' :
  TrimSpace (n_Name c) ≠ "" →
  ChatRepo.upsertChat tid (n_ChatJID c) (TrimSpace (n_Name c)) t s = Some (a, s') →
  is_Some (book_of s !! tid) ∧ book_of s' = remember tid (book_of s) c.
Proof.
  intros Hne Hi. pose proof (ChatRepo.upsertChat_only _ _ _ _ _ _ _ Hi) as Ho.
  unfold ChatRepo.upsertChat in Hi. case_decide as Ht; [|done]. destruct Ht as [u Ht].
  injection Hi as <- <-. rewrite book_lookup, Ht. split; [by eexists|].
  rewrite (book_of_only _ _ _ u Ho) by done. unfold remember. rewrite decide_False by done.
  apply map_eq. intros j. destruct (decide (j = tid)) as [->|Hj];
    [|by rewrite lookup_insert_ne, lookup_alter_ne].
  rewrite lookup_insert_eq, lookup_alter_eq, book_lookup, Ht. simpl. f_equal.
  unfold account_of, with_names. f_equal. apply map_eq. intros w. simpl.
  rewrite names_of_lookup. simpl. destruct (decide (w = n_ChatJID c)) as [->|Hw].
  - by rewrite !lookup_insert_eq.
  - rewrite !lookup_insert_ne by congruence. by rewrite names_of_lookup.
Qed.
End statements.

(** ** What each operation does to the book *)

Section operations.
Context `{Unicode} `{Oracle}.

Definition implements {A} (o : write_op) (m : eff db (result A)) : Prop :=
  ∀ n s, wf s → outcome o (failure (answer m n s)) (book_of s) (book_of (final m n s)).

Lemma implements_err {A} o e : implements o (ret (A := result A) (Err e)).
Proof. intros n s _. by left. Qed.

Lemma implements_bind {A B} o (m : eff db B) (k : B → eff db (result A)) :
  evolves eq m → (∀ b, implements o (k b)) → implements o (bind m k).
Proof.
  intros Hm Hk n s Hwf. rewrite bind_answer, bind_final. rewrite <- (Hm n s). by apply Hk.
Qed.

(** One statement, and nothing after it that can fail. *)
Lemma implements_exec {A} o (stmt : db → option (A * db)) w :
  (∀ s a s', wf s → stmt s = Some (a, s') → performs o (book_of s) (book_of s')) →
  implements o (try (exec stmt) w (λ _, ret (Ok ()))).
Proof.
  intros Hs n s Hwf. unfold answer, final, try, bind.
  destruct (exec_run stmt n s) as [(a & s' & E & ->)|(e & -> & _)]; simpl; [by eapply Hs|by left].
Qed.

(** One statement that must have changed some row. *)
Lemma implements_affected o (stmt : db → option (nat * db)) w what :
  all_or_nothing o = false →
  (∀ s n s', wf s → stmt s = Some (n, s') →
     n = 0 ∧ s' = s ∨ performs o (book_of s) (book_of s')) →
  implements o (try (exec stmt) w (affected_some what)).
Proof.
  intros Ho Hs n s Hwf. unfold answer, final, try, bind.
  destruct (exec_run stmt n s) as [(a & s' & E & ->)|(e & -> & _)]; [|by left].
  unfold affected_some, try, bind, driver.
  destruct (Hs s a s' Hwf E) as [[-> ->]|Hp];
    match goal with |- context [query ?q ?k ?u] =>
      destruct (query_run q k u) as [->|(e & -> & _)] end; simpl; try (by left); try (by right).
  case_bool_decide; [by right|done].
Qed.

Lemma Create_implements t : implements (CreateTenant t) (TenantRepo.Create t).
Proof.
  unfold TenantRepo.Create. case_decide; [apply implements_err|].
  apply implements_bind; [destruct (IsZero _); evolve|]. intros created.
  apply implements_exec. intros s a s' Hwf Hi. by apply new_tenant in Hi.
Qed.

Lemma CreateKey_implements k : implements (CreateKey k) (ApiKeyRepo.Create k).
Proof.
  unfold ApiKeyRepo.Create. do 3 (case_decide; [apply implements_err|]).
  apply implements_bind; [destruct (IsZero _); evolve|]. intros created.
  apply implements_exec. intros s a s' Hwf Hi. by apply new_key in Hi.
Qed.

Lemma Revoke_implements tid kid : implements (RevokeKey tid kid) (ApiKeyRepo.Revoke tid kid).
Proof.
  unfold ApiKeyRepo.Revoke. apply implements_bind; [evolve|]. intros t.
  apply implements_affected; [done|]. intros s n s' Hwf Hi. by eapply revoked_key.
Qed.

Lemma MarkUsed_implements kid : implements (MarkKeyUsed kid) (ApiKeyRepo.MarkUsed kid).
Proof.
  unfold ApiKeyRepo.MarkUsed. apply implements_bind; [evolve|]. intros t.
  apply implements_exec. intros s a s' Hwf Hi. by eapply used_key.
Qed.

Lemma UpdateStatus_implements tid status jid :
  implements (UpdateSession tid status jid) (SessionRepo.UpdateStatus tid status jid).
Proof.
  unfold SessionRepo.UpdateStatus. destruct (status_validate status); [|apply implements_err].
  apply implements_bind; [evolve|]. intros t. apply implements_affected; [done|].
  intros s n s' Hwf Hi. pose proof (SessionRepo.update_session_only _ _ _ _ _ Hi) as Ho.
  unfold SessionRepo.update_session in Hi. destruct (sessions s !! tid) as [x|] eqn:Ex.
  - injection Hi as <- <-. right. destruct (wf_sessions _ Hwf tid x Ex) as (_ & [u Hu] & _).
    apply (account_step _ _ _ _ u Ho); [done..|].
    exists (s_Status x, s_WAJID (SessionRepo.scanSession x)). unfold account_of, session_of. simpl.
    split; [by rewrite Ex|]. unfold with_session. f_equal. simpl. rewrite lookup_insert_eq. simpl.
    do 2 f_equal. repeat case_decide; subst; try done; by destruct (s_WAJID x).
  - injection Hi as <- <-. by left.
Qed.

Lemma EnsureForTenant_implements tid :
  implements (EnsureSession tid) (SessionRepo.EnsureForTenant tid).
Proof.
  intros n s Hwf. unfold SessionRepo.EnsureForTenant.
  assert (Hget : ∀ k s', final (SessionRepo.GetByTenant tid) k s' = s')
    by (intros; symmetry; apply SessionRepo.session_GetByTenant_reads).
  (* the session is there *)
  assert (Hthere : ∀ x, sessions s !! tid = Some x → performs (EnsureSession tid) (book_of s) (book_of s)).
  { intros x Hx. destruct (wf_sessions _ Hwf tid x Hx) as (_ & [u Hu] & _). simpl.
    apply (account_step _ _ _ _ u); [reflexivity|done|done|].
    unfold account_of, with_session, session_of. rewrite Hx. done. }
  rewrite bind_answer, bind_final, Hget.
  destruct (answer (SessionRepo.GetByTenant tid) n s) as [x|e] eqn:Eg.
  { apply read_row_Ok, fmap_Some in Eg as (y & Hy & _). by eapply Hthere. }
  destruct (errors_Is e ErrNotFound); [|by left].
  unfold now, NewID, new_id, draw, bind at 1 2. cbn [answer final fst snd].
  unfold answer, final, try, bind. set (n' := next _ n s).
  set (x0 := {| s_ID := _ |}).
  destruct (exec_run (SessionRepo.insert_session x0) (S (S n')) s) as [(a & s' & Hi & ->)|(e' & -> & _)];
    [|by left].
  assert (Hdone : performs (EnsureSession tid) (book_of s) (book_of s')).
  { pose proof (SessionRepo.insert_session_only x0 s a s' Hi) as Ho.
    unfold SessionRepo.insert_session in Hi. destruct (sessions s !! s_TenantID x0) eqn:Es.
    { injection Hi as <- <-. by eapply Hthere. }
    repeat case_decide; try done. injection Hi as <- <-.
    match goal with Hex : is_Some (tenants s !! _) |- _ => destruct Hex as [u Hu] end.
    apply (account_step _ _ _ _ u Ho); [done..|].
    unfold account_of, with_session, session_of. simpl in *. by rewrite Es, lookup_insert_eq. }
  destruct (SessionRepo.GetByTenant tid (S (S (S n'))) s') as [[r n2] s2] eqn:Er.
  assert (Es2 : s2 = s') by (rewrite <- (Hget (S (S (S n'))) s'); unfold final; by rewrite Er).
  simpl. subst s2. destruct r; [done|]. by right.
Qed.

Lemma Append_implements m : implements (AppendMessage m) (Append m).
Proof.
  intros n s Hwf. unfold Append.
  pose proof (prepareMessage_same m n s) as Hs. pose proof (prepareMessage_yields m n s) as Hy.
  unfold answer, final, try, bind in *.
  destruct (prepareMessage m n s) as [[[m'|e] n1] s1]; simpl in *; subst; [|by left].
  specialize (Hy m' eq_refl).
  destruct (exec_run (insertMessage m') n1 s1) as [(a & s2 & Hi & ->)|(e & -> & _)]; [|by left].
  simpl. destruct (received m' s1 a s2 (proj1 Hy) Hwf Hi) as [Ht ->]. by exists m'.
Qed.

Lemma post_known b m tid : is_Some (post b m !! tid) ↔ is_Some (b !! tid).
Proof. unfold post. apply lookup_alter_is_Some. Qed.

Lemma insert_all_delivers c ms n s k :
  wf s → Forall insertable ms → answer (insert_all c ms) n s = Ok k →
  Forall (λ m, is_Some (book_of s !! m_TenantID m)) ms ∧
  book_of (final (insert_all c ms) n s) = foldl post (book_of s) ms.
Proof.
  revert c n s. induction ms as [|m ms IH]; intros c n s Hwf Hins; simpl; [done|].
  apply Forall_cons in Hins as [Hm Hins].
  intros (a & n1 & s1 & He & Hb & Hf)%try_Ok. rewrite Hf.
  apply exec_Ok in He as [He ->].
  apply try_Ok in Hb as (u & n2 & s2 & Hd & Hb & Hf'). rewrite Hf'.
  apply query_Ok in Hd as (_ & -> & ->).
  pose proof (proj2 (insertMessage_sound m s a s1 Hm He) Hwf) as Hwf1.
  destruct (received m s a s1 Hm Hwf He) as [Ht Eb].
  destruct (IH _ _ _ Hwf1 Hins Hb) as [Hall ->]. rewrite Eb in *. split; [|done].
  constructor; [done|]. eapply Forall_impl; [exact Hall|]. intros x. apply post_known.
Qed.

Lemma AppendBatch_implements ms : implements (AppendMessages ms) (AppendBatch ms).
Proof.
  intros n s Hwf. destruct (answer (AppendBatch ms) n s) as [k|e] eqn:E; simpl.
  - apply AppendBatch_run in E as (prepared & n' & Hp & Ha & ->).
    destruct (insert_all_delivers 0 prepared n' s k Hwf) as [Hall ->]; [|done|by exists prepared].
    clear -Hp. induction Hp as [|m m' l l' [? _] _ IH]; by constructor.
  - left. by rewrite (AppendBatch_Err ms n s e E).
Qed.

Lemma UpdateMedia_implements tid id upd :
  implements (UpdateMessageMedia tid id upd) (UpdateMedia tid id upd).
Proof.
  unfold UpdateMedia. case_decide; [apply implements_err|].
  apply implements_bind; [destruct (IsZero _); evolve|]. intros t.
  apply implements_affected; [done|]. intros s n s' Hwf [= <- <-].
  destruct (media_recorded_step tid id upd t s Hwf) as [[E Es]|(a & a' & Ha & (w & m & Hm & Hid & ->) & Eb)].
  - left. by rewrite E, map_size_empty.
  - right. exists a. eexists. split; [done|]. split; [|exact Eb]. by exists w, m, t.
Qed.

Lemma Upsert_implements tid c : implements (UpsertChat tid c) (ChatRepo.Upsert tid c).
Proof.
  unfold ChatRepo.Upsert. case_decide as Hc.
  - intros n s Hwf. simpl. split; [done|]. unfold remember. by rewrite decide_True.
  - apply implements_bind; [evolve|]. intros t. apply implements_exec. intros s a s' Hwf Hi.
    by destruct (named_chat tid c t s a s' Hc Hi).
Qed.

Lemma upsert_all_remembers tid t l n s :
  answer (ChatRepo.upsert_all tid t l) n s = Ok () →
  Forall (λ c, TrimSpace (n_Name c) ≠ "" → is_Some (book_of s !! tid)) l ∧
  book_of (final (ChatRepo.upsert_all tid t l) n s) = foldl (remember tid) (book_of s) l.
Proof.
  revert n s. induction l as [|c l IH]; intros n s; simpl; [done|]. case_decide as Hc.
  - intros Hl. destruct (IH n s Hl) as [Hall ->]. unfold remember at 3.
    rewrite decide_True by done. by split; [constructor|].
  - intros (a & n1 & s1 & He & Hb & ->)%try_Ok. apply exec_Ok in He as [He ->].
    destruct (named_chat tid c t s a s1 Hc He) as [Ht Eb].
    destruct (IH _ _ Hb) as [Hall ->]. rewrite Eb in *. split; [|done]. constructor; [done|].
    by apply Forall_forall.
Qed.

Lemma UpsertBatch_implements tid l : implements (UpsertChats tid l) (ChatRepo.UpsertBatch tid l).
Proof.
  intros n s Hwf. unfold ChatRepo.UpsertBatch. destruct l as [|c l]; [done|].
  set (l0 := c :: l). clearbody l0. clear c l.
  destruct (answer (transaction _ _ _) n s) as [[]|e] eqn:E;
    [|left; by rewrite (transaction_Err _ _ _ _ _ _ E)].
  apply transaction_Ok in E as (n1 & n2 & s2 & Hb & ->).
  assert (Hb' : answer (try driver (Wrap "store: prepare chat name batch") (λ _,
    bind now (λ t, ChatRepo.upsert_all tid t l0))) n1 s = Ok ()) by (unfold answer; by rewrite Hb).
  apply try_Ok in Hb' as (u & n3 & s3 & Hd & Ha & Hf). apply query_Ok in Hd as (_ & -> & ->).
  unfold final in Hf at 1. rewrite Hb in Hf. simpl in Hf. rewrite Hf.
  rewrite bind_answer in Ha. rewrite bind_final. by apply upsert_all_remembers.
Qed.
End operations.
