(* ===== verification/MailboxReads.v ===== *)
(** * What a tenant reads is in its account

    The queries over the tables answer what [Mailbox.observe] computes from
    the account of the tenant that asks. *)

From S2P Require Import Prelude GoText GoUnicode GoEff Models Sql Store Address MessageRepo.
From S2P Require Import MessageQueries StoreOps Mailbox.
From S2P Require TenantRepo ApiKeyRepo SessionRepo ChatRepo.

#[local] Existing Instance ChatRepo.name_order_dec.
#[local] Existing Instance ChatRepo.name_order_trans.
#[local] Existing Instance ChatRepo.name_order_total.

(** An order that tells the rows of two tables apart sorts them alike. *)
Lemma merge_sort_same {A} (R : relation A) `{∀ x y, Decision (R x y), !Transitive R, !Total R}
    (l1 l2 : list A) :
  l1 ≡ₚ l2 → (∀ x y, x ∈ l1 → y ∈ l1 → R x y → R y x → x = y) →
  merge_sort R l1 = merge_sort R l2.
Proof.
  intros Hp Hanti. apply (StronglySorted_unique_strong R).
  - intros x y. rewrite !merge_sort_Permutation. rewrite <- Hp. intros. by apply Hanti.
  - by apply (StronglySorted_merge_sort R).
  - by apply (StronglySorted_merge_sort R).
  - by rewrite !merge_sort_Permutation.
Qed.

Lemma log_rows s tid t (P Q : Message → Prop) `{∀ m, Decision (P m), ∀ m, Decision (Q m)} :
  wf s → (∀ m, P m ↔ m_TenantID m = tid ∧ Q m) →
  rows (where_ P (messages s)) ≡ₚ rows (where_ Q (a_Log (account_of s tid t))).
Proof.
  intros Hwf HPQ. apply NoDup_Permutation.
  - apply (NoDup_rows m_ID). intros k m [Hm _]%where_lookup. by apply wf_message_key with s.
  - apply (NoDup_rows m_WAMessageID).
    intros k m [(_ & _ & _ & <-)%log_of_lookup _]%where_lookup; done.
  - intros m. rewrite !elem_of_where, HPQ. simpl. setoid_rewrite log_of_lookup; [|done].
    split.
    + intros ([i Hi] & Ht & HQ). split; [|done]. by exists (m_WAMessageID m), i.
    + intros [(w & i & Hi & Ht & _) HQ]. split; [by exists i|done].
Qed.

Lemma select_log s tid t (P Q : Message → Prop) `{∀ m, Decision (P m), ∀ m, Decision (Q m)}
    (R : relation Message) `{∀ x y, Decision (R x y), !Transitive R, !Total R} k :
  wf s → (∀ m, P m ↔ m_TenantID m = tid ∧ Q m) →
  (∀ x y, R x y → R y x → m_ID x = m_ID y) →
  select P R k (messages s) = select Q R k (a_Log (account_of s tid t)).
Proof.
  intros Hwf HPQ Hanti. unfold select. f_equal. apply (merge_sort_same R); [by apply log_rows|].
  intros x y [[i Hx] _]%elem_of_where [[j Hy] _]%elem_of_where Hxy Hyx.
  specialize (Hanti x y Hxy Hyx).
  pose proof (wf_message_key s Hwf i x Hx). pose proof (wf_message_key s Hwf j y Hy). congruence.
Qed.

Lemma oldest_first_anti a b : oldest_first a b → oldest_first b a → m_ID a = m_ID b.
Proof. intros Hab Hba. by apply newest_first_anti. Qed.

Section observations.
Context `{Unicode} `{Oracle}.

Lemma own_rows s tid t : wf s → own_messages tid s ≡ₚ rows (a_Log (account_of s tid t)).
Proof.
  intros Hwf. unfold own_messages.
  rewrite (log_rows s tid t (λ m, m_TenantID m = tid) (λ _, True) Hwf) by naive_solver.
  unfold rows, where_. by rewrite map_filter_id.
Qed.

Lemma heads_row_number L l l' m :
  l ≡ₚ l' → row_number (λ m, canonical L (m_ChatJID m)) l m = 1 ↔ heads L l' m.
Proof.
  intros Hp. rewrite row_number_first. unfold heads. rewrite Forall_forall. by setoid_rewrite Hp.
Qed.

Lemma chat_rows_entries s tid t :
  wf s →
  chat_rows (λ m, canonical (lids s) (m_ChatJID m)) tid s ≡ₚ entries (lids s) (account_of s tid t).
Proof.
  intros Hwf. pose proof (own_rows s tid t Hwf) as Hp. unfold chat_rows, entries.
  rewrite (list_filter_iff _ (heads (lids s) (rows (a_Log (account_of s tid t))))).
  2: { intros m. by apply heads_row_number. }
  etrans; [apply Permutation_map; by rewrite Hp|].
  apply reflexive_eq, list_fmap_ext. intros i m _.
  unfold chat_row, entry, partition_of. f_equal.
  - simpl. rewrite names_of_lookup. by destruct (chats s !! _).
  - by rewrite Hp.
Qed.

Lemma own_names_names s tid t : ChatRepo.own_names tid s ≡ₚ names (account_of s tid t).
Proof.
  apply NoDup_Permutation.
  - unfold ChatRepo.own_names. apply NoDup_fmap_inj; [|apply NoDup_map_to_list].
    intros [[t1 j1] h1] [[t2 j2] h2] H1%elem_of_map_to_list H2%elem_of_map_to_list [= Hj _].
    apply map_lookup_filter_Some in H1 as [H1 E1], H2 as [H2 E2]. simpl in *. subst. congruence.
  - unfold names. apply NoDup_fmap_inj; [|apply NoDup_map_to_list].
    intros [] [] _ _ [= -> ->]. done.
  - intros [j nm]. rewrite ChatRepo.elem_of_own_names. unfold names. rewrite list_elem_of_fmap. simpl.
    split.
    + intros (h & Hh & ->). exists (j, h_Name h). split; [done|].
      apply elem_of_map_to_list. by rewrite names_of_lookup, Hh.
    + intros ([j' n'] & [= -> ->] & Hin%elem_of_map_to_list).
      rewrite names_of_lookup in Hin. apply fmap_Some in Hin as (h & Hh & ->). by exists h.
Qed.

Lemma NoDup_fmap_eq {A B} (f : A → B) (l : list A) x y :
  NoDup (f <$> l) → x ∈ l → y ∈ l → f x = f y → x = y.
Proof.
  intros Hnd [i Hi]%list_elem_of_lookup [j Hj]%list_elem_of_lookup Heq.
  assert (i = j) as ->.
  { eapply NoDup_lookup; [exact Hnd|rewrite list_lookup_fmap, Hi; done|].
    rewrite list_lookup_fmap, Hj. simpl. by rewrite Heq. }
  congruence.
Qed.

(** Conversations are listed the same from the account. *)
Lemma listed_entries s tid t :
  wf s →
  merge_sort chat_order (chat_rows (λ m, canonical (lids s) (m_ChatJID m)) tid s) =
  merge_sort chat_order (entries (lids s) (account_of s tid t)).
Proof.
  intros Hwf. apply (merge_sort_same chat_order); [by apply chat_rows_entries|].
  intros x y Hx Hy Hxy Hyx. eapply (NoDup_fmap_eq c_ChatJID); [by apply chat_rows_NoDup|done..|].
  destruct Hxy as [?|[? Hxy]], Hyx as [?|[? Hyx]]; try lia. by apply (anti_symm text_le).
Qed.

Lemma listed_names q s tid t :
  merge_sort ChatRepo.name_order (filter (λ c, ChatRepo.name_matches q c = true)
    (ChatRepo.own_names tid s)) =
  merge_sort ChatRepo.name_order (filter (λ c, contains (lower q) (lower (n_Name c)) = true)
    (names (account_of s tid t))).
Proof.
  rewrite (list_filter_iff _ (λ c, contains (lower q) (lower (n_Name c)) = true)).
  2: { intros c. unfold ChatRepo.name_matches. by rewrite like_lower. }
  apply (merge_sort_same ChatRepo.name_order); [by rewrite (own_names_names s tid t)|].
  intros [j1 n1] [j2 n2] _ _ H1' H2'. unfold ChatRepo.name_order in *. simpl in *.
  destruct H1' as [[L1 N1]|[-> L1]], H2' as [[L2 N2]|[E2 L2]]; try congruence.
  - exfalso. apply N1. by apply (anti_symm text_le).
  - f_equal. by apply (anti_symm text_le).
Qed.

Lemma observe_exact tid o n s a r :
  wf s → lid_map_ok (lids s) → answering → book_of s !! tid = Some a →
  observe (lids s) a o = Some r → answer (run_read tid o) n s = r.
Proof.
  intros Hwf Hm Ha Hb. rewrite book_lookup in Hb. apply fmap_Some in Hb as (t & Ht & ->).
  destruct (wf_tenants _ Hwf tid t Ht) as [_ Htid].
  assert (Hread : ∀ A (f : A → read_answer) (m : eff db A),
    answer (answer_as f m) n s = f (answer m n s)) by (intros; unfold answer_as; by rewrite bind_answer).
  destruct o; try done; intros [= <-]; unfold run_read; rewrite Hread; f_equal.
  - rewrite ListByChat_answer by done. f_equal.
    refine (select_log s tid t (conversation s tid chatJID) _ newest_first _ Hwf _ newest_first_anti).
    reflexivity.
  - rewrite OldestByChat_answer by done. f_equal.
    refine (select_log s tid t (conversation s tid chatJID) _ oldest_first _ Hwf _ oldest_first_anti).
    reflexivity.
  - unfold GetByID. destruct (decide (id = "")) as [->|Hid]; [by rewrite decide_True by auto|].
    rewrite decide_False by naive_solver.
    erewrite try_answer by (by apply read_rows_answer). unfold ret, answer. simpl. f_equal.
    refine (select_log s tid t (addressed_by tid id) _ newest_first _ Hwf _ newest_first_anti).
    reflexivity.
  - unfold Search. case_decide; [done|]. unfold collect. rewrite read_rows_answer by done. f_equal.
    refine (select_log s tid t (body_matches tid _) _ newest_first _ Hwf _ newest_first_anti).
    intros m. unfold body_matches. by rewrite like_containing.
  - rewrite ListChats_answer by done. by rewrite (listed_entries s tid t Hwf).
  - unfold ChatRepo.Search. case_decide; [done|]. rewrite read_rows_answer by done.
    by rewrite (listed_names _ s tid t).
Qed.
End observations.
