(* ===== verification/Refinement.v ===== *)
(** * The store refines the book of mailboxes

    [MailboxWrites] and [MailboxReads] lifted to every sequence of calls. *)

From S2P Require Import Prelude GoText GoUnicode GoEff Models Sql Store Address MessageRepo.
From S2P Require Import MessageQueries StoreOps StoreTheorems Mailbox.
From S2P Require Import MailboxWrites MailboxReads.
From S2P Require TenantRepo ApiKeyRepo SessionRepo ChatRepo.

Section refinement.
Context `{Unicode} `{Oracle}.

Lemma answer_as_failure {A} o (m : eff db (result A)) n s :
  implements o m → wf s →
  outcome o (answer (answer_as failure m) n s) (book_of s) (book_of (final (answer_as failure m) n s)).
Proof. intros Hm Hwf. unfold answer_as. rewrite bind_answer, bind_final. by apply Hm. Qed.

Lemma run_write_outcome o n s :
  wf s → outcome o (answer (run_write o) n s) (book_of s) (book_of (final (run_write o) n s)).
Proof.
  destruct o; unfold run_write; apply answer_as_failure.
  - apply Create_implements.
  - apply CreateKey_implements.
  - apply Revoke_implements.
  - apply MarkUsed_implements.
  - apply EnsureForTenant_implements.
  - apply UpdateStatus_implements.
  - apply Append_implements.
  - apply AppendBatch_implements.
  - apply UpdateMedia_implements.
  - apply Upsert_implements.
  - apply UpsertBatch_implements.
Qed.

Lemma run_calls_explained calls n s :
  wf s → explains (history calls n s) (book_of s) (book_of (final (run_calls calls) n s)).
Proof.
  revert n s. induction calls as [|c calls IH]; intros n s Hwf; [constructor|].
  simpl run_calls. rewrite bind_final.
  pose proof (proj2 (run_call_sound c n s) Hwf) as Hwf'.
  specialize (IH (next (run_call c) n s) (final (run_call c) n s) Hwf').
  destruct c as [o|tid o]; simpl history.
  - eapply explains_cons; [|exact IH]. unfold run_call, answer_as. rewrite bind_final.
    by apply run_write_outcome.
  - erewrite <- (same_tables_book s); [exact IH|]. unfold run_call, answer_as. rewrite bind_final.
    apply run_read_same.
Qed.

(** A step of the specification concerns one account. *)
Lemma performs_only tid o b b' other :
  written_for tid o → performs o b b' → other ≠ tid → b' !! other = b !! other.
Proof.
  assert (Hon : ∀ t P, on_account t P b b' → t ≠ other → b' !! other = b !! other)
    by (intros t P (a & a' & _ & _ & ->) Hne; by rewrite lookup_insert_ne).
  assert (Hdel : ∀ b m, m_TenantID m ≠ other → post b m !! other = b !! other)
    by (intros; unfold post; by rewrite lookup_alter_ne).
  assert (Hrem : ∀ b c t, t ≠ other → remember t b c !! other = b !! other)
    by (intros; unfold remember; case_decide; [done|]; by rewrite lookup_alter_ne).
  destruct o; simpl; intros Ht Hp Hne; subst; try done.
  - destruct Hp as [_ ->]. by rewrite lookup_insert_ne.
  - destruct Hp as [_ Hp]. by eapply Hon.
  - by eapply Hon.
  - by eapply Hon.
  - by eapply Hon.
  - destruct Hp as (m' & Hm & _ & ->). apply Hdel. rewrite (prepared_tenant _ _ Hm). congruence.
  - destruct Hp as (ms' & Hms & _ & ->). revert b Hon. induction Hms as [|m m' l l' Hm _ IH]; [done|].
    intros b _. simpl. rewrite IH; [|by intros; apply Ht; right|].
    + apply Hdel. rewrite (prepared_tenant _ _ Hm), (Ht m); [congruence|by left].
    + intros t P (a & a' & _ & _ & E) Hne'. by rewrite E, lookup_insert_ne.
  - by eapply Hon.
  - destruct Hp as [_ ->]. by apply Hrem.
  - destruct Hp as [_ ->]. clear Hon. revert b. induction l as [|c l IH]; intros b; [done|].
    simpl. by rewrite IH, Hrem.
Qed.

(** C2: the store implements the book of mailboxes.  Whatever sequence of calls
    runs, and whichever statements fail, the tables that result are those of a run
    of the specification in which every write that reported success took its
    step and every write that reported an error took none, save the four that
    may fail after their statement has run; and what a tenant then reads of its
    messages, its conversations and their names is what the specification
    computes from that tenant's own account. *)
Theorem store_refines_mailboxes calls n s :
  wf s →
  let s' := final (run_calls calls) n s in
  explains (history calls n s) (book_of s) (book_of s') ∧
  (answering → lid_map_ok (lids s') → ∀ tid a o r k,
     book_of s' !! tid = Some a → observe (lids s') a o = Some r → answer (run_read tid o) k s' = r).
Proof.
  intros Hwf s'. split; [by apply run_calls_explained|].
  intros Ha Hm tid a o r k Hb Ho. eapply observe_exact; [|done..].
  by apply (run_calls_sound calls n s).
Qed.
End refinement.

#[local] Existing Instance demo_unicode.
#[local] Existing Instance demo_oracle.

(** A message delivered twice, under the LID, and a chat that gets a name. *)
Definition nuevo : Message := demo_message "acme" "15285906083900@lid" "W9" "nuevo" 50.

Definition deliveries : list call :=
  [Write (AppendMessage nuevo); Write (AppendMessages [nuevo; nuevo]);
   Write (UpsertChat "acme" {| n_ChatJID := "573004725680@s.whatsapp.net"; n_Name := " Ana " |})].

Definition delivered : db := final (run_calls deliveries) 40 demo_db.

Lemma delivered_lids : lid_map_ok (lids delivered).
Proof.
  assert (E : lids delivered = lids demo_db) by (vm_compute; reflexivity).
  rewrite E. exact demo_lids_ok.
Qed.

Definition shown (r : read_answer) : list (string * string * string * nat) :=
  match r with
  | AChats (Ok cs) => (λ c, (c_ChatJID c, c_Name c, c_LastMessageBody c, c_MessageCount c)) <$> cs
  | _ => []
  end.

Lemma store_refines_mailboxes_witness :
  shown (answer (run_read "acme" (ListConversations 1)) 60 delivered) =
    [("573004725680@s.whatsapp.net", "Ana", "nuevo", 3)] ∧
  ∃ a, book_of delivered !! "acme" = Some a ∧ size (a_Log a) = 4.
Proof.
  destruct (store_refines_mailboxes deliveries 40 demo_db demo_wf) as [_ Hread].
  assert (Ea : is_Some (book_of delivered !! "acme")) by by_decide. destruct Ea as [a Ea].
  assert (Es : option_map (λ a, (shown <$> observe (lids delivered) a (ListConversations 1),
                 size (a_Log a))) (book_of delivered !! "acme") =
               Some (Some [("573004725680@s.whatsapp.net", "Ana", "nuevo", 3)], 4))
    by (vm_compute; reflexivity).
  rewrite Ea in Es. injection Es as Es El. split; [|exists a; split; [exact Ea|exact El]].
  pose proof (Hread demo_answering delivered_lids "acme" a (ListConversations 1) _ 60 Ea eq_refl) as Er.
  change (final (run_calls deliveries) 40 demo_db) with delivered in Er. rewrite Er. exact Es.
Defined.
