(* ===== verification/Config.v ===== *)
(** * Configuration ([internal/config/config.go])

    The environment of the process is a function from names to values; every
    setting is a total function of its text. *)

From stdpp Require Import pretty.
From S2P Require Import Prelude GoText GoUnicode GoEff.

Definition defaultBindAddr := "127.0.0.1:8080".
(** nanoseconds *)
Definition DefaultHistorySyncTimeout : Z := 30 * 10 ^ 9.
Definition DefaultMediaDir := "./data/media".
Definition DefaultMediaMaxBytes : Z := Z.shiftl 100 20.

Definition knownMediaTypes : gset string :=
  {["ptt"; "audio"; "image"; "video"; "document"; "sticker"; "gif"]}.

Definition DefaultMediaFetchTypes : list string :=
  ["ptt"; "audio"; "image"; "video"; "document"].

Inductive HistorySyncScope :=
  | HistorySyncScopeDM
  | HistorySyncScopeDMGroup
  | HistorySyncScopeAll.

#[export] Instance HistorySyncScope_eq_dec : EqDecision HistorySyncScope.
Proof. solve_decision. Defined.

(** ** [strconv] in base ten *)

Fixpoint decimal_go (acc : Z) (s : string) : option Z :=
  match s with
  | EmptyString => Some acc
  | String c s => if is_digit c then decimal_go (10 * acc + (byte_z c - 48)) s else None
  end.

(** [ParseInt(raw, 10, 64)]; [Atoi] is the same on a 64-bit machine. *)
Definition ParseInt (raw : string) : option Z :=
  let '(sign, digits) :=
    match raw with
    | String c s =>
        if decide (c = "-"%char) then ((-1)%Z, s)
        else if decide (c = "+"%char) then (1%Z, s) else (1%Z, raw)
    | EmptyString => (1%Z, "")
    end in
  if decide (digits = "") then None
  else match decimal_go 0 digits with
       | Some z => let v := (sign * z)%Z in
                   if decide (- 2 ^ 63 ≤ v < 2 ^ 63)%Z then Some v else None
       | None => None
       end.

Definition Atoi : string → option Z := ParseInt.
Definition Itoa (z : Z) : string := pretty z.

(** ** [net] *)

Definition cut_last (c : ascii) (s : string) : option (string * string) :=
  match cut c (rev_string s) with
  | Some (b, a) => Some (rev_string a, rev_string b)
  | None => None
  end.

(** [net.JoinHostPort] *)
Definition JoinHostPort (host port : string) : string :=
  if has_byte ":" host then "[" +:+ host +:+ "]:" +:+ port
  else host +:+ ":" +:+ port.

(** [net.SplitHostPort] *)
Definition SplitHostPort (hostport : string) : option (string * string) :=
  match cut_last ":" hostport with
  | None => None
  | Some (before, port) =>
      match before with
      | String "[" inner =>
          (* the first closing bracket must be the last byte before the colon *)
          match cut "]" inner with
          | Some (host, "") =>
              if has_byte "[" inner || has_byte "]" port || has_byte "[" port then None
              else Some (host, port)
          | _ => None
          end
      | _ =>
          if has_byte ":" before || has_byte "[" hostport || has_byte "]" hostport then None
          else Some (before, port)
      end
  end.

(** ** The settings *)

Section config.
Context `{Unicode}.

(** [splitList], with the set of the parts seen so far. *)
Fixpoint split_list_go (seen : gset string) (parts : list string) : list string :=
  match parts with
  | [] => []
  | part :: parts =>
      let part := TrimSpace part in
      if decide (part = "" ∨ part ∈ seen) then split_list_go seen parts
      else part :: split_list_go ({[part]} ∪ seen) parts
  end.

Definition splitList (raw : string) : list string := split_list_go ∅ (split_on "," raw).

Definition ParseMediaMaxBytes (raw : string) : result Z :=
  let raw := TrimSpace raw in
  if decide (raw = "") then Ok DefaultMediaMaxBytes
  else match ParseInt raw with
       | None => Err (New ("config: MEDIA_MAX_BYTES " +:+ Quote raw +:+ " is not a byte count"))
       | Some maxBytes =>
           if decide (maxBytes ≤ 0)%Z
           then Err (New ("config: MEDIA_MAX_BYTES " +:+ Quote raw +:+ " must be positive"))
           else Ok maxBytes
       end.

Definition ParseMediaFetchTypes (raw : string) : result (list string) :=
  let parts := splitList (ToLower raw) in
  match parts with
  | [] => Ok DefaultMediaFetchTypes
  | _ => match filter (λ p, p ∉ knownMediaTypes) parts with
         | [] => Ok parts
         | part :: _ => Err (New ("config: MEDIA_FETCH_TYPES " +:+ Quote raw +:+
                                  " names an unknown media type " +:+ Quote part))
         end
  end.

Definition ParseHistorySyncScope (raw : string) : result HistorySyncScope :=
  let parts := splitList (ToLower raw) in
  let bad := Err (New ("config: HISTORY_SYNC_SCOPE " +:+ Quote raw +:+ " is not one of dm, " +:+
                       String "034" ("dm,group" +:+ String "034" " or all"))) in
  let seen : gset string := list_to_set parts in
  match parts with
  | [] => Ok HistorySyncScopeDM
  | _ =>
      if decide (Forall (λ p, p ∈ ["dm"; "group"; "all"]) parts) then
        if decide (size seen = 1 ∧ "dm" ∈ seen) then Ok HistorySyncScopeDM
        else if decide (size seen = 2 ∧ "dm" ∈ seen ∧ "group" ∈ seen) then Ok HistorySyncScopeDMGroup
        else if decide (size seen = 1 ∧ "all" ∈ seen) then Ok HistorySyncScopeAll
        else bad
      else bad
  end.

(** [time.ParseDuration], in nanoseconds: its grammar is the library's. *)
Class Durations := { ParseDuration : string → option Z }.

Definition parseHistorySyncTimeout `{Durations} (raw : string) : result Z :=
  let raw := TrimSpace raw in
  if decide (raw = "") then Ok DefaultHistorySyncTimeout
  else match ParseDuration raw with
       | None => Err (New ("config: HISTORY_SYNC_TIMEOUT " +:+ Quote raw +:+ " is not a duration"))
       | Some timeout =>
           if decide (timeout ≤ 0)%Z
           then Err (New ("config: HISTORY_SYNC_TIMEOUT " +:+ Quote raw +:+ " must be positive"))
           else Ok timeout
       end.

Definition parsePort (raw : string) : result Z :=
  match Atoi raw with
  | None => Err (New ("config: port " +:+ Quote raw +:+ " is not a number"))
  | Some port =>
      if decide (port < 1 ∨ 65535 < port)%Z
      then Err (New ("config: port " +:+ Itoa port +:+ " is out of range"))
      else Ok port
  end.

Definition resolveBindAddr (bindAddr port : string) : result (string * Z) :=
  let chosen :=
    if decide (bindAddr = "") then
      if decide (port = "") then Ok defaultBindAddr
      else match parsePort port with
           | Err e => Err e
           | Ok parsed => Ok (JoinHostPort "127.0.0.1" (Itoa parsed))
           end
    else Ok bindAddr in
  match chosen with
  | Err e => Err e
  | Ok bindAddr =>
      match SplitHostPort bindAddr with
      | None => Err (New ("config: BIND_ADDR " +:+ Quote bindAddr +:+ " must be host:port"))
      | Some (host, rawPort) =>
          match parsePort rawPort with
          | Err e => Err e
          | Ok parsed => Ok (JoinHostPort host (Itoa parsed), parsed)
          end
      end
  end.

(** The levels of [log/slog]. *)
Definition ParseLogLevel (value : string) : Z :=
  let value := ToLower (TrimSpace value) in
  if decide (value = "debug") then -4
  else if decide (value = "warn" ∨ value = "warning") then 4
  else if decide (value = "error") then 8
  else 0.

Definition envOr (getenv : string → string) (key fallback : string) : string :=
  let v := TrimSpace (getenv key) in if decide (v = "") then fallback else v.

Record Gateway := {
  cfg_AdminToken : string;
  cfg_DBPath : string;
  cfg_MediaDir : string;
  cfg_BindAddr : string;
  cfg_Port : Z;
  cfg_MCPAllowedOrigins : list string;
  cfg_LogLevel : Z;
  cfg_ShutdownTimeout : Z;
  cfg_HistorySyncScope : HistorySyncScope;
  cfg_HistorySyncTimeout : Z;
  cfg_MediaMaxBytes : Z;
  cfg_MediaFetchTypes : list string;
}.

(** [x, err := r; if err != nil { return Gateway{}, err }] *)
Definition and_then {A B} (r : result A) (k : A → result B) : result B :=
  match r with Ok a => k a | Err e => Err e end.

Definition LoadGateway `{Durations} (getenv : string → string) : result Gateway :=
  let adminToken := TrimSpace (getenv "ADMIN_TOKEN") in
  if decide (adminToken = "") then Err (New "config: ADMIN_TOKEN is required")
  else
    and_then (resolveBindAddr (TrimSpace (getenv "BIND_ADDR")) (TrimSpace (getenv "PORT")))
      (λ '(bindAddr, port),
    and_then (ParseHistorySyncScope (getenv "HISTORY_SYNC_SCOPE")) (λ scope,
    and_then (parseHistorySyncTimeout (getenv "HISTORY_SYNC_TIMEOUT")) (λ timeout,
    and_then (ParseMediaMaxBytes (getenv "MEDIA_MAX_BYTES")) (λ maxBytes,
    and_then (ParseMediaFetchTypes (getenv "MEDIA_FETCH_TYPES")) (λ fetchTypes,
      Ok {| cfg_AdminToken := adminToken;
            cfg_DBPath := envOr getenv "DB_PATH" "./data/whats-cloud.db";
            cfg_MediaDir := envOr getenv "MEDIA_DIR" DefaultMediaDir;
            cfg_BindAddr := bindAddr; cfg_Port := port;
            cfg_MCPAllowedOrigins := splitList (getenv "MCP_ALLOWED_ORIGINS");
            cfg_LogLevel := ParseLogLevel (getenv "LOG_LEVEL");
            cfg_ShutdownTimeout := 15 * 10 ^ 9;
            cfg_HistorySyncScope := scope; cfg_HistorySyncTimeout := timeout;
            cfg_MediaMaxBytes := maxBytes; cfg_MediaFetchTypes := fetchTypes |}))))).
End config.

(** ** Facts *)

Section facts.
Context `{Unicode}.

Lemma digit_char y :
  (y < 10)%N → is_digit (pretty_N_char y) = true ∧ byte_z (pretty_N_char y) = (48 + Z.of_N y)%Z.
Proof.
  intros Hy.
  assert (Hall : Forall (λ y, is_digit (pretty_N_char y) = true ∧
            byte_z (pretty_N_char y) = (48 + Z.of_N y)%Z) [0;1;2;3;4;5;6;7;8;9]%N) by by_decide.
  apply (proj1 (Forall_forall _ _) Hall y). rewrite !elem_of_cons. lia.
Qed.

Lemma decimal_go_pretty x s acc :
  ∃ k, decimal_go acc (pretty_N_go x s) = decimal_go (acc * 10 ^ k + Z.of_N x)%Z s ∧ (0 ≤ k)%Z.
Proof.
  revert s acc. induction x as [x IH] using (well_founded_induction N.lt_wf_0).
  intros s acc. destruct (decide (x = 0)%N) as [->|Hx].
  - exists 0%Z. rewrite pretty_N_go_0. split; [f_equal; lia|done].
  - rewrite pretty_N_go_step by lia.
    destruct (IH (x `div` 10)%N) with (s := String (pretty_N_char (x `mod` 10)) s) (acc := acc)
      as (k & -> & Hk); [apply N.div_lt; lia|].
    exists (k + 1)%Z. split; [|lia]. simpl.
    assert (Hm : (x `mod` 10 < 10)%N) by (apply N.mod_lt; done).
    pose proof (digit_char _ Hm) as Hd.
    destruct Hd as [-> ->]. f_equal. rewrite Z.pow_add_r, N2Z.inj_div, N2Z.inj_mod by lia.
    pose proof (Z.div_mod (Z.of_N x) 10). lia.
Qed.

Lemma pretty_digits x s : all_bytes is_digit s = true → all_bytes is_digit (pretty_N_go x s) = true.
Proof.
  revert s. induction x as [x IH] using (well_founded_induction N.lt_wf_0). intros s Hs.
  destruct (decide (x = 0)%N) as [->|Hx]; [by rewrite pretty_N_go_0|].
  rewrite pretty_N_go_step by lia. apply IH; [apply N.div_lt; lia|]. simpl. rewrite Hs, andb_true_r.
  apply digit_char, N.mod_lt. done.
Qed.

(** The numeral of a natural number is digits, and is read back. *)
Lemma Itoa_digits z : (0 ≤ z)%Z → all_bytes is_digit (Itoa z) = true ∧ Itoa z ≠ "".
Proof.
  intros Hz. unfold Itoa. destruct z as [|p|p]; [done| |lia].
  change (pretty (Z.pos p)) with (pretty (N.pos p)). unfold pretty, pretty_N.
  rewrite decide_False by done. split; [by apply pretty_digits|].
  intros E.
  assert (Hs : ∀ x s, String.length s ≤ String.length (pretty_N_go x s)).
  { clear. intros x. induction x as [x IH] using (well_founded_induction N.lt_wf_0). intros s.
    destruct (decide (x = 0)%N) as [->|Hx]; [by rewrite pretty_N_go_0|].
    rewrite pretty_N_go_step by lia. etrans; [|apply IH, N.div_lt; lia]. simpl. lia. }
  rewrite pretty_N_go_step in E by lia.
  specialize (Hs (N.pos p `div` 10)%N (String (pretty_N_char (N.pos p `mod` 10)) "")).
  rewrite E in Hs. simpl in Hs. lia.
Qed.

Lemma Atoi_Itoa z : (0 ≤ z < 2 ^ 63)%Z → Atoi (Itoa z) = Some z.
Proof.
  intros Hz. destruct (Itoa_digits z) as [Hd Hne]; [lia|].
  assert (Hv : decimal_go 0 (Itoa z) = Some z).
  { unfold Itoa. destruct z as [|p|p]; [done| |lia].
    change (pretty (Z.pos p)) with (pretty (N.pos p)). unfold pretty, pretty_N.
    rewrite decide_False by done.
    destruct (decimal_go_pretty (N.pos p) "" 0) as (k & -> & _). simpl. f_equal; lia. }
  unfold Atoi, ParseInt. destruct (Itoa z) as [|c s] eqn:E; [done|].
  simpl in Hd. apply andb_true_iff in Hd as [Hc _].
  rewrite (decide_False (P := c = "-"%char)) by (intros ->; done).
  rewrite (decide_False (P := c = "+"%char)) by (intros ->; done).
  rewrite decide_False by done. rewrite Hv, decide_True by lia. f_equal. lia.
Qed.

Lemma parsePort_Ok raw z : parsePort raw = Ok z → Atoi raw = Some z ∧ (1 ≤ z ≤ 65535)%Z.
Proof.
  unfold parsePort. destruct (Atoi raw) as [v|]; [|done]. case_decide; [done|].
  intros [= ->]. split; [done|lia].
Qed.

Lemma parsePort_Itoa z : (1 ≤ z ≤ 65535)%Z → parsePort (Itoa z) = Ok z.
Proof. intros Hz. unfold parsePort. rewrite Atoi_Itoa by lia. by rewrite decide_False by lia. Qed.

Lemma has_byte_rev c s : has_byte c (rev_string s) = has_byte c s.
Proof.
  induction s as [|d s IH]; [done|]. rewrite rev_string_cons, has_byte_app, IH. simpl.
  rewrite orb_false_r. apply orb_comm.
Qed.

Lemma cut_last_app c a b : has_byte c b = false → cut_last c (a +:+ String c b) = Some (a, b).
Proof.
  intros Hb. unfold cut_last. rewrite rev_string_app, rev_string_cons, sapp_assoc, sapp_cons, sapp_nil_l.
  rewrite cut_app by (by rewrite has_byte_rev). by rewrite !rev_string_involutive.
Qed.

Lemma cut_last_Some c s a b :
  cut_last c s = Some (a, b) → s = a +:+ String c b ∧ has_byte c b = false.
Proof.
  unfold cut_last. destruct (cut c (rev_string s)) as [[x y]|] eqn:E; [|done]. intros [= <- <-].
  apply cut_Some in E as [E Hx]. split; [|by rewrite has_byte_rev].
  apply (f_equal rev_string) in E. rewrite rev_string_involutive in E.
  rewrite E, rev_string_app, rev_string_cons, sapp_assoc, sapp_cons, sapp_nil_l. done.
Qed.

Definition plain_host (h : string) : Prop := has_byte "[" h = false ∧ has_byte "]" h = false.

Lemma digits_plain s :
  all_bytes is_digit s = true →
  has_byte ":" s = false ∧ has_byte "[" s = false ∧ has_byte "]" s = false.
Proof. intros Hs. split_and!; by eapply has_byte_all, Hs. Qed.

Lemma SplitHostPort_host b host port : SplitHostPort b = Some (host, port) → plain_host host.
Proof.
  unfold SplitHostPort. destruct (cut_last ":" b) as [[before p]|] eqn:Eb; [|done].
  apply cut_last_Some in Eb as [-> _].
  set (plain := if _ || _ || _ then None else Some (before, p)).
  assert (Hplain : plain = Some (host, port) → plain_host host).
  { unfold plain. destruct (_ || _ || _) eqn:Eo; [done|]. intros [= -> ->].
    apply orb_false_iff in Eo as [Eo1 Eo3]. apply orb_false_iff in Eo1 as [_ Eo2].
    rewrite has_byte_app in Eo2, Eo3. apply orb_false_iff in Eo2 as [? _], Eo3 as [? _]. done. }
  clearbody plain. destruct before as [|c inner]; [exact Hplain|].
  destruct c as [[] [] [] [] [] [] [] []]; try exact Hplain.
  destruct (cut "]" inner) as [[h rest]|] eqn:Ei; [|done]. apply cut_Some in Ei as [-> Hh].
  destruct rest; [|done]. destruct (_ || _ || _) eqn:Eo; [done|]. intros [= -> ->].
  apply orb_false_iff in Eo as [Eo1 _]. apply orb_false_iff in Eo1 as [Eo1 _].
  rewrite has_byte_app in Eo1. apply orb_false_iff in Eo1 as [? _]. done.
Qed.

Lemma Split_Join host port :
  plain_host host → all_bytes is_digit port = true →
  SplitHostPort (JoinHostPort host port) = Some (host, port).
Proof.
  intros [Hl Hr] Hp. destruct (digits_plain port Hp) as (Hp1 & Hp2 & Hp3).
  unfold JoinHostPort. destruct (has_byte ":" host) eqn:Hc; unfold SplitHostPort.
  - change ("[" +:+ host +:+ "]:" +:+ port) with (String "[" (host +:+ String "]" (String ":" port))).
    assert (E : String "[" (host +:+ String "]" (String ":" port))
              = (String "[" (host +:+ "]")) +:+ String ":" port).
    { rewrite sapp_cons, sapp_assoc. done. }
    rewrite E, cut_last_app by done. rewrite cut_app by done.
    rewrite has_byte_app, Hl, Hp2, Hp3. done.
  - change (host +:+ ":" +:+ port) with (host +:+ String ":" port).
    rewrite cut_last_app, Hc, !has_byte_app, Hl, Hr by done. simpl. rewrite Hp2, Hp3. simpl.
    destruct host as [|c host]; [done|]. simpl in Hl.
    destruct c as [[] [] [] [] [] [] [] []]; done.
Qed.
End facts.

(** ** What the settings mean *)

Section theorems.
Context `{Unicode}.

(** A name listed in a comma-separated setting. *)
Definition listed (raw p : string) : Prop :=
  p ≠ "" ∧ ∃ q, q ∈ split_on "," raw ∧ TrimSpace q = p.

Lemma split_list_go_spec seen parts :
  NoDup (split_list_go seen parts) ∧
  ∀ p, p ∈ split_list_go seen parts ↔
    p ≠ "" ∧ (p ∉ seen) ∧ ∃ q, q ∈ parts ∧ TrimSpace q = p.
Proof.
  revert seen. induction parts as [|x parts IH]; intros seen; simpl.
  { split; [constructor|]. intros p. rewrite elem_of_nil. split; [done|].
    by intros (_ & _ & q & ?%elem_of_nil & _). }
  case_decide as Hx.
  - destruct (IH seen) as [Hnd Hp]. split; [done|]. intros p. rewrite Hp.
    split; intros (H1 & H2 & q & Hq & Hqp); split_and!; try done.
    + exists q. rewrite elem_of_cons. auto.
    + apply elem_of_cons in Hq as [->|Hq]; [|by exists q]. naive_solver.
  - apply Decidable.not_or in Hx as [Hx1 Hx2].
    destruct (IH ({[TrimSpace x]} ∪ seen)) as [Hnd Hp]. split.
    + constructor; [|done]. rewrite Hp. set_solver.
    + intros p. rewrite elem_of_cons, Hp. split.
      * intros [->|(H1 & H2 & q & Hq & Hqp)].
        -- split_and!; [done..|]. exists x. rewrite elem_of_cons. auto.
        -- split_and!; [done|set_solver|]. exists q. rewrite elem_of_cons. auto.
      * intros (H1 & H2 & q & Hq & Hqp). destruct (decide (p = TrimSpace x)) as [->|Hne]; [by left|].
        right. split_and!; [done|set_solver|].
        apply elem_of_cons in Hq as [->|Hq]; [by subst p|by exists q].
Qed.

Lemma splitList_spec raw : NoDup (splitList raw) ∧ ∀ p, p ∈ splitList raw ↔ listed raw p.
Proof.
  destruct (split_list_go_spec ∅ (split_on "," raw)) as [Hnd Hp]. split; [done|].
  intros p. unfold splitList. rewrite Hp. unfold listed. set_solver.
Qed.

(** The scope a set of listed names stands for. *)
Definition scope_of (names : string → Prop) (s : HistorySyncScope) : Prop :=
  match s with
  | HistorySyncScopeDM => ∀ p, names p → p = "dm"
  | HistorySyncScopeDMGroup => ∀ p, names p ↔ p = "dm" ∨ p = "group"
  | HistorySyncScopeAll => ∀ p, names p ↔ p = "all"
  end.

Lemma scope_of_ext (P Q : string → Prop) s : (∀ p, P p ↔ Q p) → scope_of P s ↔ scope_of Q s.
Proof. intros HPQ. destruct s; simpl; by setoid_rewrite HPQ. Qed.

(** The decision on a list without repetition. *)
Lemma scope_cases (parts : list string) s :
  NoDup parts → parts ≠ [] →
  (Forall (λ p, p ∈ ["dm"; "group"; "all"]) parts ∧
   match s with
   | HistorySyncScopeDM => length parts = 1 ∧ "dm" ∈ parts
   | HistorySyncScopeDMGroup => length parts = 2 ∧ "dm" ∈ parts ∧ "group" ∈ parts
   | HistorySyncScopeAll => length parts = 1 ∧ "all" ∈ parts
   end) ↔ scope_of (λ p, p ∈ parts) s.
Proof.
  intros Hnd Hne.
  assert (Hone : ∀ a, length parts = 1 ∧ a ∈ parts ↔ parts = [a]).
  { intros a. split; [|by intros ->; set_solver]. intros [Hl Ha].
    destruct parts as [|x [|y parts]]; try done. by apply list_elem_of_singleton in Ha as ->. }
  assert (Hperm : ∀ l, NoDup l → (∀ p, p ∈ parts ↔ p ∈ l) → parts ≡ₚ l)
    by (intros; by apply NoDup_Permutation).
  destruct s; simpl.
  - rewrite Hone. split; [intros [_ ->]; set_solver|]. intros Hall.
    assert (E : parts = ["dm"]); [|rewrite E; split; [|done]; rewrite Forall_forall; set_solver].
    apply Permutation_singleton_r, Hperm; [repeat constructor; set_solver|].
    intros p. rewrite list_elem_of_singleton. split; [apply Hall|intros ->].
    destruct parts as [|x parts]; [done|]. rewrite <- (Hall x) at 1; left.
  - split.
    + intros [_ (Hl & H1 & H2)].
      assert (E : ["dm"; "group"] ≡ₚ parts).
      { apply submseteq_length_Permutation; [|simpl; lia].
        apply NoDup_submseteq; [repeat constructor; set_solver|]. set_solver. }
      intros p. rewrite <- E. set_solver.
    + intros Hall. assert (E : parts ≡ₚ ["dm"; "group"]).
      { apply Hperm; [repeat constructor; set_solver|]. intros p. rewrite Hall. set_solver. }
      split; [rewrite Forall_forall; intros p Hp; apply Hall in Hp; set_solver|].
      split; [by rewrite E|]. split; apply Hall; auto.
  - rewrite Hone. split; [intros [_ ->]; set_solver|]. intros Hall.
    assert (E : parts = ["all"]); [|rewrite E; split; [|done]; rewrite Forall_forall; set_solver].
    apply Permutation_singleton_r, Hperm; [repeat constructor; set_solver|].
    intros p. rewrite list_elem_of_singleton. apply Hall.
Qed.

(** The history scope is read as the set of its listed names, whatever
    their order, case, spacing and repetition: nothing or "dm", exactly
    "dm" and "group", or exactly "all"; every other set of names, a typo
    included, is refused and never read as another scope. *)
Theorem ParseHistorySyncScope_exact raw s :
  ParseHistorySyncScope raw = Ok s ↔ scope_of (listed (ToLower raw)) s.
Proof.
  unfold ParseHistorySyncScope. destruct (splitList_spec (ToLower raw)) as [Hnd Hp].
  set (parts := splitList (ToLower raw)) in *.
  assert (Hlen : size (list_to_set parts : gset string) = length parts)
    by (by apply size_list_to_set).
  assert (Hext : ∀ p, listed (ToLower raw) p ↔ p ∈ parts) by (intros p; by rewrite Hp).
  rewrite (scope_of_ext _ _ s Hext). clear Hext.
  clear Hp. clearbody parts.
  destruct parts as [|x parts'] eqn:Eparts.
  { split; [intros [= <-]; simpl; set_solver|]. destruct s; simpl; [done|..]; intros Hs.
    - destruct (Hs "dm") as [_ Hs']. by apply not_elem_of_nil in Hs'; [|left].
    - destruct (Hs "all") as [_ Hs']. by apply not_elem_of_nil in Hs'. }
  rewrite <- Eparts in *. assert (Hne : parts ≠ []) by (by rewrite Eparts).
  clear Eparts. rewrite <- (scope_cases parts s Hnd Hne).
  case_decide as Hall; [|split; [done|naive_solver] ].
  repeat case_decide; rewrite ?Hlen, ?elem_of_list_to_set in *; clear Hlen;
    (split; [intros [= <-]|]); try destruct s; try naive_solver.
  all: intros (_ & Hl & Hs); exfalso; break;
    destruct parts as [|a [|b l]]; simpl in *; [done| |lia]; set_solver.
Qed.

Lemma resolve_given b port addr z :
  b ≠ "" → resolveBindAddr b port = Ok (addr, z) →
  ∃ host rawPort, SplitHostPort b = Some (host, rawPort) ∧ Atoi rawPort = Some z ∧
    (1 ≤ z ≤ 65535)%Z ∧ plain_host host ∧ addr = JoinHostPort host (Itoa z).
Proof.
  intros Hb. unfold resolveBindAddr. rewrite decide_False by done.
  destruct (SplitHostPort b) as [[host rawPort]|] eqn:Es; [|done].
  destruct (parsePort rawPort) as [v|e] eqn:Ep; [|done]. intros [= <- <-].
  apply parsePort_Ok in Ep as [Ha Hr]. apply SplitHostPort_host in Es as Hh.
  by exists host, rawPort.
Qed.

Lemma Join_not_empty host port : JoinHostPort host port ≠ "".
Proof. unfold JoinHostPort. destruct (has_byte ":" host); [done|]. by destruct host. Qed.

Lemma resolve_joined host z port :
  plain_host host → (1 ≤ z ≤ 65535)%Z →
  resolveBindAddr (JoinHostPort host (Itoa z)) port = Ok (JoinHostPort host (Itoa z), z).
Proof.
  intros Hh Hz. unfold resolveBindAddr. rewrite decide_False by apply Join_not_empty.
  rewrite Split_Join by (try apply Itoa_digits; try done; lia). by rewrite parsePort_Itoa.
Qed.

(** Where the host and the port of the answer come from. *)
Definition bound_from (bindAddr port host : string) (z : Z) : Prop :=
  if decide (bindAddr = "")
  then host = "127.0.0.1" ∧ if decide (port = "") then z = 8080%Z else Atoi port = Some z
  else ∃ rawPort, SplitHostPort bindAddr = Some (host, rawPort) ∧ Atoi rawPort = Some z.

Lemma resolve_cases bindAddr port addr z :
  resolveBindAddr bindAddr port = Ok (addr, z) →
  ∃ host, plain_host host ∧ (1 ≤ z ≤ 65535)%Z ∧ addr = JoinHostPort host (Itoa z) ∧
    bound_from bindAddr port host z.
Proof.
  intros Hr. unfold bound_from.
  case_decide as Hb.
  - subst bindAddr. case_decide as Hp.
    + subst port. vm_compute in Hr. injection Hr as <- <-. exists "127.0.0.1".
      split_and!; try done; lia.
    + unfold resolveBindAddr in Hr. rewrite decide_True, decide_False in Hr by done.
      destruct (parsePort port) as [v|e] eqn:Ep; [|done].
      apply parsePort_Ok in Ep as [Ha Hv].
      rewrite Split_Join in Hr by (try apply Itoa_digits; try done; lia).
      rewrite parsePort_Itoa in Hr by done. injection Hr as <- <-.
      exists "127.0.0.1". split_and!; try done; lia.
  - apply resolve_given in Hr as (host & rawPort & Hs & Ha & Hz & Hh & ->); [|done].
    exists host. split_and!; try done; try lia. by exists rawPort.
Qed.

(** The listening address.  Without BIND_ADDR the gateway listens on the
    loopback interface whatever PORT says, which only chooses the port; with
    it, the host is the one given.  The port is one between 1 and 65535, and
    the answer is a normal form: resolving it again gives it back. *)
Theorem resolveBindAddr_loopback bindAddr port addr z :
  resolveBindAddr bindAddr port = Ok (addr, z) →
  (1 ≤ z ≤ 65535)%Z ∧
  (∃ host, SplitHostPort addr = Some (host, Itoa z) ∧
     if decide (bindAddr = "")
     then host = "127.0.0.1" ∧ if decide (port = "") then z = 8080%Z else Atoi port = Some z
     else ∃ rawPort, SplitHostPort bindAddr = Some (host, rawPort) ∧ Atoi rawPort = Some z) ∧
  ∀ port', resolveBindAddr addr port' = Ok (addr, z).
Proof.
  intros (host & Hh & Hz & -> & Hspec)%resolve_cases. split; [done|]. split.
  - exists host. split; [|done]. apply Split_Join; [done|]. apply Itoa_digits. lia.
  - intros port'. by apply resolve_joined.
Qed.

Lemma parseHistorySyncTimeout_Ok `{Durations} raw z :
  parseHistorySyncTimeout raw = Ok z → (0 < z)%Z.
Proof.
  unfold parseHistorySyncTimeout. case_decide; [by intros [= <-]|].
  destruct (ParseDuration _); [|done]. case_decide; [done|]. intros [= <-]. lia.
Qed.

Lemma ParseInt_range raw z : ParseInt raw = Some z → (- 2 ^ 63 ≤ z < 2 ^ 63)%Z.
Proof.
  unfold ParseInt.
  generalize (match raw with
    | String c s => if decide (c = "-"%char) then ((-1)%Z, s)
                    else if decide (c = "+"%char) then (1%Z, s) else (1%Z, raw)
    | EmptyString => (1%Z, "") end).
  intros [sign digits]. case_decide; [done|].
  destruct (decimal_go 0 digits); [|done]. case_decide; [|done]. by intros [= <-].
Qed.

Lemma ParseMediaMaxBytes_Ok raw z : ParseMediaMaxBytes raw = Ok z → (0 < z < 2 ^ 63)%Z.
Proof.
  unfold ParseMediaMaxBytes. case_decide; [by intros [= <-]|].
  destruct (ParseInt (TrimSpace raw)) as [v|] eqn:E; [|done]. apply ParseInt_range in E.
  case_decide; [done|]. intros [= <-]. lia.
Qed.

Lemma ParseMediaFetchTypes_Ok raw l :
  ParseMediaFetchTypes raw = Ok l → l ≠ [] ∧ NoDup l ∧ ∀ t, t ∈ l → t ∈ knownMediaTypes.
Proof.
  unfold ParseMediaFetchTypes. destruct (splitList_spec (ToLower raw)) as [Hnd _].
  destruct (splitList (ToLower raw)) as [|x parts] eqn:E.
  - intros [= <-]. split_and!; [done|by_decide|]. apply Forall_forall. by_decide.
  - destruct (filter _ (x :: parts)) eqn:Ef; [|done]. intros [= <-]. split_and!; [done..|].
    intros t Ht. destruct (decide (t ∈ knownMediaTypes)) as [|Hn]; [done|].
    assert (Hin : t ∈ filter (λ p, p ∉ knownMediaTypes) (x :: parts))
      by (by apply list_elem_of_filter).
    rewrite Ef in Hin. by apply not_elem_of_nil in Hin.
Qed.

(** C38: a configuration that loads is usable: there is an admin token, the
    limits are positive, the media types are known ones without repetition,
    and without a BIND_ADDR the host is the loopback interface. *)
Theorem LoadGateway_usable `{Durations} getenv cfg :
  LoadGateway getenv = Ok cfg →
  cfg_AdminToken cfg ≠ "" ∧ cfg_AdminToken cfg = TrimSpace (getenv "ADMIN_TOKEN") ∧
  (1 ≤ cfg_Port cfg ≤ 65535)%Z ∧
  (TrimSpace (getenv "BIND_ADDR") = "" →
     SplitHostPort (cfg_BindAddr cfg) = Some ("127.0.0.1", Itoa (cfg_Port cfg))) ∧
  (0 < cfg_HistorySyncTimeout cfg)%Z ∧ (0 < cfg_MediaMaxBytes cfg < 2 ^ 63)%Z ∧
  cfg_MediaFetchTypes cfg ≠ [] ∧ NoDup (cfg_MediaFetchTypes cfg) ∧
  (∀ t, t ∈ cfg_MediaFetchTypes cfg → t ∈ knownMediaTypes).
Proof.
  unfold LoadGateway. case_decide as Ht; [done|].
  destruct (resolveBindAddr _ _) as [[addr port]|e] eqn:Eb; [|done]. simpl.
  destruct (ParseHistorySyncScope _) as [scope|e]; [|done]. simpl.
  destruct (parseHistorySyncTimeout _) as [timeout|e] eqn:Et; [|done]. simpl.
  destruct (ParseMediaMaxBytes _) as [maxBytes|e] eqn:Em; [|done]. simpl.
  destruct (ParseMediaFetchTypes _) as [types|e] eqn:Ef; [|done]. simpl. intros [= <-]. simpl.
  apply resolve_cases in Eb as (host & Hh & Hz & -> & Hb).
  apply ParseMediaFetchTypes_Ok in Ef as (Hf1 & Hf2 & Hf3).
  split; [done|]. split; [done|]. split; [done|]. split; [|split; [|split; [|done] ] ].
  - intros E. unfold bound_from in Hb. rewrite decide_True in Hb by done. destruct Hb as [-> _].
    apply Split_Join; [done|]. apply Itoa_digits. lia.
  - by eapply parseHistorySyncTimeout_Ok.
  - by eapply ParseMediaMaxBytes_Ok.
Qed.
End theorems.

(** ** Witnesses *)

Lemma resolveBindAddr_loopback_witness :
  resolveBindAddr (H := ascii_unicode) "" "09090" = Ok ("127.0.0.1:9090", 9090%Z) ∧
  resolveBindAddr (H := ascii_unicode) "127.0.0.1:9090" "" = Ok ("127.0.0.1:9090", 9090%Z).
Proof.
  assert (E : resolveBindAddr (H := ascii_unicode) "" "09090" = Ok ("127.0.0.1:9090", 9090%Z))
    by (vm_compute; reflexivity).
  split; [exact E|].
  exact (proj2 (proj2 (resolveBindAddr_loopback (H := ascii_unicode) "" "09090" _ _ E)) "").
Defined.

Definition demo_env (key : string) : string :=
  if decide (key = "ADMIN_TOKEN") then " s3cret "
  else if decide (key = "MEDIA_FETCH_TYPES") then "image, PTT,image" else "".

Definition plain_durations : Durations := {| ParseDuration _ := None |}.

Lemma LoadGateway_usable_witness :
  ∃ cfg, LoadGateway (H := ascii_unicode) (H0 := plain_durations) demo_env = Ok cfg ∧
    cfg_AdminToken cfg = "s3cret" ∧ cfg_MediaFetchTypes cfg = ["image"; "ptt"] ∧
    SplitHostPort (cfg_BindAddr cfg) = Some ("127.0.0.1", "8080").
Proof.
  destruct (LoadGateway (H := ascii_unicode) (H0 := plain_durations) demo_env) as [cfg|e] eqn:E;
    [|vm_compute in E; discriminate E].
  exists cfg. split; [reflexivity|].
  destruct (LoadGateway_usable (H := ascii_unicode) (H0 := plain_durations) demo_env cfg E)
    as (_ & Ht & _ & Hb & _).
  split; [rewrite Ht; vm_compute; reflexivity|].
  assert (Hp : cfg_Port cfg = 8080%Z ∧ cfg_MediaFetchTypes cfg = ["image"; "ptt"]).
  { vm_compute in E. injection E as <-. split; reflexivity. }
  split; [apply Hp|]. rewrite Hb by (vm_compute; reflexivity). destruct Hp as [-> _].
  vm_compute. reflexivity.
Defined.
