(* ===== verification/GoTime.v ===== *)
(** * Times as text

    [time.Time] is the nanoseconds of the Unix epoch, always in UTC here; the
    two layouts the gateway writes are [time.RFC3339], for the tools, and the
    one of [encoding/json], [time.RFC3339Nano].  Years before 0 and after 9999,
    which [encoding/json] refuses, are outside the model. *)

From S2P Require Import Prelude GoText.

(** ** The proleptic Gregorian calendar *)

(** Days since 1 March of year 0, split into eras of 146097 days. *)
Definition year_of_era (doe : Z) : Z :=
  ((doe - doe / 1460 + doe / 36524 - doe / 146096) / 365)%Z.

Definition civil_from_days (days : Z) : Z * Z * Z :=
  let z := (days + 719468)%Z in
  let era := (z / 146097)%Z in
  let doe := (z mod 146097)%Z in
  let yoe := year_of_era doe in
  let doy := (doe - (365 * yoe + yoe / 4 - yoe / 100))%Z in
  let mp := ((5 * doy + 2) / 153)%Z in
  let d := (doy - (153 * mp + 2) / 5 + 1)%Z in
  let m := if (mp <? 10)%Z then (mp + 3)%Z else (mp - 9)%Z in
  ((yoe + era * 400 + if (m <=? 2)%Z then 1 else 0)%Z, m, d).

(** ** Layouts *)

(** [width] decimal digits. *)
Fixpoint decimal (width : nat) (n : Z) : string :=
  match width with
  | O => ""
  | S width => decimal width (n / 10) +:+ String (z_byte (48 + n mod 10)) ""
  end.

Definition date_part (t : Z) : string :=
  let '(y, m, d) := civil_from_days (t / (86400 * 10 ^ 9)) in
  let s := ((t / 10 ^ 9) mod 86400)%Z in
  decimal 4 y +:+ "-" +:+ decimal 2 m +:+ "-" +:+ decimal 2 d +:+ "T" +:+
  decimal 2 (s / 3600) +:+ ":" +:+ decimal 2 (s / 60 mod 60) +:+ ":" +:+ decimal 2 (s mod 60).

Fixpoint drop_zeros (digits : string) : string :=
  match digits with
  | String c s => if decide (c = "0"%char) then drop_zeros s else digits
  | EmptyString => ""
  end.

(** The fraction of a second without its trailing zeros. *)
Definition fraction (t : Z) : string :=
  let digits := rev_string (drop_zeros (rev_string (decimal 9 (t mod 10 ^ 9)))) in
  if decide (digits = "") then "" else "." +:+ digits.

(** [t.UTC().Format(time.RFC3339)] *)
Definition FormatRFC3339 (t : Z) : string := date_part t +:+ "Z".

(** [time.Time.MarshalJSON] *)
Definition FormatRFC3339Nano (t : Z) : string := date_part t +:+ fraction t +:+ "Z".

(** The zero time, a leap day, and a fraction of a second. *)
Example format_zero :
  FormatRFC3339 (-62135596800 * 10 ^ 9) = "0001-01-01T00:00:00Z".
Proof. reflexivity. Qed.

Example format_leap_day :
  FormatRFC3339 (1709210096 * 10 ^ 9 + 7) = "2024-02-29T12:34:56Z".
Proof. reflexivity. Qed.

Example format_nano :
  FormatRFC3339Nano (1709210096 * 10 ^ 9 + 120000000) = "2024-02-29T12:34:56.12Z".
Proof. reflexivity. Qed.
