(* ===== verification/Json.v ===== *)
(** * JSON as bytes ([encoding/json])

    The values a handler encodes or decodes, the text [json.Encoder] writes for
    them and the value [json.Decoder] reads from a text: the first one, whatever
    follows it.  A byte that starts no valid UTF-8 becomes the replacement rune
    in both directions; [<], [>], [&], U+2028 and U+2029 are escaped, as the
    encoder's default does. *)

From S2P Require Import Prelude GoText GoUnicode GoTime Config.

Implicit Types (s t rest : string).

(** The values of [encoding/json].  Numbers keep their literal. *)
Inductive json :=
  | JNull
  | JBool (b : bool)
  | JNumber (literal : string)
  | JString (s : string)
  | JArray (l : list json)
  | JObject (fields : list (string * json)).

Definition JInt (z : Z) : json := JNumber (Itoa z).
Definition JTime (t : Z) : json := JString (FormatRFC3339Nano t).
Definition JStrings (l : list string) : json := JArray (JString <$> l).

(** ** Writing *)

Definition quote_mark : ascii := "034".

(** The ASCII bytes that stand for themselves. *)
Definition json_safe (r : Z) : bool :=
  in_range 32 127 r && negb ((r =? 34) || (r =? 92) || (r =? 60) || (r =? 62) || (r =? 38))%Z.

Definition backslash t : string := String "\"%char t.

Definition json_escape (r : Z) : string :=
  if json_safe r then String (z_byte r) ""
  else if ((r =? 34) || (r =? 92))%Z then backslash (String (z_byte r) "")
  else if (r =? 8)%Z then backslash "b"
  else if (r =? 12)%Z then backslash "f"
  else if (r =? 10)%Z then backslash "n"
  else if (r =? 13)%Z then backslash "r"
  else if (r =? 9)%Z then backslash "t"
  else backslash (String "u" (hex_digits 4 r)).

Definition json_rune (r : rune) : string :=
  match r with
  | BadByte => backslash "ufffd"
  | Rune r => if (r <? 128)%Z then json_escape r
              else if ((r =? 8232) || (r =? 8233))%Z then backslash (String "u" (hex_digits 4 r))
              else encode_rune r
  end.

Fixpoint json_text_go (fuel : nat) s : string :=
  match fuel, decode_rune s with
  | S fuel, Some (r, t) => json_rune r +:+ json_text_go fuel t
  | _, _ => ""
  end.

(** A string between its quotes; a rune takes at least one byte, so the length
    of the string is fuel enough. *)
Definition json_string s : string :=
  String quote_mark (json_text_go (String.length s) s +:+ String quote_mark "").

(** The elements after an opening bracket, and the closing one. *)
Fixpoint bracketed (close : ascii) (l : list string) : string :=
  match l with
  | [] => String close ""
  | [s] => s +:+ String close ""
  | s :: l => s +:+ String "," (bracketed close l)
  end.

Fixpoint encode (j : json) : string :=
  match j with
  | JNull => "null"
  | JBool b => if b then "true" else "false"
  | JNumber literal => literal
  | JString s => json_string s
  | JArray l => String "[" (bracketed "]" (List.map encode l))
  | JObject fields =>
      String "{" (bracketed "}" (List.map (λ f, json_string f.1 +:+ String ":" (encode f.2)) fields))
  end.

Definition newline : string := String "010" "".

(** [json.Encoder.Encode] *)
Definition Encode (j : json) : string := encode j +:+ newline.

(** ** Reading *)

Definition is_json_space (c : ascii) : bool :=
  let b := byte_z c in ((b =? 32) || (b =? 9) || (b =? 10) || (b =? 13))%Z.

Fixpoint skip_space s : string :=
  match s with
  | String c t => if is_json_space c then skip_space t else s
  | EmptyString => ""
  end.

(** Four hexadecimal digits. *)
Definition hex4 s : option (Z * string) :=
  match s with
  | String a (String b (String c (String d t))) =>
      match hex_value a, hex_value b, hex_value c, hex_value d with
      | Some a, Some b, Some c, Some d => Some ((((a * 16 + b) * 16 + c) * 16 + d)%Z, t)
      | _, _, _, _ => None
      end
  | _ => None
  end.

(** [utf16.DecodeRune] of a pair. *)
Definition surrogates (r1 r2 : Z) : option Z :=
  if in_range 55296 56319 r1 && in_range 56320 57343 r2
  then Some ((r1 - 55296) * 1024 + (r2 - 56320) + 65536)%Z else None.

(** What follows [\u]: a rune, or a surrogate pair written as two. *)
Definition unicode_escape s : option (string * string) :=
  match hex4 s with
  | None => None
  | Some (r, t) =>
      if in_range 55296 57343 r then
        match (match strip_prefix (backslash "u") t with Some t' => hex4 t' | None => None end) with
        | Some (r2, t2) =>
            match surrogates r r2 with
            | Some r => Some (encode_rune r, t2)
            | None => Some (encode_rune RuneError, t)
            end
        | None => Some (encode_rune RuneError, t)
        end
      else Some (encode_rune r, t)
  end.

(** What follows a backslash. *)
Definition escaped s : option (string * string) :=
  match s with
  | EmptyString => None
  | String c t =>
      let b := byte_z c in
      if ((b =? 34) || (b =? 92) || (b =? 47))%Z then Some (String c "", t)
      else if (b =? 98)%Z then Some (String "008" "", t)
      else if (b =? 102)%Z then Some (String "012" "", t)
      else if (b =? 110)%Z then Some (String "010" "", t)
      else if (b =? 114)%Z then Some (String "013" "", t)
      else if (b =? 116)%Z then Some (String "009" "", t)
      else if (b =? 117)%Z then unicode_escape t
      else None
  end.

(** One rune of a string. *)
Definition text_item s : option (string * string) :=
  match s with
  | EmptyString => None
  | String c t =>
      if (byte_z c =? 92)%Z then escaped t
      else if (byte_z c <? 32)%Z then None
      else match decode_rune s with
           | Some (Rune r, t) => Some (encode_rune r, t)
           | Some (BadByte, t) => Some (encode_rune RuneError, t)
           | None => None
           end
  end.

(** A string after its opening quote. *)
Fixpoint read_text (fuel : nat) s : option (string * string) :=
  match fuel, s with
  | S fuel, String c t =>
      if decide (c = quote_mark) then Some ("", t)
      else match text_item s with
           | None => None
           | Some (u, t) => match read_text fuel t with
                            | None => None
                            | Some (v, rest) => Some (u +:+ v, rest)
                            end
           end
  | _, _ => None
  end.

(** The digits a string starts with. *)
Fixpoint span_digits s : string * string :=
  match s with
  | String c t => if is_digit c then let '(d, r) := span_digits t in (String c d, r) else ("", s)
  | EmptyString => ("", "")
  end.

(** One digit at least. *)
Definition some_digits s : option (string * string) :=
  match span_digits s with
  | (EmptyString, _) => None
  | found => Some found
  end.

(** The byte [c] at the head of a string, and what follows it. *)
Definition take_byte (c : ascii) s : option string :=
  match s with
  | String d t => if decide (d = c) then Some t else None
  | EmptyString => None
  end.

Definition int_part s : option (string * string) :=
  match take_byte "0" s with
  | Some t => Some ("0", t)
  | None => some_digits s
  end.

Definition frac_part s : option (string * string) :=
  match take_byte "." s with
  | Some t => match some_digits t with
              | Some (d, r) => Some (String "." d, r)
              | None => None
              end
  | None => Some ("", s)
  end.

(** A sign among [signs], if there is one. *)
Fixpoint sign_part (signs : list ascii) s : string * string :=
  match signs with
  | [] => ("", s)
  | c :: signs => match take_byte c s with
                  | Some t => (String c "", t)
                  | None => sign_part signs s
                  end
  end.

Definition exp_part s : option (string * string) :=
  match s with
  | String c t =>
      if decide (c = "e"%char ∨ c = "E"%char) then
        let '(sign, u) := sign_part ["+"%char; "-"%char] t in
        match some_digits u with
        | Some (d, r) => Some (String c (sign +:+ d), r)
        | None => None
        end
      else Some ("", s)
  | EmptyString => Some ("", s)
  end.

(** A number, as its literal. *)
Definition number s : option (string * string) :=
  let '(sign, s) := sign_part ["-"%char] s in
  match int_part s with
  | None => None
  | Some (i, s) =>
      match frac_part s with
      | None => None
      | Some (f, s) =>
          match exp_part s with
          | None => None
          | Some (e, s) => Some (sign +:+ i +:+ f +:+ e, s)
          end
      end
  end.

(** [null], [true], [false] or a number. *)
Definition scalar s : option (json * string) :=
  match strip_prefix "null" s with
  | Some rest => Some (JNull, rest)
  | None =>
      match strip_prefix "true" s with
      | Some rest => Some (JBool true, rest)
      | None =>
          match strip_prefix "false" s with
          | Some rest => Some (JBool false, rest)
          | None => match number s with
                    | Some (literal, rest) => Some (JNumber literal, rest)
                    | None => None
                    end
          end
      end
  end.

(** [maxNestingDepth] *)
Definition max_nesting : Z := 10000.

(** The byte [c] after white space. *)
Definition next_is (c : ascii) s : option string := take_byte c (skip_space s).

(** A value at most [depth] brackets deep, and what follows it. *)
Fixpoint value (fuel : nat) (depth : Z) s : option (json * string) :=
  match fuel with
  | O => None
  | S fuel =>
      match next_is "{" s with
      | Some t =>
          if (depth <=? 0)%Z then None
          else match next_is "}" t with
               | Some rest => Some (JObject [], rest)
               | None => match members fuel (depth - 1) t with
                         | Some (fields, rest) => Some (JObject fields, rest)
                         | None => None
                         end
               end
      | None =>
          match next_is "[" s with
          | Some t =>
              if (depth <=? 0)%Z then None
              else match next_is "]" t with
                   | Some rest => Some (JArray [], rest)
                   | None => match elements fuel (depth - 1) t with
                             | Some (l, rest) => Some (JArray l, rest)
                             | None => None
                             end
                   end
          | None =>
              match next_is quote_mark s with
              | Some t => match read_text (String.length s) t with
                          | Some (text, rest) => Some (JString text, rest)
                          | None => None
                          end
              | None => scalar (skip_space s)
              end
          end
      end
  end
with members (fuel : nat) (depth : Z) s : option (list (string * json) * string) :=
  match fuel with
  | O => None
  | S fuel =>
      match next_is quote_mark s with
      | None => None
      | Some t =>
          match read_text (String.length s) t with
          | None => None
          | Some (key, t) =>
              match next_is ":" t with
              | None => None
              | Some t =>
                  match value fuel depth t with
                  | None => None
                  | Some (j, t) =>
                      match next_is "}" t with
                      | Some rest => Some ([(key, j)], rest)
                      | None =>
                          match next_is "," t with
                          | None => None
                          | Some t => match members fuel depth t with
                                      | Some (l, rest) => Some ((key, j) :: l, rest)
                                      | None => None
                                      end
                          end
                      end
                  end
              end
          end
      end
  end
with elements (fuel : nat) (depth : Z) s : option (list json * string) :=
  match fuel with
  | O => None
  | S fuel =>
      match value fuel depth s with
      | None => None
      | Some (j, t) =>
          match next_is "]" t with
          | Some rest => Some ([j], rest)
          | None =>
              match next_is "," t with
              | None => None
              | Some t => match elements fuel depth t with
                          | Some (l, rest) => Some (j :: l, rest)
                          | None => None
                          end
              end
          end
      end
  end.

(** Two steps for a byte are fuel enough ([parse_enough]). *)
Definition parse s : option (json * string) :=
  value (2 * String.length s + 2) max_nesting s.

Example parse_nested :
  parse (" {" +:+ json_string "a" +:+ ": [1, -2.5e+3 ,true],  " +:+ json_string "b" +:+ ":null} tail") =
  Some (JObject [("a", JArray [JNumber "1"; JNumber "-2.5e+3"; JBool true]); ("b", JNull)], " tail").
Proof. vm_compute. reflexivity. Qed.

Example parse_pair :
  parse (String quote_mark ("\ud83d\ude00\u00e9\n" +:+ String quote_mark "")) =
  Some (JString (encode_rune 128512 +:+ encode_rune 233 +:+ newline), "").
Proof. vm_compute. reflexivity. Qed.

Example parse_refuses :
  parse "[1,]" = None ∧ parse "01" = Some (JNumber "0", "1") ∧ parse "{}x" = Some (JObject [], "x") ∧
  parse "[-]" = None ∧ parse "nul" = None.
Proof. split_and!; vm_compute; reflexivity. Qed.

Example encode_escapes :
  encode (JObject [("k", JString ("<" +:+ newline +:+ String "255" ""))]) =
  "{" +:+ json_string "k" +:+ ":" +:+ String quote_mark ("\u003c\n\ufffd" +:+ String quote_mark "}").
Proof. vm_compute. reflexivity. Qed.
