(* ===== verification/JsonRoundTrip.v ===== *)
(** * What is written is read ([encoding/json])

    A value that was encoded is read back as itself, up to the bytes of its
    strings that are no UTF-8, which the encoder replaces. *)

From stdpp Require Import pretty.
From S2P Require Import Prelude GoText GoUnicode GoTime Config Json.

Implicit Types (s t rest : string).

(** ** Runes *)

Definition is_scalar (r : Z) : Prop := (0 ≤ r ≤ 1114111)%Z ∧ in_range 55296 57343 r = false.

Lemma decode_rune_scalar s r t : decode_rune s = Some (Rune r, t) → is_scalar r.
Proof.
  unfold decode_rune, is_scalar, second3, second4, cont.
  destruct s as [|c0 s]; [done|]. pose proof (byte_z_range c0).
  destruct (byte_z c0 <? 128)%Z eqn:E0; [intros [= <- <-]; unfold in_range; lia|].
  destruct s as [|c1 s]; [done|]. pose proof (byte_z_range c1).
  case_match eqn:E1; [intros [= <- <-]; unfold in_range in *; lia|].
  destruct s as [|c2 s]; [done|]. pose proof (byte_z_range c2).
  case_match eqn:E2; [intros [= <- <-]; unfold in_range in *; lia|].
  destruct s as [|c3 s]; [done|]. pose proof (byte_z_range c3).
  case_match eqn:E3; [intros [= <- <-]; unfold in_range in *; lia|done].
Qed.

(** The encodings of two, three and four bytes. *)
Lemma decode_rune_2 c0 c1 t :
  in_range 194 223 (byte_z c0) && cont (byte_z c1) = true →
  decode_rune (String c0 (String c1 t)) =
    Some (Rune ((byte_z c0 - 192) * 64 + (byte_z c1 - 128)), t).
Proof.
  intros E. unfold decode_rune. rewrite E. unfold in_range in E. by rewrite (proj2 (Z.ltb_ge _ 128)) by lia.
Qed.

Lemma decode_rune_3 c0 c1 c2 t :
  second3 (byte_z c0) (byte_z c1) && cont (byte_z c2) = true →
  decode_rune (String c0 (String c1 (String c2 t))) =
    Some (Rune (((byte_z c0 - 224) * 64 + (byte_z c1 - 128)) * 64 + (byte_z c2 - 128)), t).
Proof.
  intros E. unfold decode_rune. rewrite E. unfold second3, in_range in *.
  rewrite (proj2 (Z.ltb_ge _ 128)) by lia. by rewrite (proj2 (andb_false_iff _ _)) by lia.
Qed.

Lemma decode_rune_4 c0 c1 c2 c3 t :
  second4 (byte_z c0) (byte_z c1) && cont (byte_z c2) && cont (byte_z c3) = true →
  decode_rune (String c0 (String c1 (String c2 (String c3 t)))) =
    Some (Rune ((((byte_z c0 - 240) * 64 + (byte_z c1 - 128)) * 64 + (byte_z c2 - 128)) * 64
                + (byte_z c3 - 128)), t).
Proof.
  intros E. unfold decode_rune. rewrite E. unfold second3, second4, in_range in *.
  rewrite (proj2 (Z.ltb_ge _ 128)) by lia.
  rewrite (proj2 (andb_false_iff (_ && _) _)) by lia.
  by rewrite (proj2 (andb_false_iff (_ || _ || _) _)) by lia.
Qed.

(** Decoding undoes encoding. *)
Lemma decode_encode_rune r t : is_scalar r → decode_rune (encode_rune r +:+ t) = Some (Rune r, t).
Proof.
  intros [Hr Hs]. unfold encode_rune. rewrite Hs.
  rewrite (proj2 (Z.ltb_ge r 0)), (proj2 (Z.ltb_ge 1114111 r)) by lia. simpl.
  destruct (r <? 128)%Z eqn:E1.
  { simpl. rewrite byte_z_byte by lia. by rewrite E1. }
  rewrite Z.div_1_r. change (2 ^ 6)%Z with 64%Z. change (2 ^ 12)%Z with 4096%Z.
  pose proof (Z.div_mod r 64 ltac:(lia)) as D0. pose proof (Z.div_mod (r / 64) 64 ltac:(lia)) as D6.
  pose proof (Z.div_mod (r / 4096) 64 ltac:(lia)) as D12.
  pose proof (Z.mod_pos_bound r 64 ltac:(lia)). pose proof (Z.mod_pos_bound (r / 64) 64 ltac:(lia)).
  pose proof (Z.mod_pos_bound (r / 4096) 64 ltac:(lia)).
  rewrite Z.div_div in D6, D12 by lia.
  change (64 * 64)%Z with 4096%Z in D6. change (4096 * 64)%Z with 262144%Z in D12.
  unfold in_range in Hs.
  destruct (r <? 2048)%Z eqn:E2; [|destruct (r <? 65536)%Z eqn:E3]; rewrite ?sapp_cons, ?sapp_nil_l.
  - rewrite decode_rune_2; rewrite !byte_z_byte by lia; [|unfold cont, in_range; lia].
    do 3 f_equal. lia.
  - rewrite decode_rune_3; rewrite !byte_z_byte by lia; [|unfold second3, cont, in_range; lia].
    do 3 f_equal. lia.
  - rewrite decode_rune_4; rewrite !byte_z_byte by lia; [|unfold second4, cont, in_range; lia].
    do 3 f_equal. lia.
Qed.

Lemma encode_rune_head r : is_scalar r →
  ∃ c u, encode_rune r = String c u ∧ (r < 128 → byte_z c = r)%Z ∧ (128 <= r → 128 <= byte_z c)%Z.
Proof.
  intros Hr. pose proof (decode_encode_rune r "" Hr) as E. rewrite sapp_nil_r in E.
  destruct (encode_rune r) as [|c u]; [done|]. exists c, u. split; [done|].
  unfold decode_rune in E. destruct (byte_z c <? 128)%Z eqn:Hc.
  - injection E as -> _. lia.
  - split; [|lia]. intros Hlt. exfalso. revert E. pose proof (byte_z_range c).
    unfold second3, second4, cont, in_range.
    repeat case_match; intros [= Hv]; pose proof (byte_z_range c); lia.
Qed.

(** ** Strings *)

(** What JSON keeps of a string: every byte outside a valid encoding is
    replaced ([strings.ToValidUTF8], byte by byte). *)
Definition clean_rune (r : rune) : string :=
  match r with Rune r => encode_rune r | BadByte => encode_rune RuneError end.

Fixpoint clean_go (fuel : nat) s : string :=
  match fuel, decode_rune s with
  | S fuel, Some (r, t) => clean_rune r +:+ clean_go fuel t
  | _, _ => ""
  end.

Definition clean s : string := clean_go (String.length s) s.

(** Valid UTF-8. *)
Definition valid s : Prop := clean s = s.

(** The runes of ASCII, one after the other. *)
Lemma ascii_escapes r X :
  (0 ≤ r < 128)%Z →
  ∃ c u, json_escape r = String c u ∧ c ≠ quote_mark ∧
    text_item (json_escape r +:+ X) = Some (encode_rune r, X).
Proof.
  intros Hr. rewrite <- (Z2Nat.id r) by lia. assert (Hk : Z.to_nat r < 128) by lia.
  generalize dependent (Z.to_nat r). clear. intros k Hk.
  do 128 (destruct k as [|k]; [eexists _, _; split; [reflexivity|]; split; [discriminate|reflexivity]|]).
  lia.
Qed.

Lemma json_rune_read r X :
  (∀ z, r = Rune z → is_scalar z) →
  ∃ c u, json_rune r = String c u ∧ c ≠ quote_mark ∧
    text_item (json_rune r +:+ X) = Some (clean_rune r, X).
Proof.
  intros Hr. destruct r as [r|]; [|by eexists _, _]. specialize (Hr r eq_refl). simpl.
  pose proof Hr as [Hb _].
  destruct (r <? 128)%Z eqn:E1; [apply ascii_escapes; lia|].
  destruct ((r =? 8232) || (r =? 8233))%Z eqn:E2.
  { assert (r = 8232 ∨ r = 8233)%Z as [-> | ->] by lia; by eexists _, _. }
  destruct (encode_rune_head r Hr) as (c & u & E & _ & Hc). exists c, u. rewrite E.
  specialize (Hc ltac:(lia)). split; [done|]. split; [intros ->; by apply Hc|].
  pose proof (decode_encode_rune r X Hr) as Hd. rewrite E, sapp_cons in Hd.
  rewrite sapp_cons. unfold text_item.
  rewrite (proj2 (Z.eqb_neq _ 92)), (proj2 (Z.ltb_ge _ 32)) by lia. by rewrite Hd, E.
Qed.

Lemma decode_rune_item_scalar s r t z : decode_rune s = Some (r, t) → r = Rune z → is_scalar z.
Proof. intros Hd ->. by eapply decode_rune_scalar. Qed.

(** A string is read as it was, when it is valid. *)
Lemma read_json_text n fuel s rest :
  String.length s ≤ n → String.length (json_text_go n s) < fuel →
  read_text fuel (json_text_go n s +:+ String quote_mark rest) = Some (clean_go n s, rest).
Proof.
  revert fuel s. induction n as [|n IH]; intros fuel s Hn Hf; simpl in *.
  { destruct fuel as [|fuel]; [lia|]. done. }
  destruct (decode_rune s) as [[r t]|] eqn:Ed.
  2: { destruct fuel as [|fuel]; [simpl in Hf; lia|]. done. }
  destruct (json_rune_read r (json_text_go n t +:+ String quote_mark rest)) as (c & u & E & Hc & Hi).
  { intros z. by apply (decode_rune_item_scalar s r t z). }
  rewrite sapp_assoc. rewrite slength_app, E in Hf. simpl in Hf.
  destruct fuel as [|fuel]; [lia|]. rewrite E, sapp_cons in *. cbn [read_text].
  rewrite decide_False by done. rewrite Hi.
  apply decode_rune_shorter in Ed. rewrite IH by lia. done.
Qed.

Lemma read_json_string s rest fuel :
  String.length (json_text_go (String.length s) s) < fuel →
  read_text fuel (json_text_go (String.length s) s +:+ String quote_mark rest) = Some (clean s, rest).
Proof. intros Hf. by apply read_json_text. Qed.

(** *** Cleaning *)

Lemma clean_go_enough n m s :
  String.length s ≤ n → String.length s ≤ m → clean_go n s = clean_go m s.
Proof.
  revert m s. induction n as [|n IH]; intros m s Hn Hm.
  - destruct s; [|simpl in Hn; lia]. by destruct m.
  - destruct m as [|m]; [destruct s; [done|simpl in Hm; lia]|]. simpl.
    destruct (decode_rune s) as [[r t]|] eqn:E; [|done].
    apply decode_rune_shorter in E. f_equal. apply IH; lia.
Qed.

Lemma clean_step s r t : decode_rune s = Some (r, t) → clean s = clean_rune r +:+ clean t.
Proof.
  intros E. unfold clean. destruct s as [|c s]; [done|]. cbn [String.length clean_go]. rewrite E.
  f_equal. apply decode_rune_shorter in E. simpl in E. apply clean_go_enough; lia.
Qed.

Lemma clean_rune_scalar r : (∀ z, r = Rune z → is_scalar z) → ∃ z, is_scalar z ∧ clean_rune r = encode_rune z.
Proof. destruct r as [z|]; intros Hr; [by exists z; auto|]. exists RuneError. split; [|done]. by split. Qed.

(** What was cleaned is valid. *)
Lemma clean_valid s : valid (clean s).
Proof.
  unfold valid. remember (String.length s) as n eqn:Hn. revert s Hn.
  induction n as [n IH] using lt_wf_ind. intros s ->.
  destruct (decode_rune s) as [[r t]|] eqn:E; [|by destruct s; [|simpl in E; repeat case_match]].
  rewrite (clean_step s r t E).
  destruct (clean_rune_scalar r) as (z & Hz & ->); [intros z; by eapply decode_rune_item_scalar|].
  rewrite (clean_step _ (Rune z) (clean t)) by (by apply decode_encode_rune). simpl. f_equal.
  eapply IH; [by eapply decode_rune_shorter|done].
Qed.

(** ASCII text is valid. *)
Lemma ascii_valid s : all_bytes is_ascii s = true → valid s.
Proof.
  unfold valid. induction s as [|c s IH]; [done|]. simpl. intros H. break.
  rename select (is_ascii c = true) into Hc. unfold is_ascii in Hc.
  rewrite (clean_step _ (Rune (byte_z c)) s) by (simpl; by rewrite Hc).
  rewrite IH by done. simpl. unfold encode_rune.
  pose proof (byte_z_range c). unfold in_range.
  rewrite (proj2 (Z.ltb_ge (byte_z c) 0)), (proj2 (Z.ltb_ge 1114111 (byte_z c))) by lia. simpl.
  rewrite (proj2 (andb_false_iff _ _)) by lia. by rewrite Hc, z_byte_z.
Qed.

(** ** Numbers *)

(** What may follow a number for it to end there. *)
Definition ends_number rest : Prop :=
  match rest with
  | String c _ => is_digit c = false ∧ c ≠ "."%char ∧ c ≠ "e"%char ∧ c ≠ "E"%char
  | EmptyString => True
  end.

(** A part of a number is read the same when something ends it. *)
Definition extends (part : string → option (string * string)) : Prop :=
  ∀ s a b rest, part s = Some (a, b) → ends_number rest → part (s +:+ rest) = Some (a, b +:+ rest).

Lemma span_digits_extends s a b rest :
  span_digits s = (a, b) → ends_number rest → span_digits (s +:+ rest) = (a, b +:+ rest).
Proof.
  revert a b. induction s as [|c s IH]; intros a b; simpl.
  - intros [= <- <-] Hr. destruct rest as [|c rest]; [done|]. destruct Hr as [Hc _]. simpl. by rewrite Hc.
  - destruct (is_digit c); [|by intros [= <- <-]].
    destruct (span_digits s) as [d r]. intros [= <- <-] Hr. by rewrite (IH d r eq_refl Hr).
Qed.

Lemma some_digits_extends : extends some_digits.
Proof.
  intros s a b rest. unfold some_digits. destruct (span_digits s) as [d r] eqn:E.
  destruct d as [|c d]; [done|]. intros [= <- <-] Hr. by rewrite (span_digits_extends _ _ _ _ E Hr).
Qed.

Lemma take_byte_app c s t rest : take_byte c s = Some t → take_byte c (s +:+ rest) = Some (t +:+ rest).
Proof. destruct s as [|d s]; [done|]. rewrite sapp_cons. simpl. case_decide; [|done]. by intros [= <-]. Qed.

Lemma take_byte_none c s rest : s ≠ "" → take_byte c s = None → take_byte c (s +:+ rest) = None.
Proof. destruct s as [|d s]; [done|]. intros _. rewrite sapp_cons. simpl. by case_decide. Qed.

Lemma int_part_extends : extends int_part.
Proof.
  intros s a b rest. unfold int_part. destruct (take_byte "0" s) as [t|] eqn:E.
  - intros [= <- <-] _. by rewrite (take_byte_app _ _ _ _ E).
  - intros Hs Hr. rewrite take_byte_none; [by apply some_digits_extends| |done]. by intros ->.
Qed.

Lemma frac_part_extends : extends frac_part.
Proof.
  intros s a b rest. unfold frac_part. destruct (take_byte "." s) as [t|] eqn:E.
  - rewrite (take_byte_app _ _ _ _ E). destruct (some_digits t) as [[d r]|] eqn:Ed; [|done].
    intros [= <- <-] Hr. by rewrite (some_digits_extends _ _ _ _ Ed Hr).
  - intros [= <- <-] Hr. destruct s as [|c s]; [|by rewrite take_byte_none].
    rewrite sapp_nil_l. destruct rest as [|c rest]; [done|]. simpl. by rewrite decide_False by apply Hr.
Qed.

Lemma sign_part_extends signs s rest :
  s ≠ "" → sign_part signs (s +:+ rest) = ((sign_part signs s).1, (sign_part signs s).2 +:+ rest).
Proof.
  intros Hs. induction signs as [|c signs IH]; [done|]. simpl.
  destruct (take_byte c s) as [t|] eqn:E; [by rewrite (take_byte_app _ _ _ _ E)|].
  by rewrite take_byte_none.
Qed.

Lemma exp_part_extends : extends exp_part.
Proof.
  intros s a b rest. unfold exp_part. destruct s as [|c s].
  - intros [= <- <-] Hr. rewrite sapp_nil_l. destruct rest as [|c rest]; [done|].
    rewrite decide_False; [done|]. destruct Hr as (_ & _ & He & HE). by intros [?|?].
  - rewrite sapp_cons. case_decide; [|by intros [= <- <-] _].
    destruct (decide (s = "")) as [->|Hs]; [done|]. rewrite sign_part_extends by done.
    destruct (sign_part _ s) as [sign u]. simpl. destruct (some_digits u) as [[d r]|] eqn:Ed; [|done].
    intros [= <- <-] Hr. by rewrite (some_digits_extends _ _ _ _ Ed Hr).
Qed.

Lemma number_extends : extends number.
Proof.
  intros s a b rest. unfold number. destruct (decide (s = "")) as [->|Hs]; [done|].
  rewrite (sign_part_extends _ s rest Hs).
  destruct (sign_part ["-"%char] s) as [sign u]. simpl. intros Hn Hr. revert Hn.
  destruct (int_part u) as [[i v]|] eqn:Ei; [|done]. rewrite (int_part_extends _ _ _ _ Ei Hr).
  destruct (frac_part v) as [[f w]|] eqn:Ef; [|done]. rewrite (frac_part_extends _ _ _ _ Ef Hr).
  destruct (exp_part w) as [[e x]|] eqn:Ee; [|done]. rewrite (exp_part_extends _ _ _ _ Ee Hr).
  by intros [= <- <-].
Qed.

(** A literal of the grammar. *)
Definition is_number (literal : string) : Prop := number literal = Some (literal, "").

Lemma span_digits_all s : all_bytes is_digit s = true → span_digits s = (s, "").
Proof. induction s as [|c s IH]; [done|]. simpl. intros H. break. by rewrite H, IH. Qed.

(** Digits without a leading zero are an integer, with a sign or without. *)
Lemma digits_number c s :
  is_digit c = true → all_bytes is_digit s = true → (c = "0"%char → s = "") →
  is_number (String c s) ∧ is_number (String "-" (String c s)).
Proof.
  intros Hc Hs Hz.
  assert (Hi : int_part (String c s) = Some (String c s, "")).
  { unfold int_part. simpl. case_decide as E; [by rewrite (Hz E), E|].
    unfold some_digits. by rewrite (span_digits_all (String c s)) by (simpl; by rewrite Hc, Hs). }
  unfold is_number, number. cbn [sign_part take_byte].
  rewrite decide_False by (intros ->; done). rewrite decide_True by done. rewrite Hi. simpl.
  by rewrite ?sapp_nil_r.
Qed.

Lemma pretty_N_char_nonzero x : (0 < x < 10)%N → pretty_N_char x ≠ "0"%char.
Proof.
  intros Hx. assert (x = 1 ∨ x = 2 ∨ x = 3 ∨ x = 4 ∨ x = 5 ∨ x = 6 ∨ x = 7 ∨ x = 8 ∨ x = 9)%N by lia.
  by destruct_or?; subst.
Qed.

(** A positive numeral starts with another digit than zero. *)
Lemma pretty_N_go_head x s :
  (0 < x)%N → ∃ c u, pretty_N_go x s = String c (u +:+ s) ∧ c ≠ "0"%char ∧
    is_digit c = true ∧ all_bytes is_digit u = true.
Proof.
  revert s. induction x as [x IH] using (well_founded_induction N.lt_wf_0). intros s Hx.
  rewrite pretty_N_go_step by lia.
  assert (Hm : (x `mod` 10 < 10)%N) by (by apply N.mod_lt). destruct (digit_char _ Hm) as [Hd _].
  pose proof (N.div_mod x 10 ltac:(done)) as Hdm.
  destruct (decide (x `div` 10 = 0)%N) as [E|E].
  - rewrite E, pretty_N_go_0. eexists _, "". split_and!; [done| |done|done].
    apply pretty_N_char_nonzero. lia.
  - destruct (IH (x `div` 10)%N) with (s := String (pretty_N_char (x `mod` 10)) s)
      as (c & u & -> & Hc & Hcd & Hu); [apply N.div_lt; lia|lia|].
    exists c, (u +:+ String (pretty_N_char (x `mod` 10)) ""). split_and!; [|done..|].
    + by rewrite sapp_assoc, sapp_cons, sapp_nil_l.
    + rewrite all_bytes_app, Hu. simpl. by rewrite Hd.
Qed.

(** [strconv.Itoa] writes a number. *)
Lemma Itoa_number z : is_number (Itoa z).
Proof.
  assert (Hpos : ∀ p, ∃ c u, pretty (N.pos p) = String c u ∧ c ≠ "0"%char ∧
                        is_digit c = true ∧ all_bytes is_digit u = true).
  { intros p. unfold pretty, pretty_N. rewrite decide_False by done.
    destruct (pretty_N_go_head (N.pos p) "" ltac:(lia)) as (c & u & -> & ?). exists c, u.
    by rewrite sapp_nil_r. }
  unfold Itoa. destruct z as [|p|p]; [done|..]; destruct (Hpos p) as (c & u & E & Hc & Hd & Hu).
  - change (pretty (Z.pos p)) with (pretty (N.pos p)). rewrite E. by apply digits_number.
  - change (pretty (Z.neg p)) with (String "-" (pretty (N.pos p))). rewrite E. by apply digits_number.
Qed.

(** ** Values *)

(** Induction under the lists of arrays and objects. *)
Lemma json_rect_nested (P : json → Prop) :
  P JNull → (∀ b, P (JBool b)) → (∀ n, P (JNumber n)) → (∀ s, P (JString s)) →
  (∀ l, Forall P l → P (JArray l)) → (∀ fields, Forall (λ f, P f.2) fields → P (JObject fields)) →
  ∀ j, P j.
Proof.
  intros Hnull Hbool Hnum Hstr Harr Hobj. fix IH 1.
  intros [|b|n|s|l|fields]; [apply Hnull|apply Hbool|apply Hnum|apply Hstr|apply Harr|apply Hobj].
  - induction l as [|j l IHl]; constructor; [apply IH|apply IHl].
  - induction fields as [|f fields IHf]; constructor; [apply IH|apply IHf].
Qed.

(** What a value is read back as. *)
Fixpoint clean_json (j : json) : json :=
  match j with
  | JString s => JString (clean s)
  | JArray l => JArray (List.map clean_json l)
  | JObject fields => JObject (List.map (λ f, (clean f.1, clean_json f.2)) fields)
  | j => j
  end.

(** Numbers of the grammar, at most [depth] brackets deep. *)
Fixpoint fits (depth : Z) (j : json) : Prop :=
  match j with
  | JNumber literal => is_number literal
  | JArray l => (0 < depth)%Z ∧ fold_right (λ j P, fits (depth - 1) j ∧ P) True l
  | JObject fields => (0 < depth)%Z ∧ fold_right (λ f P, fits (depth - 1) f.2 ∧ P) True fields
  | _ => True
  end.

Lemma fits_all {A} (P : A → Prop) l : fold_right (λ x Q, P x ∧ Q) True l ↔ Forall P l.
Proof. induction l as [|x l IH]; simpl; [done|]. by rewrite Forall_cons, IH. Qed.

Lemma number_head literal : is_number literal →
  ∃ c u, literal = String c u ∧ (is_digit c = true ∨ c = "-"%char).
Proof.
  unfold is_number, number. destruct literal as [|c u]; [done|]. intros Hn. exists c, u.
  split; [done|]. destruct (decide (c = "-"%char)) as [->|Hc]; [by right|left].
  revert Hn. cbn [sign_part take_byte]. rewrite decide_False by done. unfold int_part. simpl.
  case_decide as H0; [by subst|]. unfold some_digits. simpl.
  by destruct (is_digit c).
Qed.

(** A byte no white space, comma or closing bracket is mistaken for. *)
Definition opens (c : ascii) : Prop :=
  is_json_space c = false ∧ c ≠ "]"%char ∧ c ≠ "}"%char ∧ c ≠ ","%char.

Lemma digit_opens c : is_digit c = true ∨ c = "-"%char →
  opens c ∧ c ≠ "{"%char ∧ c ≠ "["%char ∧ c ≠ quote_mark ∧ c ≠ "n"%char ∧ c ≠ "t"%char ∧ c ≠ "f"%char.
Proof.
  intros [Hc| ->]; [|by split_and!]. unfold is_digit, in_range in Hc.
  assert (Hne : ∀ d, (byte_z d < 48 ∨ 57 < byte_z d)%Z → c ≠ d) by (intros d Hd ->; lia).
  unfold opens, is_json_space. split_and!; try (apply Hne; (left; reflexivity) || (right; reflexivity)). lia.
Qed.

Lemma encode_head d j : fits d j → ∃ c u, encode j = String c u ∧ opens c.
Proof.
  destruct j as [|[]|n|s|l|fields]; intros Hf; try (eexists _, _; split; [reflexivity|by split_and!]).
  destruct (number_head n Hf) as (c & u & -> & Hc). exists c, u. split; [done|]. by apply digit_opens.
Qed.

Lemma skip_space_head c s : is_json_space c = false → skip_space (String c s) = String c s.
Proof. intros Hc. simpl. by rewrite Hc. Qed.

Lemma next_is_head c s : is_json_space c = false → next_is c (String c s) = Some s.
Proof. intros Hc. unfold next_is. rewrite skip_space_head by done. simpl. by rewrite decide_True. Qed.

Lemma next_is_other c d s : is_json_space d = false → d ≠ c → next_is c (String d s) = None.
Proof. intros Hd Hne. unfold next_is. rewrite skip_space_head by done. simpl. by rewrite decide_False. Qed.

Lemma value_scalar fuel depth c u rest j :
  opens c → c ≠ "{"%char → c ≠ "["%char → c ≠ quote_mark →
  scalar (String c u +:+ rest) = Some (j, rest) →
  value (S fuel) depth (String c u +:+ rest) = Some (j, rest).
Proof.
  intros [Ho _] H1 H2 H3 Hs. rewrite sapp_cons in *. cbn [value].
  rewrite !next_is_other by done. by rewrite skip_space_head.
Qed.

(** A string where a value or a key is expected. *)
Lemma json_string_read s rest :
  let t := json_string s +:+ rest in
  ∃ u, next_is quote_mark t = Some u ∧ read_text (String.length t) u = Some (clean s, rest).
Proof.
  unfold json_string. rewrite sapp_cons, sapp_assoc, sapp_cons, sapp_nil_l. cbv zeta.
  eexists. split; [by apply next_is_head|]. apply read_json_string. simpl. rewrite slength_app. lia.
Qed.

Lemma bracketed_cons close s l : l ≠ [] → bracketed close (s :: l) = s +:+ String "," (bracketed close l).
Proof. by destruct l. Qed.

(** A value is read back, whatever follows it. *)
Definition reads_back (j : json) : Prop := ∀ fuel depth rest,
  fits depth j → 2 * String.length (encode j) ≤ fuel → ends_number rest →
  value fuel depth (encode j +:+ rest) = Some (clean_json j, rest).

Lemma elements_read_back l : l ≠ [] → Forall reads_back l → ∀ fuel depth rest,
  Forall (fits depth) l → 2 * String.length (bracketed "]" (List.map encode l)) ≤ fuel →
  elements fuel depth (bracketed "]" (List.map encode l) +:+ rest) =
    Some (List.map clean_json l, rest).
Proof.
  intros Hne Hl. induction Hl as [|j l Hj Hl IH]; [done|]. intros fuel depth rest.
  intros [Hf Hfs]%Forall_cons Hfuel. destruct fuel as [|fuel].
  { exfalso. destruct l; simpl in Hfuel; rewrite ?slength_app in Hfuel; simpl in Hfuel; lia. }
  destruct l as [|j' l].
  - cbn [List.map bracketed] in *. rewrite slength_app in Hfuel. cbn [String.length] in Hfuel.
    rewrite sapp_assoc, sapp_cons, sapp_nil_l. cbn [elements].
    rewrite Hj by (done || lia). by rewrite next_is_head.
  - cbn [List.map] in *. rewrite bracketed_cons in * by done.
    rewrite slength_app in Hfuel. cbn [String.length] in Hfuel.
    rewrite sapp_assoc, sapp_cons. cbn [elements]. rewrite Hj by (done || lia).
    rewrite next_is_other, next_is_head by done. rewrite IH by (done || lia). done.
Qed.

Definition member_text (f : string * json) : string := json_string f.1 +:+ String ":" (encode f.2).

Lemma members_read_back l : l ≠ [] → Forall (λ f, reads_back f.2) l → ∀ fuel depth rest,
  Forall (λ f, fits depth f.2) l → 2 * String.length (bracketed "}" (List.map member_text l)) ≤ fuel →
  members fuel depth (bracketed "}" (List.map member_text l) +:+ rest) =
    Some (List.map (λ f, (clean f.1, clean_json f.2)) l, rest).
Proof.
  intros Hne Hl. induction Hl as [|f l Hj Hl IH]; [done|]. intros fuel depth rest.
  intros [Hf Hfs]%Forall_cons Hfuel. destruct fuel as [|fuel].
  { exfalso. destruct l; simpl in Hfuel; rewrite ?slength_app in Hfuel; simpl in Hfuel; lia. }
  assert (Hone : ∀ X, 2 * String.length (encode f.2) ≤ fuel → ends_number X →
    members (S fuel) depth (member_text f +:+ X) =
    match next_is "}" X with
    | Some rest => Some ([(clean f.1, clean_json f.2)], rest)
    | None => match next_is "," X with
              | None => None
              | Some t => match members fuel depth t with
                          | Some (l, rest) => Some ((clean f.1, clean_json f.2) :: l, rest)
                          | None => None
                          end
              end
    end).
  { intros X Hx Hend. unfold member_text. rewrite sapp_assoc, sapp_cons.
    destruct (json_string_read f.1 (String ":" (encode f.2 +:+ X))) as (u & Hu & Hr).
    cbn [members]. rewrite Hu, Hr, next_is_head by done. by rewrite Hj. }
  assert (Hlen : String.length (encode f.2) < String.length (member_text f)).
  { unfold member_text. rewrite slength_app. simpl. lia. }
  destruct l as [|f' l].
  - cbn [List.map bracketed] in *. rewrite slength_app in Hfuel. cbn [String.length] in Hfuel.
    rewrite sapp_assoc, sapp_cons, sapp_nil_l. rewrite Hone by (done || lia). by rewrite next_is_head.
  - cbn [List.map] in *. rewrite bracketed_cons in * by done.
    rewrite slength_app in Hfuel. cbn [String.length] in Hfuel.
    rewrite sapp_assoc, sapp_cons. rewrite Hone by (done || lia).
    rewrite next_is_other, next_is_head by done. rewrite IH by (done || lia). done.
Qed.

Lemma value_read_back j : reads_back j.
Proof.
  induction j as [|b|n|s|l Hl|fields Hl] using json_rect_nested; intros fuel depth rest Hf Hfuel Hend;
    (destruct fuel as [|fuel];
      [exfalso; destruct (encode_head depth _ Hf) as (c & u & E & _); rewrite E in Hfuel; simpl in Hfuel; lia|]).
  - by apply (value_scalar fuel depth "n" "ull").
  - destruct b; [by apply (value_scalar fuel depth "t" "rue")|by apply (value_scalar fuel depth "f" "alse")].
  - simpl in *. destruct (number_head n Hf) as (c & u & -> & Hc).
    destruct (digit_opens c Hc) as (Ho & ? & ? & ? & Hn & Ht & Hff).
    apply value_scalar; [done..|]. pose proof (number_extends _ _ _ rest Hf Hend) as Hnum.
    unfold scalar. rewrite sapp_cons in *. cbn [strip_prefix]. rewrite !decide_False by congruence.
    by rewrite Hnum.
  - cbn [encode clean_json]. destruct (json_string_read s rest) as (u & Hu & Hr).
    assert (Hno : ∀ c, quote_mark ≠ c → next_is c (json_string s +:+ rest) = None)
      by (intros c Hc; by apply next_is_other).
    cbn [value]. rewrite (Hno "{"%char), (Hno "["%char) by done. by rewrite Hu, Hr.
  - cbn [encode] in *. destruct Hf as [Hd Hf]. rewrite fits_all in Hf. rewrite sapp_cons.
    cbn [value]. rewrite next_is_other, next_is_head by done.
    rewrite (proj2 (Z.leb_gt _ 0)) by lia. simpl in Hfuel.
    destruct l as [|j l]; [done|].
    assert (Hno : next_is "]" (bracketed "]" (List.map encode (j :: l)) +:+ rest) = None).
    { apply Forall_cons in Hf as [Hj _]. destruct (encode_head _ j Hj) as (c & u & E & Ho).
      simpl. rewrite E. destruct l; simpl; apply next_is_other; apply Ho. }
    rewrite Hno, elements_read_back by (done || lia). done.
  - cbn [encode] in *. destruct Hf as [Hd Hf]. rewrite fits_all in Hf. rewrite sapp_cons.
    fold member_text in *. change (λ f, json_string f.1 +:+ String ":" (encode f.2)) with member_text in *.
    cbn [value]. rewrite next_is_head by done.
    rewrite (proj2 (Z.leb_gt _ 0)) by lia. simpl in Hfuel.
    destruct fields as [|f l]; [done|].
    assert (Hno : next_is "}" (bracketed "}" (List.map member_text (f :: l)) +:+ rest) = None).
    { simpl. destruct l; simpl; by apply next_is_other. }
    rewrite Hno, members_read_back by (done || lia). done.
Qed.

(** Reading an encoded document. *)
Lemma parse_encode j rest :
  fits max_nesting j → ends_number rest → parse (encode j +:+ rest) = Some (clean_json j, rest).
Proof.
  intros Hf Hend. unfold parse. apply value_read_back; [done| |done]. rewrite slength_app. lia.
Qed.

(** ** Reading ends

    What is left is never longer than what was given, so the fuel of [parse] is
    as good as any greater one. *)

#[local] Abbreviation shrinks part := (∀ s a b, part s = Some (a, b) → String.length b ≤ String.length s).

Lemma skip_space_le s : String.length (skip_space s) ≤ String.length s.
Proof. induction s as [|c s IH]; simpl; [done|]. case_match; simpl; lia. Qed.

Lemma take_byte_lt c s t : take_byte c s = Some t → String.length t < String.length s.
Proof. destruct s as [|d s]; simpl; [done|]. case_decide; [|done]. intros [= <-]. lia. Qed.

Lemma next_is_lt c s t : next_is c s = Some t → String.length t < String.length s.
Proof. intros E%take_byte_lt. pose proof (skip_space_le s). lia. Qed.

Lemma strip_prefix_le p s t : strip_prefix p s = Some t → String.length t ≤ String.length s.
Proof. intros ->%strip_prefix_spec. rewrite slength_app. lia. Qed.

Lemma hex4_le : shrinks hex4.
Proof.
  intros s a b. destruct s as [|c1 [|c2 [|c3 [|c4 s]]]]; simpl; try done.
  repeat case_match; try done. intros [= <- <-]. lia.
Qed.

Lemma unicode_escape_le : shrinks unicode_escape.
Proof.
  intros s u r. unfold unicode_escape. destruct (hex4 s) as [[z t]|] eqn:E; [|done].
  apply hex4_le in E. case_match; [|by intros [= <- <-]].
  destruct (strip_prefix _ t) as [t'|] eqn:Ep; [|by intros [= <- <-]].
  apply strip_prefix_le in Ep. destruct (hex4 t') as [[z2 t2]|] eqn:E2; [|by intros [= <- <-]].
  apply hex4_le in E2. case_match; intros [= <- <-]; lia.
Qed.

Lemma escaped_le : shrinks escaped.
Proof.
  intros s u r. destruct s as [|c t]; simpl; [done|].
  repeat (case_match; [intros [= <- <-]; lia|]). case_match; [|done].
  intros E%unicode_escape_le. lia.
Qed.

Lemma text_item_le : shrinks text_item.
Proof.
  intros s u r. destruct s as [|c t]; [done|]. unfold text_item.
  case_match; [intros E%escaped_le; simpl; lia|]. case_match; [done|].
  destruct (decode_rune (String c t)) as [[[z|] t']|] eqn:E; [..|done];
    apply decode_rune_shorter in E; intros [= <- <-]; lia.
Qed.

Lemma read_text_le fuel : shrinks (read_text fuel).
Proof.
  induction fuel as [|fuel IH]; intros s u r; [done|]. destruct s as [|c t]; [done|]. cbn [read_text].
  case_decide; [intros [= <- <-]; simpl; lia|].
  destruct (text_item (String c t)) as [[v t']|] eqn:E; [|done]. apply text_item_le in E.
  destruct (read_text fuel t') as [[w r']|] eqn:Er; [|done]. apply IH in Er. intros [= <- <-]. lia.
Qed.

Lemma some_digits_le : shrinks some_digits.
Proof.
  intros s a b. unfold some_digits.
  assert (Hs : ∀ s, String.length (span_digits s).2 ≤ String.length s).
  { clear. intros s. induction s as [|c s IH]; simpl; [done|].
    destruct (is_digit c); [|done]. destruct (span_digits s). simpl in *. lia. }
  specialize (Hs s). destruct (span_digits s) as [[|c d] r]; [done|]. by intros [= <- <-].
Qed.

Lemma sign_part_le signs s : String.length (sign_part signs s).2 ≤ String.length s.
Proof.
  induction signs as [|c signs IH]; simpl; [done|]. destruct (take_byte c s) as [t|] eqn:E; [|done].
  apply take_byte_lt in E. simpl. lia.
Qed.

Lemma number_le : shrinks number.
Proof.
  intros s a b. unfold number. pose proof (sign_part_le ["-"%char] s) as Hs.
  destruct (sign_part _ s) as [sign u]. simpl in Hs.
  destruct (int_part u) as [[i v]|] eqn:Ei; [|done].
  destruct (frac_part v) as [[f w]|] eqn:Ef; [|done].
  destruct (exp_part w) as [[e x]|] eqn:Ee; [|done]. intros [= <- <-].
  assert (String.length v ≤ String.length u).
  { unfold int_part in Ei. destruct (take_byte "0" u) as [t|] eqn:E; [|by eapply some_digits_le].
    injection Ei as <- <-. apply take_byte_lt in E. lia. }
  assert (String.length w ≤ String.length v).
  { unfold frac_part in Ef. destruct (take_byte "." v) as [t|] eqn:E; [|by injection Ef as <- <-].
    apply take_byte_lt in E. destruct (some_digits t) as [[d r]|] eqn:Ed; [|done].
    apply some_digits_le in Ed. injection Ef as <- <-. lia. }
  assert (String.length x ≤ String.length w); [|lia].
  unfold exp_part in Ee. destruct w as [|c w]; [by injection Ee as <- <-|].
  case_decide; [|by injection Ee as <- <-].
  pose proof (sign_part_le ["+"%char; "-"%char] w) as Hw. destruct (sign_part _ w) as [sg y].
  destruct (some_digits y) as [[d r]|] eqn:Ed; [|done]. apply some_digits_le in Ed.
  injection Ee as <- <-. simpl in *. lia.
Qed.

Lemma scalar_le : shrinks scalar.
Proof.
  intros s j r. unfold scalar.
  destruct (strip_prefix "null" s) eqn:E1; [apply strip_prefix_le in E1; by intros [= <- <-]|].
  destruct (strip_prefix "true" s) eqn:E2; [apply strip_prefix_le in E2; by intros [= <- <-]|].
  destruct (strip_prefix "false" s) eqn:E3; [apply strip_prefix_le in E3; by intros [= <- <-]|].
  destruct (number s) as [[l t]|] eqn:E4; [|done]. apply number_le in E4. by intros [= <- <-].
Qed.

(** Case analysis on what a step of the reader found, with the lengths. *)
Ltac read_step :=
  match goal with
  | |- context [match next_is ?c ?s with _ => _ end] =>
      let E := fresh in destruct (next_is c s) eqn:E; [apply next_is_lt in E|]
  | |- context [match read_text ?n ?s with _ => _ end] =>
      let E := fresh in destruct (read_text n s) as [[? ?]|] eqn:E; [apply read_text_le in E|done]
  | |- context [if (?d <=? 0)%Z then _ else _] => destruct (d <=? 0)%Z; [done|]
  end.

Lemma value_le fuel :
  (∀ d, shrinks (value fuel d)) ∧ (∀ d, shrinks (members fuel d)) ∧ (∀ d, shrinks (elements fuel d)).
Proof.
  induction fuel as [|fuel (IHv & IHm & IHe)]; [done|]. split_and!; intros d s a r.
  - cbn [value]. repeat read_step; try (by intros [= <- <-]; lia).
    + destruct (members _ _ _) as [[l t]|] eqn:E; [|done]. apply IHm in E. intros [= <- <-]. lia.
    + destruct (elements _ _ _) as [[l t]|] eqn:E; [|done]. apply IHe in E. intros [= <- <-]. lia.
    + intros E%scalar_le. pose proof (skip_space_le s). lia.
  - cbn [members]. repeat read_step; try done.
    destruct (value _ _ _) as [[j t]|] eqn:E; [|done]. apply IHv in E.
    repeat read_step; try done; [intros [= <- <-]; lia|].
    destruct (members _ _ _) as [[l t']|] eqn:Em; [|done]. apply IHm in Em. intros [= <- <-]. lia.
  - cbn [elements]. destruct (value _ _ _) as [[j t]|] eqn:E; [|done]. apply IHv in E.
    repeat read_step; try done; [intros [= <- <-]; lia|].
    destruct (elements _ _ _) as [[l t']|] eqn:Em; [|done]. apply IHe in Em. intros [= <- <-]. lia.
Qed.

Lemma value_enough n m :
  n ≤ m →
  (∀ d s, 2 * String.length s + 1 ≤ n → value n d s = value m d s) ∧
  (∀ d s, 2 * String.length s + 1 ≤ n → members n d s = members m d s) ∧
  (∀ d s, 2 * String.length s + 2 ≤ n → elements n d s = elements m d s).
Proof.
  revert m. induction n as [|n IH]; intros m Hm; [split_and!; intros; lia|].
  destruct m as [|m]; [lia|]. destruct (IH m) as (IHv & IHm & IHe); [lia|]. clear IH.
  pose proof (value_le n) as (Hv & _ & _).
  split_and!; intros d s Hs.
  - cbn [value]. repeat read_step; try done; [rewrite IHm by lia|rewrite IHe by lia]; done.
  - cbn [members]. repeat read_step; try done. rewrite <- IHv by lia.
    destruct (value n _ _) as [[j t]|] eqn:E; [|done]. apply Hv in E.
    repeat read_step; try done. by rewrite IHm by lia.
  - cbn [elements]. rewrite <- IHv by lia.
    destruct (value n _ _) as [[j t]|] eqn:E; [|done]. apply Hv in E.
    repeat read_step; try done. by rewrite IHe by lia.
Qed.

(** No greater fuel reads more. *)
Lemma parse_enough fuel s : 2 * String.length s + 2 ≤ fuel → value fuel max_nesting s = parse s.
Proof. intros Hf. symmetry. apply value_enough; lia. Qed.

Lemma parse_le s j rest : parse s = Some (j, rest) → String.length rest ≤ String.length s.
Proof. apply value_le. Qed.
