(* ===== verification/Http.v ===== *)
(** * HTTP requests, responses and errors ([internal/apierr/apierr.go],
    [internal/httpapi/json.go])

    A request as the handlers read it, a response as they write it: the bytes
    of the body and the JSON value in them.  A field that a body repeats is
    read twice, the second time into what the first one left. *)

From S2P Require Import Prelude GoText GoUnicode GoEff GoTime Config Json JsonRoundTrip.

(** [auth.Principal] *)
Record Principal := {
  IsAdmin : bool;
  p_TenantID : string;
  p_KeyID : string;
  p_Scopes : list string;
}.

(** ** JSON *)

(** A field tagged [omitempty] that holds a pointer or a string. *)
Definition omit_nil {A} (name : string) (f : A → json) (v : option A) : list (string * json) :=
  match v with Some a => [(name, f a)] | None => [] end.
Definition omit_empty (name s : string) : list (string * json) :=
  if decide (s = "") then [] else [(name, JString s)].

(** Reading a value into a field: [null] leaves it alone, another type is an
    error. *)
Definition mismatch {A} : result A := Err (External "json: cannot unmarshal").

Definition into_string (j : json) (old : string) : result string :=
  match j with JNull => Ok old | JString s => Ok s | _ => mismatch end.

Definition into_int (j : json) (old : Z) : result Z :=
  match j with
  | JNull => Ok old
  | JNumber literal => match ParseInt literal with Some z => Ok z | None => mismatch end
  | _ => mismatch
  end.

(** The elements of an array go into the old ones of the slice, or into empty
    strings; what the slice holds beyond its length is taken to be empty. *)
Fixpoint strings_of (l : list json) (old : list string) : result (list string) :=
  match l with
  | [] => Ok []
  | j :: l =>
      match into_string j (default "" (head old)), strings_of l (tail old) with
      | Ok s, Ok ss => Ok (s :: ss)
      | Err e, _ => Err e
      | _, Err e => Err e
      end
  end.

Definition into_strings (j : json) (old : list string) : result (list string) :=
  match j with JNull => Ok [] | JArray l => strings_of l old | _ => mismatch end.

(** [foldName]: letters up to case, with the two runes outside ASCII that fold
    to [s] and [k]. *)
Fixpoint fold_name (s : string) : string :=
  match s with
  | EmptyString => ""
  | String c t =>
      let plain := String (ascii_lower c) (fold_name t) in
      match t with
      | String d u =>
          if ((byte_z c =? 197) && (byte_z d =? 191))%Z then String "s" (fold_name u)
          else match u with
               | String e v =>
                   if ((byte_z c =? 226) && (byte_z d =? 132) && (byte_z e =? 170))%Z
                   then String "k" (fold_name v) else plain
               | EmptyString => plain
               end
      | EmptyString => plain
      end
  end.

(** The field of a struct whose tag is [tag]. *)
Definition is_field (tag key : string) : bool := bool_decide (fold_name tag = fold_name key).

(** Reading an object into a struct: each member in turn goes to the field whose
    tag is its name up to case, an unknown one is skipped. *)
Definition into_struct {A} (set : string → json → A → result A) (zero : A) (j : json)
    : result A :=
  match j with
  | JNull => Ok zero
  | JObject fields =>
      fold_left (λ acc f, match acc with
                          | Ok a => set f.1 f.2 a
                          | Err e => Err e
                          end) fields (Ok zero)
  | _ => mismatch
  end.

(** A member of an object. *)
Definition member (j : json) (name : string) : option json :=
  match j with
  | JObject fields => snd <$> head (filter (λ f, f.1 = name) fields)
  | _ => None
  end.

(** ** Requests *)

Definition maxRequestBody : Z := Z.shiftl 1 20.

(** What the decoder finds in a body: the end of it, a first value it knows
    after [size] bytes, or bytes that are no JSON.  A number or a literal ends
    where another byte, or the end, is seen. *)
Inductive raw_body :=
  | NoBytes
  | FirstValue (size : Z) (j : json)
  | Malformed.

Definition closes_itself (j : json) : bool :=
  match j with JArray _ | JObject _ => true | _ => false end.

Definition read_body (b : string) : raw_body :=
  let length := Z.of_nat (String.length b) in
  if decide (skip_space b = "") then
    if decide (maxRequestBody < length)%Z then Malformed else NoBytes
  else match parse b with
       | Some (j, rest) =>
           let size := (length - Z.of_nat (String.length rest))%Z in
           FirstValue (if closes_itself j || bool_decide (rest = "") then size else size + 1) j
       | None => Malformed
       end.

(** [decodeJSON]: the value, or an error that tells an empty body apart. *)
Definition decodeJSON {A} (dst : json → result A) (b : string) : result A :=
  match read_body b with
  | NoBytes => Err (Sentinel ErrEmptyBody)
  | FirstValue size j =>
      if decide (maxRequestBody < size)%Z then Err (External "http: request body too large")
      else dst j
  | Malformed => Err (External "json: invalid character")
  end.

(** A document a client encoded is decoded as it was written. *)
Lemma decodeJSON_encode {A} (dst : json → result A) j :
  fits max_nesting j → (Z.of_nat (String.length (encode j)) ≤ maxRequestBody)%Z →
  decodeJSON dst (encode j) = dst (clean_json j).
Proof.
  intros Hf Hlen. unfold decodeJSON, read_body.
  assert (Hne : skip_space (encode j) ≠ "").
  { destruct (encode_head _ j Hf) as (c & u & -> & Ho & _). by rewrite skip_space_head. }
  rewrite decide_False by done.
  pose proof (parse_encode j "" Hf I) as Hp. rewrite sapp_nil_r in Hp. rewrite Hp.
  rewrite bool_decide_eq_true_2, orb_true_r by done. cbn [String.length].
  by rewrite decide_False by lia.
Qed.

Record request := {
  r_Method : string;
  (** [URL.EscapedPath] *)
  r_Path : string;
  (** the first value of each header, under its canonical name *)
  r_Header : gmap string string;
  (** the first value of each parameter of the query *)
  r_Query : gmap string string;
  r_Body : string;
  (** the wildcards of the pattern that routed the request *)
  r_PathValues : gmap string string;
  (** the principal of the context, once the middleware has put one there *)
  r_Principal : option Principal;
}.

Definition PathValue (r : request) (name : string) : string := default "" (r_PathValues r !! name).

(** [r.URL.Query().Get] *)
Definition Query_Get (r : request) (name : string) : string := default "" (r_Query r !! name).

(** [queryLimit]: what is no number is the default. *)
Definition queryLimit (r : request) : Z :=
  let raw := Query_Get r "limit" in
  if decide (raw = "") then 0
  else match Atoi raw with Some limit => limit | None => 0 end.

(** [r.Header.Get] *)
Definition Header_Get (r : request) (name : string) : string := default "" (r_Header r !! name).

Definition with_principal (p : Principal) (r : request) : request :=
  {| r_Method := r_Method r; r_Path := r_Path r; r_Header := r_Header r; r_Query := r_Query r;
     r_Body := r_Body r; r_PathValues := r_PathValues r; r_Principal := Some p |}.

Definition with_path_values (values : gmap string string) (r : request) : request :=
  {| r_Method := r_Method r; r_Path := r_Path r; r_Header := r_Header r; r_Query := r_Query r;
     r_Body := r_Body r; r_PathValues := values; r_Principal := r_Principal r |}.

(** [PrincipalFrom]: the zero principal when there is none. *)
Definition PrincipalFrom (r : request) : Principal * bool :=
  match r_Principal r with
  | Some p => (p, true)
  | None => ({| IsAdmin := false; p_TenantID := ""; p_KeyID := ""; p_Scopes := [] |}, false)
  end.

(** ** Responses

    A body is the error shape, a payload, plain text of the router, the bytes
    of a file, or nothing. *)
Inductive body (P : Type) :=
  | ErrorBody (code message : string)
  | JSONBody (p : P)
  | TextBody (text : string)
  | FileBody (data : string)
  | NoBody.
Arguments ErrorBody {P} code message.
Arguments JSONBody {P} p.
Arguments TextBody {P} text.
Arguments FileBody {P} data.
Arguments NoBody {P}.

Record response (P : Type) := Response {
  status : Z;
  headers : gmap string string;
  content : body P;
}.
Arguments Response {P} status headers content.
Arguments status {P} r.
Arguments headers {P} r.
Arguments content {P} r.

(** ** [apierr] *)

Definition CodeUnauthorized := "unauthorized".
Definition CodeForbidden := "forbidden".
Definition CodeNotFound := "not_found".
Definition CodeInvalidRequest := "invalid_request".
Definition CodeConflict := "conflict".
Definition CodeInternal := "internal_error".
Definition CodeUnavailable := "unavailable".
Definition CodeGone := "gone".
Definition CodeTooLarge := "too_large".
Definition CodeUnsupportedType := "unsupported_media_type".

Definition in_quotes (s : string) : string :=
  String (z_byte 34) (s +:+ String (z_byte 34) "").

Definition json_header : gmap string string := {["Content-Type" := "application/json"]}.

Section apierr.
Context {P : Type}.

Definition Write (code_ : Z) (code message : string) : response P :=
  Response code_ json_header (ErrorBody code message).

Definition Unauthorized (message : string) : response P :=
  Response 401 (<["WWW-Authenticate" := ("Bearer realm=" +:+ in_quotes "whats-cloud-mcp")]> json_header)
    (ErrorBody CodeUnauthorized message).

Definition Forbidden (message : string) : response P := Write 403 CodeForbidden message.
Definition NotFound (message : string) : response P := Write 404 CodeNotFound message.
Definition InvalidRequest (message : string) : response P :=
  Write 400 CodeInvalidRequest message.
Definition Internal : response P := Write 500 CodeInternal "internal error".

Definition writeJSON (code : Z) (payload : P) : response P :=
  Response code json_header (JSONBody payload).
End apierr.

(** ** On the wire *)

(** [apierr.Body] *)
Definition error_json (code message : string) : json :=
  JObject [("error", JObject [("code", JString code); ("message", JString message)])].

(** The JSON document of a body, if that is what it is. *)
Definition document (b : body json) : option json :=
  match b with
  | ErrorBody code message => Some (error_json code message)
  | JSONBody p => Some p
  | _ => None
  end.

(** The bytes a handler writes; [http.Error] ends its text with a newline. *)
Definition body_bytes (b : body json) : string :=
  match b with
  | ErrorBody code message => Encode (error_json code message)
  | JSONBody p => Encode p
  | TextBody text => text +:+ newline
  | FileBody data => data
  | NoBody => ""
  end.

Lemma document_bytes b j :
  document b = Some j → fits max_nesting j → parse (body_bytes b) = Some (clean_json j, newline).
Proof.
  intros Hd Hf. assert (E : body_bytes b = Encode j) by (by destruct b; simplify_eq/=).
  rewrite E. by apply parse_encode.
Qed.

(** ** Payloads are documents *)

(** A value without brackets. *)
Definition flat (j : json) : Prop :=
  match j with
  | JNumber literal => is_number literal
  | JArray _ | JObject _ => False
  | _ => True
  end.

Lemma flat_fits depth j : flat j → fits depth j.
Proof. by destruct j. Qed.

Lemma object_fits depth fields :
  (0 < depth)%Z → Forall (λ f, fits (depth - 1) f.2) fields → fits depth (JObject fields).
Proof. intros Hd Hf. split; [done|]. by apply (fits_all (λ f : string * json, fits (depth - 1) f.2)). Qed.

Lemma array_fits {A} depth (f : A → json) l :
  (0 < depth)%Z → (∀ a, fits (depth - 1) (f a)) → fits depth (JArray (f <$> l)).
Proof. intros Hd Hf. split; [done|]. rewrite fits_all, Forall_fmap. by apply Forall_true. Qed.

Lemma flat_object_fits depth fields :
  (0 < depth)%Z → Forall (λ f, flat f.2) fields → fits depth (JObject fields).
Proof. intros Hd Hf. apply object_fits; [done|]. eapply Forall_impl; [done|]. intros f. apply flat_fits. Qed.

Lemma JInt_flat z : flat (JInt z).
Proof. apply Itoa_number. Qed.

Lemma omit_empty_flat name s : Forall (λ f, flat f.2) (omit_empty name s).
Proof. unfold omit_empty. case_decide; repeat constructor. Qed.

Lemma omit_nil_flat {A} name (f : A → json) v : (∀ a, flat (f a)) → Forall (λ f, flat f.2) (omit_nil name f v).
Proof. intros Hf. destruct v; repeat constructor. apply Hf. Qed.

Lemma error_json_fits code message : fits max_nesting (error_json code message).
Proof. by repeat split. Qed.

(** Objects of scalars, with optional fields or without. *)
Ltac fields_flat :=
  repeat match goal with
  | |- Forall _ (_ ++ _) => apply Forall_app; split
  | |- Forall _ (omit_empty _ _) => apply omit_empty_flat
  | |- Forall _ (omit_nil _ _ _) => apply omit_nil_flat; intros ?
  | |- Forall _ (_ :: _) => apply Forall_cons; split; cbn [snd]
  | |- Forall _ [] => constructor
  | |- flat (JInt _) => apply JInt_flat
  | |- flat _ => exact I
  end.
