(* ===== verification/Middleware.v ===== *)
(** * Authentication ([internal/auth/middleware.go], [internal/httpapi/origin.go])

    The middleware in front of every handler, against the interface of a key
    resolver; and the resolver the server gives it, over the key repository. *)

From S2P Require Import Prelude GoText GoUnicode GoEff Scope Sha256 Key Models Store Json Http.
From S2P Require Import StoreOps StoreTheorems.
From S2P Require ApiKeyRepo.

(** ** The interface [KeyResolver], with the optional [KeyUsageRecorder] *)
Class KeyResolver (St : Type) := {
  ResolveKeyHash : string → eff St (result Principal);
  MarkKeyUsed : option (string → eff St (result ()));
}.

Definition handler (St P : Type) : Type := request → eff St (response P).

Definition Principal_HasScope (p : Principal) (required : string) : bool :=
  HasScope (p_Scopes p) required.

(** [BearerToken] *)
Definition BearerToken (r : request) : string :=
  match cut " " (Header_Get r "Authorization") with
  | Some (scheme, token) =>
      if negb (EqualFold scheme "Bearer") then "" else TrimSpace token
  | None => ""
  end.

Section middleware.
Context `{Unicode} {St P : Type} `{KeyResolver St} (adminToken : string).

Definition RequireAdmin (next : handler St P) : handler St P := λ r,
  if negb (VerifyAdminToken adminToken (BearerToken r))
  then ret (Unauthorized "admin credentials required")
  else next (with_principal {| IsAdmin := true; p_TenantID := ""; p_KeyID := "";
                               p_Scopes := [] |} r).

(** [authenticateTenant]: the principal, or the response already written. *)
Definition authenticateTenant (r : request) : eff St (Principal + response P) :=
  (let token := BearerToken r in
   if decide (token = "") then ret (inr (Unauthorized "api key required"))
   else
     let! resolved := ResolveKeyHash (HashKey token) in
     match resolved with
     | Err e =>
         if errors_Is e ErrKeyNotFound then ret (inr (Unauthorized "invalid api key"))
         else ret (inr Internal)
     | Ok principal =>
         match MarkKeyUsed with
         | Some mark => let! _ := mark (p_KeyID principal) in ret (inl principal)
         | None => ret (inl principal)
         end
     end)%go.

Definition RequireScope (required : string) (next : handler St P) : handler St P := λ r,
  (let! who := authenticateTenant r in
   match who with
   | inr refused => ret refused
   | inl principal =>
       if negb (Principal_HasScope principal required)
       then ret (Forbidden ("missing required scope: " +:+ required))
       else next (with_principal principal r)
   end)%go.

Definition RequireTenant (next : handler St P) : handler St P := λ r,
  (let! who := authenticateTenant r in
   match who with
   | inr refused => ret refused
   | inl principal => next (with_principal principal r)
   end)%go.

(** [RequireAllowedOrigin] *)
Definition RequireAllowedOrigin (allowed : list string) (next : handler St P)
    : handler St P := λ r,
  let allowSet := filter (λ o, o ≠ "") ((λ o, ToLower (TrimSpace o)) <$> allowed) in
  let origin := TrimSpace (Header_Get r "Origin") in
  if decide (origin = "") then next r
  else if decide (ToLower origin ∈ allowSet) then next r
  else ret (Forbidden "origin not allowed").
End middleware.

(** ** The resolver of the server ([keyResolver] in [internal/httpapi/server.go]) *)

Section resolver.
Context `{Unicode} `{Oracle}.

Definition resolve (keyHash : string) : eff db (result Principal) :=
  (let! found := ApiKeyRepo.GetByHash keyHash in
   ret (match found with
        | Err e => if errors_Is e ErrNotFound then Err (Sentinel ErrKeyNotFound) else Err e
        | Ok key => Ok {| IsAdmin := false; p_TenantID := k_TenantID key;
                          p_KeyID := k_ID key; p_Scopes := k_Scopes key |}
        end))%go.
End resolver.

#[export] Instance keyResolver `{Oracle} : KeyResolver db :=
  {| ResolveKeyHash := resolve; MarkKeyUsed := Some ApiKeyRepo.MarkUsed |}.

(** ** What the middleware lets through *)

(** A response of the middleware itself, or the handler's for a principal that
    the resolver answered for the token and that satisfies [Q]. *)
Section admission.
Context `{Unicode} {St P : Type} `{KeyResolver St}.

(** How a request was admitted: the token's hash resolved to this principal. *)
Definition resolved_as (r : request) (n : nat) (s : St) (p : Principal) : Prop :=
  BearerToken r ≠ "" ∧
  answer (ResolveKeyHash (HashKey (BearerToken r))) n s = Ok p.

Lemma authenticateTenant_cases (r : request) n s :
  (∃ p, resolved_as r n s p ∧ answer (authenticateTenant (P := P) r) n s = inl p) ∨
  (∃ resp : response P, answer (authenticateTenant r) n s = inr resp ∧
     status resp ∈ [401; 500]%Z ∧ (∀ p, ¬ resolved_as r n s p)).
Proof.
  unfold authenticateTenant, resolved_as. case_decide as Ht.
  { right. exists (Unauthorized "api key required"). split_and!; [done|by_decide|].
    by intros p [? _]. }
  rewrite bind_answer.
  destruct (answer (ResolveKeyHash (HashKey (BearerToken r))) n s) as [p|e] eqn:E.
  - left. exists p. split; [done|].
    destruct MarkKeyUsed; [by rewrite bind_answer|done].
  - right. destruct (errors_Is e ErrKeyNotFound);
      (eexists; split_and!; [done|by_decide|by intros p [_ ?] ]).
Qed.

(** A tenant route runs its handler only for a request whose bearer token
    the resolver answers with a principal that holds the route's scope, and
    runs it as that principal; every other request is answered 401, 403 or
    500, and the handler does not run. *)
Theorem RequireScope_admits required (next : handler St P) r n s :
  let run := RequireScope required next r in
  (∃ p n' s', resolved_as r n s p ∧ HasScope (p_Scopes p) required = true ∧
     run n s = next (with_principal p r) n' s') ∨
  (status (answer run n s) = 403%Z ∧ ∃ p, resolved_as r n s p ∧
     HasScope (p_Scopes p) required = false) ∨
  (status (answer run n s) ∈ [401; 500]%Z ∧ ∀ p, ¬ resolved_as r n s p).
Proof.
  intros run. unfold run, RequireScope.
  destruct (authenticateTenant_cases r n s) as [(p & Hp & Ha)|(resp & Ha & Hs & Hno)].
  - destruct (HasScope (p_Scopes p) required) eqn:Hscope.
    + left. exists p, (GoEff.next (authenticateTenant (P := P) r) n s), (final (authenticateTenant (P := P) r) n s).
      split_and!; [done..|]. unfold bind, answer, GoEff.next, final in *.
      destruct (authenticateTenant r n s) as [[who n'] s']. simpl in *. subst.
      unfold Principal_HasScope. by rewrite Hscope.
    + right. left. split; [|by exists p].
      rewrite bind_answer, Ha. unfold Principal_HasScope. by rewrite Hscope.
  - right. right. rewrite bind_answer, Ha. done.
Qed.
End admission.

(** ** Authentication against the store *)

Section authentication.
Context `{Unicode} `{Oracle}.

Definition principal_of (row : ApiKeyRow) : Principal :=
  {| IsAdmin := false; p_TenantID := r_TenantID row; p_KeyID := r_ID row;
     p_Scopes := ParseScopes (r_Scopes row) |}.

(** The resolver answers the row of the live key with that hash. *)
Lemma resolve_Ok h n s p :
  h ≠ "" → answer (resolve h) n s = Ok p →
  ∃ id row, api_keys s !! id = Some row ∧ r_KeyHash row = h ∧ r_RevokedAt row = None ∧
    p = principal_of row.
Proof.
  intros Hh. unfold resolve. rewrite bind_answer.
  destruct (answer (ApiKeyRepo.GetByHash h) n s) as [k|e] eqn:E;
    [|by unfold ret, answer; simpl; destruct (errors_Is e ErrNotFound)].
  apply ApiKeyRepo.GetByHash_Ok in E as [_ E].
  apply ApiKeyRepo.find_live_Some in E as (id & row & Hrow & Hrh & Hl & ->).
  intros [= <-]. by exists id, row.
Qed.

Lemma resolve_found h n s id row :
  wf s → answering → h ≠ "" →
  api_keys s !! id = Some row → r_KeyHash row = h → r_RevokedAt row = None →
  answer (resolve h) n s = Ok (principal_of row).
Proof.
  intros Hwf Ha Hh Hrow Hrh Hl. unfold resolve. rewrite bind_answer.
  unfold ApiKeyRepo.GetByHash. rewrite decide_False by done.
  rewrite read_row_answer by done.
  by rewrite (ApiKeyRepo.find_live_found h s id row Hwf Hrow Hrh Hl).
Qed.

(** C6: a bearer token authenticates exactly when its SHA-256 is the hash of a
    key that is stored and not revoked, and then the principal's tenant, key
    and scopes are those of the stored row: nothing in the request can choose
    the tenant. *)
Theorem authentication_exact r n s p :
  wf s → answering →
  resolved_as r n s p ↔
  BearerToken r ≠ "" ∧ ∃ id row, api_keys s !! id = Some row ∧
    r_KeyHash row = HashKey (BearerToken r) ∧ r_RevokedAt row = None ∧
    p = principal_of row.
Proof.
  intros Hwf Ha. unfold resolved_as. apply and_iff_compat_l.
  cbn [ResolveKeyHash keyResolver]. split.
  - apply resolve_Ok, HashKey_not_empty.
  - intros (id & row & Hrow & Hh & Hl & ->).
    by eapply resolve_found; [..|apply HashKey_not_empty| | |].
Qed.

(** The admin surface admits the configured token and nothing else: with no
    token configured, or with any other credential, an API key included, the
    answer is 401 and no state changes; an admitted request carries the admin
    principal, which holds no scope and so opens no tenant route. *)
Theorem RequireAdmin_exact {P} adminToken (next : handler db P) r n s required :
  let run := RequireAdmin adminToken next r in
  let admin := {| IsAdmin := true; p_TenantID := ""; p_KeyID := ""; p_Scopes := [] |} in
  (if decide (adminToken ≠ "" ∧ BearerToken r = adminToken)
   then run n s = next (with_principal admin r) n s
   else run n s = (Unauthorized "admin credentials required", n, s)) ∧
  Principal_HasScope admin required = false.
Proof.
  intros run admin. split.
  - unfold run, RequireAdmin, VerifyAdminToken.
    destruct (decide (adminToken ≠ "" ∧ _)) as [[Hne ->]|Hno].
    + rewrite decide_False by naive_solver. by rewrite bool_decide_eq_true_2.
    + case_decide; [done|]. rewrite bool_decide_eq_false_2; [done|]. naive_solver.
  - unfold Principal_HasScope, HasScope. simpl. destruct (splitScope (TrimSpace required)) as [[? ?]|];
      by repeat case_match.
Qed.
End authentication.

(** ** A key in use *)

Definition demo_token := "wc_live_acme_0123".

(** The demo database with a live key of that token. *)
Definition key_db : db :=
  final (run_write (H := demo_unicode) (H0 := demo_oracle)
    (CreateKey (demo_key "acme" "k9" (HashKey demo_token)))) 50 demo_db.

Lemma key_wf : wf key_db.
Proof. by apply (run_write_sound (H := demo_unicode) (H0 := demo_oracle)), demo_wf. Qed.

(** A request with that token, its scheme in lower case. *)
Definition demo_request (method path : string) : request :=
  {| r_Method := method; r_Path := path;
     r_Header := {["Authorization" := ("bearer " +:+ demo_token)]}; r_Query := ∅;
     r_Body := ""; r_PathValues := ∅; r_Principal := None |}.

Lemma authentication_exact_witness :
  resolved_as (H0 := keyResolver (H := demo_oracle))
    (demo_request "GET" "/v1/chats") 60 key_db
    {| IsAdmin := false; p_TenantID := "acme"; p_KeyID := "k9"; p_Scopes := ["messages:*"] |}.
Proof.
  apply (authentication_exact (H0 := demo_oracle)
    (demo_request "GET" "/v1/chats") 60 key_db _ key_wf demo_answering).
  split; [by_decide|].
  assert (E : api_keys key_db !! "k9" = Some
    {| r_ID := "k9"; r_TenantID := "acme"; r_Name := "laptop"; r_KeyHash := HashKey demo_token;
       r_KeyPrefix := "wc_live_"; r_Scopes := "messages:*"; r_CreatedAt := 7;
       r_LastUsedAt := None; r_RevokedAt := None |}) by (vm_compute; reflexivity).
  exists "k9". eexists. split; [exact E|]. vm_compute. repeat split.
Defined.
