(* ===== verification/Pending.v ===== *)
(** * Pending history requests ([internal/wa/pending.go])

    The rendezvous between a history request and the event that answers it.
    Goroutines interleave between the critical sections, so every critical
    section is one step, and [deliver] is two: it takes the waiter under the
    lock and sends on the channel after releasing it. *)

From S2P Require Import Prelude GoText GoUnicode GoEff.

Implicit Types (key : string) (ch : nat).

(** [historyDelivery] *)
Record historyDelivery := {
  Inserted : nat;
  Delivered : nat;
  Oldest : Z;
}.

(** [historyKey]: the separator is the NUL byte. *)
Definition historyKey (tenantID chatJID : string) : string :=
  tenantID +:+ String (z_byte 0) chatJID.

(** The registry, the channels it has made, the sends under way, the channels
    whose [sync.Once] has run, and the key each release function closes over. *)
Record pendingHistory := {
  waiters : gmap string nat;
  buffers : gmap nat (list historyDelivery);
  sending : gmap nat historyDelivery;
  released : gset nat;
  owners : gmap nat string;
}.

Definition newPendingHistory : pendingHistory :=
  {| waiters := ∅; buffers := ∅; sending := ∅; released := ∅; owners := ∅ |}.

(** ** The critical sections *)

(** [register]: the channel, or [ErrSyncInProgress]. *)
Definition register key (p : pendingHistory) : result nat * pendingHistory :=
  match waiters p !! key with
  | Some _ => (Err (Sentinel ErrSyncInProgress), p)
  | None =>
      let ch := fresh (dom (buffers p)) in
      (Ok ch, {| waiters := <[key := ch]> (waiters p); buffers := <[ch := []]> (buffers p);
                 sending := sending p; released := released p; owners := <[ch := key]> (owners p) |})
  end.

(** The release function of the channel [ch] registered under [key]. *)
Definition release key ch (p : pendingHistory) : pendingHistory :=
  if decide (ch ∈ released p) then p
  else {| waiters := if decide (waiters p !! key = Some ch)
                     then delete key (waiters p) else waiters p;
          buffers := buffers p; sending := sending p;
          released := {[ch]} ∪ released p; owners := owners p |}.

(** The locked half of [deliver]: the waiter is taken out of the registry. *)
Definition deliver key (d : historyDelivery) (p : pendingHistory) : bool * pendingHistory :=
  match waiters p !! key with
  | None => (false, p)
  | Some ch =>
      (true, {| waiters := delete key (waiters p); buffers := buffers p;
                sending := <[ch := d]> (sending p); released := released p;
                owners := owners p |})
  end.

(** [ch <- d] on a channel of capacity one: it blocks on a full buffer. *)
Definition send ch (p : pendingHistory) : option pendingHistory :=
  match sending p !! ch, buffers p !! ch with
  | Some d, Some [] =>
      Some {| waiters := waiters p; buffers := <[ch := [d]]> (buffers p);
              sending := delete ch (sending p); released := released p;
              owners := owners p |}
  | _, _ => None
  end.

(** [<-replies] *)
Definition receive ch (p : pendingHistory) : option (historyDelivery * pendingHistory) :=
  match buffers p !! ch with
  | Some (d :: rest) =>
      Some (d, {| waiters := waiters p; buffers := <[ch := rest]> (buffers p);
                  sending := sending p; released := released p; owners := owners p |})
  | _ => None
  end.

Definition waiterCount (p : pendingHistory) : nat := size (waiters p).

(** ** Interleavings *)

Inductive event :=
  | Registered key ch
  | Refused key
  | Released key ch
  | Taken key ch (d : historyDelivery)
  | Dropped key
  | Sent ch
  | Received ch (d : historyDelivery).

Inductive step : pendingHistory → event → pendingHistory → Prop :=
  | step_register key p ch p' :
      register key p = (Ok ch, p') → step p (Registered key ch) p'
  | step_refuse key p e p' :
      register key p = (Err e, p') → step p (Refused key) p'
  | step_release key ch p :
      owners p !! ch = Some key → step p (Released key ch) (release key ch p)
  | step_take key ch d p p' :
      waiters p !! key = Some ch → deliver key d p = (true, p') → step p (Taken key ch d) p'
  | step_drop key d p p' :
      deliver key d p = (false, p') → step p (Dropped key) p'
  | step_send ch p p' :
      send ch p = Some p' → step p (Sent ch) p'
  | step_receive ch d p p' :
      receive ch p = Some (d, p') → step p (Received ch d) p'.

Inductive reachable : list event → pendingHistory → Prop :=
  | reach_start : reachable [] newPendingHistory
  | reach_step tr p e p' : reachable tr p → step p e p' → reachable (tr ++ [e]) p'.

(** ** The invariant

    A channel is in one of four phases: waiting in the registry, taken with a
    send under way, holding its one delivery, or done. *)

Definition taken_by ch (e : event) : bool :=
  match e with Taken _ c _ => bool_decide (c = ch) | _ => false end.

Definition times_taken ch (tr : list event) : nat := length (filter (λ e, taken_by ch e = true) tr).

Record invariant (tr : list event) (p : pendingHistory) : Prop := {
  inv_waiting : ∀ key ch, waiters p !! key = Some ch →
    buffers p !! ch = Some [] ∧ sending p !! ch = None ∧ times_taken ch tr = 0;
  inv_distinct : ∀ k1 k2 ch, waiters p !! k1 = Some ch → waiters p !! k2 = Some ch → k1 = k2;
  inv_sending : ∀ ch d, sending p !! ch = Some d →
    buffers p !! ch = Some [] ∧ times_taken ch tr = 1;
  inv_known : ∀ ch, times_taken ch tr > 0 → ch ∈ dom (buffers p);
  inv_once : ∀ ch, times_taken ch tr ≤ 1;
  inv_owner : ∀ key ch, waiters p !! key = Some ch → owners p !! ch = Some key;
  inv_released : ∀ key ch, waiters p !! key = Some ch → ch ∉ released p;
  inv_released_known : ∀ ch, ch ∈ released p → ch ∈ dom (buffers p);
  inv_owner_known : ∀ ch key, owners p !! ch = Some key → ch ∈ dom (buffers p);
}.

Lemma times_taken_snoc ch tr e :
  times_taken ch (tr ++ [e]) = (times_taken ch tr + (if taken_by ch e then 1 else 0))%nat.
Proof.
  unfold times_taken. rewrite filter_app, length_app. f_equal.
  destruct (taken_by ch e) eqn:E.
  - by rewrite filter_cons_True, filter_nil.
  - rewrite filter_cons_False, filter_nil; [done|]. by rewrite E.
Qed.

Lemma not_taken ch tr e : taken_by ch e = false → times_taken ch (tr ++ [e]) = times_taken ch tr.
Proof. intros E. rewrite times_taken_snoc, E. lia. Qed.

(** Steps that neither take a waiter nor add one. *)
Lemma invariant_shrink tr e p p' :
  (∀ ch, taken_by ch e = false) →
  invariant tr p → waiters p' ⊆ waiters p → buffers p' = buffers p →
  sending p' = sending p → owners p' = owners p →
  (∀ key ch, waiters p' !! key = Some ch → ch ∉ released p') →
  (∀ ch, ch ∈ released p' → ch ∈ dom (buffers p)) →
  invariant (tr ++ [e]) p'.
Proof.
  intros He [] Hw Hb Hs Ho Hr Hk.
  assert (Ht : ∀ ch, times_taken ch (tr ++ [e]) = times_taken ch tr)
    by (intros; by apply not_taken).
  split; intros *; rewrite ?Ht, ?Hb, ?Hs, ?Ho; eauto.
  - intros H. apply inv_waiting0 with key. by eapply lookup_weaken.
  - intros H1 H2. eapply inv_distinct0; by eapply lookup_weaken.
  - intros H. apply inv_owner0. by eapply lookup_weaken.
Qed.

Lemma register_Ok key p ch p' :
  register key p = (Ok ch, p') →
  waiters p !! key = None ∧ (ch ∉ dom (buffers p)) ∧
  p' = {| waiters := <[key := ch]> (waiters p); buffers := <[ch := []]> (buffers p);
          sending := sending p; released := released p; owners := <[ch := key]> (owners p) |}.
Proof.
  unfold register. destruct (waiters p !! key); [done|]. intros [= <- <-].
  split_and!; [done|apply is_fresh|done].
Qed.

Lemma release_waiters key ch p : waiters (release key ch p) ⊆ waiters p.
Proof.
  unfold release. case_decide; [done|]. simpl. case_decide; [|done]. apply delete_subseteq.
Qed.

(** Releasing leaves nothing of the request behind. *)
Lemma release_own tr key ch p k :
  invariant tr p → owners p !! ch = Some key → waiters (release key ch p) !! k ≠ Some ch.
Proof.
  intros [] Hk. unfold release. case_decide as Hc; [intros H; by eapply inv_released0|]. simpl.
  case_decide as Hw.
  - intros [Hne H]%lookup_delete_Some. apply inv_owner0 in H. congruence.
  - intros H. apply inv_owner0 in H as H'. congruence.
Qed.

(** One lemma per step that changes the phase of a channel. *)
Lemma invariant_register tr key p ch p' :
  invariant tr p → register key p = (Ok ch, p') → invariant (tr ++ [Registered key ch]) p'.
Proof.
  intros [] (Hk & Hch & ->)%register_Ok.
  assert (Hfresh : ∀ (P : Prop) c l, buffers p !! c = Some l → (c ≠ ch → P) → P).
  { intros P c l Hb HP. apply HP. intros ->. apply Hch, elem_of_dom. by eexists. }
  assert (Hno : sending p !! ch = None ∧ times_taken ch tr = 0).
  { split.
    - apply eq_None_not_Some. intros [d Hd].
      destruct (inv_sending0 ch d Hd) as [Hb _]. apply Hch, elem_of_dom. by eexists.
    - destruct (times_taken ch tr) eqn:E; [done|]. exfalso. apply Hch, inv_known0. lia. }
  split; simpl; intros *; rewrite ?not_taken by done.
  - intros [[<- <-]|[_ Hw]]%lookup_insert_Some; [by rewrite lookup_insert_eq|].
    destruct (inv_waiting0 _ _ Hw) as (Hb & Hs & Ht). eapply Hfresh; [done|]. intros.
    by rewrite lookup_insert_ne.
  - intros [[<- <-]|[_ H1]]%lookup_insert_Some [[<- E]|[_ H2]]%lookup_insert_Some.
    + done.
    + apply inv_waiting0 in H2 as [H2 _]. by eapply Hfresh.
    + subst. apply inv_waiting0 in H1 as [H1 _]. by eapply Hfresh.
    + by eapply inv_distinct0.
  - intros Hs. destruct (inv_sending0 _ _ Hs) as [Hb Ht]. eapply Hfresh; [done|]. intros.
    by rewrite lookup_insert_ne.
  - intros Ht. rewrite dom_insert. set_solver.
  - done.
  - intros [[<- <-]|[_ Hw]]%lookup_insert_Some; [by rewrite lookup_insert_eq|].
    pose proof (inv_waiting0 _ _ Hw) as (Hb & _). eapply Hfresh; [done|]. intros.
    rewrite lookup_insert_ne by done. by apply inv_owner0.
  - intros [[<- <-]|[_ Hw]]%lookup_insert_Some; [|by eapply inv_released0].
    intros Hr. by apply Hch, inv_released_known0.
  - intros Hr. rewrite dom_insert. set_solver.
  - intros [[<- <-]|[_ Ho]]%lookup_insert_Some; rewrite dom_insert; set_solver.
Qed.

Lemma invariant_release tr key ch p :
  invariant tr p → owners p !! ch = Some key →
  invariant (tr ++ [Released key ch]) (release key ch p).
Proof.
  intros Hinv H. pose proof Hinv as [].
  eapply invariant_shrink; [done|done|apply release_waiters|..].
  1-3: unfold release; by case_decide.
  - intros k c Hw. unfold release in Hw |- *. case_decide; [by eapply inv_released0|].
    simpl in *. intros [->%elem_of_singleton|Hr]%elem_of_union.
    + case_decide as Hk; [apply lookup_delete_Some in Hw as [Hne Hw]|];
        pose proof (inv_owner0 _ _ Hw); congruence.
    + case_decide; [apply lookup_delete_Some in Hw as [_ Hw]|]; by eapply inv_released0.
  - intros c. unfold release. case_decide; [auto|]. simpl.
    intros [->%elem_of_singleton|Hr]%elem_of_union; eauto.
Qed.

Lemma invariant_take tr key ch d p p' :
  invariant tr p → waiters p !! key = Some ch → deliver key d p = (true, p') →
  invariant (tr ++ [Taken key ch d]) p'.
Proof.
  intros [] H H0. unfold deliver in H0. rewrite H in H0. injection H0 as <-.
  destruct (inv_waiting0 _ _ H) as (Hb & Hs & Ht).
  split; simpl; intros *; rewrite ?times_taken_snoc; simpl.
  - intros [Hne Hw]%lookup_delete_Some. destruct (inv_waiting0 _ _ Hw) as (Hb' & Hs' & Ht').
    assert (ch ≠ ch0) by (intros <-; apply Hne; by eapply inv_distinct0).
    rewrite lookup_insert_ne, bool_decide_eq_false_2 by done. split_and!; [done..|lia].
  - intros [_ H1]%lookup_delete_Some [_ H2]%lookup_delete_Some. by eapply inv_distinct0.
  - intros [[<- <-]|[Hne Hd]]%lookup_insert_Some.
    + rewrite bool_decide_eq_true_2 by done. split; [done|lia].
    + destruct (inv_sending0 _ _ Hd) as [Hb' Ht'].
      rewrite bool_decide_eq_false_2 by done. split; [done|lia].
  - case_bool_decide; [subst; intros _; apply elem_of_dom; by eexists|].
    rewrite Nat.add_0_r. auto.
  - case_bool_decide; [subst; lia|]. rewrite Nat.add_0_r. auto.
  - intros [_ Hw]%lookup_delete_Some. auto.
  - intros [_ Hw]%lookup_delete_Some. by eapply inv_released0.
  - auto.
  - eauto.
Qed.

Lemma invariant_send tr ch p p' :
  invariant tr p → send ch p = Some p' → invariant (tr ++ [Sent ch]) p'.
Proof.
  intros [] H. unfold send in H. destruct (sending p !! ch) as [d|] eqn:Ed; [|done].
  destruct (inv_sending0 _ _ Ed) as [Hb Ht]. rewrite Hb in H. injection H as <-.
  split; simpl; intros *; rewrite ?not_taken by done; rewrite ?dom_insert; eauto.
  - intros Hw. destruct (inv_waiting0 _ _ Hw) as (Hb' & Hs' & Ht').
    assert (ch ≠ ch0) by congruence. by rewrite lookup_insert_ne, lookup_delete_ne.
  - intros [Hne Hd]%lookup_delete_Some. rewrite lookup_insert_ne by done. by eapply inv_sending0.
  - set_solver.
  - set_solver.
  - set_solver.
Qed.

Lemma invariant_receive tr ch d p p' :
  invariant tr p → receive ch p = Some (d, p') → invariant (tr ++ [Received ch d]) p'.
Proof.
  intros [] H. unfold receive in H. destruct (buffers p !! ch) as [[|x rest]|] eqn:Eb; [done| |done].
  injection H as <- <-.
  split; simpl; intros *; rewrite ?not_taken by done; rewrite ?dom_insert; eauto.
  - intros Hw. destruct (inv_waiting0 _ _ Hw) as (Hb' & Hs' & Ht').
    assert (ch ≠ ch0) by congruence. by rewrite lookup_insert_ne.
  - intros Hd. destruct (inv_sending0 _ _ Hd) as [Hb' Ht'].
    assert (ch ≠ ch0) by congruence. by rewrite lookup_insert_ne.
  - set_solver.
  - set_solver.
  - set_solver.
Qed.

Lemma invariant_step tr p e p' : invariant tr p → step p e p' → invariant (tr ++ [e]) p'.
Proof.
  intros Hinv Hst. pose proof Hinv as []. inversion Hst; subst; clear Hst.
  - by apply (invariant_register _ _ p).
  - unfold register in H. destruct (waiters p !! key); [|done]. injection H as <- <-.
    by eapply invariant_shrink.
  - by apply invariant_release.
  - by eapply invariant_take.
  - unfold deliver in H. destruct (waiters p !! key); [done|]. injection H as <-.
    by eapply invariant_shrink.
  - by eapply invariant_send.
  - by eapply invariant_receive.
Qed.

Lemma invariant_reachable tr p : reachable tr p → invariant tr p.
Proof.
  induction 1 as [|tr p e p' _ IH Hst]; [|by eapply invariant_step].
  split; intros *; simpl; rewrite ?lookup_empty; done || unfold times_taken; simpl; lia.
Qed.

(** ** Facts about keys and phases *)

(** Requests of different tenants, or for different chats, never share a key:
    the separator cannot occur in a tenant id. *)
Lemma historyKey_inj t1 c1 t2 c2 :
  has_byte (z_byte 0) t1 = false → has_byte (z_byte 0) t2 = false →
  historyKey t1 c1 = historyKey t2 c2 → t1 = t2 ∧ c1 = c2.
Proof.
  unfold historyKey. intros H1 H2 E.
  pose proof (cut_app (z_byte 0) t1 c1 H1) as E1.
  rewrite E, (cut_app (z_byte 0) t2 c2 H2) in E1. by simplify_eq.
Qed.

Lemma release_other key ch p k :
  k ≠ key → waiters (release key ch p) !! k = waiters p !! k.
Proof.
  intros Hne. unfold release. case_decide; [done|]. simpl. case_decide; [|done].
  by rewrite lookup_delete_ne.
Qed.

Lemma release_later key ch ch' p :
  ch' ≠ ch → waiters p !! key = Some ch' → waiters (release key ch p) !! key = Some ch'.
Proof.
  intros Hne Hw. unfold release. case_decide; [done|]. simpl.
  rewrite decide_False; [done|congruence].
Qed.

Section theorems.

(** C22: under every interleaving a request is answered at most once, a reply that
    was taken for it can always be sent without blocking, and what the caller
    then receives is that reply. *)
Theorem delivery_at_most_once tr p ch :
  reachable tr p →
  times_taken ch tr ≤ 1 ∧
  ∀ d, sending p !! ch = Some d →
    ∃ p1 p2, send ch p = Some p1 ∧ receive ch p1 = Some (d, p2) ∧ receive ch p2 = None.
Proof.
  intros []%invariant_reachable. split; [done|]. intros d Hd.
  destruct (inv_sending0 ch d Hd) as [Hb _].
  eexists _, _. unfold send, receive. rewrite Hd, Hb. split; [done|]. simpl.
  rewrite lookup_insert_eq. split; [done|]. simpl. by rewrite lookup_insert_eq.
Qed.

(** Releasing a request removes it and it alone: no waiter is left on its
    channel, the requests of other keys are untouched, and a later request
    for the same chat, on a channel of its own, keeps waiting. *)
Theorem release_is_own tr p key ch :
  reachable tr p → owners p !! ch = Some key →
  let p' := release key ch p in
  (∀ k, waiters p' !! k ≠ Some ch) ∧
  (∀ k, k ≠ key → waiters p' !! k = waiters p !! k) ∧
  (∀ ch', ch' ≠ ch → waiters p !! key = Some ch' → waiters p' !! key = Some ch').
Proof.
  intros Hinv%invariant_reachable Ho p'. split_and!.
  - intros k. by eapply release_own.
  - intros k. apply release_other.
  - intros ch'. apply release_later.
Qed.
End theorems.

(** ** Witnesses: a timed-out request, a second one, and the late release *)

Definition demo_first : pendingHistory := (register "k" newPendingHistory).2.
Definition demo_taken : pendingHistory :=
  (deliver "k" {| Inserted := 1; Delivered := 2; Oldest := 3 |} demo_first).2.
Definition demo_again : pendingHistory := (register "k" demo_taken).2.

Lemma demo_again_reachable : ∃ tr, reachable tr demo_again.
Proof.
  eexists. eapply reach_step; [eapply reach_step; [eapply reach_step; [apply reach_start|]|]|].
  - apply (step_register "k" newPendingHistory (fresh (dom (buffers newPendingHistory)))). done.
  - apply (step_take "k" (fresh (dom (buffers newPendingHistory)))
             {| Inserted := 1; Delivered := 2; Oldest := 3 |} demo_first demo_taken);
      vm_compute; reflexivity.
  - apply (step_register "k" demo_taken (fresh (dom (buffers demo_taken)))).
    vm_compute. reflexivity.
Qed.

Lemma delivery_at_most_once_witness :
  ∃ ch, sending demo_again !! ch = Some {| Inserted := 1; Delivered := 2; Oldest := 3 |} ∧
    ∃ p1 p2, send ch demo_again = Some p1 ∧
      receive ch p1 = Some ({| Inserted := 1; Delivered := 2; Oldest := 3 |}, p2).
Proof.
  destruct demo_again_reachable as [tr Htr].
  exists (fresh (dom (buffers newPendingHistory))).
  assert (Hs : sending demo_again !! fresh (dom (buffers newPendingHistory)) =
               Some {| Inserted := 1; Delivered := 2; Oldest := 3 |}) by (vm_compute; reflexivity).
  split; [exact Hs|].
  destruct (delivery_at_most_once tr demo_again (fresh (dom (buffers newPendingHistory))) Htr)
    as [_ Hd].
  destruct (Hd _ Hs) as (p1 & p2 & H1 & H2 & _). by exists p1, p2.
Defined.

Lemma release_is_own_witness :
  let ch := fresh (dom (buffers newPendingHistory)) in
  let ch' := fresh (dom (buffers demo_taken)) in
  ch' ≠ ch ∧ waiters demo_again !! "k" = Some ch' ∧
  waiters (release "k" ch demo_again) !! "k" = Some ch'.
Proof.
  destruct demo_again_reachable as [tr Htr].
  split; [vm_compute; discriminate|]. split; [vm_compute; reflexivity|].
  apply (release_is_own tr demo_again "k" (fresh (dom (buffers newPendingHistory))) Htr);
    vm_compute; first [reflexivity|discriminate].
Defined.
