(* ===== verification/WaAddress.v ===== *)
(** * Addresses on the way in ([internal/wa/address.go], [parseJID] in [manager.go])

    The JID type and its operations are whatsmeow's: they are a class, with the
    documented behaviour the gateway relies on as laws.  The gateway's own
    part is the choice of the canonical address. *)

From S2P Require Import Prelude GoText GoUnicode GoEff Address.

(** ** whatsmeow's [types.JID] *)
Class JidOps := {
  JID : Type;
  jid_User : JID → string;
  jid_Server : JID → string;
  ToNonAD : JID → JID;
  jid_String : JID → string;
  IsEmpty : JID → bool;
  ParseJID : string → result JID;
  EmptyJID : JID;
  DefaultUserServer : string;
  HiddenUserServer : string;
  GroupServer : string;
  BroadcastServer : string;
  NewsletterServer : string;
  (** [types.StatusBroadcastJID.User] *)
  StatusBroadcastUser : string;
}.

(** What its documentation says of them. *)
Class JidLaws `{JidOps} := {
  non_ad_idem : ∀ j, ToNonAD (ToNonAD j) = ToNonAD j;
  non_ad_user : ∀ j, jid_User (ToNonAD j) = jid_User j;
  non_ad_server : ∀ j, jid_Server (ToNonAD j) = jid_Server j;
  is_empty : ∀ j, IsEmpty j = bool_decide (jid_Server j = "");
  empty_is_empty : IsEmpty EmptyJID = true;
  string_non_ad : ∀ j, jid_User j ≠ "" →
    jid_String (ToNonAD j) = jid_User j +:+ "@" +:+ jid_Server j;
  (** A dot in a user separates an agent and a colon a device; a user of
      digits alone has neither, and reads back as it is. *)
  parse_number : ∀ u, u ≠ "" → all_bytes is_digit u = true →
    ∃ j, ParseJID (u +:+ "@" +:+ DefaultUserServer) = Ok j ∧ ToNonAD j = j ∧
      jid_User j = u ∧ jid_Server j = DefaultUserServer;
  default_server : DefaultUserServer = phoneServer;
  hidden_server : HiddenUserServer = lidServer;
  servers_distinct : NoDup [DefaultUserServer; HiddenUserServer; GroupServer;
                            BroadcastServer; NewsletterServer];
}.

(** [types.MessageSource] *)
Record MessageSource `{JidOps} := {
  src_Chat : JID;
  src_Sender : JID;
  src_SenderAlt : JID;
  src_RecipientAlt : JID;
  src_IsFromMe : bool;
  src_IsGroup : bool;
}.

Section address.
Context `{JidOps}.

(** [lidResolver]: nil, or [GetPNForLID] *)
Definition lidResolver : Type := option (JID → result JID).

Definition canonicalJID (lids : lidResolver) (jid alt : JID) : JID * bool :=
  if IsEmpty jid then (jid, true)
  else if negb (bool_decide (jid_Server jid = HiddenUserServer)) then (ToNonAD jid, true)
  else if bool_decide (jid_Server alt = DefaultUserServer) && bool_decide (jid_User alt ≠ "")
  then (ToNonAD alt, true)
  else
    let unresolved := (ToNonAD jid, false) in
    match lids with
    | Some GetPNForLID =>
        match GetPNForLID (ToNonAD jid) with
        | Ok pn => if negb (IsEmpty pn) then (ToNonAD pn, true) else unresolved
        | Err _ => unresolved
        end
    | None => unresolved
    end.

Definition chatAlt (source : MessageSource) : JID :=
  if src_IsGroup source then EmptyJID
  else if src_IsFromMe source then src_RecipientAlt source
  else src_SenderAlt source.

(** [notDigits.ReplaceAllString(raw, "")] *)
Fixpoint digits_of (s : string) : string :=
  match s with
  | EmptyString => ""
  | String c s => if is_digit c then String c (digits_of s) else digits_of s
  end.

Definition parseJID (raw : string) : result JID :=
  let raw := TrimSpace raw in
  let invalid := Err (Sentinel ErrInvalidJID) in
  if decide (raw = "") then invalid
  else
    let finish raw :=
      match ParseJID raw with
      | Ok jid => if decide (jid_User jid = "") then invalid else Ok jid
      | Err _ => invalid
      end in
    if has_byte "@" raw then finish raw
    else
      let digits := digits_of raw in
      if decide (digits = "") then invalid
      else finish (digits +:+ "@" +:+ DefaultUserServer).

Definition sendDestination (lids : lidResolver) (toJID : string) : result (JID * bool) :=
  match parseJID toJID with
  | Err e => Err e
  | Ok jid => Ok (canonicalJID lids jid EmptyJID)
  end.

(** ** Facts *)

Context `{!JidLaws}.

Lemma canonicalJID_empty lids jid alt :
  IsEmpty jid = true → canonicalJID lids jid alt = (jid, true).
Proof. unfold canonicalJID. by intros ->. Qed.

Lemma canonicalJID_other lids jid alt :
  IsEmpty jid = false → jid_Server jid ≠ HiddenUserServer →
  canonicalJID lids jid alt = (ToNonAD jid, true).
Proof. unfold canonicalJID. intros -> Hs. by rewrite bool_decide_eq_false_2. Qed.

Lemma hidden_not_empty jid : jid_Server jid = HiddenUserServer → IsEmpty jid = false.
Proof.
  intros Hs. rewrite is_empty. apply bool_decide_eq_false_2. rewrite Hs, hidden_server. done.
Qed.

(** What a lookup answers, when it answers. *)
Definition index_sound (m : gmap string string) (f : JID → result JID) : Prop :=
  ∀ j p, jid_Server j = HiddenUserServer → f j = Ok p →
    match m !! jid_User j with
    | Some pn => jid_User p = pn ∧ jid_Server p = DefaultUserServer
    | None => IsEmpty p = true
    end.

(** The index holds what whatsmeow's table holds, and every lookup answers. *)
Definition index_backed (m : gmap string string) (f : JID → result JID) : Prop :=
  ∀ j, jid_Server j = HiddenUserServer →
    ∃ p, f j = Ok p ∧
      match m !! jid_User j with
      | Some pn => jid_User p = pn ∧ jid_Server p = DefaultUserServer
      | None => IsEmpty p = true
      end.

Lemma index_backed_sound m f : index_backed m f → index_sound m f.
Proof. intros Hf j p Hj E. destruct (Hf j Hj) as (q & Eq & Hq). rewrite Eq in E. by injection E as <-. Qed.

Lemma default_not_empty j : jid_Server j = DefaultUserServer → IsEmpty j = false.
Proof.
  intros Hs. rewrite is_empty. apply bool_decide_eq_false_2. rewrite Hs, default_server. done.
Qed.

Lemma empty_no_alt : bool_decide (jid_Server EmptyJID = DefaultUserServer) = false.
Proof.
  pose proof empty_is_empty as He. rewrite is_empty, bool_decide_eq_true in He.
  rewrite He, default_server. done.
Qed.

(** Folding at the door and folding in the store give one address. *)
Lemma canonicalJID_string m f jid :
  lid_map_ok m → index_backed m f → bare (jid_User jid) → jid_Server jid ≠ "" →
  jid_String (canonicalJID (Some f) jid EmptyJID).1 =
  canonical m (jid_String (ToNonAD jid)).
Proof.
  intros Hm Hf Hu Hs.
  assert (He : IsEmpty jid = false) by (rewrite is_empty; by apply bool_decide_eq_false_2).
  assert (Hstr : jid_String (ToNonAD jid) = jid_User jid +:+ "@" +:+ jid_Server jid)
    by (apply string_non_ad, Hu).
  rewrite Hstr. destruct (decide (jid_Server jid = HiddenUserServer)) as [Hl|Hl].
  - unfold canonicalJID. rewrite He, bool_decide_eq_true_2, empty_no_alt by done. simpl.
    destruct (Hf (ToNonAD jid)) as (p & -> & Hp); [by rewrite non_ad_server|].
    rewrite non_ad_user in Hp. rewrite Hl, hidden_server, canonical_lid.
    destruct (m !! jid_User jid) as [pn|] eqn:Em.
    + destruct Hp as [Hpu Hps]. rewrite (default_not_empty p Hps). simpl.
      destruct (lid_bare _ Hm _ _ Em) as [_ [Hne _]].
      rewrite string_non_ad by congruence. by rewrite Hpu, Hps, default_server.
    + rewrite Hp. simpl. by rewrite Hstr, Hl, hidden_server.
  - rewrite canonicalJID_other by done. simpl. rewrite Hstr.
    destruct (canonical_cases m (jid_User jid +:+ "@" +:+ jid_Server jid))
      as [->|(l & p & Hlp & E & _)]; [done|].
    exfalso. apply Hl. rewrite hidden_server.
    by apply bare_inj in E as [_ ?]; [|done|apply (lid_bare _ Hm l p Hlp)| |].
Qed.

(** The alternative address of an event, when it is used, is the number the
    index has. *)
Definition alt_agrees (m : gmap string string) (jid alt : JID) : Prop :=
  jid_Server jid = HiddenUserServer → jid_Server alt = DefaultUserServer → jid_User alt ≠ "" →
  m !! jid_User jid = Some (jid_User alt).

(** Whatever the door resolves an address to, with or without the index, it
    stays in the conversation of that address. *)
Lemma canonicalJID_conversation m lids jid alt :
  lid_map_ok m → match lids with Some f => index_sound m f | None => True end →
  jid_User jid ≠ "" → jid_Server jid ≠ "" → alt_agrees m jid alt →
  let r := (canonicalJID lids jid alt).1 in
  ToNonAD r = r ∧ canonical m (jid_String r) = canonical m (jid_String (ToNonAD jid)).
Proof.
  intros Hm Hf Hu Hs Ha.
  assert (He : IsEmpty jid = false) by (rewrite is_empty; by apply bool_decide_eq_false_2).
  destruct (decide (jid_Server jid = HiddenUserServer)) as [Hl|Hl].
  2: { rewrite canonicalJID_other by done. simpl. by rewrite non_ad_idem. }
  assert (Hfold : ∀ p, m !! jid_User jid = Some (jid_User p) → jid_Server p = DefaultUserServer →
     canonical m (jid_String (ToNonAD p)) = canonical m (jid_String (ToNonAD jid))).
  { intros p Hp Hps. destruct (lid_bare _ Hm _ _ Hp) as [_ [Hpu _]].
    rewrite !string_non_ad by done. rewrite Hps, Hl, default_server, hidden_server.
    by rewrite canonical_lid, Hp, canonical_phone. }
  unfold canonicalJID. rewrite He, (bool_decide_eq_true_2 _ Hl). simpl.
  destruct (bool_decide (jid_Server alt = DefaultUserServer) && bool_decide (jid_User alt ≠ ""))
    eqn:Ealt; simpl.
  { break. rewrite non_ad_idem. split; [done|]. by apply Hfold; [apply Ha|]. }
  assert (Hself : ToNonAD (ToNonAD jid) = ToNonAD jid) by apply non_ad_idem.
  destruct lids as [f|]; [|done].
  destruct (f (ToNonAD jid)) as [p|e] eqn:Ef; [|done].
  assert (Hp := Hf (ToNonAD jid) p). rewrite non_ad_server, non_ad_user in Hp.
  specialize (Hp Hl Ef). destruct (m !! jid_User jid) as [pn|] eqn:Em.
  - destruct Hp as [Hpu Hps]. rewrite (default_not_empty p Hps). simpl. rewrite non_ad_idem.
    split; [done|]. apply Hfold; [by rewrite Hpu|done].
  - by rewrite Hp.
Qed.

Lemma digits_of_digits s : all_bytes is_digit (digits_of s) = true.
Proof.
  induction s as [|c s IH]; simpl; [done|].
  destruct (is_digit c) eqn:E; simpl; by rewrite ?E.
Qed.

Section theorems.

(** The canonical address of a person is never invented.  It has no device
    suffix; it is the address itself, the phone number the event carried or
    the one the index knows; and an address that nothing resolves keeps its
    own LID and is reported as not canonical. *)
Theorem canonicalJID_never_invents lids jid alt :
  let '(r, ok) := canonicalJID lids jid alt in
  (IsEmpty jid = true → r = jid) ∧
  (IsEmpty jid = false →
     ToNonAD r = r ∧
     (jid_Server jid ≠ HiddenUserServer → r = ToNonAD jid ∧ ok = true) ∧
     (ok = false → r = ToNonAD jid ∧ jid_Server r = HiddenUserServer) ∧
     (ok = true → jid_Server jid = HiddenUserServer →
        (r = ToNonAD alt ∧ jid_Server alt = DefaultUserServer) ∨
        ∃ f pn, lids = Some f ∧ f (ToNonAD jid) = Ok pn ∧ r = ToNonAD pn)).
Proof.
  unfold canonicalJID. destruct (IsEmpty jid) eqn:He; [done|].
  destruct (decide (jid_Server jid = HiddenUserServer)) as [Hl|Hl].
  - rewrite (bool_decide_eq_true_2 _ Hl). simpl.
    destruct (bool_decide (jid_Server alt = _) && _) eqn:Ea; simpl.
    { break. split; [done|]. intros _. rewrite non_ad_idem. naive_solver. }
    assert (Hun : ToNonAD (ToNonAD jid) = ToNonAD jid) by apply non_ad_idem.
    assert (Hsv : jid_Server (ToNonAD jid) = HiddenUserServer) by (by rewrite non_ad_server).
    destruct lids as [f|]; [|naive_solver].
    destruct (f (ToNonAD jid)) as [pn|e] eqn:Ef; [|naive_solver].
    destruct (IsEmpty pn) eqn:Ep; simpl; [naive_solver|].
    split; [done|]. intros _. rewrite non_ad_idem. naive_solver.
  - rewrite (bool_decide_eq_false_2 _ Hl). simpl. rewrite non_ad_idem. naive_solver.
Qed.

(** The address a message is filed under when it is written is the address
    the store's queries fold that JID to: with the resolver and the queries
    reading the same index, writing and reading agree on every conversation. *)
Theorem writing_and_reading_agree m f jid :
  lid_map_ok m → index_backed m f → bare (jid_User jid) → jid_Server jid ≠ "" →
  let filed := jid_String (canonicalJID (Some f) jid EmptyJID).1 in
  filed = canonical m (jid_String (ToNonAD jid)) ∧ canonical m filed = filed.
Proof.
  intros Hm Hf Hu Hs. simpl. rewrite (canonicalJID_string m f) by done.
  split; [done|apply canonical_idem].
Qed.

(** A destination without an at-sign is a phone number: it is accepted
    exactly when it holds a digit, whatever spaces, signs and letters surround
    the digits, and means that number on the user server.  A destination with
    one is whatsmeow's to parse, untouched.  No accepted address lacks a user. *)
Theorem parseJID_destination raw :
  (has_byte "@" (TrimSpace raw) = false →
     (digits_of (TrimSpace raw) = "" → parseJID raw = Err (Sentinel ErrInvalidJID)) ∧
     (digits_of (TrimSpace raw) ≠ "" → ∃ j, parseJID raw = Ok j ∧
        jid_User j = digits_of (TrimSpace raw) ∧ jid_Server j = DefaultUserServer)) ∧
  (has_byte "@" (TrimSpace raw) = true → ∀ j, parseJID raw = Ok j →
     ParseJID (TrimSpace raw) = Ok j) ∧
  (∀ j, parseJID raw = Ok j → jid_User j ≠ "") ∧
  (∀ e, parseJID raw = Err e → e = Sentinel ErrInvalidJID).
Proof.
  unfold parseJID. split_and!.
  - intros Hat. rewrite Hat. split; intros Hd.
    + case_decide; [done|]. by rewrite decide_True.
    + rewrite decide_False by (intros E; by rewrite E in Hd).
      rewrite decide_False by done.
      destruct (parse_number (digits_of (TrimSpace raw)) Hd (digits_of_digits _))
        as (j & -> & _ & Hu & Hs).
      rewrite decide_False by congruence. eauto.
  - intros Hat j. rewrite Hat. case_decide; [done|].
    destruct (ParseJID (TrimSpace raw)); [|done]. case_decide; [done|]. by intros [= ->].
  - intros j. repeat (case_decide || case_match); try done; by intros [= <-].
  - intros e. repeat (case_decide || case_match); try done; by intros [= <-].
Qed.
End theorems.
End address.

(** ** A concrete address type

    A user and a device, without whatsmeow's agent: a user with a dot in it,
    which whatsmeow reads as user and agent or refuses, is refused. *)

Record plain_jid := PlainJID { pj_user : string; pj_device : string; pj_server : string }.

Definition plain_string (j : plain_jid) : string :=
  if decide (pj_user j = "") then pj_server j
  else pj_user j +:+ (if decide (pj_device j = "") then "" else ":" +:+ pj_device j)
       +:+ "@" +:+ pj_server j.

Definition plain_parse (s : string) : result plain_jid :=
  match cut "@" s with
  | None => Ok (PlainJID "" "" s)
  | Some (u, server) =>
      if has_byte "@" server then Err (External "too many at-signs")
      else if has_byte "." u then Err (External "no agents here")
      else match cut ":" u with
           | Some (u, device) => Ok (PlainJID u device server)
           | None => Ok (PlainJID u "" server)
           end
  end.

Definition plain_jids : JidOps :=
  {| JID := plain_jid; jid_User := pj_user; jid_Server := pj_server;
     ToNonAD j := PlainJID (pj_user j) "" (pj_server j);
     jid_String := plain_string;
     IsEmpty j := bool_decide (pj_server j = "");
     ParseJID := plain_parse; EmptyJID := PlainJID "" "" "";
     DefaultUserServer := "s.whatsapp.net"; HiddenUserServer := "lid";
     GroupServer := "g.us"; BroadcastServer := "broadcast";
     NewsletterServer := "newsletter"; StatusBroadcastUser := "status" |}.

Lemma plain_laws : JidLaws (H := plain_jids).
Proof.
  split; simpl; try done.
  - intros [u d s] Hu. unfold plain_string. simpl in *. by rewrite decide_False.
  - intros u Hu Hd. unfold plain_parse.
    change ("@" +:+ "s.whatsapp.net") with (String "@" "s.whatsapp.net").
    assert (Hno : ∀ c, is_digit c = false → has_byte c u = false)
      by (intros c Hc; by eapply has_byte_all, Hd).
    rewrite cut_app, !Hno by (done || by apply Hno). simpl.
    rewrite (proj2 (cut_None ":" u)) by by apply Hno. by eexists.
  - by_decide.
Qed.

(** An index that knows one person. *)
Definition plain_index (m : gmap string string) (j : plain_jid) : result plain_jid :=
  match m !! pj_user j with
  | Some pn => Ok (PlainJID pn "" "s.whatsapp.net")
  | None => Ok (PlainJID "" "" "")
  end.

Lemma plain_index_backed m : index_backed (H := plain_jids) m (plain_index m).
Proof.
  intros j _. unfold plain_index. simpl. destruct (m !! pj_user j); by eexists.
Qed.

Definition one_person : gmap string string := {["15285906083900" := "573004725680"]}.

Lemma one_person_ok : lid_map_ok one_person.
Proof.
  unfold one_person. split.
  - intros l p [<- <-]%lookup_singleton_Some. unfold bare. by_decide.
  - intros l k p [<- <-]%lookup_singleton_Some [<- _]%lookup_singleton_Some. done.
Qed.

Lemma canonicalJID_never_invents_witness :
  let lid := PlainJID "999" "7" "lid" in
  canonicalJID (H := plain_jids) (Some (plain_index one_person)) lid (PlainJID "" "" "")
  = (PlainJID "999" "" "lid", false) ∧ PlainJID "999" "" "lid" = ToNonAD (JidOps := plain_jids) lid.
Proof.
  pose proof (canonicalJID_never_invents (H := plain_jids) (H0 := plain_laws)
    (Some (plain_index one_person)) (PlainJID "999" "7" "lid") (PlainJID "" "" "")) as Hc.
  split; [vm_compute; reflexivity|].
  change (canonicalJID _ _ _) with (PlainJID "999" "" "lid", false) in Hc.
  destruct Hc as [_ Hc]. destruct Hc as (_ & _ & Hf & _); [vm_compute; reflexivity|].
  by destruct Hf.
Defined.

Lemma writing_and_reading_agree_witness :
  let jid := PlainJID "15285906083900" "3" "lid" in
  jid_String (JidOps := plain_jids)
    (canonicalJID (H := plain_jids) (Some (plain_index one_person)) jid (PlainJID "" "" "")).1 =
  "573004725680@s.whatsapp.net" ∧
  canonical one_person "15285906083900@lid" = "573004725680@s.whatsapp.net".
Proof.
  split; [vm_compute; reflexivity|].
  destruct (writing_and_reading_agree (H := plain_jids) (H0 := plain_laws) one_person
    (plain_index one_person) (PlainJID "15285906083900" "3" "lid")
    one_person_ok (plain_index_backed one_person)) as [E _].
  - unfold bare. by_decide.
  - done.
  - symmetry. exact E.
Defined.

Lemma parseJID_destination_witness :
  ∃ j, parseJID (H := plain_jids) " +57 300-472 5680" = Ok j ∧ pj_user j = "573004725680".
Proof.
  destruct (parseJID_destination (H := plain_jids) (H0 := plain_laws)
    " +57 300-472 5680") as (Hd & _).
  destruct (Hd eq_refl) as [_ Hj]. destruct Hj as (j & Hj & Hu & _); [vm_compute; discriminate|].
  exists j. split; [exact Hj|exact Hu].
Defined.
