(* ===== verification/MediaReference.v ===== *)
(** * What a message carries ([internal/wa/media_reference.go], [extractText])

    A WhatsApp message as the fields the gateway reads of the protobuf, the
    reference to its attachment and its text. *)

From S2P Require Import Prelude GoText GoUnicode GoEff Models.

(** ** The message ([waE2E.Message])

    A wrapper is present or absent, and its inner message may be nil. *)
Record media_part := {
  part_Mimetype : string;
  part_FileLength : Z;              (* uint64 *)
  part_DirectPath : string;
  part_MediaKey : option string;
  part_FileEncSHA256 : option string;
  part_FileSHA256 : option string;
  part_Caption : string;
  part_PTT : bool;
  part_GifPlayback : bool;
}.

#[local] Set Warnings "-register-all".

Inductive wa_message := WaMessage {
  ephemeral : option (option wa_message);
  view_once : option (option wa_message);
  view_once_v2 : option (option wa_message);
  view_once_v2_ext : option (option wa_message);
  document_with_caption : option (option wa_message);
  conversation_text : string;
  extended_text : option string;
  image : option media_part;
  sticker : option media_part;
  document : option media_part;
  audio : option media_part;
  video : option media_part;
  contact : bool;
  location : bool;
  live_location : bool;
}.

Inductive part_kind := ImagePart | StickerPart | DocumentPart | AudioPart | VideoPart.

(** ** whatsmeow's media types: key-derivation labels, and the one of a part *)
Class MediaTypes := {
  MediaImage : string;
  MediaAudio : string;
  MediaVideo : string;
  MediaDocument : string;
  GetMediaType : part_kind → string;
}.

(** A sticker is an image to the media servers; the labels differ. *)
Class MediaTypeLaws `{MediaTypes} := {
  labels_distinct : NoDup [MediaImage; MediaAudio; MediaVideo; MediaDocument];
  label_of : ∀ k, GetMediaType k = match k with
    | ImagePart | StickerPart => MediaImage
    | AudioPart => MediaAudio
    | VideoPart => MediaVideo
    | DocumentPart => MediaDocument
    end;
  labels_not_empty : MediaImage ≠ "" ∧ MediaAudio ≠ "" ∧ MediaVideo ≠ "" ∧ MediaDocument ≠ "";
}.

Record mediaRef := {
  f_MediaType : string;
  f_MMSType : string;
  f_MimeType : string;
  f_DirectPath : string;
  f_MediaKey : option string;
  f_FileEncSHA256 : option string;
  f_FileSHA256 : option string;
  f_FileLength : Z;                 (* int64 *)
}.

Definition no_media : mediaRef :=
  {| f_MediaType := ""; f_MMSType := ""; f_MimeType := ""; f_DirectPath := "";
     f_MediaKey := None; f_FileEncSHA256 := None; f_FileSHA256 := None; f_FileLength := 0 |}.

Definition type_only (t : string) : mediaRef :=
  {| f_MediaType := t; f_MMSType := ""; f_MimeType := ""; f_DirectPath := "";
     f_MediaKey := None; f_FileEncSHA256 := None; f_FileSHA256 := None; f_FileLength := 0 |}.

Definition downloadable (r : mediaRef) : bool := bool_decide (f_DirectPath r ≠ "").

(** The conversion [int64(length)] of an unsigned 64-bit number. *)
Definition int64 (z : Z) : Z := if decide (z < 2 ^ 63)%Z then z else (z - 2 ^ 64)%Z.

Section reference.
Context `{MediaTypes}.

Definition mmsTypeFor (mediaType : string) : string :=
  if decide (mediaType = MediaImage) then "image"
  else if decide (mediaType = MediaAudio) then "audio"
  else if decide (mediaType = MediaVideo) then "video"
  else if decide (mediaType = MediaDocument) then "document"
  else "".

(** [mediaTypeFor] of [internal/wa/media.go] *)
Definition mediaTypeFor `{Unicode} (mmsType : string) : string :=
  let t := ToLower (TrimSpace mmsType) in
  if decide (t = "image") then MediaImage
  else if decide (t = "audio") then MediaAudio
  else if decide (t = "video") then MediaVideo
  else if decide (t = "document") then MediaDocument
  else "".

Definition downloadRef (mediaType : string) (kind : part_kind) (part : media_part) : mediaRef :=
  {| f_MediaType := mediaType;
     f_MMSType := mmsTypeFor (GetMediaType kind);
     f_MimeType := part_Mimetype part;
     f_DirectPath := part_DirectPath part;
     f_MediaKey := part_MediaKey part;
     f_FileEncSHA256 := part_FileEncSHA256 part;
     f_FileSHA256 := part_FileSHA256 part;
     f_FileLength := int64 (part_FileLength part) |}.

(** The cases after the wrappers. *)
Definition attachment (m : wa_message) : mediaRef :=
  match image m, sticker m, document m, audio m, video m with
  | Some p, _, _, _, _ => downloadRef "image" ImagePart p
  | _, Some p, _, _, _ => downloadRef "sticker" StickerPart p
  | _, _, Some p, _, _ => downloadRef "document" DocumentPart p
  | _, _, _, Some p, _ => downloadRef (if part_PTT p then "ptt" else "audio") AudioPart p
  | _, _, _, _, Some p => downloadRef (if part_GifPlayback p then "gif" else "video") VideoPart p
  | _, _, _, _, _ =>
      if contact m then type_only "vcard"
      else if location m || live_location m then type_only "location"
      else no_media
  end.

(** [mediaReference] of a message that is not nil. *)
Fixpoint mediaReference (m : wa_message) : mediaRef :=
  match ephemeral m, view_once m, view_once_v2 m, view_once_v2_ext m,
        document_with_caption m with
  | Some o, _, _, _, _ => match o with Some m => mediaReference m | None => no_media end
  | _, Some o, _, _, _ => match o with Some m => mediaReference m | None => no_media end
  | _, _, Some o, _, _ => match o with Some m => mediaReference m | None => no_media end
  | _, _, _, Some o, _ => match o with Some m => mediaReference m | None => no_media end
  | _, _, _, _, Some o => match o with Some m => mediaReference m | None => no_media end
  | _, _, _, _, _ => attachment m
  end.

Definition mediaReference_opt (m : option wa_message) : mediaRef :=
  match m with Some m => mediaReference m | None => no_media end.

Definition historyMediaType (m : option wa_message) : string :=
  f_MediaType (mediaReference_opt m).

(** [extractText] of [internal/wa/manager.go]; it looks into no wrapper. *)
Definition extractText (m : option wa_message) : string :=
  match m with
  | None => ""
  | Some m =>
      if decide (conversation_text m ≠ "") then conversation_text m
      else match extended_text m, image m, video m, document m with
           | Some t, _, _, _ => t
           | _, Some p, _, _ => part_Caption p
           | _, _, Some p, _ => part_Caption p
           | _, _, _, Some p => part_Caption p
           | _, _, _, _ => ""
           end
  end.

Definition not_blank (s : string) : option string := if decide (s = "") then None else Some s.

(** [applyMediaReference]: the columns of the row about to be stored. *)
Definition applyMediaReference (m : Message) (ref : mediaRef) : Message :=
  let mediaType := if decide (f_MediaType ref = "") then m_MediaType m
                   else Some (f_MediaType ref) in
  let down := downloadable ref in
  let either {A} (a b : A) := if down then a else b in
  {| m_ID := m_ID m; m_TenantID := m_TenantID m; m_ChatJID := m_ChatJID m;
     m_SenderJID := m_SenderJID m; m_WAMessageID := m_WAMessageID m;
     m_Direction := m_Direction m; m_Body := m_Body m;
     m_MediaType := mediaType; m_MediaPath := m_MediaPath m;
     m_DirectPath := either (Some (f_DirectPath ref)) (m_DirectPath m);
     m_MediaKey := either (f_MediaKey ref) (m_MediaKey m);
     m_FileEncSHA256 := either (f_FileEncSHA256 ref) (m_FileEncSHA256 m);
     m_FileSHA256 := either (f_FileSHA256 ref) (m_FileSHA256 m);
     m_MMSType := if down && bool_decide (f_MMSType ref ≠ "") then Some (f_MMSType ref)
                  else m_MMSType m;
     m_FileLength := if down && bool_decide (0 < f_FileLength ref)%Z
                     then Some (f_FileLength ref) else m_FileLength m;
     m_MimeType := if down && bool_decide (f_MimeType ref ≠ "") then Some (f_MimeType ref)
                   else m_MimeType m;
     m_MediaStatus := m_MediaStatus m; m_MediaError := m_MediaError m;
     m_MediaFetchedAt := m_MediaFetchedAt m;
     m_Timestamp := m_Timestamp m; m_CreatedAt := m_CreatedAt m |}.

(** ** What is carried *)

(** The wrapper a message is, if it is one; its inner message may be nil. *)
Definition wrapper (m : wa_message) : option (option wa_message) :=
  match ephemeral m, view_once m, view_once_v2 m, view_once_v2_ext m,
        document_with_caption m with
  | Some o, _, _, _, _ | _, Some o, _, _, _ | _, _, Some o, _, _
  | _, _, _, Some o, _ | _, _, _, _, Some o => Some o
  | _, _, _, _, _ => None
  end.

(** [w] carries [m] under any number of wrappers. *)
Inductive carries : wa_message → wa_message → Prop :=
  | carries_itself m : wrapper m = None → carries m m
  | carries_inside w w' m : wrapper w = Some (Some w') → carries w' m → carries w m.

(** The attachment of an unwrapped message. *)
Definition part_of (m : wa_message) : option (part_kind * media_part) :=
  match image m, sticker m, document m, audio m, video m with
  | Some p, _, _, _, _ => Some (ImagePart, p)
  | _, Some p, _, _, _ => Some (StickerPart, p)
  | _, _, Some p, _, _ => Some (DocumentPart, p)
  | _, _, _, Some p, _ => Some (AudioPart, p)
  | _, _, _, _, Some p => Some (VideoPart, p)
  | _, _, _, _, _ => None
  end.

Lemma mediaReference_carries w m : carries w m → mediaReference w = attachment m.
Proof.
  induction 1 as [m Hm|w w' m Hw _ IH].
  - destruct m. unfold wrapper in Hm. simpl in *. by repeat case_match.
  - rewrite <- IH. destruct w. unfold wrapper in Hw. simpl in *. repeat case_match; by simplify_eq.
Qed.

Lemma attachment_part m k p :
  part_of m = Some (k, p) → ∃ t, t ≠ "" ∧ attachment m = downloadRef t k p.
Proof.
  unfold part_of, attachment. intros H0.
  destruct (image m); [simplify_eq; eexists; split; [|reflexivity]; done|].
  destruct (sticker m); [simplify_eq; eexists; split; [|reflexivity]; done|].
  destruct (document m); [simplify_eq; eexists; split; [|reflexivity]; done|].
  destruct (audio m) as [q|]; [simplify_eq; exists (if part_PTT p then "ptt" else "audio");
    split; [by case_match|done]|].
  destruct (video m) as [q|]; [|done]. simplify_eq.
  exists (if part_GifPlayback p then "gif" else "video"). split; [by case_match|done].
Qed.

Lemma attachment_no_part m : part_of m = None → downloadable (attachment m) = false.
Proof. unfold part_of, attachment. repeat case_match; done. Qed.

Context `{!MediaTypeLaws} `{Unicode}.

(** The CDN type stored for a part. *)
Definition mms_of (k : part_kind) : string :=
  match k with
  | ImagePart | StickerPart => "image"
  | AudioPart => "audio"
  | VideoPart => "video"
  | DocumentPart => "document"
  end.

Lemma mmsTypeFor_label k : mmsTypeFor (GetMediaType k) = mms_of k.
Proof.
  pose proof labels_distinct as Hd. rewrite !NoDup_cons, !not_elem_of_cons in Hd.
  destruct Hd as ((?&?&?&_)&(?&?&_)&(?&_)&_).
  unfold mmsTypeFor. rewrite (label_of k).
  destruct k; simpl; repeat (case_decide; [first [done|congruence]|]); congruence.
Qed.

Lemma mediaTypeFor_exact t :
  t ∈ ["image"; "audio"; "video"; "document"] → ToLower (TrimSpace t) = t.
Proof.
  intros Ht. repeat (apply elem_of_cons in Ht as [->|Ht];
    [rewrite ToLower_ascii by (vm_compute; reflexivity); vm_compute; reflexivity|]).
  by apply elem_of_nil in Ht.
Qed.

(** The label a stored CDN type is read back as. *)
Lemma mediaTypeFor_mms k : mediaTypeFor (mmsTypeFor (GetMediaType k)) = GetMediaType k.
Proof.
  rewrite mmsTypeFor_label, (label_of k). unfold mediaTypeFor.
  rewrite mediaTypeFor_exact by (destruct k; simpl; set_solver).
  destruct k; reflexivity.
Qed.

(** A row as the two write paths hand it to [applyMediaReference]. *)
Definition fresh_row (m : Message) : Prop :=
  m_MediaType m = None ∧ m_DirectPath m = None ∧ m_MediaKey m = None ∧
  m_FileEncSHA256 m = None ∧ m_FileSHA256 m = None ∧ m_MMSType m = None ∧
  m_FileLength m = None ∧ m_MimeType m = None.

(** Whatever wrappers a message travels in (ephemeral, view-once in its
    three versions, document with caption, in any nesting), the row stores
    the reference of the attachment inside: everything a later download needs
    comes back out of the row, the key-derivation label included.  A message
    without a downloadable part leaves no reference. *)
Theorem reference_stored w m row :
  carries w m → fresh_row row →
  let row' := applyMediaReference row (mediaReference w) in
  match part_of m with
  | Some (k, p) =>
      m_MediaType row' ≠ None ∧
      if decide (part_DirectPath p = "") then HasMediaReference row' = false
      else HasMediaReference row' = true ∧
        m_DirectPath row' = Some (part_DirectPath p) ∧
        m_MediaKey row' = part_MediaKey p ∧
        m_FileEncSHA256 row' = part_FileEncSHA256 p ∧
        m_FileSHA256 row' = part_FileSHA256 p ∧
        mediaTypeFor (default "" (m_MMSType row')) = GetMediaType k ∧
        ((0 < part_FileLength p < 2 ^ 63)%Z → m_FileLength row' = Some (part_FileLength p))
  | None => HasMediaReference row' = false
  end.
Proof.
  intros Hc (Ht & Hd & Hk & He & Hs & Hm & Hl & Hmi). simpl.
  rewrite (mediaReference_carries w m Hc).
  destruct (part_of m) as [[k p]|] eqn:Ep.
  - destruct (attachment_part m k p Ep) as (t & Hne & ->).
    pose proof (mediaTypeFor_mms k) as Hlab.
    assert (Hmms : bool_decide (mmsTypeFor (GetMediaType k) ≠ "") = true)
      by (apply bool_decide_eq_true_2; rewrite mmsTypeFor_label; by destruct k).
    unfold applyMediaReference, HasMediaReference, downloadable. simpl.
    rewrite decide_False by done. split; [done|].
    destruct (decide (part_DirectPath p = "")) as [Hp|Hp].
    + rewrite Hp, bool_decide_eq_false_2 by naive_solver. by rewrite Hd.
    + rewrite (bool_decide_eq_true_2 (part_DirectPath p ≠ "")) by done.
      rewrite Hmms. simpl. rewrite bool_decide_eq_true_2 by done.
      split_and!; try done. intros Hlen. unfold int64. rewrite decide_True by lia.
      by rewrite bool_decide_eq_true_2 by lia.
  - unfold applyMediaReference, HasMediaReference. simpl.
    by rewrite (attachment_no_part m Ep), Hd.
Qed.

(** The text is looked for outside every wrapper: an ephemeral or view-once
    message stored by the history path has an empty body. *)
Theorem wrapped_text_lost w w' m :
  wrapper w = Some (Some w') → carries w' m →
  conversation_text w = "" → extended_text w = None → image w = None → video w = None →
  document w = None →
  extractText (Some w) = "".
Proof.
  intros _ _ Hc Hx Hi Hv Hd. unfold extractText. rewrite Hc, Hx, Hi, Hv, Hd. done.
Qed.
End reference.

(** A declared length of 2^63 bytes or more is stored as unknown. *)
Lemma huge_length_unknown `{MediaTypes} row t k p :
  (2 ^ 63 <= part_FileLength p < 2 ^ 64)%Z → m_FileLength row = None →
  m_FileLength (applyMediaReference row (downloadRef t k p)) = None.
Proof.
  intros Hlen Hrow. unfold applyMediaReference. simpl. unfold int64.
  rewrite decide_False by lia. rewrite (bool_decide_eq_false_2 (0 < _)%Z) by lia.
  by rewrite andb_false_r.
Qed.

(** ** A concrete instance *)

Definition plain_media : MediaTypes :=
  {| MediaImage := "WhatsApp Image Keys"; MediaAudio := "WhatsApp Audio Keys";
     MediaVideo := "WhatsApp Video Keys"; MediaDocument := "WhatsApp Document Keys";
     GetMediaType k := match k with
       | ImagePart | StickerPart => "WhatsApp Image Keys"
       | AudioPart => "WhatsApp Audio Keys"
       | VideoPart => "WhatsApp Video Keys"
       | DocumentPart => "WhatsApp Document Keys"
       end |}.

Lemma plain_media_laws : MediaTypeLaws (H := plain_media).
Proof. split; [by_decide|by intros []|done]. Qed.

Definition plain_message : wa_message :=
  WaMessage None None None None None "" None None None None None None false false false.

Definition voice_note : media_part :=
  {| part_Mimetype := "audio/ogg; codecs=opus"; part_FileLength := 4096;
     part_DirectPath := "/v/t62"; part_MediaKey := Some "key"; part_FileEncSHA256 := Some "e";
     part_FileSHA256 := Some "s"; part_Caption := ""; part_PTT := true;
     part_GifPlayback := false |}.

Definition audio_message : wa_message :=
  WaMessage None None None None None "" None None None None (Some voice_note) None
    false false false.

(** A view-once voice note in an ephemeral chat. *)
Definition wrapped_note : wa_message :=
  WaMessage (Some (Some (WaMessage None None (Some (Some audio_message)) None None "" None None
                           None None None None false false false)))
    None None None None "" None None None None None None false false false.

Definition blank_row : Message :=
  {| m_ID := "i"; m_TenantID := "t"; m_ChatJID := "c"; m_SenderJID := "s";
     m_WAMessageID := "w"; m_Direction := "in"; m_Body := ""; m_MediaType := None;
     m_MediaPath := None; m_DirectPath := None; m_MediaKey := None;
     m_FileEncSHA256 := None; m_FileSHA256 := None; m_MMSType := None;
     m_FileLength := None; m_MimeType := None; m_MediaStatus := None; m_MediaError := None;
     m_MediaFetchedAt := None; m_Timestamp := 0; m_CreatedAt := 0 |}.

Lemma reference_stored_witness :
  let row := applyMediaReference blank_row
               (mediaReference (H := plain_media) wrapped_note) in
  HasMediaReference row = true ∧ m_DirectPath row = Some "/v/t62" ∧
  m_FileLength row = Some 4096%Z.
Proof.
  destruct (reference_stored (H := plain_media) (H0 := plain_media_laws)
    (H1 := ascii_unicode) wrapped_note audio_message blank_row) as [_ Hr].
  - eapply carries_inside; [reflexivity|]. eapply carries_inside; [reflexivity|].
    by apply carries_itself.
  - unfold fresh_row. split_and!; reflexivity.
  - simpl in Hr. destruct Hr as (H1 & H2 & _ & _ & _ & _ & H3).
    split; [exact H1|]. split; [exact H2|]. apply H3. lia.
Defined.
