(* ===== verification/MediaPath.v ===== *)
(** * Where an attachment is written ([mediaPathFor] in [internal/wa/media.go])

    The path is built from identifiers that arrive from the network.  Go's
    [path/filepath] is modelled on segments: [Clean], [Join] and [Rel] of a
    Unix system. *)

From S2P Require Import Prelude GoText GoUnicode GoEff Sha256.

Implicit Types (s t p root : string) (segs : list string).

(** ** [path/filepath] *)

(** One element of [Clean], on the stack of the elements kept so far. *)
Definition clean_step (rooted : bool) (stack : list string) s : list string :=
  if decide (s = "" ∨ s = ".") then stack
  else if decide (s = "..") then
    match stack with
    | top :: rest =>
        if decide (top = "..") then ".." :: stack else rest
    | [] => if rooted then [] else [".."]
    end
  else s :: stack.

Definition is_rooted p : bool := has_prefix "/" p.

Definition clean_parts p : list string :=
  rev (fold_left (clean_step (is_rooted p)) (split_on "/" p) []).

Definition render (rooted : bool) segs : string :=
  let out := join_with "/" segs in
  if rooted then "/" +:+ out else if decide (out = "") then "." else out.

Definition Clean p : string := render (is_rooted p) (clean_parts p).

Definition Join2 p q : string :=
  if decide (p = "") then (if decide (q = "") then "" else Clean q)
  else Clean (p +:+ "/" +:+ q).

(** [filepath.Dir] *)
Definition Dir (p : string) : string :=
  render (is_rooted p)
    (rev (fold_left (clean_step (is_rooted p)) (removelast (split_on "/" p)) [])).

(** [filepath.Rel] of two cleaned paths, on their segments: an error, or the
    segments of the relative path. *)
Fixpoint rel_parts (base targ : list string) : option (list string) :=
  match base, targ with
  | [], _ => Some targ
  | b :: base', t :: targ' =>
      if decide (b = t) then rel_parts base' targ'
      else if decide (b = "..") then None
      else Some (replicate (length base) ".." ++ targ)
  | b :: _, [] =>
      if decide (b = "..") then None else Some (replicate (length base) "..")
  end.

Definition Rel basepath targpath : option (list string) :=
  if Bool.eqb (is_rooted basepath) (is_rooted targpath)
  then rel_parts (clean_parts basepath) (clean_parts targpath)
  else None.

(** [withinDir]: the relative path does not start with a parent segment. *)
Definition withinDir dir path : bool :=
  match Rel dir path with
  | Some (first :: _) => negb (bool_decide (first = ".."))
  | Some [] => true
  | None => false
  end.

(** ** The path of an attachment *)

Definition maxTenantSegment : nat := 64.

Definition is_tenant_char (c : ascii) : bool :=
  is_lower_ascii c || is_upper_ascii c || is_digit c ||
  bool_decide (c = "-"%char ∨ c = "_"%char ∨ c = "."%char).

Definition safeTenantSegment t : bool :=
  if decide (t = "" ∨ maxTenantSegment < String.length t) then false
  else if decide (t = "." ∨ t = ".." ∨ contains ".." t = true) then false
  else all_bytes is_tenant_char t.

Definition mediaExtensions : gmap string string :=
  list_to_map
    [("image/jpeg", ".jpg"); ("image/png", ".png"); ("image/webp", ".webp");
     ("image/gif", ".gif"); ("audio/ogg", ".ogg"); ("audio/opus", ".opus");
     ("audio/mpeg", ".mp3"); ("audio/mp4", ".m4a"); ("audio/aac", ".aac");
     ("audio/amr", ".amr"); ("audio/wav", ".wav"); ("video/mp4", ".mp4");
     ("video/3gpp", ".3gp"); ("video/quicktime", ".mov"); ("video/webm", ".webm");
     ("application/pdf", ".pdf")].

Section mediapath.
Context `{Unicode}.

Definition mediaExtension (mimeType : string) : string :=
  let base := match cut ";" mimeType with Some (b, _) => b | None => mimeType end in
  match mediaExtensions !! ToLower (TrimSpace base) with
  | Some ext => ext
  | None => ".bin"
  end.

Definition mediaFileName (messageID mimeType : string) : string :=
  sha256_hex messageID +:+ mediaExtension mimeType.

Definition mediaPathFor root (tenantID messageID mimeType : string) : result string :=
  if decide (TrimSpace root = "") then Err (Sentinel ErrUnsafeMediaPath)
  else if negb (safeTenantSegment tenantID) then Err (Sentinel ErrUnsafeMediaPath)
  else if decide (TrimSpace messageID = "") then Err (Sentinel ErrUnsafeMediaPath)
  else
    let name := mediaFileName messageID mimeType in
    let dir := Join2 root tenantID in
    let path := Join2 dir name in
    if negb (withinDir dir path) then Err (Sentinel ErrUnsafeMediaPath) else Ok path.
End mediapath.

(** ** Segments *)

(** A segment that [Clean] keeps. *)
Definition ordinary s : Prop := s ≠ "" ∧ s ≠ "." ∧ s ≠ ".." ∧ has_byte "/" s = false.

Lemma clean_step_ordinary r stack s : ordinary s → clean_step r stack s = s :: stack.
Proof.
  intros (H1 & H2 & H3 & _). unfold clean_step.
  rewrite decide_False by naive_solver. by rewrite decide_False.
Qed.

Lemma split_on_nonempty c s : split_on c s ≠ [].
Proof. destruct s as [|d s]; simpl; [done|]. case_decide; [done|]. by case_match. Qed.

Lemma split_on_join p s : split_on "/" (p +:+ String "/" s) = split_on "/" p ++ split_on "/" s.
Proof.
  induction p as [|c p IH]; simpl.
  - done.
  - rewrite IH. case_decide; [done|]. pose proof (split_on_nonempty "/" p).
    by destruct (split_on "/" p) eqn:E.
Qed.

Lemma is_rooted_app p s : p ≠ "" → is_rooted (p +:+ s) = is_rooted p.
Proof.
  intros Hp. destruct p as [|c p]; [done|].
  unfold is_rooted, has_prefix. rewrite sapp_cons. simpl. by repeat case_decide.
Qed.

(** Joining an ordinary segment appends it. *)
Lemma clean_parts_join p s :
  p ≠ "" → ordinary s →
  is_rooted (p +:+ "/" +:+ s) = is_rooted p ∧
  clean_parts (p +:+ "/" +:+ s) = clean_parts p ++ [s].
Proof.
  intros Hp Hs. split; [by apply is_rooted_app|].
  unfold clean_parts. rewrite is_rooted_app by done.
  change ("/" +:+ s) with (String "/" s). rewrite split_on_join, fold_left_app.
  rewrite (split_on_clean "/" s) by apply Hs. simpl.
  rewrite clean_step_ordinary by done. done.
Qed.

(** What a cleaned path consists of: no empty or dot segment, no separator
    inside a segment, and parent segments only in front of a relative path. *)
Definition clean_segs (rooted : bool) segs : Prop :=
  ∃ ups rest, segs = ups ++ rest ∧ Forall (λ s, s = "..") ups ∧ Forall ordinary rest ∧
    (rooted = true → ups = []).

Lemma split_on_no_sep p : Forall (λ s, has_byte "/" s = false) (split_on "/" p).
Proof.
  induction p as [|c p IH]; simpl; [by repeat constructor|].
  case_decide as Hc; [by constructor|].
  destruct (split_on "/" p) as [|h tl]; simpl.
  - repeat constructor. simpl. by rewrite bool_decide_eq_false_2.
  - apply Forall_cons in IH as [Hh Htl]. constructor; [|done]. simpl.
    by rewrite bool_decide_eq_false_2.
Qed.

Lemma clean_parts_clean p : clean_segs (is_rooted p) (clean_parts p).
Proof.
  unfold clean_parts. set (r := is_rooted p).
  assert (Hinv : ∀ l stack, Forall (λ s, has_byte "/" s = false) l →
            clean_segs r (rev stack) → clean_segs r (rev (fold_left (clean_step r) l stack))).
  { induction l as [|s l IH]; intros stack Hl Hst; simpl; [done|].
    apply Forall_cons in Hl as [Hs Hl]. apply IH; [done|].
    unfold clean_step. case_decide as H1; [done|]. case_decide as H2.
    - destruct stack as [|top rest].
      + destruct r; [done|]. exists [".."], []. by repeat constructor.
      + simpl in Hst. destruct Hst as (ups & tl & E & Hups & Htl & Hr).
        destruct (decide (top = "..")) as [->|Ht].
        * destruct (decide (tl = [])) as [->|Hne].
          -- exists (ups ++ [".."]), []. rewrite app_nil_r in E. simpl.
             rewrite E, app_nil_r. split_and!; [done|by apply Forall_app; repeat constructor|constructor|].
             intros Hr'. apply Hr in Hr'. subst ups. by destruct (rev rest).
          -- exfalso. apply exists_last in Hne as (tl' & x & ->).
             rewrite app_assoc in E. apply app_inj_tail in E as [_ <-].
             apply Forall_app in Htl as [_ Htl]. apply Forall_cons in Htl as [(_&_&?&_) _]. done.
        * destruct (decide (tl = [])) as [->|Hne].
          -- exfalso. rewrite app_nil_r in E. rewrite <- E in Hups.
             apply Forall_app in Hups as [_ Hups]. by apply Forall_cons in Hups as [? _].
          -- apply exists_last in Hne as (tl' & x & ->).
             rewrite app_assoc in E. apply app_inj_tail in E as [E _].
             exists ups, tl'. apply Forall_app in Htl as [Htl _]. done.
    - destruct Hst as (ups & tl & E & Hups & Htl & Hr). simpl. rewrite E.
      exists ups, (tl ++ [s]). rewrite app_assoc. split_and!; [done..| |done].
      apply Forall_app. split; [done|]. constructor; [|done]. unfold ordinary. naive_solver. }
  apply Hinv; [apply split_on_no_sep|]. exists [], []. by repeat constructor.
Qed.

(** Rendering and cleaning again changes nothing. *)
Lemma clean_segs_split r segs :
  clean_segs r segs → Forall (λ s, has_byte "/" s = false) segs ∧ "" ∉ segs.
Proof.
  intros (ups & rest & -> & Hu & Hr & _). split.
  - apply Forall_app. split; (eapply Forall_impl; [done|]); [by intros s ->|].
    by intros s (_ & _ & _ & ?).
  - intros [Hin|Hin]%elem_of_app.
    + by eapply Forall_forall in Hu; [|done].
    + by eapply Forall_forall in Hr as [? _]; [|done].
Qed.

Lemma fold_clean_segs r segs :
  clean_segs r segs → fold_left (clean_step r) segs [] = rev segs.
Proof.
  intros (ups & rest & -> & Hu & Hr & Hrt). rewrite fold_left_app, rev_app_distr.
  assert (H1 : fold_left (clean_step r) ups [] = rev ups).
  { destruct r; [by rewrite Hrt|].
    assert (Hgo : ∀ l st, Forall (λ s, s = "..") l → Forall (λ s, s = "..") st →
              fold_left (clean_step false) l st = rev l ++ st).
    { induction l as [|s l IH]; intros st Hl Hst; simpl; [done|].
      apply Forall_cons in Hl as [-> Hl].
      assert (E : clean_step false st ".." = ".." :: st).
      { unfold clean_step. simpl. destruct st as [|t st]; [done|].
        apply Forall_cons in Hst as [-> _]. done. }
      rewrite E, IH by (try done; by constructor). by rewrite <- app_assoc. }
    rewrite Hgo by (try done; constructor). by rewrite app_nil_r. }
  rewrite H1. clear H1. revert ups Hu Hrt. induction Hr as [|s l Hs Hl IH]; intros ups Hu Hrt; [done|].
  simpl. rewrite clean_step_ordinary by done.
  assert (Hgo : ∀ l st, Forall ordinary l → fold_left (clean_step r) l st = rev l ++ st).
  { clear. induction l as [|s l IH]; intros st Hl; [done|]. simpl.
    apply Forall_cons in Hl as [Hs Hl]. rewrite clean_step_ordinary, IH by done.
    by rewrite <- app_assoc. }
  rewrite Hgo by done. by rewrite <- app_assoc.
Qed.

Lemma clean_parts_render r segs :
  clean_segs r segs →
  is_rooted (render r segs) = r ∧ clean_parts (render r segs) = segs.
Proof.
  intros Hc. destruct (clean_segs_split r segs Hc) as [Hsep Hne].
  assert (Hsplit : segs ≠ [] → split_on "/" (join_with "/" segs) = segs)
    by (intros ?; by apply split_join).
  assert (Hskip : ∀ l, fold_left (clean_step r) ("" :: l) [] = fold_left (clean_step r) l [])
    by done.
  pose proof (fold_clean_segs r segs Hc) as Hfold.
  unfold render, clean_parts. destruct r.
  - split; [by destruct (join_with "/" segs)|].
    change ("/" +:+ join_with "/" segs) with (String "/" (join_with "/" segs)).
    change (split_on "/" (String "/" (join_with "/" segs)))
      with ("" :: split_on "/" (join_with "/" segs)).
    change (is_rooted (String "/" (join_with "/" segs))) with true.
    rewrite Hskip. destruct (decide (segs = [])) as [->|Hs]; [done|].
    rewrite Hsplit, Hfold by done. apply rev_involutive.
  - destruct segs as [|s segs]; [done|].
    assert (Hs0 : s ≠ "") by (intros ->; apply Hne; left).
    assert (Hout : join_with "/" (s :: segs) ≠ "").
    { destruct s as [|c s]; [done|]. by destruct segs. }
    rewrite decide_False by done.
    assert (Hroot : is_rooted (join_with "/" (s :: segs)) = false).
    { apply Forall_cons in Hsep as [Hsep _]. destruct s as [|c s]; [done|]. simpl in Hsep.
      break. unfold is_rooted, has_prefix. destruct segs; simpl; by rewrite decide_False. }
    rewrite Hroot. split; [done|]. rewrite Hsplit, Hfold by done. apply rev_involutive.
Qed.

(** Joining an ordinary name onto a path, on segments. *)
Lemma Join2_ordinary p s :
  p ≠ "" → ordinary s →
  Join2 p s ≠ "" ∧ is_rooted (Join2 p s) = is_rooted p ∧
  clean_parts (Join2 p s) = clean_parts p ++ [s] ∧
  Join2 p s = render (is_rooted p) (clean_parts p ++ [s]).
Proof.
  intros Hp Hs. unfold Join2. rewrite decide_False by done. unfold Clean.
  destruct (clean_parts_join p s Hp Hs) as [Hr Hc].
  destruct (clean_parts_render _ _ (clean_parts_clean (p +:+ "/" +:+ s))) as [Hr' Hc'].
  rewrite Hr, Hc in *. split_and!; [|done..].
  intros E. rewrite E in Hc'. apply (app_cons_not_nil (clean_parts p) [] s). exact Hc'.
Qed.

(** The directory of a joined path. *)
Lemma Dir_render r segs s :
  clean_segs r segs → ordinary s → Dir (render r (segs ++ [s])) = render r segs.
Proof.
  intros Hc Hs. destruct (clean_segs_split r segs Hc) as [Hsep _].
  assert (Hc' : clean_segs r (segs ++ [s])).
  { destruct Hc as (ups & rest & -> & Hu & Hr & Hrt). exists ups, (rest ++ [s]).
    rewrite app_assoc. split_and!; [done..| |done]. apply Forall_app. split; [done|].
    by constructor. }
  destruct (clean_parts_render _ _ Hc') as [Hroot _].
  assert (Hsplit : split_on "/" (join_with "/" (segs ++ [s])) = segs ++ [s]).
  { apply split_join; [by destruct segs|]. apply Forall_app. split; [done|].
    constructor; [apply Hs|done]. }
  assert (Hne : join_with "/" (segs ++ [s]) ≠ "").
  { intros E. rewrite E in Hsplit. destruct segs as [|a segs]; simpl in Hsplit.
    - injection Hsplit as E'. symmetry in E'. by apply Hs in E'.
    - injection Hsplit as _ E'. by apply app_cons_not_nil in E'. }
  unfold Dir. rewrite Hroot. f_equal. unfold render. destruct r.
  - change ("/" +:+ join_with "/" (segs ++ [s])) with (String "/" (join_with "/" (segs ++ [s]))).
    change (split_on "/" (String "/" (join_with "/" (segs ++ [s]))))
      with ("" :: split_on "/" (join_with "/" (segs ++ [s]))).
    rewrite Hsplit. change ("" :: segs ++ [s]) with (("" :: segs) ++ [s]).
    rewrite removelast_last.
    change (rev (fold_left (clean_step true) segs []) = segs).
    rewrite (fold_clean_segs true segs Hc). apply rev_involutive.
  - rewrite decide_False by done. rewrite Hsplit, removelast_last, (fold_clean_segs _ _ Hc).
    apply rev_involutive.
Qed.

Lemma rel_parts_below base segs : rel_parts base (base ++ segs) = Some segs.
Proof. induction base as [|b base IH]; simpl; [done|]. by rewrite decide_True. Qed.

Lemma withinDir_below dir path s :
  is_rooted path = is_rooted dir → clean_parts path = clean_parts dir ++ [s] →
  s ≠ ".." → withinDir dir path = true.
Proof.
  intros Hr Hc Hs. unfold withinDir, Rel. rewrite Hr, Hc, eqb_reflx, rel_parts_below.
  by rewrite bool_decide_eq_false_2.
Qed.

(** ** The two segments under the root *)

Lemma safe_tenant_ordinary t : safeTenantSegment t = true → ordinary t.
Proof.
  unfold safeTenantSegment. intros Hs. repeat case_decide; try done.
  split_and!; [naive_solver..|]. by eapply has_byte_all, Hs.
Qed.

Definition extensions : list string :=
  [".jpg"; ".png"; ".webp"; ".gif"; ".ogg"; ".opus"; ".mp3"; ".m4a"; ".aac"; ".amr";
   ".wav"; ".mp4"; ".3gp"; ".mov"; ".webm"; ".pdf"; ".bin"].

Section names.
Context `{Unicode}.

Lemma mediaExtension_known mt : mediaExtension mt ∈ extensions.
Proof.
  unfold mediaExtension. set (k := ToLower _). destruct (mediaExtensions !! k) as [e|] eqn:E.
  - assert (Hall : map_Forall (λ _ e, e ∈ extensions) mediaExtensions) by by_decide.
    exact (Hall _ _ E).
  - by_decide.
Qed.

Lemma extensions_plain e : e ∈ extensions → has_byte "/" e = false ∧ e ≠ "".
Proof. revert e. apply Forall_forall. by_decide. Qed.

Lemma mediaFileName_ordinary mid mt : ordinary (mediaFileName mid mt).
Proof.
  unfold mediaFileName. pose proof (sha256_hex_length mid) as Hl.
  pose proof (sha256_hex_hex mid) as Hx.
  destruct (extensions_plain _ (mediaExtension_known mt)) as [He _].
  assert (Hlen : 64 ≤ String.length (sha256_hex mid +:+ mediaExtension mt))
    by (rewrite slength_app; lia).
  assert (Hsep : has_byte "/" (sha256_hex mid +:+ mediaExtension mt) = false).
  { rewrite has_byte_app, He, orb_false_r. by eapply has_byte_all, Hx. }
  revert Hlen Hsep. generalize (sha256_hex mid +:+ mediaExtension mt). clear.
  intros s Hlen Hsep. split_and!; try (intros ->; simpl in Hlen; lia). exact Hsep.
Qed.

Lemma mediaFileName_inj m1 mt1 m2 mt2 :
  mediaFileName m1 mt1 = mediaFileName m2 mt2 →
  sha256_hex m1 = sha256_hex m2 ∧ mediaExtension mt1 = mediaExtension mt2.
Proof.
  unfold mediaFileName. intros E.
  eapply sapp_inj_head; [exact E|]. by rewrite !sha256_hex_length.
Qed.

Lemma two_elements {A} (a b c d : A) : [a; b] = [c; d] → a = c ∧ b = d.
Proof. by intros [= -> ->]. Qed.

(** What [mediaPathFor] refuses, and what it answers otherwise. *)
Definition refused_path root tenantID messageID : Prop :=
  TrimSpace root = "" ∨ safeTenantSegment tenantID = false ∨ TrimSpace messageID = "".

Lemma mediaPathFor_cases root tenantID mid mt :
  (refused_path root tenantID mid ∧
     mediaPathFor root tenantID mid mt = Err (Sentinel ErrUnsafeMediaPath)) ∨
  (¬ refused_path root tenantID mid ∧ ∃ path, mediaPathFor root tenantID mid mt = Ok path ∧
     is_rooted path = is_rooted root ∧
     clean_parts path = clean_parts root ++ [tenantID; mediaFileName mid mt] ∧
     clean_parts (Dir path) = clean_parts root ++ [tenantID]).
Proof.
  unfold mediaPathFor, refused_path.
  case_decide as Hr; [left; eauto|].
  destruct (safeTenantSegment tenantID) eqn:Hs; simpl; [|left; eauto].
  case_decide as Hm; [left; eauto|]. right. split; [naive_solver|].
  assert (Hroot : root ≠ "") by (intros ->; by apply Hr).
  destruct (Join2_ordinary root tenantID Hroot (safe_tenant_ordinary _ Hs)) as (Hd & Hdr & Hdc & _).
  destruct (Join2_ordinary _ _ Hd (mediaFileName_ordinary mid mt)) as (Hp & Hpr & Hpc & Hpe).
  rewrite (withinDir_below _ _ _ Hpr Hpc) by apply mediaFileName_ordinary. simpl.
  eexists. split; [done|]. split; [congruence|]. split; [by rewrite Hpc, Hdc, <- app_assoc|].
  rewrite Hpe, Dir_render by (apply clean_parts_clean || apply mediaFileName_ordinary).
  destruct (clean_parts_render _ _ (clean_parts_clean (Join2 root tenantID))) as [_ ->].
  exact Hdc.
Qed.

(** An attachment's path is the media root, the tenant's directory and a
    file name that no byte of the message or of its declared type reaches: the
    message id's digest and an extension from the fixed table.  It is refused
    exactly when the root or the message id is blank or the tenant id is not
    one harmless segment; the last check of the path never has to. *)
Theorem mediaPathFor_confined root tenantID mid mt :
  match mediaPathFor root tenantID mid mt with
  | Ok path =>
      ¬ refused_path root tenantID mid ∧
      is_rooted path = is_rooted root ∧
      ∃ ext, ext ∈ extensions ∧
        clean_parts path = clean_parts root ++ [tenantID; sha256_hex mid +:+ ext]
  | Err e => refused_path root tenantID mid ∧ e = Sentinel ErrUnsafeMediaPath
  end.
Proof.
  destruct (mediaPathFor_cases root tenantID mid mt)
    as [(Hc & ->)|(Hc & path & -> & Hr & Hp & _)]; [done|].
  split_and!; [done..|]. eexists. split; [apply (mediaExtension_known mt)|exact Hp].
Qed.

(** Two attachments share a path only when they are of one tenant and their
    message ids have one SHA-256. *)
Theorem mediaPathFor_separates root t1 m1 mt1 t2 m2 mt2 path :
  mediaPathFor root t1 m1 mt1 = Ok path → mediaPathFor root t2 m2 mt2 = Ok path →
  t1 = t2 ∧ sha256_hex m1 = sha256_hex m2.
Proof.
  intros H1 H2.
  destruct (mediaPathFor_cases root t1 m1 mt1) as [(_ & E)|(_ & p1 & E1 & _ & Hp1 & _)];
    [by rewrite E in H1|].
  destruct (mediaPathFor_cases root t2 m2 mt2) as [(_ & E)|(_ & p2 & E2 & _ & Hp2 & _)];
    [by rewrite E in H2|].
  assert (p1 = path) as -> by congruence. assert (p2 = path) as -> by congruence.
  rewrite Hp1 in Hp2. apply app_inv_head in Hp2.
  destruct (two_elements _ _ _ _ Hp2) as [Ht Hn]. split; [exact Ht|].
  apply mediaFileName_inj in Hn as [Hs _]. exact Hs.
Qed.
End names.

Definition demo_path : string :=
  "media/t1/" +:+ sha256_hex "3EB0" +:+ ".png".

Lemma mediaPathFor_separates_witness :
  mediaPathFor (H := ascii_unicode) "media" "t1" "3EB0" "image/png" = Ok demo_path ∧
  sha256_hex "3EB0" = sha256_hex "3EB0".
Proof.
  assert (E : mediaPathFor (H := ascii_unicode) "media" "t1" "3EB0" "image/png" = Ok demo_path)
    by (vm_compute; reflexivity).
  split; [exact E|].
  exact (proj2 (mediaPathFor_separates (H := ascii_unicode) "media" "t1" "3EB0" "image/png"
                  "t1" "3EB0" "image/png" demo_path E E)).
Defined.
