(* ===== verification/Gateway.v ===== *)
(** * The state of the gateway and the client of WhatsApp

    What [Manager] ([internal/wa/manager.go]) holds: the database, the media
    tree, one whatsmeow client per tenant, the registry of pending history
    requests and the counter of unresolved addresses.  The client is code of
    whatsmeow: a class whose operations answer what the environment decides,
    indexed by the draw.  Every call that reaches WhatsApp is also recorded in
    [g_calls], so that a theorem can say which calls a function makes. *)

From S2P Require Import Prelude GoText GoUnicode GoEff Models Sql Store SessionRepo MessageRepo.
From S2P Require Import Address ChatRepo Pending WaAddress.

(** [types.MessageInfo] of a history request *)
Record MessageInfo `{JidOps} := {
  info_Chat : JID;
  info_IsFromMe : bool;
  info_ID : string;
  info_Timestamp : Z;
}.

(** [whatsmeow.SendResponse] *)
Record SendResponse `{JidOps} := {
  resp_ID : string;
  resp_Timestamp : Z;
  resp_Chat : JID;
  resp_Sender : JID;
}.

(** The arguments of [DownloadMediaWithPath]. *)
Record download_args := {
  dl_directPath : string;
  dl_encFileHash : option string;
  dl_fileHash : option string;
  dl_mediaKey : option string;
  dl_mediaType : string;
  dl_mmsType : string;
}.

(** [types.ContactInfo] *)
Record ContactInfo := {
  ci_FullName : string;
  ci_FirstName : string;
  ci_PushName : string;
  ci_BusinessName : string;
}.

(** [types.IsOnWhatsAppResponse]; the verified name is nil or a text. *)
Record IsOnWhatsAppResponse `{JidOps} := {
  on_JID : JID;
  on_IsIn : bool;
  on_VerifiedName : option string;
}.

(** [whatsmeow.QRChannelItem] *)
Inductive qr_item :=
  | QrCode (code : string)
  | QrError (e : error)
  | QrOther.

(** What can wake a [select] on the QR channel. *)
Inductive qr_wake :=
  | QrItem (i : qr_item)
  | QrClosed
  | QrTimeout
  | QrCancelled (e : error).

(** ** whatsmeow's [Client] and the container of devices *)
Class WaClient `{JidOps} := {
  client : Type;
  device : Type;
  IsLoggedIn : nat → client → bool;
  IsConnected : nat → client → bool;
  Connect : nat → client → result ();
  PairPhone : nat → client → string → result string;
  GetQRChannel : nat → client → result ();
  (** what the n-th wait on the channel is woken by *)
  qr_next : nat → client → qr_wake;
  SendMessage : nat → client → JID → string → result SendResponse;
  SendPeerMessage : nat → client → MessageInfo → Z → result ();
  LogoutDevice : nat → client → result ();
  DownloadMediaWithPath : nat → client → download_args → result string;
  GetJoinedGroups : nat → client → result (list (option (JID * string)));
  GetAllContacts : nat → client → result (list (JID * ContactInfo));
  IsOnWhatsApp : nat → client → string → result (list IsOnWhatsAppResponse);
  (** [client.Store] *)
  Store_ID : nat → client → option JID;
  has_LIDs : client → bool;
  GetPNForLID : nat → client → JID → result JID;
  (** [sqlstore.Container] and [whatsmeow.NewClient] *)
  NewDevice : nat → device;
  GetDevice : nat → JID → result (option device);
  GetAllDevices : nat → result (list device);
  device_ID : device → option JID;
  NewClient : nat → device → client;
}.

(** ** The file system *)

Inductive node :=
  | Directory
  | File (data : string).

(** What can go wrong: [os.Stat], [os.MkdirAll], and [os.WriteFile], which
    either fails before it truncates the file or after writing a prefix. *)
Class Disk := {
  o_stat : nat → option string;
  o_mkdir : nat → option string;
  o_write : nat → option (string * option nat);
}.

(** ** The state *)

Inductive wa_call `{JidOps} :=
  | CallConnect
  | CallPairPhone (phone : string)
  | CallQR
  | CallSend (chat : JID) (body : string)
  | CallHistory (info : MessageInfo) (count : Z)
  | CallLogout
  | CallDownload (args : download_args)
  | CallGroups
  | CallContacts
  | CallIsOnWhatsApp (phone : string)
  | CallDisconnect.

Record gateway `{WaClient} := Gateway {
  g_db : db;
  g_files : gmap string node;
  g_clients : gmap string client;
  g_pending : pendingHistory;
  (** an unsigned 64-bit counter *)
  g_unresolved : Z;
  g_calls : list (string * wa_call);
  (** per tenant, the goroutines of [syncGroupNamesInBackground] that have been
      started and have not run yet, each by the client it is to ask *)
  g_background : gmap string (list client);
}.

Arguments Gateway {_ _} _ _ _ _ _ _ _.

Section gateway.
Context `{WaClient}.

Definition set_db (v : db) (g : gateway) : gateway :=
  Gateway v (g_files g) (g_clients g) (g_pending g) (g_unresolved g) (g_calls g)
    (g_background g).
Definition set_files (v : gmap string node) (g : gateway) : gateway :=
  Gateway (g_db g) v (g_clients g) (g_pending g) (g_unresolved g) (g_calls g)
    (g_background g).
Definition set_clients (v : gmap string client) (g : gateway) : gateway :=
  Gateway (g_db g) (g_files g) v (g_pending g) (g_unresolved g) (g_calls g)
    (g_background g).
Definition set_pending (v : pendingHistory) (g : gateway) : gateway :=
  Gateway (g_db g) (g_files g) (g_clients g) v (g_unresolved g) (g_calls g)
    (g_background g).
Definition set_unresolved (v : Z) (g : gateway) : gateway :=
  Gateway (g_db g) (g_files g) (g_clients g) (g_pending g) v (g_calls g)
    (g_background g).
Definition log_call (tenantID : string) (c : wa_call) (g : gateway) : gateway :=
  Gateway (g_db g) (g_files g) (g_clients g) (g_pending g) (g_unresolved g)
    (g_calls g ++ [(tenantID, c)]) (g_background g).
Definition set_background (v : gmap string (list client)) (g : gateway) : gateway :=
  Gateway (g_db g) (g_files g) (g_clients g) (g_pending g) (g_unresolved g) (g_calls g) v.

(** A call of the store. *)
Definition on_db {A} (m : eff db A) : eff gateway A := zoom g_db set_db m.

Definition modify (f : gateway → gateway) : eff gateway () := λ n g, ((), n, f g).

(** A call of the tenant's client that reaches WhatsApp. *)
Definition ask {A} (tenantID : string) (c : wa_call) (f : nat → A) : eff gateway A :=
  λ n g, (f n, S n, log_call tenantID c g).

(** [m.clients[tenantID]] under the read lock *)
Definition client_of (tenantID : string) : eff gateway (option client) := λ n g,
  (g_clients g !! tenantID, n, g).

(** [client != nil && client.IsLoggedIn()] *)
Definition logged_in_client (tenantID : string) : eff gateway (option client) :=
  (let! c := client_of tenantID in
   match c with
   | None => ret None
   | Some c => let! ok := draw (λ n, IsLoggedIn n c) in
               ret (if ok : bool then Some c else None)
   end)%go.

(** [Manager.lidsFor] *)
Definition lidsFor (tenantID : string) : eff gateway (option client) :=
  (let! c := client_of tenantID in
   ret (match c with Some c => if has_LIDs c then Some c else None | None => None end))%go.

(** One resolution through the index, as it stands when it is asked. *)
Definition resolver_of (lids : option client) (n : nat) : lidResolver :=
  match lids with Some c => Some (λ j, GetPNForLID n c j) | None => None end.

Definition canonicalise (lids : option client) (jid alt : JID) : eff gateway (JID * bool) :=
  draw (λ n, canonicalJID (resolver_of lids n) jid alt).

(** [Manager.ownJID] *)
Definition ownJID (tenantID : string) : eff gateway JID :=
  (let! c := client_of tenantID in
   match c with
   | None => ret EmptyJID
   | Some c => let! id := draw (λ n, Store_ID n c) in
               ret (match id with Some j => ToNonAD j | None => EmptyJID end)
   end)%go.

(** [Manager.countUnresolved] *)
Definition countUnresolved (chatCanonical senderCanonical : bool) : eff gateway () :=
  let unresolved := ((if chatCanonical then 0 else 1) + (if senderCanonical then 0 else 1))%Z in
  if decide (unresolved = 0%Z) then ret ()
  else modify (λ g, set_unresolved ((g_unresolved g + unresolved) mod 2 ^ 64)%Z g).

(** ** What a computation leaves alone *)

Definition keeps {B} (f : gateway → B) (g g' : gateway) : Prop := f g' = f g.

#[export] Instance keeps_preorder {B} (f : gateway → B) : PreOrder (keeps f).
Proof. split; [done|]. unfold keeps. intros g1 g2 g3. congruence. Qed.

(** A computation on the database leaves everything else alone, and moves the
    database as it moves it alone. *)
Lemma on_db_evolves {A} (R : relation db) (m : eff db A) :
  evolves R m → evolves (λ g g', R (g_db g) (g_db g')) (on_db m).
Proof. intros Hm. by apply (evolves_zoom R). Qed.

Lemma on_db_run {A} (m : eff db A) n g :
  on_db m n g = (answer m n (g_db g), next m n (g_db g), set_db (final m n (g_db g)) g).
Proof. unfold on_db, zoom, answer, next, final. by destruct (m n (g_db g)) as [[a n'] s']. Qed.

Lemma on_db_answer {A} (m : eff db A) n g : answer (on_db m) n g = answer m n (g_db g).
Proof. unfold answer. by rewrite on_db_run. Qed.

Lemma set_db_same g : set_db (g_db g) g = g.
Proof. by destruct g. Qed.

(** ** Acting for one tenant

    What a function called for [tenantID] may do: write that tenant's rows
    without losing any, replace that tenant's client, call WhatsApp as that
    tenant, start and run that tenant's goroutines; API keys and tenants are
    never written. *)
Record acts_for (tenantID : string) (g g' : gateway) : Prop := {
  af_tenant : ∀ other, other ≠ tenantID → tenant_data other (g_db g) (g_db g');
  af_sound : sound (g_db g) (g_db g');
  af_keys : api_keys (g_db g') = api_keys (g_db g);
  af_clients : ∀ other, other ≠ tenantID → g_clients g' !! other = g_clients g !! other;
  af_calls : ∃ l, g_calls g' = g_calls g ++ l ∧ Forall (λ tc, tc.1 = tenantID) l;
  af_background : ∀ other, other ≠ tenantID →
    g_background g' !! other = g_background g !! other;
}.

#[export] Instance acts_for_preorder tid : PreOrder (acts_for tid).
Proof.
  split.
  - intros g. split; try done. exists []. by rewrite app_nil_r.
  - intros g1 g2 g3 [T1 S1 K1 C1 (l1 & E1 & F1) B1] [T2 S2 K2 C2 (l2 & E2 & F2) B2]. split.
    + intros o Ho. etrans; [by apply T1|by apply T2].
    + by etrans.
    + congruence.
    + intros o Ho. rewrite C2, C1 by done. done.
    + exists (l1 ++ l2). rewrite E2, E1, app_assoc. split; [done|]. by apply Forall_app.
    + intros o Ho. by rewrite B2, B1.
Qed.

(** The three properties of a store operation that make it act for a tenant. *)
Definition keys_kept (s s' : db) : Prop := api_keys s' = api_keys s.

#[export] Instance keys_kept_preorder : PreOrder keys_kept.
Proof. split; [done|]. unfold keys_kept. intros s1 s2 s3. congruence. Qed.

Lemma on_db_acts {A} tid (m : eff db A) :
  evolves (only_tenant tid) m → evolves sound m → evolves keys_kept m →
  evolves (acts_for tid) (on_db m).
Proof.
  intros Ht Hs Hk n g. unfold final. rewrite on_db_run. simpl.
  split; simpl; [|apply Hs|apply Hk|done| |done].
  - intros other Ho. apply (Ht n (g_db g) other Ho).
  - exists []. by rewrite app_nil_r.
Qed.

Lemma same_tables_acts {A} tid (m : eff db A) :
  evolves same_tables m → evolves (acts_for tid) (on_db m).
Proof.
  intros Hm n g. unfold final. rewrite on_db_run. simpl. specialize (Hm n (g_db g)).
  split; simpl; [|by apply same_tables_sound| |done| |done].
  - intros other _. by apply same_tables_data.
  - by destruct Hm as [->|[-> _] ].
  - exists []. by rewrite app_nil_r.
Qed.

Lemma modify_evolves (R : relation gateway) f : (∀ g, R g (f g)) → evolves R (modify f).
Proof. intros Hf n g. apply Hf. Qed.

Lemma ask_evolves {A} (R : relation gateway) tid c (f : nat → A) :
  (∀ g, R g (log_call tid c g)) → evolves R (ask tid c f).
Proof. intros Hf n g. apply Hf. Qed.

Lemma ask_acts {A} tid c (f : nat → A) : evolves (acts_for tid) (ask tid c f).
Proof.
  apply ask_evolves. intros g. split; try done. exists [(tid, c)].
  split; [done|]. by constructor.
Qed.

Lemma client_of_evolves (R : relation gateway) `{!PreOrder R} tid : evolves R (client_of tid).
Proof. intros n g. apply (reflexivity (R := R)). Qed.

Lemma logged_in_client_evolves (R : relation gateway) `{!PreOrder R} tid :
  evolves R (logged_in_client tid).
Proof.
  unfold logged_in_client. apply evolves_bind; [done|by apply client_of_evolves|].
  intros [c|]; [|by apply evolves_ret]. apply evolves_bind; [done|by apply evolves_draw|].
  intros b. by apply evolves_ret.
Qed.

Lemma logged_in_client_run tid n g :
  (∃ c, g_clients g !! tid = Some c ∧ IsLoggedIn n c = true ∧
     logged_in_client tid n g = (Some c, S n, g)) ∨
  (∃ n', logged_in_client tid n g = (None, n', g) ∧
     ∀ c, g_clients g !! tid = Some c → IsLoggedIn n c = false).
Proof.
  unfold logged_in_client, client_of, bind, draw, ret.
  destruct (g_clients g !! tid) as [c|] eqn:Ec; [|right; by eexists].
  destruct (IsLoggedIn n c) eqn:El.
  - left. by exists c.
  - right. eexists. split; [done|]. by intros ? [= <-].
Qed.

Lemma lidsFor_evolves (R : relation gateway) `{!PreOrder R} tid : evolves R (lidsFor tid).
Proof.
  unfold lidsFor. apply evolves_bind; [done|by apply client_of_evolves|].
  intros c. by apply evolves_ret.
Qed.

Lemma ownJID_evolves (R : relation gateway) `{!PreOrder R} tid : evolves R (ownJID tid).
Proof.
  unfold ownJID. apply evolves_bind; [done|by apply client_of_evolves|].
  intros [c|]; [|by apply evolves_ret]. apply evolves_bind; [done|by apply evolves_draw|].
  intros b. by apply evolves_ret.
Qed.

Lemma canonicalise_evolves (R : relation gateway) `{!PreOrder R} lids jid alt :
  evolves R (canonicalise lids jid alt).
Proof. by apply evolves_draw. Qed.

Lemma countUnresolved_evolves (R : relation gateway) `{!PreOrder R} a b :
  (∀ v g, R g (set_unresolved v g)) → evolves R (countUnresolved a b).
Proof.
  intros Hr. unfold countUnresolved. case_decide; [by apply evolves_ret|].
  apply modify_evolves. intros g. apply Hr.
Qed.

Lemma countUnresolved_acts tid a b : evolves (acts_for tid) (countUnresolved a b).
Proof.
  apply countUnresolved_evolves; [apply _|]. intros v g. split; try done.
  exists []. by rewrite app_nil_r.
Qed.

(** ** The store's operations act for their tenant *)

Section store_acts.
Context `{Unicode} `{Oracle}.

Lemma insertMessage_keys m s a s' : insertMessage m s = Some (a, s') → keys_kept s s'.
Proof. by intros [(_ & -> & _)|(_ & _ & _ & _ & ->)]%insertMessage_cases. Qed.

Lemma AppendBatch_acts tid ms :
  (∀ m, m ∈ ms → m_TenantID m = tid) → evolves (acts_for tid) (on_db (AppendBatch ms)).
Proof.
  intros Ht. apply on_db_acts; [by apply AppendBatch_only|apply AppendBatch_sound|].
  apply AppendBatch_evolves; [apply _|]. intros m m' s a s' _ _. apply insertMessage_keys.
Qed.

Lemma Append_acts m : evolves (acts_for (m_TenantID m)) (on_db (Append m)).
Proof.
  apply on_db_acts; [apply Append_only|apply Append_sound|].
  apply Append_evolves; [apply _|]. intros m' s a s' _. apply insertMessage_keys.
Qed.

Lemma UpdateStatus_acts tid status jid :
  evolves (acts_for tid) (on_db (UpdateStatus tid status jid)).
Proof.
  apply on_db_acts; [apply UpdateStatus_only|apply UpdateStatus_sound|].
  intros n s. by destruct (UpdateStatus_sessions tid status jid n s) as [m ->].
Qed.

Lemma upsertChat_keys tid jid name t s a s' :
  upsertChat tid jid name t s = Some (a, s') → keys_kept s s'.
Proof. unfold upsertChat. case_decide; [|done]. by intros [= <- <-]. Qed.

Lemma Upsert_acts tid c : evolves (acts_for tid) (on_db (ChatRepo.Upsert tid c)).
Proof.
  apply on_db_acts; [apply Upsert_only|apply Upsert_sound|].
  apply Upsert_evolves; [apply _|]. intros. by eapply upsertChat_keys.
Qed.

Lemma UpsertBatch_acts tid l : evolves (acts_for tid) (on_db (ChatRepo.UpsertBatch tid l)).
Proof.
  apply on_db_acts; [apply UpsertBatch_only|apply UpsertBatch_sound|].
  apply UpsertBatch_evolves; [apply _|]. intros. by eapply upsertChat_keys.
Qed.

Lemma UpdateMedia_acts tid id upd : evolves (acts_for tid) (on_db (UpdateMedia tid id upd)).
Proof.
  apply on_db_acts; [apply UpdateMedia_only|apply UpdateMedia_sound|].
  apply UpdateMedia_evolves; [apply _|]. done.
Qed.

(** ** Rows added to the messages table *)

(** Rows are only added, and only rows that satisfy [P]. *)
Definition adds (P : Message → Prop) (s s' : db) : Prop :=
  ∀ i m, messages s' !! i = Some m → messages s !! i = Some m ∨ P m.

#[export] Instance adds_preorder P : PreOrder (adds P).
Proof.
  split; [by left|]. intros s1 s2 s3 Ha Hb i m Hm. destruct (Hb i m Hm) as [Hm'|]; [|by right].
  by apply Ha.
Qed.

(** Who wrote a row where: what the repository does not choose. *)
Definition filed_as (m m' : Message) : Prop :=
  m_TenantID m' = m_TenantID m ∧ m_ChatJID m' = m_ChatJID m ∧ m_SenderJID m' = m_SenderJID m ∧
  m_WAMessageID m' = m_WAMessageID m ∧ m_Direction m' = m_Direction m ∧ m_Body m' = m_Body m.

Lemma insert_adds P m m' s a s' :
  prepared_from m m' → (∀ x, filed_as m x → P x) → insertMessage m' s = Some (a, s') → adds P s s'.
Proof.
  intros (_ & _ & E) HP [(_ & -> & _)|(_ & _ & _ & _ & ->)]%insertMessage_cases; [by left|].
  intros i x Hx. simpl in Hx. apply lookup_insert_Some in Hx as [[_ <-]|[_ Hx]]; [right|by left].
  apply HP. rewrite E. done.
Qed.

Lemma AppendBatch_adds (P : Message → Prop) ms :
  (∀ m x, m ∈ ms → filed_as m x → P x) → evolves (adds P) (AppendBatch ms).
Proof.
  intros HP. apply AppendBatch_evolves; [apply _|]. intros m m' s a s' Hm Hp Hi.
  eapply insert_adds; [done| |done]. intros x. by apply HP.
Qed.

Lemma Append_adds (P : Message → Prop) m :
  (∀ x, filed_as m x → P x) → evolves (adds P) (Append m).
Proof.
  intros HP. apply Append_evolves; [apply _|]. intros m' s a s' Hp Hi.
  by eapply insert_adds.
Qed.

Lemma same_tables_adds {A} P (m : eff db A) : evolves same_tables m → evolves (adds P) m.
Proof.
  intros Hm n s. destruct (Hm n s) as [->|[-> _] ]; [reflexivity|]. by left.
Qed.
End store_acts.
End gateway.

(** ** The addresses of one conversation *)

Section addressing.
Context `{JidLaws} `{!WaClient}.
Implicit Types (m : gmap string string).

(** Every client resolves through one index, the table the store reads: what a
    lookup answers is what the table holds, if it answers at all. *)
Definition one_index m : Prop := lid_map_ok m ∧ ∀ n c, index_sound m (GetPNForLID n c).

(** ... and every lookup answers. *)
Definition full_index m : Prop := lid_map_ok m ∧ ∀ n c, index_backed m (GetPNForLID n c).

Lemma full_index_one m : full_index m → one_index m.
Proof. intros [Hm Hi]. split; [done|]. intros n c. apply index_backed_sound, Hi. Qed.

(** Two addresses of one conversation, as the store reads them. *)
Definition same_conversation m (a b : string) : Prop := canonical m a = canonical m b.

(** An address of WhatsApp: a user without device or server in it, and a server. *)
Definition addressable (j : JID) : Prop := bare (jid_User j) ∧ jid_Server j ≠ "".

(** The address as it is written without its device. *)
Definition plain_address (j : JID) : string := jid_String (ToNonAD j).

Lemma plain_address_bare j :
  addressable j → plain_address j = jid_User j +:+ "@" +:+ jid_Server j ∧
    nonADAddress (plain_address j) = plain_address j ∧ plain_address j ≠ "".
Proof.
  intros [Hu Hs]. unfold plain_address. rewrite string_non_ad by apply Hu. split; [done|].
  unfold nonADAddress. rewrite splitAddress_bare by done. split; [done|].
  destruct Hu as [Hu _]. by destruct (jid_User j).
Qed.

Lemma resolved_conversation m (lids : option client) n jid alt :
  one_index m → addressable jid → alt_agrees m jid alt →
  let r := (canonicalJID (resolver_of lids n) jid alt).1 in
  ToNonAD r = r ∧ same_conversation m (jid_String r) (plain_address jid).
Proof.
  intros [Hm Hi] [Hu Hs] Ha. apply canonicalJID_conversation; try done; [|apply Hu].
  by destruct lids; simpl.
Qed.

(** An address of a conversation is not the empty one. *)
Lemma same_conversation_nonempty m a b : same_conversation m a b → b ≠ "" → a ≠ "".
Proof.
  unfold same_conversation. intros E Hb ->.
  destruct (canonical_cases m "") as [E0|(l & p & _ & E0 & _)]; [|by destruct l].
  destruct (canonical_cases m b) as [Eb|(l & p & _ & _ & Eb)]; [congruence|].
  rewrite E0, Eb in E. by destruct p.
Qed.

Lemma alt_agrees_empty m jid : alt_agrees m jid EmptyJID.
Proof.
  intros _ Hs _. pose proof empty_is_empty as He. rewrite is_empty, bool_decide_eq_true in He.
  rewrite He, default_server in Hs. done.
Qed.

(** With the index at hand, an address resolves to the one its conversation is
    read under. *)
Lemma resolved_address m c n jid :
  full_index m → addressable jid →
  jid_String (canonicalJID (resolver_of (Some c) n) jid EmptyJID).1 = canonical m (plain_address jid).
Proof. intros [Hm Hi] [Hu Hs]. by apply canonicalJID_string. Qed.
End addressing.

#[export] Hint Resolve UpdateStatus_acts Upsert_acts UpsertBatch_acts UpdateMedia_acts : evolves.


#[export] Hint Resolve client_of_evolves logged_in_client_evolves lidsFor_evolves
  ownJID_evolves canonicalise_evolves countUnresolved_acts ask_acts : evolves.
