(* ===== verification/Demo.v ===== *)
(** * A concrete environment

    Instances of the classes that stand for code outside the repository, and a
    small gateway: one tenant with a paired client and a stored voice note.
    The witnesses of the theorems evaluate on them. *)

From S2P Require Import Prelude GoText GoUnicode GoEff Sha256 Models Sql Store Address MessageRepo.
From S2P Require Import StoreOps StoreTheorems Pending WaAddress MediaReference Gateway.

#[local] Existing Instance plain_jids.

Definition own_jid : plain_jid := PlainJID "573114276555" "87" "s.whatsapp.net".

(** A client is the address it is paired as, if it is.  Every client is
    connected; the media servers answer [dl] and the phone accepts requests. *)
Definition plain_clients (dl : result string) : WaClient (H := plain_jids) :=
  {| client := option plain_jid;
     device := option plain_jid;
     IsLoggedIn _ c := if c is Some _ then true else false;
     IsConnected _ _ := true;
     Connect _ _ := Ok ();
     PairPhone _ _ _ := Ok "ABCD-1234";
     GetQRChannel _ _ := Ok ();
     qr_next _ _ := QrItem (QrCode "2@qr");
     SendMessage n _ _ _ :=
       Ok (Build_SendResponse plain_jids "3EB0SENT" (Z.of_nat n)
             (PlainJID "15285906083900" "" "lid") (PlainJID "1528" "" "lid"));
     SendPeerMessage _ _ _ _ := Ok ();
     LogoutDevice _ _ := Ok ();
     DownloadMediaWithPath _ _ _ := dl;
     GetJoinedGroups _ _ := Ok [Some (PlainJID "1203" "" "g.us", "Obra 12")];
     GetAllContacts _ _ := Ok [];
     IsOnWhatsApp _ _ _ := Ok [];
     Store_ID _ c := c;
     has_LIDs _ := true;
     GetPNForLID _ _ := plain_index one_person;
     NewDevice _ := None;
     GetDevice _ j := Ok (Some (Some j));
     GetAllDevices _ := Ok [];
     device_ID d := d;
     NewClient _ d := d |}.

(** A disk that never fails. *)
Definition plain_disk : Disk :=
  {| o_stat _ := None; o_mkdir _ := None; o_write _ := None |}.

(** A disk whose writes stop after four bytes. *)
Definition full_disk : Disk :=
  {| o_stat _ := None; o_mkdir _ := None; o_write _ := Some ("no space left on device", Some 4) |}.

(** The stored voice note of the tenant. *)
Definition note_message : Message :=
  applyMediaReference (demo_message "acme" "573004725680@s.whatsapp.net" "3EB0NOTE" "" 10)
    (mediaReference (H := plain_media) audio_message).

Definition note_calls : list call :=
  [Write (CreateTenant {| t_ID := "acme"; t_Name := "Acme"; t_CreatedAt := 1 |});
   Write (AppendMessage note_message)].

Definition note_db : db :=
  final (run_calls (H := demo_unicode) (H0 := demo_oracle) note_calls) 0 demo_start.

Lemma note_wf : wf note_db.
Proof.
  unfold note_db.
  apply (run_calls_sound (H := demo_unicode) (H0 := demo_oracle) note_calls 0 demo_start).
  split; intros *; simpl; rewrite ?lookup_empty; done.
Qed.

(** The gateway around a database: no file, the tenant's client paired. *)
Definition demo_gateway (dl : result string) (s : db)
    : @gateway plain_jids (plain_clients dl) :=
  @Gateway plain_jids (plain_clients dl) s ∅ {["acme" := Some own_jid]}
    newPendingHistory 0 [] ∅.

Lemma demo_index dl : full_index (H := plain_jids) (H1 := plain_clients dl) (lids demo_db).
Proof.
  assert (E : lids demo_db = one_person) by (vm_compute; reflexivity). rewrite E.
  split; [apply one_person_ok|]. intros n c. apply (plain_index_backed one_person).
Qed.

Lemma plain_addressable u server :
  bare u → server ≠ "" → addressable (H := plain_jids) (PlainJID u "" server).
Proof. by split. Qed.

Lemma person_addressable :
  addressable (H := plain_jids) (PlainJID "15285906083900" "" "lid") ∧
  addressable (H := plain_jids) (PlainJID "573004725680" "" "s.whatsapp.net").
Proof. split; (apply plain_addressable; [unfold bare; by_decide|discriminate]). Qed.
