(* ===== verification/History.v ===== *)
(** * History sync ([internal/wa/history.go])

    A pushed history sync is mapped onto rows and stored; an on-demand request
    is sent, waits, and is matched with the sync that answers it.

    The functions of one event or one call run without interruption here; what
    can come between the two halves of [SyncHistory], the request and the
    wait, is any sequence of other steps, so they are two functions. *)

From S2P Require Import Prelude GoText GoUnicode GoEff Models Sql Store Address MessageRepo.
From S2P Require Import MessageQueries Config Pending WaAddress MediaReference Gateway.
From S2P Require Import StoreTheorems Demo.

(** ** What arrives *)

(** [waCommon.MessageKey] *)
Record message_key := {
  key_ID : string;
  key_FromMe : bool;
  key_Participant : string;
}.

(** [waHistorySync.HistorySyncMsg] with the [WebMessageInfo] inside: a nil
    message is one without a key. *)
Record HistorySyncMsg := {
  hm_Key : option message_key;
  hm_Message : option wa_message;
  hm_Timestamp : Z;                 (* uint64, seconds *)
}.

Record conversation := {
  conv_ID : string;
  conv_Messages : list HistorySyncMsg;
}.

(** [events.HistorySync.Data]; the only sync type that matters is ON_DEMAND. *)
Record HistorySync := {
  hs_OnDemand : bool;
  hs_Conversations : list conversation;
}.

Inductive historyDecision := historySkipChat | historyAnchorOnly | historyPersistAll.

#[export] Instance historyDecision_eq_dec : EqDecision historyDecision.
Proof. solve_decision. Defined.

(** [SyncResult] *)
Record SyncResult := {
  sr_ChatJID : string;
  sr_Inserted : nat;
  sr_OldestTimestamp : Z;
  sr_MoreAvailable : bool;
}.

Definition DefaultSyncCount : Z := 50.
Definition MaxSyncCount : Z := 200.

Definition NormalizeSyncCount (count : Z) : Z :=
  if decide (count ≤ 0)%Z then DefaultSyncCount
  else if decide (MaxSyncCount < count)%Z then MaxSyncCount else count.

(** ** The mapping onto rows *)

Section mapping.
Context `{JidOps} `{MediaTypes}.

Definition historyDecisionFor (scope : HistorySyncScope) (chat : JID) : historyDecision :=
  let server := jid_Server chat in
  if decide (server = BroadcastServer ∧ jid_User chat = StatusBroadcastUser) then historySkipChat
  else if decide (server = NewsletterServer) then
    (if decide (scope = HistorySyncScopeAll) then historyPersistAll else historySkipChat)
  else if decide (server = GroupServer) then
    (if decide (scope = HistorySyncScopeDMGroup ∨ scope = HistorySyncScopeAll)
     then historyPersistAll else historyAnchorOnly)
  else if decide (server = DefaultUserServer ∨ server = HiddenUserServer) then historyPersistAll
  else if decide (scope = HistorySyncScopeAll) then historyPersistAll
  else historyAnchorOnly.

Definition historySender (ownJID chat : JID) (fromMe : bool) (participant : string) : string :=
  if fromMe then jid_String ownJID
  else if decide (participant ≠ "") then participant
  else jid_String chat.

(** [time.Unix(seconds, 0)] *)
Definition Unix (seconds : Z) : Z := (seconds * 10 ^ 9)%Z.

(** The row of one message, with the identifier and the time it is given. *)
Definition history_row (tenantID : string) (ownJID chat : JID) (id : string) (created : Z)
    (key : message_key) (entry : HistorySyncMsg) : Message :=
  applyMediaReference
    {| m_ID := id; m_TenantID := tenantID; m_ChatJID := jid_String chat;
       m_SenderJID := historySender ownJID chat (key_FromMe key) (key_Participant key);
       m_WAMessageID := key_ID key;
       m_Direction := if key_FromMe key then DirectionOut else DirectionIn;
       m_Body := extractText (hm_Message entry);
       m_MediaType := None; m_MediaPath := None; m_DirectPath := None; m_MediaKey := None;
       m_FileEncSHA256 := None; m_FileSHA256 := None; m_MMSType := None;
       m_FileLength := None; m_MimeType := None; m_MediaStatus := None; m_MediaError := None;
       m_MediaFetchedAt := None;
       m_Timestamp := Unix (int64 (hm_Timestamp entry)); m_CreatedAt := created |}
    (mediaReference_opt (hm_Message entry)).

(** [newestRecord]: a later record replaces the best only when it is newer. *)
Fixpoint newest_of (best : Message) (records : list Message) : Message :=
  match records with
  | [] => best
  | r :: records => newest_of (if decide (m_Timestamp best < m_Timestamp r)%Z then r else best) records
  end.

Definition newestRecord (records : list Message) : list Message :=
  match records with [] => [] | r :: _ => [newest_of r records] end.

(** The loop of [historyRecords]. *)
Fixpoint history_rows `{Oracle} {St} (tenantID : string) (ownJID chat : JID) (created : Z)
    (entries : list HistorySyncMsg) : eff St (list Message) :=
  (match entries with
   | [] => ret []
   | entry :: entries =>
       match hm_Key entry with
       | None => history_rows tenantID ownJID chat created entries
       | Some key =>
           if decide (key_ID key = "") then history_rows tenantID ownJID chat created entries
           else
             let! id := NewID in
             let! rest := history_rows tenantID ownJID chat created entries in
             ret (history_row tenantID ownJID chat id created key entry :: rest)
       end
   end)%go.

Definition historyRecords `{Oracle} {St} (tenantID : string) (ownJID chat : JID)
    (decision : historyDecision) (entries : list HistorySyncMsg) : eff St (list Message) :=
  (if decide (decision = historySkipChat ∨ entries = []) then ret []
   else
     let! created := now in
     let! records := history_rows tenantID ownJID chat created entries in
     ret (match decision with historyAnchorOnly => newestRecord records | _ => records end))%go.
End mapping.

(** ** Storing a sync *)

Section history.
Context `{Unicode} `{Oracle} `{MediaTypes} `{WaClient}.

Fixpoint canonicaliseSenders (lids : option client) (records : list Message)
    : eff gateway (list Message) :=
  (match records with
   | [] => ret []
   | r :: records =>
       let! r' :=
         (match ParseJID (m_SenderJID r) with
          | Err _ => ret r
          | Ok sender =>
              if IsEmpty sender then ret r
              else
                let! found := canonicalise lids sender EmptyJID in
                let! _ := countUnresolved true found.2 in
                ret (with_addresses (m_ChatJID r) (jid_String found.1) (m_Direction r) r)
          end) in
       let! rest := canonicaliseSenders lids records in
       ret (r' :: rest)
   end)%go.

(** [pending.deliver]: the two halves in a row.  The channel has room for the
    one delivery it ever gets, so the send does not block. *)
Definition deliver_now (key : string) (d : historyDelivery) : eff gateway bool := λ n g,
  let '(found, p) := deliver key d (g_pending g) in
  match waiters (g_pending g) !! key with
  | Some ch => (found, n, set_pending (default p (send ch p)) g)
  | None => (found, n, set_pending p g)
  end.

Definition deliverOnDemand (tenantID : string) (chat : JID) (inserted delivered : nat)
    : eff gateway bool :=
  (let! oldest := on_db (OldestByChat tenantID (jid_String chat)) in
   deliver_now (historyKey tenantID (jid_String chat))
     {| Inserted := inserted; Delivered := delivered;
        Oldest := match oldest with Ok m => m_Timestamp m | Err _ => zero_time end |})%go.

(** One conversation of a sync; what is only logged is left out. *)
Definition persist_conversation (scope : HistorySyncScope) (tenantID : string) (onDemand : bool)
    (ownJID : JID) (lids : option client) (conv : conversation) : eff gateway nat :=
  (match ParseJID (conv_ID conv) with
   | Err _ => ret 0
   | Ok raw =>
       if decide (jid_User raw = "") then ret 0
       else
         let! found := canonicalise lids raw EmptyJID in
         let chat := found.1 in
         let! _ := countUnresolved found.2 true in
         let! records := historyRecords tenantID ownJID chat (historyDecisionFor scope chat)
                           (conv_Messages conv) in
         if decide (records = []) then ret 0
         else
           let! records := canonicaliseSenders lids records in
           let! added := on_db (AppendBatch records) in
           match added with
           | Err _ => ret 0
           | Ok added =>
               if onDemand then
                 let! _ := deliverOnDemand tenantID chat added (length records) in ret added
               else ret added
           end
   end)%go.

Fixpoint persist_conversations (scope : HistorySyncScope) (tenantID : string) (onDemand : bool)
    (ownJID : JID) (lids : option client) (convs : list conversation) : eff gateway nat :=
  (match convs with
   | [] => ret 0
   | c :: convs =>
       let! added := persist_conversation scope tenantID onDemand ownJID lids c in
       let! rest := persist_conversations scope tenantID onDemand ownJID lids convs in
       ret (added + rest)
   end)%go.

(** The answer is the number of rows it reports to the log. *)
Definition persistHistorySync (scope : HistorySyncScope) (tenantID : string)
    (data : option HistorySync) : eff gateway nat :=
  (match data with
   | None => ret 0
   | Some data =>
       let! own := ownJID tenantID in
       let! lids := lidsFor tenantID in
       persist_conversations scope tenantID (hs_OnDemand data) own lids (hs_Conversations data)
   end)%go.

(** ** Asking for older messages *)

(** A call of [SyncHistory] that is waiting. *)
Record waiting_sync := {
  ws_key : string;
  ws_channel : nat;
  ws_chat : string;
  ws_count : Z;
}.

Definition on_pending {A} (f : pendingHistory → A * pendingHistory) : eff gateway A := λ n g,
  let '(a, p) := f (g_pending g) in (a, n, set_pending p g).

Definition release_now (key : string) (ch : nat) : eff gateway () :=
  on_pending (λ p, ((), release key ch p)).

(** [SyncHistory] up to its [select]: an error, already cleaned up after, or
    the call that waits. *)
Definition begin_sync (tenantID chatJID : string) (count : Z) : eff gateway (result waiting_sync) :=
  (let! c := logged_in_client tenantID in
   match c with
   | None => ret (Err (Sentinel ErrNotPaired))
   | Some c =>
       match parseJID chatJID with
       | Err e => ret (Err e)
       | Ok chat =>
           let count := NormalizeSyncCount count in
           let! lids := lidsFor tenantID in
           let! found := canonicalise lids chat EmptyJID in
           let canonical := found.1 in
           let! anchor := on_db (OldestByChat tenantID (jid_String canonical)) in
           match anchor with
           | Err e => ret (Err (if errors_Is e ErrNotFound then Sentinel ErrNoAnchorMessage else e))
           | Ok anchor =>
               let key := historyKey tenantID (jid_String canonical) in
               let! registered := on_pending (register key) in
               match registered with
               | Err e => ret (Err e)
               | Ok ch =>
                   let info := {| info_Chat := chat;
                                  info_IsFromMe := bool_decide (m_Direction anchor = DirectionOut);
                                  info_ID := m_WAMessageID anchor;
                                  info_Timestamp := m_Timestamp anchor |} in
                   let! sent := ask tenantID (CallHistory info count)
                                  (λ n, SendPeerMessage n c info count) in
                   match sent with
                   | Err e =>
                       let! _ := release_now key ch in
                       ret (Err (Wrap "wa: request history sync" e))
                   | Ok _ => ret (Ok {| ws_key := key; ws_channel := ch;
                                        ws_chat := jid_String canonical; ws_count := count |})
                   end
               end
           end
       end
   end)%go.

(** What ends the [select]. *)
Inductive wake :=
  | Reply
  | Deadline
  | Cancelled (e : error).

(** The rest of [SyncHistory]: a reply can be received only when there is one;
    whatever ends the call, the deferred release runs. *)
Definition finish_sync (w : waiting_sync) (by_ : wake) : eff gateway (option (result SyncResult)) :=
  (let done_ (r : result SyncResult) := let! _ := release_now (ws_key w) (ws_channel w) in
                                        ret (Some r) in
   match by_ with
   | Reply =>
       let! got := on_pending (λ p, match receive (ws_channel w) p with
                                    | Some (d, p') => (Some d, p')
                                    | None => (None, p)
                                    end) in
       match got with
       | None => ret None
       | Some d => done_ (Ok {| sr_ChatJID := ws_chat w; sr_Inserted := Inserted d;
                                sr_OldestTimestamp := Oldest d;
                                sr_MoreAvailable := bool_decide (ws_count w ≤ Z.of_nat (Delivered d))%Z |})
       end
   | Deadline => done_ (Err (Sentinel ErrSyncTimeout))
   | Cancelled e => done_ (Err e)
   end)%go.
End history.

(** ** The rows of a conversation *)

Section rows.
Context `{JidOps} `{MediaTypes}.

(** The messages that can be identified, with their keys. *)
Definition identified (entries : list HistorySyncMsg) : list (message_key * HistorySyncMsg) :=
  omap (λ e, match hm_Key e with
             | Some k => if decide (key_ID k = "") then None else Some (k, e)
             | None => None
             end) entries.

Definition row_of (tid : string) (own chat : JID) (r : Message) (ke : message_key * HistorySyncMsg)
    : Prop := ∃ id created, r = history_row tid own chat id created ke.1 ke.2.

Context `{Oracle} {St : Type}.

Lemma history_rows_answer tid own chat created entries :
  answers (λ rs, Forall2 (row_of tid own chat) rs (identified entries))
    (history_rows (St := St) tid own chat created entries).
Proof.
  induction entries as [|e entries IH]; simpl; [by apply answers_ret|].
  unfold identified. simpl. destruct (hm_Key e) as [k|]; [|exact IH].
  case_decide; [exact IH|].
  eapply (answers_bind (λ _, True)); [done|]. intros id _. eapply answers_bind; [exact IH|].
  intros rest Hrest. apply answers_ret. constructor; [|done]. by exists id, created.
Qed.

Lemma history_rows_evolves (R : relation St) `{!PreOrder R} tid own chat created entries :
  evolves R (history_rows tid own chat created entries).
Proof.
  induction entries as [|e entries IH]; simpl; [by apply evolves_ret|].
  destruct (hm_Key e); [|done]. case_decide; [done|]. unfold NewID.
  apply evolves_bind; [done|by apply evolves_new_id|intros id].
  apply evolves_bind; [done..|]. intros rest. by apply evolves_ret.
Qed.

Lemma historyRecords_evolves (R : relation St) `{!PreOrder R} tid own chat d entries :
  evolves R (historyRecords tid own chat d entries).
Proof.
  unfold historyRecords. case_decide; [by apply evolves_ret|].
  apply evolves_bind; [done|by apply evolves_now|intros created].
  apply evolves_bind; [done|by apply history_rows_evolves|intros rs]. by apply evolves_ret.
Qed.

Lemma newest_of_spec best rs :
  newest_of best rs ∈ best :: rs ∧
  ∀ r, r ∈ best :: rs → (m_Timestamp r <= m_Timestamp (newest_of best rs))%Z.
Proof.
  revert best. induction rs as [|x rs IH]; intros best; simpl.
  { split; [left|]. intros r [->|?%elem_of_nil]%elem_of_cons; [lia|done]. }
  destruct (IH (if decide (m_Timestamp best < m_Timestamp x)%Z then x else best)) as [Hin Hmax].
  split.
  - apply elem_of_cons in Hin as [->|Hin]; [|by right; right]. case_decide; [right; left|left].
  - intros r Hr. assert (Hb : (m_Timestamp best <= m_Timestamp
      (if decide (m_Timestamp best < m_Timestamp x) then x else best))%Z ∧ (m_Timestamp x <=
      m_Timestamp (if decide (m_Timestamp best < m_Timestamp x) then x else best))%Z)
      by (case_decide; lia).
    specialize (Hmax _ (list_elem_of_here _ _)) as Hfirst.
    apply elem_of_cons in Hr as [->|[->|Hr]%elem_of_cons]; [lia..|].
    apply Hmax. by right.
Qed.

Lemma newestRecord_spec rs :
  rs ≠ [] → ∃ r, newestRecord rs = [r] ∧ r ∈ rs ∧ ∀ x, x ∈ rs → (m_Timestamp x <= m_Timestamp r)%Z.
Proof.
  destruct rs as [|r rs]; [done|]. intros _. exists (newest_of r (r :: rs)). split; [done|].
  destruct (newest_of_spec r (r :: rs)) as [Hin Hmax]. split.
  - apply elem_of_cons in Hin as [->|?]; [left|done].
  - intros x Hx. apply Hmax. by right.
Qed.

Lemma historyRecords_rows tid own chat d entries :
  answers (λ rs, ∀ r, r ∈ rs → ∃ ke, ke ∈ identified entries ∧ row_of tid own chat r ke)
    (historyRecords (St := St) tid own chat d entries).
Proof.
  unfold historyRecords. case_decide; [apply answers_ret; by intros r ?%elem_of_nil|].
  eapply (answers_bind (λ _, True)); [done|]. intros created _.
  eapply answers_bind; [apply history_rows_answer|]. intros rs Hrs. apply answers_ret.
  assert (Hall : ∀ r, r ∈ rs → ∃ ke, ke ∈ identified entries ∧ row_of tid own chat r ke).
  { intros r [i Hi]%list_elem_of_lookup. destruct (Forall2_lookup_l _ _ _ _ _ Hrs Hi) as (ke & Hke & Hr).
    exists ke. split; [by eapply list_elem_of_lookup_2|done]. }
  destruct d; [done| |done]. intros r Hr. destruct rs as [|x rs]; [by apply elem_of_nil in Hr|].
  destruct (newestRecord_spec (x :: rs)) as (y & E & Hin & _); [done|].
  rewrite E in Hr. apply list_elem_of_singleton in Hr as ->. by apply Hall.
Qed.
End rows.

(** The chats a sync stores nothing of. *)
Definition not_a_conversation `{JidOps} (scope : HistorySyncScope) (chat : JID) : Prop :=
  (jid_Server chat = BroadcastServer ∧ jid_User chat = StatusBroadcastUser) ∨
  (jid_Server chat = NewsletterServer ∧ scope ≠ HistorySyncScopeAll).

Section volume.
Context `{JidLaws} `{MediaTypes} `{Oracle}.

Lemma decision_skip scope chat :
  historyDecisionFor scope chat = historySkipChat ↔ not_a_conversation scope chat.
Proof.
  unfold historyDecisionFor, not_a_conversation.
  repeat case_decide; split; try done; naive_solver.
Qed.

(** C19: the history scope is a volume control and never costs a conversation
    its anchor.  Whatever the scope, only status updates and, outside the
    widest scope, channels are skipped; a direct conversation is stored whole;
    and every other conversation that delivers an identifiable message yields
    its newest one at least, from which older ones can be asked for. *)
Theorem history_keeps_an_anchor {St} scope tid own chat entries n (s : St) :
  let rs := answer (historyRecords tid own chat (historyDecisionFor scope chat) entries) n s in
  (not_a_conversation scope chat → rs = []) ∧
  (historyDecisionFor scope chat = historyPersistAll →
     Forall2 (row_of tid own chat) rs (identified entries)) ∧
  (¬ not_a_conversation scope chat → identified entries ≠ [] →
     ∃ r ke, r ∈ rs ∧ ke ∈ identified entries ∧ row_of tid own chat r ke ∧
       ∀ ke', ke' ∈ identified entries →
         (int64 (hm_Timestamp ke'.2) <= int64 (hm_Timestamp ke.2))%Z) ∧
  (jid_Server chat ∈ [DefaultUserServer; HiddenUserServer] →
     historyDecisionFor scope chat = historyPersistAll).
Proof.
  intros rs. split_and!.
  - intros Hskip%decision_skip. unfold rs. rewrite Hskip. done.
  - intros Hall. unfold rs. rewrite Hall. unfold historyRecords. case_decide as Hz.
    + destruct Hz as [?| ->]; [done|]. constructor.
    + rewrite !bind_answer. apply history_rows_answer.
  - intros Hno Hid. rewrite <- decision_skip in Hno. unfold rs, historyRecords.
    rewrite decide_False by (intros [?| ->]; [done|by apply Hid]).
    rewrite !bind_answer. set (n' := next _ _ _). set (s' := final _ _ _). set (c := answer now n s).
    pose proof (history_rows_answer tid own chat c entries n' s') as Hrs.
    set (all := answer (history_rows tid own chat c entries) n' s') in *. clearbody all.
    assert (Hne : all ≠ []) by (intros ->; by apply Forall2_nil_inv_l in Hrs).
    destruct (newestRecord_spec all Hne) as (r & En & Hin & Hmax).
    apply list_elem_of_lookup in Hin as [i Hi].
    destruct (Forall2_lookup_l _ _ _ _ _ Hrs Hi) as (ke & Hke & Hr).
    exists r, ke. split_and!; [|by eapply list_elem_of_lookup_2|done|].
    + unfold answer, ret. simpl. destruct (historyDecisionFor scope chat) eqn:Ed; [done| |].
      * rewrite En. left.
      * by eapply list_elem_of_lookup_2.
    + intros ke' [j Hj]%list_elem_of_lookup.
      destruct (Forall2_lookup_r _ _ _ _ _ Hrs Hj) as (x & Hx & Hr').
      specialize (Hmax x). destruct Hr as (? & ? & ->), Hr' as (? & ? & ->).
      assert (Hle := Hmax (list_elem_of_lookup_2 _ _ _ Hx)). simpl in Hle. unfold Unix in Hle. lia.
  - intros Hs. pose proof servers_distinct as Hd.
    rewrite !NoDup_cons, !not_elem_of_cons in Hd. rewrite !elem_of_cons, elem_of_nil in Hs.
    destruct Hd as ((_&?&?&?&_)&(?&?&?&_)&_). unfold historyDecisionFor.
    destruct Hs as [->|[->|[]] ].
    all: rewrite (decide_False (P := _ ∧ _)) by (intros [? _]; congruence).
    all: do 2 (rewrite decide_False by congruence); by rewrite decide_True by auto.
Qed.
End volume.

(** ** What storing a sync may do *)

Section storing.
Context `{Unicode} `{Oracle} `{MediaTypes} `{WaClient}.

(** The same row with its sender resolved. *)
Definition resent (r r' : Message) : Prop :=
  m_TenantID r' = m_TenantID r ∧ m_ChatJID r' = m_ChatJID r ∧
  m_WAMessageID r' = m_WAMessageID r ∧ m_Timestamp r' = m_Timestamp r.

Lemma canonicaliseSenders_answer lids rs :
  answers (Forall2 resent rs) (canonicaliseSenders lids rs).
Proof.
  induction rs as [|r rs IH]; simpl; [by apply answers_ret|].
  apply (answers_bind (resent r)).
  - destruct (ParseJID _) as [sender|e]; [|by apply answers_ret].
    destruct (IsEmpty sender); [by apply answers_ret|].
    eapply (answers_bind (λ _, True)); [done|]. intros found _.
    eapply (answers_bind (λ _, True)); [done|]. intros _ _. by apply answers_ret.
  - intros r' Hr. eapply answers_bind; [exact IH|]. intros rest Hrest. apply answers_ret. by constructor.
Qed.

(** A row of the tenant filed under the address [jid] resolves to. *)
Definition filed_at (tid : string) (jid alt : JID) (m : Message) : Prop :=
  m_TenantID m = tid ∧
  ∃ (lids : option client) n,
    m_ChatJID m = jid_String (canonicalJID (resolver_of lids n) jid alt).1.

Section storing_relation.
Context (R : relation gateway) `{!PreOrder R} (tid : string).
Context (P : Message → Prop).
Hypothesis R_unresolved : ∀ a b, evolves R (countUnresolved a b).
Hypothesis R_pending : ∀ p g, R g (set_pending p g).
Hypothesis R_reads : ∀ A (m : eff db A), evolves same_tables m → evolves R (on_db m).
Hypothesis R_append : ∀ ms, (∀ m, m ∈ ms → P m) → evolves R (on_db (AppendBatch ms)).

Lemma canonicaliseSenders_evolves lids rs : evolves R (canonicaliseSenders lids rs).
Proof.
  induction rs as [|r rs IH]; simpl; [by apply evolves_ret|].
  apply evolves_bind; [done| |intros r'].
  - destruct (ParseJID _) as [sender|e]; [|by apply evolves_ret].
    destruct (IsEmpty sender); [by apply evolves_ret|].
    apply evolves_bind; [done|by apply canonicalise_evolves|intros found].
    apply evolves_bind; [done|by apply R_unresolved|intros _]. by apply evolves_ret.
  - apply evolves_bind; [done..|]. intros rest. by apply evolves_ret.
Qed.

Lemma deliver_now_evolves key d : evolves R (deliver_now key d).
Proof.
  intros n g. unfold final, deliver_now. destruct (deliver key d (g_pending g)) as [found p].
  destruct (waiters (g_pending g) !! key); apply R_pending.
Qed.

Lemma deliverOnDemand_evolves chat a b : evolves R (deliverOnDemand tid chat a b).
Proof.
  unfold deliverOnDemand. apply evolves_bind; [done| |intros oldest; apply deliver_now_evolves].
  apply R_reads, OldestByChat_same.
Qed.

Lemma persist_conversation_evolves scope onDemand own lids conv :
  (∀ raw m, ParseJID (conv_ID conv) = Ok raw → filed_at tid raw EmptyJID m → P m) →
  evolves R (persist_conversation scope tid onDemand own lids conv).
Proof.
  intros HP. unfold persist_conversation.
  destruct (ParseJID (conv_ID conv)) as [raw|e] eqn:Eraw; [|by apply evolves_ret].
  case_decide; [by apply evolves_ret|].
  set (found_ok := λ found : JID * bool, ∃ n, found = canonicalJID (resolver_of lids n) raw EmptyJID).
  apply (evolves_bind_answers R found_ok); [by apply canonicalise_evolves|by intros n g; exists n|].
  intros found [k Hfound]. apply evolves_bind; [done|by apply R_unresolved|intros _].
  set (chat := found.1).
  set (ok := λ r : Message, m_TenantID r = tid ∧ m_ChatJID r = jid_String chat).
  apply (evolves_bind_answers R (λ rs, ∀ r, r ∈ rs → ok r)); [by apply historyRecords_evolves| |].
  { intros n g r Hr.
    destruct (historyRecords_rows tid own chat (historyDecisionFor scope chat) (conv_Messages conv)
                n g r Hr) as (ke & _ & id & created & ->). done. }
  intros rs Hrs. case_decide; [by apply evolves_ret|].
  apply (evolves_bind_answers R (Forall2 resent rs));
    [by apply canonicaliseSenders_evolves|apply canonicaliseSenders_answer|].
  intros rs' Hrs'. apply evolves_bind; [done| |].
  { apply R_append. intros m [i Hi]%list_elem_of_lookup. apply (HP raw); [done|].
    destruct (Forall2_lookup_r _ _ _ _ _ Hrs' Hi) as (r & Hr & Et & Ec & _).
    destruct (Hrs r (list_elem_of_lookup_2 _ _ _ Hr)) as [Ht Hc].
    split; [congruence|]. exists lids, k. rewrite Ec, Hc. unfold chat. by rewrite Hfound. }
  intros [added|e]; [|by apply evolves_ret]. destruct onDemand; [|by apply evolves_ret].
  apply evolves_bind; [done|apply deliverOnDemand_evolves|intros _]. by apply evolves_ret.
Qed.

Lemma persistHistorySync_evolves scope data :
  (∀ d conv raw m, data = Some d → conv ∈ hs_Conversations d → ParseJID (conv_ID conv) = Ok raw →
     filed_at tid raw EmptyJID m → P m) →
  evolves R (persistHistorySync scope tid data).
Proof.
  intros HP. unfold persistHistorySync. destruct data as [d|]; [|by apply evolves_ret].
  apply evolves_bind; [done|by apply ownJID_evolves|intros own].
  apply evolves_bind; [done|by apply lidsFor_evolves|intros lids].
  assert (HP' : ∀ conv raw m, conv ∈ hs_Conversations d → ParseJID (conv_ID conv) = Ok raw →
            filed_at tid raw EmptyJID m → P m) by (intros; by eapply HP).
  clear HP. induction (hs_Conversations d) as [|c convs IH]; simpl; [by apply evolves_ret|].
  apply evolves_bind; [done| |intros added].
  - apply persist_conversation_evolves. intros raw m Hraw Hm. eapply HP'; [left|done..].
  - apply evolves_bind; [done| |intros rest; by apply evolves_ret].
    apply IH. intros conv raw m Hc. apply HP'. by right.
Qed.
End storing_relation.

Lemma set_pending_acts tid p g : acts_for tid g (set_pending p g).
Proof. split; try done. exists []. by rewrite app_nil_r. Qed.

Lemma on_pending_acts {A} tid (f : pendingHistory → A * pendingHistory) :
  evolves (acts_for tid) (on_pending f).
Proof.
  intros n g. unfold final, on_pending. destruct (f (g_pending g)) as [a p].
  apply set_pending_acts.
Qed.

Lemma persistHistorySync_acts scope tid data :
  evolves (acts_for tid) (persistHistorySync scope tid data).
Proof.
  apply (persistHistorySync_evolves (acts_for tid) tid (λ m, m_TenantID m = tid)).
  - intros. apply countUnresolved_acts.
  - intros. apply set_pending_acts.
  - intros. by apply same_tables_acts.
  - intros. by apply AppendBatch_acts.
  - by intros d conv raw m _ _ _ [? _].
Qed.

(** The database of a gateway only gains rows that satisfy [P]. *)
Definition gains (P : Message → Prop) (g g' : gateway) : Prop := adds P (g_db g) (g_db g').

#[export] Instance gains_preorder P : PreOrder (gains P).
Proof. split; [by intros g; unfold gains|]. intros g1 g2 g3. unfold gains. apply transitivity. Qed.

Lemma persistHistorySync_gains scope tid data :
  evolves (gains (λ m, ∃ d conv raw, data = Some d ∧ conv ∈ hs_Conversations d ∧
                    ParseJID (conv_ID conv) = Ok raw ∧ filed_at tid raw EmptyJID m))
    (persistHistorySync scope tid data).
Proof.
  apply (persistHistorySync_evolves _ tid (λ m, ∃ d conv raw, data = Some d ∧
    conv ∈ hs_Conversations d ∧ ParseJID (conv_ID conv) = Ok raw ∧ filed_at tid raw EmptyJID m)).
  - intros a b. apply countUnresolved_evolves; [apply _|]. intros v g. by left.
  - intros p g. by left.
  - intros A m Hm. apply on_db_evolves. by apply same_tables_adds.
  - intros ms Hms. apply on_db_evolves, AppendBatch_adds. intros m x Hm (Et & Ec & _).
    destruct (Hms m Hm) as (d & conv & raw & Hd & Hc & Hp & [Ht (l & k & Hf)]).
    exists d, conv, raw. split_and!; [done..|]. split; [congruence|]. exists l, k. by rewrite Ec.
  - intros d conv raw m Hd Hc Hp Hf. by exists d, conv, raw.
Qed.

Lemma begin_sync_acts tid chatJID count : evolves (acts_for tid) (begin_sync tid chatJID count).
Proof.
  unfold begin_sync. apply evolves_bind; [apply _|apply logged_in_client_evolves, _|].
  intros [c|]; [|refine (evolves_ret _ _)].
  destruct (parseJID chatJID) as [chat|e]; [|refine (evolves_ret _ _)].
  apply evolves_bind; [apply _|apply lidsFor_evolves, _|intros lids].
  apply evolves_bind; [apply _|apply canonicalise_evolves, _|intros found].
  apply evolves_bind; [apply _|apply same_tables_acts, OldestByChat_same|].
  intros [anchor|e]; [|refine (evolves_ret _ _)].
  apply evolves_bind; [apply _|apply on_pending_acts|]. intros [ch|e]; [|refine (evolves_ret _ _)].
  apply evolves_bind; [apply _|apply ask_acts|]. intros [u|e]; [refine (evolves_ret _ _)|].
  apply evolves_bind; [apply _|apply on_pending_acts|]. intros x. refine (evolves_ret _ _).
Qed.

Lemma finish_sync_acts tid w b : evolves (acts_for tid) (finish_sync w b).
Proof.
  unfold finish_sync. destruct b.
  - apply evolves_bind; [apply _|apply on_pending_acts|]. intros [d|]; [|refine (evolves_ret _ _)].
    apply evolves_bind; [apply _|apply on_pending_acts|]. intros x. refine (evolves_ret _ _).
  - apply evolves_bind; [apply _|apply on_pending_acts|]. intros x. refine (evolves_ret _ _).
  - apply evolves_bind; [apply _|apply on_pending_acts|]. intros x. refine (evolves_ret _ _).
Qed.
End storing.

#[export] Hint Resolve persistHistorySync_acts begin_sync_acts finish_sync_acts : evolves.

(** ** The request, its reply and the registry *)

Section requests.
Context `{Unicode} `{Oracle} `{MediaTypes} `{WaClient}.

Lemma NormalizeSyncCount_range count : (1 <= NormalizeSyncCount count <= 200)%Z.
Proof. unfold NormalizeSyncCount, DefaultSyncCount, MaxSyncCount. repeat case_decide; lia. Qed.

(** The request built from the anchor. *)
Definition request_of (chat : JID) (anchor : Message) : MessageInfo :=
  {| info_Chat := chat; info_IsFromMe := bool_decide (m_Direction anchor = DirectionOut);
     info_ID := m_WAMessageID anchor; info_Timestamp := m_Timestamp anchor |}.

(** The index of the tenant's client, for [lidsFor]. *)
Definition index_of (tid : string) (g : gateway) : option client :=
  match g_clients g !! tid with
  | Some c => if has_LIDs c then Some c else None
  | None => None
  end.

Lemma lidsFor_run tid n g : lidsFor tid n g = (index_of tid g, n, g).
Proof. done. Qed.

(** How a call that waits got there. *)
Definition waits (tid chatJID : string) (count : Z) (g g' : gateway) (w : waiting_sync) : Prop :=
  ∃ chat anchor k s,
    parseJID chatJID = Ok chat ∧ is_Some (g_clients g !! tid) ∧
    (∃ j, ws_chat w = jid_String (canonicalJID (resolver_of (index_of tid g) j) chat EmptyJID).1) ∧
    answer (OldestByChat tid (ws_chat w)) k s = Ok anchor ∧ s = g_db g ∧
    ws_key w = historyKey tid (ws_chat w) ∧ ws_count w = NormalizeSyncCount count ∧
    register (ws_key w) (g_pending g) = (Ok (ws_channel w), g_pending g') ∧
    g_calls g' = g_calls g ++ [(tid, CallHistory (request_of chat anchor) (ws_count w))].

Lemma register_waiters key p ch p' :
  register key p = (Ok ch, p') →
  waiters p !! key = None ∧ waiters p' = <[key := ch]> (waiters p) ∧
  buffers p' !! ch = Some [] ∧ (ch ∉ dom (buffers p)) ∧ released p' = released p.
Proof.
  unfold register. destruct (waiters p !! key) eqn:E; [done|]. intros [= <- <-]. simpl.
  rewrite lookup_insert_eq. split_and!; try done. apply is_fresh.
Qed.

Lemma release_registered key p ch p' :
  register key p = (Ok ch, p') → ch ∉ released p → waiters (release key ch p') = waiters p.
Proof.
  intros (Hno & Hw & _ & _ & Hr)%register_waiters Hn. unfold release. rewrite Hr.
  rewrite decide_False by done. simpl. rewrite Hw, lookup_insert_eq, decide_True by done.
  by rewrite delete_insert_id.
Qed.

Lemma begin_sync_run tid chatJID count n g a n' g' tr :
  reachable tr (g_pending g) → begin_sync tid chatJID count n g = (a, n', g') →
  match a with
  | Err _ => waiters (g_pending g') = waiters (g_pending g)
  | Ok w => waits tid chatJID count g g' w
  end.
Proof.
  intros Htr. unfold begin_sync.
  destruct (logged_in_client_run tid n g) as [(c & Hc & _ & E)|(k & E & _)];
    rewrite (bind_run _ _ _ _ _ _ _ E); [|by intros [= <- <- <-] ].
  destruct (parseJID chatJID) as [chat|e] eqn:Echat; [|by intros [= <- <- <-] ].
  cbv zeta. rewrite (bind_run _ _ _ _ _ _ _ (lidsFor_run _ _ _)).
  set (lids := index_of tid g).
  unfold bind at 1, canonicalise, draw. set (found := canonicalJID _ _ _).
  unfold bind at 1. rewrite on_db_run.
  destruct (answer (OldestByChat tid (jid_String found.1)) (S (S n)) (g_db g)) as [anchor|e] eqn:Ea;
    [|by intros [= <- <- <-] ].
  unfold bind at 1, on_pending. simpl.
  destruct (register (historyKey tid (jid_String found.1)) (g_pending g)) as [[ch|e] p] eqn:Er.
  2: { intros [= <- <- <-]. simpl. unfold register in Er.
       destruct (waiters (g_pending g) !! _); [|done]. by injection Er as _ <-. }
  unfold bind at 1, ask. set (info := {| info_Chat := _ |}).
  destruct (SendPeerMessage _ c info _) as [u|e].
  - intros [= <- <- <-]. unfold waits. simpl. exists chat, anchor. do 2 eexists.
    split_and!; [done|by eexists|by eexists|exact Ea|done|done|done|exact Er|done].
  - unfold release_now, bind, on_pending, ret. intros [= <- <- <-]. simpl.
    eapply release_registered; [exact Er|].
    intros Hrel. apply (inv_released_known tr _ (invariant_reachable tr _ Htr)) in Hrel.
    apply register_waiters in Er as (_ & _ & _ & Hf & _). done.
Qed.

(** C20: a history request is anchored and bounded, and leaves nothing behind.
    A call that fails to start, for whatever reason, leaves the registry as it
    was; one that waits has sent exactly one request, for at most 200 messages
    before the oldest message stored of the tenant's conversation, and is the
    only call registered for it; whatever ends the wait, its entry is gone
    afterwards and the other entries are untouched. *)
Theorem SyncHistory_registry tid chatJID count n g tr :
  reachable tr (g_pending g) →
  let g1 := final (begin_sync tid chatJID count) n g in
  match answer (begin_sync tid chatJID count) n g with
  | Err _ => waiters (g_pending g1) = waiters (g_pending g)
  | Ok w =>
      waiters (g_pending g) !! ws_key w = None ∧
      waiters (g_pending g1) = <[ws_key w := ws_channel w]> (waiters (g_pending g)) ∧
      (∃ chat anchor k, parseJID chatJID = Ok chat ∧
         answer (OldestByChat tid (ws_chat w)) k (g_db g) = Ok anchor ∧
         (1 <= ws_count w <= 200)%Z ∧
         g_calls g1 = g_calls g ++ [(tid, CallHistory (request_of chat anchor) (ws_count w))]) ∧
      ∀ by_ n' r, answer (finish_sync w by_) n' g1 = Some r →
        waiters (g_pending (final (finish_sync w by_) n' g1)) = waiters (g_pending g)
  end.
Proof.
  intros Htr. destruct (begin_sync tid chatJID count n g) as [[a n1] g1] eqn:E.
  unfold answer, final. rewrite E. simpl.
  apply (begin_sync_run _ _ _ _ _ _ _ _ tr) in E; [|done]. destruct a as [w|e]; [|done].
  destruct E as (chat & anchor & k & s & Hchat & _ & _ & Ha & -> & Hkey & Hcount & Hreg & Hcalls).
  assert (Hrel : ws_channel w ∉ released (g_pending g)).
  { intros Hr. apply (inv_released_known tr _ (invariant_reachable tr _ Htr)) in Hr.
    apply register_waiters in Hreg as (_ & _ & _ & Hf & _). done. }
  pose proof (register_waiters _ _ _ _ Hreg) as (Hno & Hw & Hb & _ & _).
  split_and!; [done..| |].
  - exists chat, anchor, k. split_and!; try done; rewrite Hcount; apply NormalizeSyncCount_range.
  - intros by_ n' r. unfold finish_sync, release_now, on_pending, bind, ret.
    destruct by_; simpl.
    + unfold receive. rewrite Hb. done.
    + intros _. by eapply release_registered.
    + intros _. by eapply release_registered.
Qed.

(** A delivery for the conversation a call waits for is the one it receives. *)
Lemma delivered_reply tid chat w inserted delivered g g1 n2 g2 n3 tr :
  reachable tr (g_pending g) →
  register (ws_key w) (g_pending g) = (Ok (ws_channel w), g_pending g1) →
  ws_key w = historyKey tid (ws_chat w) →
  g_pending g2 = g_pending g1 → jid_String chat = ws_chat w →
  let g3 := final (deliverOnDemand tid chat inserted delivered) n2 g2 in
  answer (finish_sync w Reply) n3 g3 = Some (Ok
    {| sr_ChatJID := ws_chat w; sr_Inserted := inserted;
       sr_OldestTimestamp := match answer (OldestByChat tid (ws_chat w)) n2 (g_db g2) with
                             | Ok m => m_Timestamp m | Err _ => zero_time end;
       sr_MoreAvailable := bool_decide (ws_count w ≤ Z.of_nat delivered)%Z |}) ∧
  waiters (g_pending (final (finish_sync w Reply) n3 g3)) = waiters (g_pending g).
Proof.
  intros Htr Hreg Hkey Hp Hchat.
  pose proof (register_waiters _ _ _ _ Hreg) as (Hno & Hwt & Hb & Hf & Hr).
  set (d := {| Inserted := inserted; Delivered := delivered;
               Oldest := match answer (OldestByChat tid (ws_chat w)) n2 (g_db g2) with
                         | Ok m => m_Timestamp m | Err _ => zero_time end |}).
  assert (Hdel : ∃ p, g_pending (final (deliverOnDemand tid chat inserted delivered) n2 g2) = p ∧
       waiters p = waiters (g_pending g) ∧ buffers p !! ws_channel w = Some [d] ∧
       released p = released (g_pending g)).
  { unfold deliverOnDemand. rewrite bind_final. unfold final at 1.
    unfold deliver_now. rewrite on_db_answer. unfold final. rewrite on_db_run. simpl.
    rewrite Hchat, <- Hkey, Hp. unfold deliver. rewrite Hwt, lookup_insert_eq. simpl.
    eexists. split; [done|]. unfold send. simpl.
    rewrite lookup_insert_eq, Hb. simpl. rewrite lookup_insert_eq. split_and!; [|done..].
    by rewrite delete_insert_id. }
  destruct Hdel as (p & Hgp & Hpw & Hpb & Hpr). intros g3.
  fold g3 in Hgp. clearbody g3.
  unfold finish_sync, on_pending, bind, receive, release_now, ret, answer, final. simpl.
  rewrite Hgp, Hpb. simpl. split; [done|].
  unfold release. simpl. rewrite Hpr, Hpw. rewrite decide_False; simpl.
  - by rewrite decide_False by (rewrite Hno; done).
  - intros Hin. apply (inv_released_known tr _ (invariant_reachable tr _ Htr)) in Hin. done.
Qed.

(** How many rows a conversation of a sync yields. *)
Definition rows_kept (d : historyDecision) (entries : list HistorySyncMsg) : nat :=
  match d with
  | historySkipChat => 0
  | historyAnchorOnly => 1 `min` length (identified entries)
  | historyPersistAll => length (identified entries)
  end.

Lemma historyRecords_length tid own chat d entries :
  answers (λ rs, length rs = rows_kept d entries)
    (historyRecords (St := gateway) tid own chat d entries).
Proof.
  unfold historyRecords. case_decide as Hz.
  { apply answers_ret. destruct Hz as [->| ->]; [done|]. by destruct d. }
  eapply (answers_bind (λ _, True)); [done|]. intros created _.
  eapply answers_bind; [apply history_rows_answer|]. intros rs Hrs%Forall2_length. apply answers_ret.
  destruct d; simpl; [naive_solver| |done]. rewrite <- Hrs. by destruct rs.
Qed.

(** The database and the registry are as they were. *)
Definition quiet (g g' : gateway) : Prop := g_db g' = g_db g ∧ g_pending g' = g_pending g.

#[local] Instance quiet_preorder : PreOrder quiet.
Proof. split; [by split|]. intros g1 g2 g3 [] []. split; congruence. Qed.

Lemma countUnresolved_quiet a b : evolves quiet (countUnresolved a b).
Proof. by apply countUnresolved_evolves; [apply _|]. Qed.

(** One conversation of a sync that answers a request: its rows are appended in
    one batch, and delivered when the batch is stored. *)
Lemma persist_on_demand scope tid own lids conv raw n g :
  ParseJID (conv_ID conv) = Ok raw → jid_User raw ≠ "" →
  let chat := (canonicalJID (resolver_of lids n) raw EmptyJID).1 in
  let run := persist_conversation scope tid true own lids conv in
  ∃ records k g',
    quiet g g' ∧ length records = rows_kept (historyDecisionFor scope chat) (conv_Messages conv) ∧
    (∀ r, r ∈ records → m_TenantID r = tid ∧ m_ChatJID r = jid_String chat) ∧
    match answer (AppendBatch records) k (g_db g') with
    | Ok added =>
        if decide (records = []) then answer run n g = 0 ∧ quiet g (final run n g)
        else answer run n g = added ∧
          final run n g = final (deliverOnDemand tid chat added (length records))
            (next (AppendBatch records) k (g_db g'))
            (set_db (final (AppendBatch records) k (g_db g')) g')
    | Err _ => answer run n g = 0 ∧ g_pending (final run n g) = g_pending g
    end.
Proof.
  intros Hraw Hu chat run. destruct (run n g) as [[a nf] gf] eqn:E.
  assert (Ea : answer run n g = a ∧ final run n g = gf) by (unfold answer, final; by rewrite E).
  destruct Ea as [-> ->]. unfold run, persist_conversation in E. rewrite Hraw, decide_False in E by done.
  assert (Ec : canonicalise lids raw EmptyJID n g =
            (canonicalJID (resolver_of lids n) raw EmptyJID, S n, g)) by done.
  rewrite (bind_run _ _ _ _ _ _ _ Ec) in E. clear Ec. fold chat in E.
  set (ok := (canonicalJID _ _ _).2) in E. cbv zeta in E.
  pose proof (countUnresolved_quiet ok true (S n) g) as Hq1.
  destruct (countUnresolved ok true (S n) g) as [[u n1] g1] eqn:Eu. unfold final in Hq1. rewrite Eu in Hq1. simpl in Hq1.
  rewrite (bind_run _ _ _ _ _ _ _ Eu) in E. clear Eu. set (d := historyDecisionFor scope chat) in *.
  pose proof (historyRecords_length tid own chat d (conv_Messages conv) n1 g1) as Hlen.
  pose proof (historyRecords_rows (St := gateway) tid own chat d (conv_Messages conv) n1 g1) as Hrows.
  pose proof (historyRecords_evolves (St := gateway) eq tid own chat d (conv_Messages conv) n1 g1) as Hs.
  destruct (historyRecords tid own chat d (conv_Messages conv) n1 g1) as [[rs n2] g2] eqn:Er.
  unfold answer, final in Hlen, Hrows, Hs. rewrite Er in Hlen, Hrows, Hs. simpl in Hlen, Hrows, Hs. subst g2.
  rewrite (bind_run _ _ _ _ _ _ _ Er) in E. clear Er. case_decide as Hrs.
  { injection E as <- _ <-. exists [], n2, g1. rewrite Hrs in Hlen.
    split_and!; [done|done|by intros r ?%elem_of_nil|]. by split. }
  pose proof (canonicaliseSenders_answer lids rs n2 g1) as Hsame.
  pose proof (canonicaliseSenders_evolves quiet countUnresolved_quiet lids rs n2 g1) as Hq2.
  destruct (canonicaliseSenders lids rs n2 g1) as [[rs' n3] g3] eqn:Es.
  unfold answer, final in Hsame, Hq2. rewrite Es in Hsame, Hq2. simpl in Hsame, Hq2.
  rewrite (bind_run _ _ _ _ _ _ _ Es) in E. clear Es. exists rs', n3, g3.
  split; [by trans g1|]. split; [by rewrite <- (Forall2_length _ _ _ Hsame)|]. split.
  { intros r' [i Hi]%list_elem_of_lookup.
    destruct (Forall2_lookup_r _ _ _ _ _ Hsame Hi) as (r & Hr & Et & Ech & _).
    destruct (Hrows r (list_elem_of_lookup_2 _ _ _ Hr)) as (ke & _ & id & created & ->).
    by rewrite Et, Ech. }
  rewrite (bind_run _ _ _ _ _ _ _ (on_db_run (AppendBatch rs') n3 g3)) in E.
  destruct (answer (AppendBatch rs') n3 (g_db g3)) as [added|e].
  - rewrite decide_False by (intros ->; by apply Forall2_nil_inv_r in Hsame).
    unfold bind, ret in E. unfold final at 1. destruct (deliverOnDemand _ _ _ _ _ _) as [[v m] gd].
    injection E as <- _ <-. done.
  - injection E as <- _ <-. split; [done|]. simpl. destruct Hq1 as [_ E1], Hq2 as [_ E2]. congruence.
Qed.
End requests.

(** ** A request and the sync that answers it *)

Section reply.
Context `{Unicode} `{Oracle} `{MediaTypes} `{JidLaws} `{!WaClient}.

(** C21: the reply reaches the call that asked.  A call that waits, waits for the
    canonical address of the conversation it was asked about.  When the sync
    that answers it arrives for any address of that conversation, the phone
    number or the LID, then, unless nothing of it could be stored, the call
    returns the number of rows that were new, the time of the oldest message
    now stored of the conversation, and whether the phone filled the request,
    and the registry is as it was before the call.  When nothing could be
    stored the call goes on waiting. *)
Theorem SyncHistory_reply scope tid chatJID count n g w tr chat conv raw n2 g2 :
  reachable tr (g_pending g) → answer (begin_sync tid chatJID count) n g = Ok w →
  let g1 := final (begin_sync tid chatJID count) n g in
  let m := lids (g_db g) in
  full_index m → is_Some (index_of tid g) → parseJID chatJID = Ok chat → addressable chat →
  g_pending g2 = g_pending g1 → is_Some (index_of tid g2) →
  ParseJID (conv_ID conv) = Ok raw → addressable raw →
  same_conversation m (plain_address raw) (plain_address chat) →
  let sync := persistHistorySync scope tid
    (Some {| hs_OnDemand := true; hs_Conversations := [conv] |}) in
  let g3 := final sync n2 g2 in
  ws_chat w = canonical m (plain_address chat) ∧
  ∃ found records k,
    jid_String found = ws_chat w ∧
    length records = rows_kept (historyDecisionFor scope found) (conv_Messages conv) ∧
    (∀ r, r ∈ records → m_TenantID r = tid ∧ m_ChatJID r = ws_chat w) ∧
    match answer (AppendBatch records) k (g_db g2), records with
    | Ok inserted, _ :: _ =>
        let s3 := final (AppendBatch records) k (g_db g2) in
        answer sync n2 g2 = inserted ∧ same_tables s3 (g_db g3) ∧
        ∀ n3,
          answer (finish_sync w Reply) n3 g3 = Some (Ok
            {| sr_ChatJID := ws_chat w; sr_Inserted := inserted;
               sr_OldestTimestamp :=
                 match answer (OldestByChat tid (ws_chat w)) (next (AppendBatch records) k (g_db g2)) s3 with
                 | Ok m => m_Timestamp m | Err _ => zero_time end;
               sr_MoreAvailable := bool_decide (ws_count w ≤ Z.of_nat (length records))%Z |}) ∧
          waiters (g_pending (final (finish_sync w Reply) n3 g3)) = waiters (g_pending g)
    | _, _ => answer sync n2 g2 = 0 ∧ g_pending g3 = g_pending g1
    end.
Proof.
  intros Htr Hw g1 m Hone [c Hi] Hchat Hadd Hp [c2 Hi2] Hraw Hradd Hsame sync g3.
  destruct (begin_sync tid chatJID count n g) as [[a n1] g1'] eqn:E.
  unfold answer in Hw. unfold g1, final in Hp |- *. rewrite E in Hw, Hp |- *. simpl in Hw, Hp |- *. subst a.
  apply (begin_sync_run _ _ _ _ _ _ _ _ tr) in E; [|done].
  destruct E as (chat0 & anchor & k0 & s & Hchat0 & _ & (j & Hws) & _ & _ & Hkey & _ & Hreg & _).
  rewrite Hchat in Hchat0. injection Hchat0 as <-. rewrite Hi, (resolved_address m) in Hws by done.
  split; [exact Hws|].
  assert (Eo : ∃ own nq, ownJID tid n2 g2 = (own, nq, g2)).
  { unfold ownJID, bind, client_of, draw, ret. destruct (g_clients g2 !! tid); by do 2 eexists. }
  destruct Eo as (own & nq & Eo).
  assert (Esync : ∃ run, run = persist_conversation scope tid true own (Some c2) conv ∧
            answer sync n2 g2 = answer run nq g2 ∧ g3 = final run nq g2).
  { eexists. split; [done|]. unfold g3, sync, persistHistorySync. cbn [hs_OnDemand hs_Conversations].
    rewrite (bind_run_answer _ _ _ _ _ _ _ Eo), (bind_run_final _ _ _ _ _ _ _ Eo).
    pose proof (lidsFor_run tid nq g2) as El. rewrite Hi2 in El. run_with El.
    cbn [persist_conversations]. unfold answer, final, bind, ret.
    destruct (persist_conversation _ _ _ _ _ _ nq g2) as [[x nx] gx]. simpl. split; [lia|done]. }
  destruct Esync as (run & -> & -> & Eg3).
  destruct (persist_on_demand scope tid own (Some c2) conv raw nq g2 Hraw) as
    (records & k & g' & [Hdb Hpend] & Hlen & Hrows & Hend); [by apply Hradd|].
  set (found := (canonicalJID _ raw EmptyJID).1) in *.
  assert (Hfound : jid_String found = ws_chat w) by (unfold found; by rewrite (resolved_address m), Hws).
  rewrite Hfound in Hrows. exists found, records, k. do 3 (split; [done|]).
  rewrite Hdb in Hend. rewrite Eg3. destruct (answer (AppendBatch records) k (g_db g2)) as [added|e].
  2: { destruct Hend as [-> ->]. destruct records; by rewrite Hp. }
  case_decide as Hr; [destruct Hend as [-> [_ ->] ]; subst records; by rewrite Hp|].
  destruct Hend as [Hans Hfin]. destruct records as [|r0 records]; [done|]. split; [done|].
  set (s3 := final (AppendBatch (r0 :: records)) k (g_db g2)) in *.
  set (k' := next (AppendBatch (r0 :: records)) k (g_db g2)) in *. rewrite Hfin. split.
  - unfold deliverOnDemand. rewrite bind_final. unfold final at 2. rewrite on_db_run. simpl.
    pose proof (OldestByChat_same tid (jid_String found) k' s3) as Hold. clear -Hold.
    unfold final at 1, deliver_now. destruct (deliver _ _ _) as [b p]. by destruct (_ !! _).
  - intros n3. apply (delivered_reply tid found w added _ g g1' k' (set_db s3 g') n3 tr Htr Hreg Hkey).
    + simpl. by rewrite Hpend.
    + done.
Qed.
End reply.

(** ** Witnesses: a backfill that is asked for and answered *)

Definition no_bytes : result string := Ok "".

Definition begin_demo := begin_sync (H0 := demo_oracle) (H2 := plain_jids)
  (H3 := plain_clients no_bytes) "acme" "+57 300-472 5680" 0.
Definition start_demo := demo_gateway no_bytes demo_db.

Lemma SyncHistory_registry_witness :
  match answer begin_demo 0 start_demo with
  | Ok w => ws_chat w = "573004725680@s.whatsapp.net" ∧ ws_count w = 50%Z ∧
      waiters (g_pending (final begin_demo 0 start_demo)) !! ws_key w = Some (ws_channel w)
  | Err _ => False
  end.
Proof.
  pose proof (SyncHistory_registry (H0 := demo_oracle) (H2 := plain_jids)
    (H3 := plain_clients no_bytes) "acme" "+57 300-472 5680" 0 0 start_demo [] reach_start) as Hr.
  destruct (answer begin_demo 0 start_demo) as [w|e] eqn:E; [|vm_compute in E; discriminate E].
  unfold begin_demo in E. rewrite E in Hr. destruct Hr as (_ & Hw & _).
  assert (Hc : ws_chat w = "573004725680@s.whatsapp.net" ∧ ws_count w = 50%Z)
    by (vm_compute in E; injection E as <-; split; reflexivity).
  destruct Hc as [Hc1 Hc2]. split; [exact Hc1|]. split; [exact Hc2|].
  unfold begin_demo. rewrite Hw. apply lookup_insert_eq.
Defined.

(** The request names the LID; the reply comes under the phone number, with three
    messages of which two are new. *)
Definition asked_demo := begin_sync (H0 := demo_oracle) (H2 := plain_jids)
  (H3 := plain_clients no_bytes) "acme" "15285906083900@lid" 0.

Definition old_entry (id : string) (t : Z) : HistorySyncMsg :=
  {| hm_Key := Some {| key_ID := id; key_FromMe := false; key_Participant := "" |};
     hm_Message := None; hm_Timestamp := t |}.

Definition reply_conversation : conversation :=
  {| conv_ID := "573004725680@s.whatsapp.net";
     conv_Messages := [old_entry "OLD2" 4; old_entry "W1" 10; old_entry "OLD1" 3] |}.

Definition replied_demo := persistHistorySync (H := demo_unicode) (H0 := demo_oracle) (H1 := plain_media) (H2 := plain_jids)
  (H3 := plain_clients no_bytes) HistorySyncScopeDM "acme"
  (Some {| hs_OnDemand := true; hs_Conversations := [reply_conversation] |}).

Lemma SyncHistory_reply_witness :
  match answer asked_demo 0 start_demo with
  | Ok w =>
      let g3 := final replied_demo 120 (final asked_demo 0 start_demo) in
      ws_chat w = "573004725680@s.whatsapp.net" ∧ answer replied_demo 120 (final asked_demo 0 start_demo) = 2 ∧
      ∃ r, answer (finish_sync (H2 := plain_jids) (H3 := plain_clients no_bytes) w Reply) 200 g3 =
             Some (Ok r) ∧ sr_Inserted r = 2 ∧ sr_MoreAvailable r = false
  | Err _ => False
  end.
Proof.
  destruct (answer asked_demo 0 start_demo) as [w|e] eqn:E; [|vm_compute in E; discriminate E].
  intros g3.
  assert (Hc : ws_count w = 50%Z) by (vm_compute in E; injection E as <-; reflexivity).
  destruct (SyncHistory_reply (H := demo_unicode) (H0 := demo_oracle) (H1 := plain_media) (H2 := plain_jids)
    (H3 := plain_laws) (H4 := plain_clients no_bytes) HistorySyncScopeDM "acme"
    "15285906083900@lid" 0 0 start_demo w [] (PlainJID "15285906083900" "" "lid")
    reply_conversation (PlainJID "573004725680" "" "s.whatsapp.net") 120
    (final asked_demo 0 start_demo) reach_start E) as (Hw & found & records & k & _ & Hlen & _ & Hend).
  - exact (demo_index no_bytes).
  - vm_compute. eauto.
  - reflexivity.
  - exact (proj1 person_addressable).
  - reflexivity.
  - vm_compute. eauto.
  - reflexivity.
  - exact (proj2 person_addressable).
  - vm_compute. reflexivity.
  - assert (Hans : answer replied_demo 120 (final asked_demo 0 start_demo) = 2) by (vm_compute; reflexivity).
    split; [rewrite Hw; vm_compute; reflexivity|]. split; [exact Hans|].
    destruct (answer (AppendBatch records) k _) as [added|e], records as [|r records];
      try (destruct Hend as [H0 _]; unfold replied_demo in Hans; rewrite H0 in Hans; discriminate Hans).
    destruct Hend as (Hadd & _ & Hend). destruct (Hend 200) as [Hf _].
    eexists. split; [exact Hf|]. simpl. split.
    + rewrite <- Hadd. exact Hans.
    + rewrite Hc. apply bool_decide_eq_false_2.
      assert (Hle : rows_kept (historyDecisionFor (H := plain_jids) HistorySyncScopeDM found)
                (conv_Messages reply_conversation) ≤ 3)
        by (destruct (historyDecisionFor _ _); simpl; lia).
      rewrite <- Hlen in Hle. simpl in Hle. lia.
Defined.

(** A group outside the scope: of two messages, the newer one is kept. *)
Definition group_entry (id : string) (t : Z) : HistorySyncMsg :=
  {| hm_Key := Some {| key_ID := id; key_FromMe := false; key_Participant := "1@lid" |};
     hm_Message := None; hm_Timestamp := t |}.

Definition group_jid : plain_jid := PlainJID "1203" "" "g.us".

Lemma history_keeps_an_anchor_witness :
  let rs := answer (historyRecords (H := plain_jids) (H0 := plain_media) (H1 := demo_oracle)
              (St := unit) "acme" own_jid group_jid
              (historyDecisionFor (H := plain_jids) HistorySyncScopeDM group_jid)
              [group_entry "A" 5; group_entry "B" 9; group_entry "" 99]) 0 () in
  m_WAMessageID <$> rs = ["B"] ∧ ∃ r, r ∈ rs.
Proof.
  pose proof (history_keeps_an_anchor (H := plain_jids) (H0 := plain_laws)
    (H1 := plain_media) (H2 := demo_oracle) HistorySyncScopeDM "acme" own_jid group_jid
    [group_entry "A" 5; group_entry "B" 9; group_entry "" 99] 0 ()) as (_ & _ & Hk & _).
  split; [vm_compute; reflexivity|].
  destruct Hk as (r & ke & Hr & _).
  - intros [ [Hs _]|[Hs _] ]; discriminate Hs.
  - discriminate.
  - exists r. exact Hr.
Defined.
