(* ===== verification/Manager.v ===== *)
(** * The session manager ([internal/wa/manager.go], [groups.go], [session.go])

    Pairing, sending, logging out, and what an event of WhatsApp does.  A
    function that only logs an error drops it here. *)

From stdpp Require Import pretty.
From S2P Require Import Prelude GoText GoUnicode GoEff Models Sql Store SessionRepo MessageRepo.
From S2P Require Import Address Config Pending WaAddress MediaReference Gateway History.
From S2P Require ChatRepo.

(** [PairingResult]; the mode says which of the two is populated. *)
Inductive PairingMode := PairingModeCode | PairingModeQR.

Record PairingResult := {
  pr_Mode : PairingMode;
  pr_PairCode : string;
  pr_QR : string;
}.

Record SentMessage := {
  sm_WAMessageID : string;
  sm_ChatJID : string;
  sm_SenderJID : string;
  sm_Timestamp : Z;
}.

Record SessionStatus := {
  st_TenantID : string;
  st_Status : string;
  st_WAJID : string;
  st_Connected : bool;
  st_LoggedIn : bool;
}.

(** The live event [events.Message]. *)
Record live_message `{JidOps} := {
  lm_Source : MessageSource;
  lm_ID : string;
  lm_Timestamp : Z;
  lm_MediaType : string;
  lm_Message : option wa_message;
}.

(** The events [handleEvent] tells apart. *)
Inductive wa_event `{JidOps} :=
  | EvMessage (e : live_message)
  | EvHistorySync (data : option HistorySync)
  | EvConnected
  | EvJoinedGroup (jid : JID) (name : string)
  | EvGroupInfo (jid : JID) (name : option string)
  | EvDisconnected
  | EvLoggedOut
  | EvOther.

Section manager.
Context `{Unicode} `{Oracle} `{MediaTypes} `{WaClient}.

(** ** Rows of live messages *)

Definition live_row (tenantID : string) (e : live_message) (chat sender : JID) (id : string)
    (created : Z) : Message :=
  let row := applyMediaReference
    {| m_ID := id; m_TenantID := tenantID; m_ChatJID := jid_String (ToNonAD chat);
       m_SenderJID := jid_String (ToNonAD sender); m_WAMessageID := lm_ID e;
       m_Direction := if src_IsFromMe (lm_Source e) then DirectionOut else DirectionIn;
       m_Body := extractText (lm_Message e);
       m_MediaType := None; m_MediaPath := None; m_DirectPath := None; m_MediaKey := None;
       m_FileEncSHA256 := None; m_FileSHA256 := None; m_MMSType := None;
       m_FileLength := None; m_MimeType := None; m_MediaStatus := None; m_MediaError := None;
       m_MediaFetchedAt := None; m_Timestamp := lm_Timestamp e; m_CreatedAt := created |}
    (mediaReference_opt (lm_Message e)) in
  if decide (lm_MediaType e = "") then row
  else
    {| m_ID := m_ID row; m_TenantID := m_TenantID row; m_ChatJID := m_ChatJID row;
       m_SenderJID := m_SenderJID row; m_WAMessageID := m_WAMessageID row;
       m_Direction := m_Direction row; m_Body := m_Body row;
       m_MediaType := Some (lm_MediaType e);
       m_MediaPath := m_MediaPath row; m_DirectPath := m_DirectPath row;
       m_MediaKey := m_MediaKey row; m_FileEncSHA256 := m_FileEncSHA256 row;
       m_FileSHA256 := m_FileSHA256 row; m_MMSType := m_MMSType row;
       m_FileLength := m_FileLength row; m_MimeType := m_MimeType row;
       m_MediaStatus := m_MediaStatus row; m_MediaError := m_MediaError row;
       m_MediaFetchedAt := m_MediaFetchedAt row; m_Timestamp := m_Timestamp row;
       m_CreatedAt := m_CreatedAt row |}.

Definition liveRecord {St} (tenantID : string) (e : live_message) (chat sender : JID)
    : eff St Message :=
  (let! id := NewID in
   let! created := now in
   ret (live_row tenantID e chat sender id created))%go.

Definition persistMessage (tenantID : string) (e : live_message) : eff gateway () :=
  (let! lids := lidsFor tenantID in
   let! chat := canonicalise lids (src_Chat (lm_Source e)) (chatAlt (lm_Source e)) in
   let! sender := canonicalise lids (src_Sender (lm_Source e)) (src_SenderAlt (lm_Source e)) in
   let! _ := countUnresolved chat.2 sender.2 in
   let! record := liveRecord tenantID e chat.1 sender.1 in
   let! _ := on_db (Append record) in
   ret ())%go.

(** ** Group names ([groups.go]) *)

Definition syncGroupNames (tenantID : string) (c : client) : eff gateway (result ()) :=
  (let! groups := ask tenantID CallGroups (λ n, GetJoinedGroups n c) in
   match groups with
   | Err e => ret (Err e)
   | Ok groups =>
       let named := omap (λ g, match g with
                               | Some (jid, name) =>
                                   Some {| n_ChatJID := jid_String (ToNonAD jid); n_Name := name |}
                               | None => None
                               end) groups in
       on_db (ChatRepo.UpsertBatch tenantID named)
   end)%go.

(** [syncGroupNamesInBackground]: the goroutine is started, no more. *)
Definition syncGroupNamesInBackground (tenantID : string) (c : client) : eff gateway () :=
  modify (λ g, set_background
    (<[tenantID := default [] (g_background g !! tenantID) ++ [c]]> (g_background g)) g).

(** The goroutine the scheduler takes up next, any of those that are left. *)
Definition take_background (tenantID : string) (i : nat) : eff gateway (option client) := λ n g,
  let started := default [] (g_background g !! tenantID) in
  match started !! i with
  | Some c => (Some c, n, set_background (<[tenantID := delete i started]> (g_background g)) g)
  | None => (None, n, g)
  end.

(** Its body: a failure is only logged. *)
Definition run_background (tenantID : string) (i : nat) : eff gateway () :=
  (let! c := take_background tenantID i in
   match c with
   | None => ret ()
   | Some c => let! _ := syncGroupNames tenantID c in ret ()
   end)%go.

Definition rememberGroupName (tenantID : string) (jid : JID) (name : string) : eff gateway () :=
  (let! _ := on_db (ChatRepo.Upsert tenantID
               {| n_ChatJID := jid_String (ToNonAD jid); n_Name := name |}) in
   ret ())%go.

(** ** Events *)

Definition updateStatus (tenantID status waJID : string) : eff gateway () :=
  (let! _ := on_db (UpdateStatus tenantID status waJID) in ret ())%go.

Definition handleEvent (scope : HistorySyncScope) (tenantID : string) (evt : wa_event)
    : eff gateway () :=
  (match evt with
   | EvMessage e => persistMessage tenantID e
   | EvHistorySync data => let! _ := persistHistorySync scope tenantID data in ret ()
   | EvConnected =>
       let! c := client_of tenantID in
       match c with
       | None => updateStatus tenantID SessionConnected ""
       | Some c =>
           let! id := draw (λ n, Store_ID n c) in
           let! _ := updateStatus tenantID SessionConnected
                       (match id with Some j => jid_String j | None => "" end) in
           syncGroupNamesInBackground tenantID c
       end
   | EvJoinedGroup jid name => rememberGroupName tenantID jid name
   | EvGroupInfo jid (Some name) => rememberGroupName tenantID jid name
   | EvGroupInfo _ None => ret ()
   | EvDisconnected => updateStatus tenantID SessionDisconnected ""
   | EvLoggedOut => updateStatus tenantID SessionLoggedOut ""
   | EvOther => ret ()
   end)%go.

(** ** Clients *)

Definition set_client (tenantID : string) (c : client) : eff gateway () :=
  modify (λ g, set_clients (<[tenantID := c]> (g_clients g)) g).

(** [newClient]: the events of the client reach [handleEvent] for this tenant. *)
Definition newClient (tenantID : string) (d : device) : eff gateway client :=
  draw (λ n, NewClient n d).

Definition deviceFor (session : Session) : eff gateway (result device) :=
  (let fresh_device := let! d := draw NewDevice in ret (Ok d) in
   match s_WAJID session with
   | None => fresh_device
   | Some raw =>
       if decide (raw = "") then fresh_device
       else match parseJID raw with
            | Err _ => fresh_device
            | Ok jid =>
                let! found := draw (λ n, GetDevice n jid) in
                match found with
                | Err e => ret (Err (Wrap "wa: load device" e))
                | Ok None => fresh_device
                | Ok (Some d) => ret (Ok d)
                end
            end
   end)%go.

(** [clientFor] between its locks: the session and its device. *)
Definition session_device (tenantID : string) : eff gateway (result device) :=
  (let! session := on_db (GetByTenant tenantID) in
   match session with
   | Err e => ret (Err (if errors_Is e ErrNotFound then Sentinel ErrUnknownTenant else e))
   | Ok session => deviceFor session
   end)%go.

(** The end of [clientFor], under the lock: another goroutine may have won the
    race meanwhile. *)
Definition settle_client (tenantID : string) (d : device) : eff gateway client :=
  (let! existing := client_of tenantID in
   match existing with
   | Some c => ret c
   | None =>
       let! c := newClient tenantID d in
       let! _ := set_client tenantID c in
       ret c
   end)%go.

Definition clientFor (tenantID : string) : eff gateway (result client) :=
  (let! existing := client_of tenantID in
   match existing with
   | Some c => ret (Ok c)
   | None =>
       try! device := session_device tenantID in
       let! c := settle_client tenantID device in
       ret (Ok c)
   end)%go.

(** ** Pairing *)

(** [if !client.IsConnected() { client.Connect() }] *)
Definition connected (tenantID : string) (c : client) (what : string) : eff gateway (result ()) :=
  (let! up := draw (λ n, IsConnected n c) in
   if up : bool then ret (Ok ())
   else
     let! r := ask tenantID CallConnect (λ n, Connect n c) in
     ret (map_err (Wrap what) r))%go.

Definition pairWithCode (tenantID : string) (c : client) (phone : string)
    : eff gateway (result PairingResult) :=
  (try! _ := connected tenantID c "wa: connect for pair code" in
   try! code := ask tenantID (CallPairPhone phone) (λ n, PairPhone n c phone)
     or Wrap "wa: request pair code" in
   ret (Ok {| pr_Mode := PairingModeCode; pr_PairCode := code; pr_QR := "" |}))%go.

(** The loop over the QR channel: out of fuel, it has not ended yet. *)
Fixpoint qr_loop (fuel : nat) (c : client) : eff gateway (option (result PairingResult)) :=
  (match fuel with
   | O => ret None
   | S fuel =>
       let! w := draw (λ n, qr_next n c) in
       match w with
       | QrItem (QrCode code) =>
           ret (Some (Ok {| pr_Mode := PairingModeQR; pr_PairCode := ""; pr_QR := code |}))
       | QrItem (QrError e) => ret (Some (Err (Wrap "wa: qr pairing failed" e)))
       | QrItem QrOther => qr_loop fuel c
       | QrClosed => ret (Some (Err (New "wa: qr channel closed before a code arrived")))
       | QrTimeout => ret (Some (Err (New "wa: timed out waiting for a qr code")))
       | QrCancelled e => ret (Some (Err e))
       end
   end)%go.

Definition pairWithQR (fuel : nat) (tenantID : string) (c : client)
    : eff gateway (option (result PairingResult)) :=
  (let! channel := ask tenantID CallQR (λ n, GetQRChannel n c) in
   match channel with
   | Err e => ret (Some (Err (Wrap "wa: open qr channel" e)))
   | Ok _ =>
       let! up := connected tenantID c "wa: connect for qr" in
       match up with
       | Err e => ret (Some (Err e))
       | Ok _ => qr_loop fuel c
       end
   end)%go.

Definition StartPairing (fuel : nat) (tenantID phone : string)
    : eff gateway (option (result PairingResult)) :=
  (let! c := clientFor tenantID in
   match c with
   | Err e => ret (Some (Err e))
   | Ok c =>
       let! paired := draw (λ n, IsLoggedIn n c) in
       if paired : bool
       then ret (Some (Err (New ("wa: tenant " +:+ tenantID +:+ " is already paired; log out first"))))
       else
         (* pairing only moves the session; a tenant without one is no error *)
         let! moved := on_db (UpdateStatus tenantID SessionPending "") in
         let refused := match moved with
                        | Err e => if errors_Is e ErrNotFound then None else Some e
                        | Ok _ => None
                        end in
         match refused with
         | Some e => ret (Some (Err e))
         | None =>
             if decide (phone ≠ "")
             then let! r := pairWithCode tenantID c phone in ret (Some r)
             else pairWithQR fuel tenantID c
         end
   end)%go.

(** ** Status, sending, logging out *)

Definition Status (tenantID : string) : eff gateway (result SessionStatus) :=
  (let! session := on_db (GetByTenant tenantID) in
   match session with
   | Err e => ret (Err (if errors_Is e ErrNotFound then Sentinel ErrUnknownTenant else e))
   | Ok session =>
       let jid := default "" (s_WAJID session) in
       let! c := client_of tenantID in
       match c with
       | None => ret (Ok {| st_TenantID := tenantID; st_Status := s_Status session;
                            st_WAJID := jid; st_Connected := false; st_LoggedIn := false |})
       | Some c =>
           let! up := draw (λ n, IsConnected n c) in
           let! logged := draw (λ n, IsLoggedIn n c) in
           ret (Ok {| st_TenantID := tenantID; st_Status := s_Status session;
                      st_WAJID := jid; st_Connected := up; st_LoggedIn := logged |})
       end
   end)%go.

Definition sentRecord {St} (resp : SendResponse) (chat own : JID) : eff St SentMessage :=
  (let! timestamp := (if IsZero (resp_Timestamp resp) then now else ret (resp_Timestamp resp)) in
   ret {| sm_WAMessageID := resp_ID resp; sm_ChatJID := jid_String (ToNonAD chat);
          sm_SenderJID := jid_String (ToNonAD own); sm_Timestamp := timestamp |})%go.

Definition SendText (tenantID toJID body : string) : eff gateway (result SentMessage) :=
  (let! c := logged_in_client tenantID in
   match c with
   | None => ret (Err (Sentinel ErrNotPaired))
   | Some c =>
       let! lids := lidsFor tenantID in
       let! dest := draw (λ n, sendDestination (resolver_of lids n) toJID) in
       match dest with
       | Err e => ret (Err e)
       | Ok (chat, isCanonical) =>
           let! _ := countUnresolved isCanonical true in
           let! resp := ask tenantID (CallSend chat body) (λ n, SendMessage n c chat body) in
           match resp with
           | Err e => ret (Err (Wrap "wa: send message" e))
           | Ok resp =>
               let! own := ownJID tenantID in
               let! sent := sentRecord resp chat own in
               ret (Ok sent)
           end
       end
   end)%go.

(** The beginning of [Logout], under the lock. *)
Definition take_client (tenantID : string) : eff gateway (option client) := λ n g,
  (g_clients g !! tenantID, n, set_clients (delete tenantID (g_clients g)) g).

Definition Logout (tenantID : string) : eff gateway (result ()) :=
  (let! c := take_client tenantID in
   match c with
   | None => ret (Err (Sentinel ErrNotPaired))
   | Some c =>
       let! out := ask tenantID CallLogout (λ n, LogoutDevice n c) in
       match out with
       | Err e => ret (Err (Wrap "wa: logout" e))
       | Ok _ =>
           let! moved := on_db (UpdateStatus tenantID SessionLoggedOut "") in
           match moved with
           | Err e => if errors_Is e ErrNotFound then ret (Ok ()) else ret (Err e)
           | Ok _ => ret (Ok ())
           end
       end
   end)%go.

(** [Close]: every client is disconnected, in the order of the map. *)
Definition Close : eff gateway () :=
  modify (λ g, set_clients ∅
    (foldr (λ tid g, log_call tid CallDisconnect g) g (map_to_list (g_clients g)).*1)).

(** ** Restoring sessions on boot *)

(** [byJID]: a later device of the same address replaces an earlier one. *)
Fixpoint devices_by_jid (m : gmap string device) (devices : list device) : gmap string device :=
  match devices with
  | [] => m
  | d :: devices =>
      devices_by_jid (match device_ID d with
                      | Some j => <[jid_String j := d]> m
                      | None => m
                      end) devices
  end.

Fixpoint restore_all (byJID : gmap string device) (sessions : list Session) : eff gateway () :=
  (match sessions with
   | [] => ret ()
   | session :: sessions =>
       let raw := default "" (s_WAJID session) in
       if decide (raw = "") then restore_all byJID sessions
       else match byJID !! raw with
            | None => restore_all byJID sessions
            | Some d =>
                let! c := newClient (s_TenantID session) d in
                let! _ := set_client (s_TenantID session) c in
                let! _ := ask (s_TenantID session) CallConnect (λ n, Connect n c) in
                restore_all byJID sessions
            end
   end)%go.

Definition RestoreSessions : eff gateway (result ()) :=
  (let! sessions := on_db SessionRepo.List_ in
   match sessions with
   | Err e => ret (Err (Wrap "wa: list sessions" e))
   | Ok sessions =>
       let! devices := draw GetAllDevices in
       match devices with
       | Err e => ret (Err (Wrap "wa: load whatsmeow devices" e))
       | Ok devices =>
           let! _ := restore_all (devices_by_jid ∅ devices) sessions in
           ret (Ok ())
       end
   end)%go.
End manager.
