(* ===== verification/Contacts.v ===== *)
(** * Looking up a destination ([internal/wa/contacts.go], [groups.go])

    The candidates of a query, by address: the address book, the server for a
    bare number, the stored conversations and the cached names. *)

From S2P Require Import Prelude GoText GoUnicode GoEff Models Sql Store MessageRepo.
From S2P Require Import MessageQueries Address Pending WaAddress Gateway StoreTheorems Demo.
From S2P Require ChatRepo.

(** [Contact] of [session.go] *)
Record Contact := {
  ct_JID : string;
  ct_Name : string;
  ct_HasMessages : bool;
}.

Definition maxContactResults : nat := 25.

(** The order of the answer: by name, then by address. *)
Definition contact_order (a b : Contact) : Prop :=
  (ct_Name a ≠ ct_Name b ∧ text_le (ct_Name a) (ct_Name b)) ∨
  ct_Name a = ct_Name b ∧ text_le (ct_JID a) (ct_JID b).

#[export] Instance contact_order_dec a b : Decision (contact_order a b).
Proof. unfold contact_order. apply _. Defined.

Definition candidate (jid name : string) : Contact :=
  {| ct_JID := jid; ct_Name := name; ct_HasMessages := false |}.

(** [isAllDigits] *)
Definition isAllDigits (s : string) : bool := bool_decide (s ≠ "") && all_bytes is_digit s.

Section contacts.
Context `{Unicode} `{Oracle} `{WaClient}.

Definition anyContains (values : list string) (needle : string) : bool :=
  existsb (λ v, bool_decide (v ≠ "") && contains needle (ToLower v)) values.

(** [contactName] *)
Definition contactName (info : ContactInfo) (jid : JID) : string :=
  match filter (λ n, TrimSpace n ≠ "")
          [ci_FullName info; ci_BusinessName info; ci_PushName info; ci_FirstName info] with
  | name :: _ => name
  | [] => jid_User jid
  end.

(** The address book, in the order the map is walked. *)
Fixpoint from_book (needle : string) (found : gmap string Contact) (book : list (JID * ContactInfo))
    : gmap string Contact :=
  match book with
  | [] => found
  | (jid, info) :: book =>
      let names := [ci_FullName info; ci_FirstName info; ci_PushName info; ci_BusinessName info;
                    jid_User jid] in
      if anyContains names needle then
        let address := jid_String (ToNonAD jid) in
        from_book needle (<[address := candidate address (contactName info jid)]> found) book
      else from_book needle found book
  end.

(** The answer of the server about a bare number. *)
Fixpoint from_server (query : string) (found : gmap string Contact)
    (responses : list IsOnWhatsAppResponse) : gmap string Contact :=
  match responses with
  | [] => found
  | r :: responses =>
      if negb (on_IsIn r) || IsEmpty (on_JID r) then from_server query found responses
      else
        let address := jid_String (ToNonAD (on_JID r)) in
        match found !! address with
        | Some _ => from_server query found responses
        | None =>
            let name := match on_VerifiedName r with
                        | Some v => if decide (v ≠ "") then v else query
                        | None => query
                        end in
            from_server query (<[address := candidate address name]> found) responses
        end
  end.

(** The conversations stored for the tenant. *)
Fixpoint from_chats (found : gmap string Contact) (chats : list string) : gmap string Contact :=
  match chats with
  | [] => found
  | chat :: chats =>
      match found !! chat with
      | Some _ => from_chats found chats
      | None =>
          let name := match ParseJID chat with Ok jid => jid_User jid | Err _ => chat end in
          from_chats (<[chat := candidate chat name]> found) chats
      end
  end.

(** [isPlaceholderName] *)
Definition isPlaceholderName (c : Contact) : bool :=
  if decide (ct_Name c = ct_JID c) then true
  else match ParseJID (ct_JID c) with
       | Err _ => false
       | Ok jid => bool_decide (ct_Name c = jid_User jid)
       end.

(** [mergeNamedChats] *)
Fixpoint mergeNamedChats (found : gmap string Contact) (named : list NamedChat)
    : gmap string Contact :=
  match named with
  | [] => found
  | chat :: named =>
      let fill (c : Contact) :=
        <[n_ChatJID chat := {| ct_JID := n_ChatJID chat; ct_Name := n_Name chat;
                               ct_HasMessages := ct_HasMessages c |}]> found in
      match found !! n_ChatJID chat with
      | Some existing =>
          if isPlaceholderName existing then mergeNamedChats (fill existing) named
          else mergeNamedChats found named
      | None => mergeNamedChats (fill (candidate "" "")) named
      end
  end.

(** The last loop: whether anything is stored for each candidate. *)
Fixpoint with_messages (tenantID : string) (out : list Contact) : eff gateway (result (list Contact)) :=
  (match out with
   | [] => ret (Ok [])
   | c :: out =>
       try! stored := on_db (ListByChat tenantID (ct_JID c) 1) in
       try! rest := with_messages tenantID out in
       ret (Ok ({| ct_JID := ct_JID c; ct_Name := ct_Name c;
                   ct_HasMessages := bool_decide (0 < length stored) |} :: rest))
   end)%go.

Definition ranked (found : gmap string Contact) : list Contact :=
  take maxContactResults (merge_sort contact_order (map_to_list found).*2).

Definition FindContacts (tenantID query : string) : eff gateway (result (list Contact)) :=
  (let query := TrimSpace query in
   if decide (query = "") then ret (Ok [])
   else
     let! c := logged_in_client tenantID in
     match c with
     | None => ret (Err (Sentinel ErrNotPaired))
     | Some c =>
         try! book := ask tenantID CallContacts (λ n, GetAllContacts n c)
           or Wrap "wa: read contacts" in
         let found := from_book (ToLower query) ∅ book in
         let! found :=
           (if isAllDigits query then
              let! responses := ask tenantID (CallIsOnWhatsApp ("+" +:+ query))
                                  (λ n, IsOnWhatsApp n c ("+" +:+ query)) in
              ret (match responses with Ok l => from_server query found l | Err _ => found end)
            else ret found) in
         try! stored := on_db (SearchChats tenantID query (Z.of_nat maxContactResults)) in
         let found := from_chats found stored in
         try! named := on_db (ChatRepo.Search tenantID query (Z.of_nat maxContactResults)) in
         let found := mergeNamedChats found named in
         with_messages tenantID (ranked found)
     end)%go.
End contacts.

(** ** Order of the candidates *)

#[export] Instance contact_order_total : Total contact_order.
Proof.
  intros a b. unfold contact_order. destruct (decide (ct_Name a = ct_Name b)) as [E|E].
  - destruct (total text_le (ct_JID a) (ct_JID b)); auto.
  - destruct (total text_le (ct_Name a) (ct_Name b)); [left; auto|right; left; auto].
Qed.

#[export] Instance contact_order_trans : Transitive contact_order.
Proof.
  intros a b c [[N1 L1]|[E1 L1]] [[N2 L2]|[E2 L2]]; unfold contact_order.
  - left. split; [|by etrans]. intros E. apply N1. apply (anti_symm text_le); [done|].
    by rewrite E.
  - left. rewrite <- E2. auto.
  - left. rewrite E1. auto.
  - right. split; [congruence|by etrans].
Qed.

(** ** The map of candidates *)

Section candidates.
Context `{Unicode} `{Oracle} `{WaClient}.

(** Every candidate is filed under its own address. *)
Definition keyed (found : gmap string Contact) : Prop := ∀ a c, found !! a = Some c → ct_JID c = a.

Lemma keyed_insert found a c : keyed found → ct_JID c = a → keyed (<[a:=c]> found).
Proof. intros Hk Hc b d [[<- <-]|[_ Hd] ]%lookup_insert_Some; [done|by apply Hk]. Qed.

Lemma from_book_keyed needle found book : keyed found → keyed (from_book needle found book).
Proof.
  revert found. induction book as [|[jid info] book IH]; intros found Hk; simpl; [done|].
  case_match; [|by apply IH]. apply IH. by apply keyed_insert.
Qed.

Lemma from_server_keyed q found rs : keyed found → keyed (from_server q found rs).
Proof.
  revert found. induction rs as [|r rs IH]; intros found Hk; simpl; [done|].
  case_match; [by apply IH|]. case_match; [by apply IH|].
  apply IH. by apply keyed_insert.
Qed.

Lemma from_chats_keyed found chats : keyed found → keyed (from_chats found chats).
Proof.
  revert found. induction chats as [|x chats IH]; intros found Hk; simpl; [done|].
  destruct (found !! x); [by apply IH|]. apply IH. by apply keyed_insert.
Qed.

Lemma mergeNamedChats_keyed found named : keyed found → keyed (mergeNamedChats found named).
Proof.
  revert found. induction named as [|x named IH]; intros found Hk; simpl; [done|].
  destruct (found !! n_ChatJID x) as [e|]; [destruct (isPlaceholderName e)|]; apply IH; try done;
    by apply keyed_insert.
Qed.

Lemma mergeNamedChats_other found named a :
  (∀ x, x ∈ named → n_ChatJID x ≠ a) → mergeNamedChats found named !! a = found !! a.
Proof.
  revert found. induction named as [|x named IH]; intros found Hx; simpl; [done|].
  assert (Hne : n_ChatJID x ≠ a) by (apply Hx; left).
  assert (Hx' : ∀ y, y ∈ named → n_ChatJID y ≠ a) by (intros; apply Hx; by right).
  destruct (found !! n_ChatJID x) as [e|]; [destruct (isPlaceholderName e)|]; rewrite IH by done;
    rewrite ?lookup_insert_ne by done; done.
Qed.

(** A cached name fills a gap and overwrites nothing.  A candidate that has
    a real name keeps it; one that only shows its address, and an address that
    was no candidate, get the cached name; every other candidate is as it
    was. *)
Theorem cached_names_fill_gaps found named a :
  NoDup (n_ChatJID <$> named) →
  (∀ x, x ∈ named → n_ChatJID x = a →
     match found !! a with
     | Some c => mergeNamedChats found named !! a = Some (
         if isPlaceholderName c
         then {| ct_JID := a; ct_Name := n_Name x; ct_HasMessages := ct_HasMessages c |} else c)
     | None => mergeNamedChats found named !! a = Some (candidate a (n_Name x))
     end) ∧
  ((∀ x, x ∈ named → n_ChatJID x ≠ a) → mergeNamedChats found named !! a = found !! a).
Proof.
  intros Hnd. split; [|apply mergeNamedChats_other].
  revert found. induction named as [|y named IH]; intros found x Hx Ha; [by apply elem_of_nil in Hx|].
  simpl in Hnd. apply NoDup_cons in Hnd as [Hy Hnd]. simpl.
  apply elem_of_cons in Hx as [->|Hx].
  - assert (Hrest : ∀ z, z ∈ named → n_ChatJID z ≠ a).
    { intros z Hz E. apply Hy. rewrite Ha, <- E. by apply list_elem_of_fmap_2. }
    rewrite Ha in *. destruct (found !! a) as [e|] eqn:Ef; [destruct (isPlaceholderName e)|];
      rewrite mergeNamedChats_other by done; rewrite ?lookup_insert_eq; done.
  - assert (Hne : n_ChatJID y ≠ a).
    { intros E. apply Hy. rewrite E, <- Ha. by apply list_elem_of_fmap_2. }
    assert (Hsame : ∀ f', f' !! a = found !! a →
      match found !! a with
      | Some c => mergeNamedChats f' named !! a = Some (
          if isPlaceholderName c
          then {| ct_JID := a; ct_Name := n_Name x; ct_HasMessages := ct_HasMessages c |} else c)
      | None => mergeNamedChats f' named !! a = Some (candidate a (n_Name x))
      end).
    { intros f' E. specialize (IH Hnd f' x Hx Ha). by rewrite E in IH. }
    destruct (found !! n_ChatJID y) as [e|]; [destruct (isPlaceholderName e)|];
      apply Hsame; by rewrite ?lookup_insert_ne.
Qed.

(** ** The answer *)

Lemma with_messages_Ok tid out n g l :
  wf (g_db g) → lid_map_ok (lids (g_db g)) → answering →
  answer (with_messages tid out) n g = Ok l →
  Forall2 (λ c c', ct_JID c' = ct_JID c ∧ ct_Name c' = ct_Name c ∧
    (ct_HasMessages c' = true ↔ ∃ i m, messages (g_db g) !! i = Some m ∧
       conversation (g_db g) tid (ct_JID c) m)) out l.
Proof.
  intros Hwf Hm Ha. revert n g Hwf Hm l. induction out as [|c out IH]; intros n g Hwf Hm l; simpl.
  { intros [= <-]. constructor. }
  intros (stored & n1 & g1 & Hs & Hrest & _)%try_Ok. rewrite on_db_run in Hs.
  rewrite ListByChat_answer in Hs by done. injection Hs as Hst _ Hg1. subst g1.
  apply try_Ok in Hrest as (rest & n2 & g2 & Hr & Hend & _). injection Hend as <-.
  pose proof (ListByChat_same tid (ct_JID c) 1 n (g_db g)) as Hsame.
  set (s1 := final (ListByChat tid (ct_JID c) 1) n (g_db g)) in *.
  destruct (same_tables_messages _ _ Hsame) as [Em El].
  constructor.
  - split; [done|]. split; [done|]. simpl. rewrite bool_decide_eq_true. subst stored.
    pose proof (select_nil (conversation (g_db g) tid (ct_JID c)) newest_first
                  (normalizeLimit 1) (messages (g_db g)) (normalizeLimit_positive 1)) as Hnil.
    destruct (select _ _ _ _) as [|m l'] eqn:Esel; simpl.
    + split; [lia|]. intros (i & m & Hi & Hc). destruct Hnil as [Hnil _].
      by destruct (Hnil eq_refl i m Hi).
    + split; [intros _|lia].
      destruct (select_sound (conversation (g_db g) tid (ct_JID c)) newest_first
                  (normalizeLimit 1) (messages (g_db g)) m) as [[k Hk] Hc]; [rewrite Esel; left|].
      by exists k, m.
  - assert (Hr' : answer (with_messages tid out) n1 (set_db s1 g) = Ok rest)
      by (unfold answer; by rewrite Hr).
    apply IH in Hr'; [|by eapply same_tables_wf|by simpl; rewrite El].
    eapply Forall2_impl; [exact Hr'|]. simpl. intros x y (E1 & E2 & E3).
    split_and!; [done..|]. rewrite E3. unfold conversation. by rewrite Em, El.
Qed.

Lemma ranked_spec found :
  keyed found →
  length (ranked found) ≤ 25 ∧ NoDup (ct_JID <$> ranked found) ∧
  StronglySorted contact_order (ranked found) ∧
  ∀ c, c ∈ ranked found → found !! ct_JID c = Some c.
Proof.
  intros Hk. unfold ranked. set (all := (map_to_list found).*2).
  assert (Hin : ∀ c, c ∈ all → found !! ct_JID c = Some c).
  { intros c Hc. apply elem_of_rows in Hc as [a Ha]. by rewrite (Hk a c Ha). }
  assert (Hnd : NoDup all) by (apply (NoDup_rows ct_JID); exact Hk).
  assert (Hperm : merge_sort contact_order all ≡ₚ all) by apply merge_sort_Permutation.
  split_and!.
  - rewrite length_take. unfold maxContactResults. lia.
  - apply NoDup_fmap_inj; [|apply NoDup_take; by rewrite Hperm].
    intros x y Hx Hy Exy. apply take_elem_of in Hx, Hy. rewrite Hperm in Hx, Hy.
    apply Hin in Hx, Hy. rewrite Exy in Hx. congruence.
  - apply StronglySorted_take, StronglySorted_merge_sort; apply _.
  - intros c Hc. apply take_elem_of in Hc. rewrite Hperm in Hc. by apply Hin.
Qed.

(** The same candidates in the same order. *)
Definition same_candidate (c c' : Contact) : Prop := ct_JID c' = ct_JID c ∧ ct_Name c' = ct_Name c.

Lemma same_candidates_sorted l l' :
  Forall2 same_candidate l l' → StronglySorted contact_order l → StronglySorted contact_order l'.
Proof.
  induction 1 as [|c c' l l' [Ej En] Hl IH]; intros Hs; [constructor|].
  apply StronglySorted_inv in Hs as [Hs Hall]. constructor; [by apply IH|].
  clear IH Hs. induction Hl as [|d d' l l' [Ej' En'] Hl IH]; [constructor|].
  apply Forall_cons in Hall as [Hd Hall]. constructor; [|by apply IH].
  unfold contact_order in *. by rewrite Ej, En, Ej', En'.
Qed.

Lemma same_candidates_jids l l' : Forall2 same_candidate l l' → ct_JID <$> l' = ct_JID <$> l.
Proof. induction 1 as [|c c' l l' [Ej _] Hl IH]; csimpl; [done|]. by rewrite Ej, IH. Qed.

(** The end of [FindContacts], from the stored conversations on. *)
Definition finish_contacts (tid query : string) (found : gmap string Contact)
    : eff gateway (result (list Contact)) :=
  (try! stored := on_db (SearchChats tid query (Z.of_nat maxContactResults)) in
   let found := from_chats found stored in
   try! named := on_db (ChatRepo.Search tid query (Z.of_nat maxContactResults)) in
   let found := mergeNamedChats found named in
   with_messages tid (ranked found))%go.

Definition contacts_answer (s : db) (tid : string) (l : list Contact) : Prop :=
  length l ≤ 25 ∧ NoDup (ct_JID <$> l) ∧ StronglySorted contact_order l ∧
  ∀ c, c ∈ l → (ct_HasMessages c = true ↔
    ∃ i m, messages s !! i = Some m ∧ conversation s tid (ct_JID c) m).

Lemma finish_contacts_Ok tid query found n g l :
  wf (g_db g) → lid_map_ok (lids (g_db g)) → answering → keyed found →
  answer (finish_contacts tid query found) n g = Ok l → contacts_answer (g_db g) tid l.
Proof.
  intros Hwf Hm Ha Hk. unfold finish_contacts.
  intros (stored & n1 & g1 & Hs & Hb & _)%try_Ok. rewrite on_db_run in Hs.
  injection Hs as _ _ <-.
  pose proof (SearchChats_same tid query (Z.of_nat maxContactResults) n (g_db g)) as Hs1.
  set (s1 := final (SearchChats tid query _) n (g_db g)) in *.
  apply try_Ok in Hb as (named & n2 & g2 & Hc & Hend & _). rewrite on_db_run in Hc.
  injection Hc as _ _ <-. simpl in Hend.
  pose proof (ChatRepo.chat_Search_same tid query (Z.of_nat maxContactResults) n1 s1) as Hs2.
  set (s2 := final (ChatRepo.Search tid query _) n1 s1) in *.
  assert (Hs : same_tables (g_db g) s2) by (by etrans).
  destruct (same_tables_messages _ _ Hs) as [Em El].
  assert (Hk' : keyed (mergeNamedChats (from_chats found stored) named))
    by (by apply mergeNamedChats_keyed, from_chats_keyed).
  destruct (ranked_spec _ Hk') as (Hlen & Hnd & Hsort & _).
  apply with_messages_Ok in Hend; [|by eapply same_tables_wf|simpl; by rewrite El|done].
  simpl in Hend. set (out := ranked _) in *. clearbody out.
  assert (Hsame : Forall2 same_candidate out l).
  { eapply Forall2_impl; [exact Hend|]. intros x y (E1 & E2 & _). by split. }
  split_and!.
  - by rewrite <- (Forall2_length _ _ _ Hsame).
  - by rewrite (same_candidates_jids _ _ Hsame).
  - by eapply same_candidates_sorted.
  - intros c [i Hi]%list_elem_of_lookup.
    destruct (Forall2_lookup_r _ _ _ _ _ Hend Hi) as (x & _ & E1 & _ & ->).
    rewrite E1. unfold conversation. by rewrite Em, El.
Qed.

(** C33: a lookup answers at most twenty-five candidates, one per address,
    ordered by name and then by address, and says of each exactly whether
    messages of that conversation are stored for the tenant, under whichever
    of its addresses. *)
Theorem FindContacts_answer tid query n g l :
  wf (g_db g) → lid_map_ok (lids (g_db g)) → answering →
  answer (FindContacts tid query) n g = Ok l → contacts_answer (g_db g) tid l.
Proof.
  intros Hwf Hm Ha. unfold FindContacts. case_decide as Hq.
  { intros [= <-]. split_and!; [simpl; lia|constructor..|]. by intros c ?%elem_of_nil. }
  destruct (logged_in_client_run tid n g) as [(c & _ & _ & E)|(k & E & _)];
    rewrite (bind_run_answer _ _ _ _ _ _ _ E); [|done].
  intros (book & n1 & g1 & Hbook & Hb & _)%try_Ok. unfold ask in Hbook.
  injection Hbook as _ _ <-.
  assert (Hdb : ∀ tc, g_db (log_call tid tc g) = g_db g) by done.
  set (found := from_book _ ∅ book) in *.
  assert (Hk : keyed found) by (by apply from_book_keyed).
  destruct (isAllDigits (TrimSpace query)) eqn:Ed.
  - erewrite bind_run_answer in Hb by (unfold bind, ask, ret; reflexivity).
    eapply finish_contacts_Ok in Hb; [exact Hb|done..|].
    by destruct (IsOnWhatsApp _ c _); [apply from_server_keyed|].
  - erewrite bind_run_answer in Hb by reflexivity.
    eapply finish_contacts_Ok in Hb; [exact Hb|done..].
Qed.
End candidates.

(** ** Witnesses *)

Lemma cached_names_fill_gaps_witness :
  let found := {["1203@g.us" := candidate "1203@g.us" "1203"]} in
  let named := [{| n_ChatJID := "1203@g.us"; n_Name := "Obra 12" |}] in
  mergeNamedChats (H1 := plain_jids) found named !! "1203@g.us" =
  Some (candidate "1203@g.us" "Obra 12").
Proof.
  intros found named.
  destruct (cached_names_fill_gaps (H1 := plain_jids) found named "1203@g.us") as [Hf _];
    [repeat constructor; apply not_elem_of_nil|].
  exact (Hf {| n_ChatJID := "1203@g.us"; n_Name := "Obra 12" |} (list_elem_of_here _ _) eq_refl).
Defined.

Lemma FindContacts_answer_witness :
  ∃ l, answer (FindContacts (H := demo_unicode) (H0 := demo_oracle) (H1 := plain_jids)
           (H2 := plain_clients (Ok "")) "acme" "5730") 0 (demo_gateway (Ok "") demo_db) = Ok l ∧
    ct_JID <$> l = ["573004725680@s.whatsapp.net"] ∧ NoDup (ct_JID <$> l).
Proof.
  destruct (answer (FindContacts (H := demo_unicode) (H0 := demo_oracle) (H1 := plain_jids)
           (H2 := plain_clients (Ok "")) "acme" "5730") 0 (demo_gateway (Ok "") demo_db))
    as [l|e] eqn:E; [|vm_compute in E; discriminate E].
  exists l. split; [reflexivity|].
  destruct (FindContacts_answer (H := demo_unicode) (H0 := demo_oracle) (H1 := plain_jids)
           (H2 := plain_clients (Ok "")) "acme" "5730" 0 (demo_gateway (Ok "") demo_db) l
           demo_wf demo_lids_ok demo_answering E) as (_ & Hnd & _).
  split; [vm_compute in E; injection E as <-; reflexivity|exact Hnd].
Defined.
