(* ===== verification/Media.v ===== *)
(** * Fetching an attachment on demand ([internal/wa/media.go])

    The whole of [mediaFetcher.fetch], over the gateway's state: the row that
    names the attachment, the file, the client that downloads it and the
    record of the outcome. *)

From S2P Require Import Prelude GoText GoUnicode GoEff Sha256 Models Store Sql MessageRepo.
From S2P Require Import MessageQueries Pending WaAddress MediaReference MediaPath Gateway.
From S2P Require Import StoreTheorems Demo.

(** [MediaRef] *)
Record MediaRef := {
  mr_MessageID : string;
  mr_MediaType : string;
  mr_MimeType : string;
  mr_Status : string;
  mr_Path : string;
  mr_SizeBytes : Z;
}.

Definition no_ref : MediaRef :=
  {| mr_MessageID := ""; mr_MediaType := ""; mr_MimeType := ""; mr_Status := "";
     mr_Path := ""; mr_SizeBytes := 0 |}.

Definition with_outcome (status path : string) (size : Z) (ref : MediaRef) : MediaRef :=
  {| mr_MessageID := mr_MessageID ref; mr_MediaType := mr_MediaType ref;
     mr_MimeType := mr_MimeType ref; mr_Status := status; mr_Path := path;
     mr_SizeBytes := size |}.

Record mediaFetcher := {
  mf_dir : string;
  mf_maxBytes : Z;
  mf_allowed : gset string;
}.

(** The texts of [error.Error]; those of whatsmeow's errors are its own. *)
Class ErrorTexts := { download_text : sentinel → string }.

Definition sentinel_text `{ErrorTexts} (s : sentinel) : string :=
  match s with
  | ErrNotFound => "store: not found"
  | ErrKeyNotFound => "auth: api key not found"
  | ErrInvalidTenantID => "auth: tenant id must contain at least one alphanumeric character"
  | ErrNotPaired => "wa: tenant is not paired"
  | ErrUnknownTenant => "wa: unknown tenant"
  | ErrInvalidJID => "wa: invalid jid"
  | ErrNoAnchorMessage => "wa: the chat has no stored message to anchor a history request; it must appear in a pushed history sync or receive a message first"
  | ErrSyncInProgress => "wa: a history sync for this chat is already in progress"
  | ErrSyncTimeout => "wa: timed out waiting for the phone to answer the history request"
  | ErrUnknownMessage => "wa: unknown message"
  | ErrNoMedia => "wa: the message carries no downloadable media"
  | ErrMediaUnavailable => "wa: WhatsApp no longer has this media; it has expired"
  | ErrMediaTooLarge => "wa: the media is larger than the configured limit"
  | ErrMediaTypeNotAllowed => "wa: this media type is not one the gateway downloads"
  | ErrUnsafeMediaPath => "wa: refusing to build a media path from these identifiers"
  | ErrEmptyBody => "httpapi: empty request body"
  | ErrMediaDownloadFailedWith403 | ErrMediaDownloadFailedWith404
  | ErrMediaDownloadFailedWith410 => download_text s
  end.

Fixpoint Error `{ErrorTexts} (e : error) : string :=
  match e with
  | Sentinel s => sentinel_text s
  | New t | External t => t
  | Wrap t e => t +:+ ": " +:+ Error e
  end.

Definition derefString (s : option string) : string := default "" s.

Section media.
Context `{Unicode} `{Oracle} `{MediaTypes} `{WaClient} `{Disk} `{ErrorTexts}.

(** [allowedMediaTypes] *)
Definition allowedMediaTypes (types : list string) : gset string :=
  list_to_set (filter (λ t, t ≠ "") ((λ t, ToLower (TrimSpace t)) <$> types)).

(** [os.Stat(path)] of something that is not a directory: its size. *)
Definition stat_file (path : string) : eff gateway (option Z) := λ n g,
  (match o_stat n, g_files g !! path with
   | None, Some (File data) => Some (Z.of_nat (String.length data))
   | _, _ => None
   end, S n, g).

(** [os.MkdirAll]: nothing asks for the parents it creates on the way. *)
Definition MkdirAll (path : string) : eff gateway (result ()) := λ n g,
  match o_mkdir n, g_files g !! path with
  | Some text, _ => (Err (External text), S n, g)
  | None, Some (File _) => (Err (External "not a directory"), S n, g)
  | None, Some Directory => (Ok (), S n, g)
  | None, None => (Ok (), S n, set_files (<[path := Directory]> (g_files g)) g)
  end.

(** [os.WriteFile]: the file is truncated, then written. *)
Definition WriteFile (path data : string) : eff gateway (result ()) := λ n g,
  match g_files g !! path with
  | Some Directory => (Err (External "is a directory"), S n, g)
  | _ =>
      match o_write n with
      | None => (Ok (), S n, set_files (<[path := File data]> (g_files g)) g)
      | Some (text, None) => (Err (External text), S n, g)
      | Some (text, Some k) =>
          (Err (External text), S n,
           set_files (<[path := File (take_bytes k data)]> (g_files g)) g)
      end
  end.

Definition writeMediaFile (path data : string) : eff gateway (result ()) :=
  (try! _ := MkdirAll (Dir path) or Wrap "wa: create media directory" in
   try! _ := WriteFile path data or Wrap "wa: write media file" in
   ret (Ok ()))%go.

Definition isExpiredMedia (err : error) : bool :=
  errors_Is err ErrMediaDownloadFailedWith403 ||
  errors_Is err ErrMediaDownloadFailedWith404 ||
  errors_Is err ErrMediaDownloadFailedWith410.

(** [recordFailure]: a failure to record it is only logged. *)
Definition recordFailure (tenantID messageID : string) (cause : error) : eff gateway error :=
  let status := if isExpiredMedia cause then MediaUnavailable else MediaFailed in
  let outcome := if isExpiredMedia cause then Sentinel ErrMediaUnavailable
                 else Wrap "wa: download media" cause in
  (let! fetchedAt := now in
   let! _ := on_db (UpdateMedia tenantID messageID
     {| u_Path := None; u_Status := status; u_Error := Error cause;
        u_FetchedAt := fetchedAt |}) in
   ret outcome)%go.

Variable f : mediaFetcher.

Definition args_of (message : Message) : download_args :=
  {| dl_directPath := derefString (m_DirectPath message);
     dl_encFileHash := m_FileEncSHA256 message;
     dl_fileHash := m_FileSHA256 message;
     dl_mediaKey := m_MediaKey message;
     dl_mediaType := mediaTypeFor (derefString (m_MMSType message));
     dl_mmsType := derefString (m_MMSType message) |}.

(** The end of [fetch]: the bytes are on their way to [path]. *)
Definition keep_download (tenantID : string) (message : Message) (ref : MediaRef) (path data : string)
    : eff gateway (MediaRef * option error) :=
  (if decide (mf_maxBytes f < Z.of_nat (String.length data))%Z
   then ret (ref, Some (Sentinel ErrMediaTooLarge))
   else
     let! written := writeMediaFile path data in
     match written with
     | Err e => let! outcome := recordFailure tenantID (m_ID message) e in ret (ref, Some outcome)
     | Ok _ =>
         let! fetchedAt := now in
         let! updated := on_db (UpdateMedia tenantID (m_ID message)
           {| u_Path := Some path; u_Status := MediaAvailable; u_Error := "";
              u_FetchedAt := fetchedAt |}) in
         match updated with
         | Err e => ret (ref, Some e)
         | Ok _ => ret (with_outcome MediaAvailable path (Z.of_nat (String.length data)) ref, None)
         end
     end)%go.

(** [fetch] from [mediaPathFor] on. *)
Definition download (tenantID : string) (message : Message) (ref : MediaRef)
    : eff gateway (MediaRef * option error) :=
  (match mediaPathFor (mf_dir f) tenantID (m_ID message) (mr_MimeType ref) with
   | Err e => ret (ref, Some e)
   | Ok path =>
       let! downloader := logged_in_client tenantID in
       match downloader with
       | None => ret (ref, Some (Sentinel ErrNotPaired))
       | Some c =>
           let! got := ask tenantID (CallDownload (args_of message))
                         (λ n, DownloadMediaWithPath n c (args_of message)) in
           match got with
           | Err e => let! outcome := recordFailure tenantID (m_ID message) e in
                      ret (ref, Some outcome)
           | Ok data => keep_download tenantID message ref path data
           end
       end
   end)%go.

Definition ref_of (message : Message) : MediaRef :=
  {| mr_MessageID := m_ID message; mr_MediaType := derefString (m_MediaType message);
     mr_MimeType := derefString (m_MimeType message); mr_Status := ""; mr_Path := "";
     mr_SizeBytes := 0 |}.

Definition oversize (message : Message) : bool :=
  match m_FileLength message with
  | Some l => bool_decide (mf_maxBytes f < l)%Z
  | None => false
  end.

Definition on_disk (message : Message) : eff gateway (option Z) :=
  let path := derefString (m_MediaPath message) in
  if decide (path = "") then ret None else stat_file path.

(** [FetchMedia], that is [mediaFetcher.fetch] *)
Definition fetch (tenantID messageID : string) : eff gateway (MediaRef * option error) :=
  (let! found := on_db (GetByID tenantID messageID) in
   match found with
   | Err e => ret (no_ref, Some (if errors_Is e ErrNotFound then Sentinel ErrUnknownMessage else e))
   | Ok message =>
       if negb (HasMediaReference message) then ret (no_ref, Some (Sentinel ErrNoMedia))
       else
         let ref := ref_of message in
         if bool_decide (derefString (m_MediaStatus message) = MediaUnavailable)
         then ret (with_outcome MediaUnavailable "" 0 ref, Some (Sentinel ErrMediaUnavailable))
         else
           let! cached := on_disk message in
           match cached with
           | Some size =>
               ret (with_outcome MediaAvailable (derefString (m_MediaPath message)) size ref, None)
           | None =>
               if negb (bool_decide (ToLower (mr_MediaType ref) ∈ mf_allowed f))
               then ret (ref, Some (Sentinel ErrMediaTypeNotAllowed))
               else if oversize message then ret (ref, Some (Sentinel ErrMediaTooLarge))
               else download tenantID message ref
           end
   end)%go.
End media.

(** ** What each part leaves alone *)

Section frame.
Context `{Unicode} `{Oracle} `{MediaTypes} `{WaClient} `{Disk} `{ErrorTexts}.
Context (f : mediaFetcher).

(** The media bookkeeping of one message may change, and nothing else. *)
Definition media_only (tid id : string) (s s' : db) : Prop :=
  tenants s' = tenants s ∧ api_keys s' = api_keys s ∧ sessions s' = sessions s ∧
  chats s' = chats s ∧ lid_map s' = lid_map s ∧
  ∃ g : Message → Message, (∀ m, same_message m (g m)) ∧
    messages s' = update_where (owned_id tid id) g (messages s).

(** One path of the media tree and its directory may change. *)
Definition files_at (path : string) (g g' : gateway) : Prop :=
  ∀ p, p ≠ path → p ≠ Dir path → g_files g' !! p = g_files g !! p.

#[export] Instance files_at_preorder path : PreOrder (files_at path).
Proof.
  split; [done|]. intros g1 g2 g3 H1' H2' p Hp Hd. rewrite H2', H1' by done. done.
Qed.

Lemma on_db_calls {A} (m : eff db A) : evolves (keeps g_calls) (on_db m).
Proof. intros n g. unfold final. by rewrite on_db_run. Qed.

Lemma stat_file_same path n g : final (stat_file path) n g = g.
Proof. done. Qed.

Lemma MkdirAll_frame (R : relation gateway) `{!PreOrder R} path :
  (∀ g, R g (set_files (<[path := Directory]> (g_files g)) g)) → evolves R (MkdirAll path).
Proof.
  intros HR n g. unfold final, MkdirAll.
  destruct (o_mkdir n); [|destruct (g_files g !! path) as [[|?]|]]; simpl; done.
Qed.

Lemma WriteFile_frame (R : relation gateway) `{!PreOrder R} path data :
  (∀ g k, R g (set_files (<[path := File (take_bytes k data)]> (g_files g)) g)) →
  evolves R (WriteFile path data).
Proof.
  intros HR n g. unfold final, WriteFile.
  assert (Hall : take_bytes (String.length data) data = data) by (by apply take_bytes_all).
  destruct (g_files g !! path) as [[|?]|]; simpl; [done|..];
    destruct (o_write n) as [[? [k|]]|]; simpl; try done.
  all: specialize (HR g (String.length data)); by rewrite Hall in HR.
Qed.

Lemma writeMediaFile_frame (R : relation gateway) `{!PreOrder R} path data :
  (∀ g v, R g (set_files (<[path := v]> (g_files g)) g)) →
  (∀ g v, R g (set_files (<[Dir path := v]> (g_files g)) g)) →
  evolves R (writeMediaFile path data).
Proof.
  intros H1' H2'. unfold writeMediaFile.
  apply evolves_try; [done|by apply MkdirAll_frame|intros _].
  apply evolves_try; [done|by apply WriteFile_frame|intros _]. by apply evolves_ret.
Qed.

Lemma recordFailure_frame (R : relation gateway) `{!PreOrder R} tid id cause :
  (∀ upd, evolves R (on_db (UpdateMedia tid id upd))) → evolves R (recordFailure tid id cause).
Proof.
  intros HR. unfold recordFailure. apply evolves_bind; [done|by apply evolves_draw|intros t].
  apply evolves_bind; [done|apply HR|intros r]. by apply evolves_ret.
Qed.

Lemma keep_download_frame (R : relation gateway) `{!PreOrder R} tid m ref path data :
  (∀ upd, evolves R (on_db (UpdateMedia tid (m_ID m) upd))) →
  (∀ g v, R g (set_files (<[path := v]> (g_files g)) g)) →
  (∀ g v, R g (set_files (<[Dir path := v]> (g_files g)) g)) →
  evolves R (keep_download f tid m ref path data).
Proof.
  intros HR H1' H2'. unfold keep_download. case_decide; [by apply evolves_ret|].
  apply evolves_bind; [done|by apply writeMediaFile_frame|intros [u|e] ].
  - apply evolves_bind; [done|by apply evolves_draw|intros t].
    apply evolves_bind; [done|apply HR|intros [v|e] ]; by apply evolves_ret.
  - apply evolves_bind; [done|by apply recordFailure_frame|intros x]. by apply evolves_ret.
Qed.
End frame.

(** ** What [fetch] does *)

Section theorems.
Context `{Unicode} `{Oracle} `{MediaTypes} `{WaClient} `{Disk} `{ErrorTexts}.
Context (f : mediaFetcher).

(** The call of the client, and nothing after it, reaches WhatsApp. *)
Lemma download_calls tid m ref n g :
  g_calls (final (download f tid m ref) n g) = g_calls g ∨
  ∃ c path k, mediaPathFor (mf_dir f) tid (m_ID m) (mr_MimeType ref) = Ok path ∧
    g_clients g !! tid = Some c ∧ IsLoggedIn k c = true ∧
    g_calls (final (download f tid m ref) n g) = g_calls g ++ [(tid, CallDownload (args_of m))].
Proof.
  unfold download. destruct (mediaPathFor _ _ _ _) as [path|e]; [|by left].
  rewrite bind_final.
  destruct (logged_in_client_run tid n g) as [(c & Hc & Hl & E)|(n' & E & _)];
    unfold answer, next, final; rewrite E; simpl; [right|by left].
  exists c, path, n. split_and!; [done..|].
  set (k := λ got : result string, _).
  assert (Hk : ∀ got, evolves (keeps g_calls) (k got)).
  { intros [data|e]; simpl.
    - apply keep_download_frame; [apply _|intros; apply on_db_calls|done..].
    - apply evolves_bind; [apply _|apply recordFailure_frame; [apply _|]|].
      + intros; apply on_db_calls.
      + intros x. refine (evolves_ret _ _). }
  unfold bind, ask. apply (Hk (DownloadMediaWithPath (S n) c (args_of m)) (S (S n))).
Qed.

(** C27: the network is the last resort.  A fetch makes at most one call to
    WhatsApp, and only for a stored message of the caller's tenant that carries
    a reference, is not recorded as expired, has no readable file, is of an
    allowed type and declares no oversize length, through the client of that
    tenant, asking for exactly the stored reference. *)
Theorem fetch_network_last tid mid n g :
  wf (g_db g) →
  g_calls (final (fetch f tid mid) n g) = g_calls g ∨
  ∃ m c path k,
    messages (g_db g) !! m_ID m = Some m ∧ addressed_by tid mid m ∧
    HasMediaReference m = true ∧ m_MediaStatus m ≠ Some MediaUnavailable ∧
    (∀ p data, m_MediaPath m = Some p → p ≠ "" → g_files g !! p = Some (File data) →
       ∃ j, o_stat j ≠ None) ∧
    ToLower (derefString (m_MediaType m)) ∈ mf_allowed f ∧
    (∀ l, m_FileLength m = Some l → (l ≤ mf_maxBytes f)%Z) ∧
    mediaPathFor (mf_dir f) tid (m_ID m) (derefString (m_MimeType m)) = Ok path ∧
    g_clients g !! tid = Some c ∧ IsLoggedIn k c = true ∧
    g_calls (final (fetch f tid mid) n g) = g_calls g ++ [(tid, CallDownload (args_of m))].
Proof.
  intros Hwf. unfold fetch. rewrite bind_final. unfold answer, next.
  unfold final at 2 4. rewrite on_db_run. simpl.
  set (s1 := final (GetByID tid mid) n (g_db g)). set (n1 := next (GetByID tid mid) n (g_db g)).
  destruct (answer (GetByID tid mid) n (g_db g)) as [m|e] eqn:Em; [|by left].
  apply GetByID_stored in Em as (_ & _ & Hrow & Hadd); [|done].
  destruct (HasMediaReference m) eqn:Href; simpl; [|by left].
  case_bool_decide as Hst; [by left|]. rewrite bind_final.
  assert (Hd : ∃ n2, on_disk m n1 (set_db s1 g) =
     (answer (on_disk m) n1 (set_db s1 g), n2, set_db s1 g)).
  { unfold on_disk. case_decide; by eexists. }
  destruct Hd as [n2 Hd]. unfold next at 1 2, final at 2 4. rewrite Hd. simpl.
  destruct (answer (on_disk m) n1 (set_db s1 g)) as [size|] eqn:Hc; [by left|].
  case_bool_decide as Hty; simpl; [|by left].
  destruct (oversize f m) eqn:Hov; [by left|].
  destruct (download_calls tid m (ref_of m) n2 (set_db s1 g))
    as [->|(c & path & k & Hp & Hcl & Hl & ->)]; [by left|right].
  exists m, c, path, k. split_and!; try done.
  - intros E. by rewrite E in Hst.
  - intros p data Hp' Hne Hf. exists n1. unfold on_disk in Hc. rewrite Hp' in Hc. simpl in Hc.
    rewrite decide_False in Hc by done. unfold answer, stat_file in Hc. simpl in Hc.
    rewrite Hf in Hc. by destruct (o_stat n1).
  - intros l Hlen. unfold oversize in Hov. rewrite Hlen in Hov.
    apply bool_decide_eq_false in Hov. lia.
Qed.

(** ** What [fetch] changes *)

Definition within_tenant (tid p : string) : Prop :=
  ∃ rest, clean_parts p = clean_parts (mf_dir f) ++ tid :: rest.

(** What a fetch for [tid] of the message [id] may change. *)
Record confined (tid id : string) (g g' : gateway) : Prop := {
  cf_db : media_only tid id (g_db g) (g_db g');
  cf_clients : g_clients g' = g_clients g;
  cf_pending : g_pending g' = g_pending g;
  cf_files : ∀ p, g_files g' !! p = g_files g !! p ∨
    within_tenant tid p ∧ match g_files g' !! p with
      | Some (File data) => (Z.of_nat (String.length data) <= mf_maxBytes f)%Z
      | Some Directory => True
      | None => False
      end;
}.

#[export] Instance media_only_preorder tid id : PreOrder (media_only tid id).
Proof.
  split.
  - intros s. split_and!; try done. exists (λ m, m).
    split; [intros; apply same_message_refl|].
    apply map_eq. intros i. rewrite update_where_lookup. destruct (messages s !! i); simpl; [|done].
    by case_decide.
  - intros s1 s2 s3 (A1&A2&A3&A4&A5&g1&G1&E1) (B1&B2&B3&B4&B5&g2&G2&E2).
    split_and!; try congruence. exists (λ m, g2 (g1 m)). split.
    + intros m. eapply same_message_trans; [apply G1|apply G2].
    + rewrite E2, E1. apply map_eq. intros i. rewrite !update_where_lookup.
      destruct (messages s1 !! i) as [m|]; simpl; [|done]. f_equal.
      destruct (decide (owned_id tid id m)) as [Ho|Ho].
      * assert (Ho' : owned_id tid id (g1 m)).
        { pose proof (G1 m) as Hs. unfold owned_id in *. by rewrite Hs in Ho. }
        by rewrite decide_True.
      * by rewrite decide_False.
Qed.

#[export] Instance confined_preorder tid id : PreOrder (confined tid id).
Proof.
  split.
  - intros g. split; try done. by left.
  - intros g1 g2 g3 [D1 C1 P1 F1] [D2 C2 P2 F2]. split; try congruence.
    + by etrans.
    + intros p. destruct (F2 p) as [->|]; [apply F1|by right].
Qed.

Lemma media_only_same tid id s : media_only tid id s s.
Proof. reflexivity. Qed.

Lemma UpdateMedia_confined tid id upd : evolves (confined tid id) (on_db (UpdateMedia tid id upd)).
Proof.
  assert (Hu : evolves (media_only tid id) (UpdateMedia tid id upd)).
  { apply UpdateMedia_evolves; [apply _|]. intros t s. split_and!; try done.
    exists (apply_media upd t). split; [intros; apply apply_media_same|done]. }
  intros n g. unfold final. rewrite on_db_run. split; simpl; [apply Hu|done|done|by left].
Qed.

Lemma file_confined tid id p v g :
  within_tenant tid p →
  match v with File data => (Z.of_nat (String.length data) <= mf_maxBytes f)%Z | _ => True end →
  confined tid id g (set_files (<[p := v]> (g_files g)) g).
Proof.
  intros Hw Hv. split; simpl; [reflexivity|done|done|]. intros q. destruct (decide (q = p)) as [->|Hq].
  - right. split; [done|]. rewrite lookup_insert_eq. by destruct v.
  - left. by rewrite lookup_insert_ne.
Qed.

Lemma download_confined tid m ref : evolves (confined tid (m_ID m)) (download f tid m ref).
Proof.
  unfold download.
  destruct (mediaPathFor_cases (mf_dir f) tid (m_ID m) (mr_MimeType ref))
    as [(_ & ->)|(_ & path & -> & _ & Hp & Hd)]; [refine (evolves_ret _ _)|].
  assert (Hwp : within_tenant tid path) by (by eexists).
  assert (Hwd : within_tenant tid (Dir path)) by (by eexists).
  apply evolves_bind; [apply _|apply logged_in_client_evolves, _|].
  intros [c|]; [|refine (evolves_ret _ _)].
  apply evolves_bind; [apply _| |].
  { apply ask_evolves. intros g. split; simpl; [reflexivity|done|done|by left]. }
  intros [data|e].
  - unfold keep_download. case_decide as Hs; [refine (evolves_ret _ _)|].
    apply evolves_bind; [apply _| |].
    + unfold writeMediaFile. apply evolves_try; [apply _| |intros _].
      { apply MkdirAll_frame; [apply _|]. intros g. by apply file_confined. }
      apply evolves_try; [apply _| |intros _; refine (evolves_ret _ _)].
      apply WriteFile_frame; [apply _|]. intros g k. apply file_confined; [done|].
      pose proof (take_bytes_length k data). lia.
    + intros [u|e].
      * apply evolves_bind; [apply _|refine (evolves_draw _ _)|intros t].
        apply evolves_bind; [apply _|apply UpdateMedia_confined|].
        intros [v|e]; refine (evolves_ret _ _).
      * apply evolves_bind; [apply _|apply recordFailure_frame; [apply _|]|].
        { intros. apply UpdateMedia_confined. }
        intros x. refine (evolves_ret _ _).
  - apply evolves_bind; [apply _|apply recordFailure_frame; [apply _|]|].
    { intros. apply UpdateMedia_confined. }
    intros x. refine (evolves_ret _ _).
Qed.

Lemma GetByID_eq tid mid n g : final (on_db (GetByID tid mid)) n g = g.
Proof.
  unfold final. rewrite on_db_run. simpl.
  assert (Hr : final (GetByID tid mid) n (g_db g) = g_db g).
  { assert (He : reads (GetByID tid mid)); [|by symmetry; apply He].
    unfold reads, GetByID, collect. case_decide; [refine (evolves_ret _ _)|]. evolve. }
  rewrite Hr. apply set_db_same.
Qed.

Lemma on_disk_eq m n g : final (on_disk m) n g = g.
Proof. unfold on_disk. by case_decide. Qed.

(** C26: a fetch writes at most the media bookkeeping of one message of the
    caller's tenant and files below that tenant's directory of the media tree,
    none of them larger than the limit; nothing else of the gateway moves. *)
Theorem fetch_confined tid mid n g :
  wf (g_db g) →
  let g' := final (fetch f tid mid) n g in
  g_db g' = g_db g ∧ g_files g' = g_files g ∨
  ∃ m, messages (g_db g) !! m_ID m = Some m ∧ addressed_by tid mid m ∧
    confined tid (m_ID m) g g'.
Proof.
  intros Hwf g'. unfold g', fetch. rewrite bind_final, GetByID_eq.
  rewrite on_db_answer.
  destruct (answer (GetByID tid mid) n (g_db g)) as [m|e] eqn:Em; [|by left].
  apply GetByID_stored in Em as (_ & _ & Hrow & Hadd); [|done].
  destruct (HasMediaReference m); simpl; [|by left].
  case_bool_decide; [by left|]. rewrite bind_final, on_disk_eq.
  destruct (answer (on_disk m) _ g); [by left|].
  case_bool_decide; simpl; [|by left]. destruct (oversize f m); [by left|].
  right. exists m. split_and!; [done..|apply download_confined].
Qed.

(** ** Asking again *)

(** The first steps of a fetch, taken apart. *)
Lemma fetch_run tid mid n g :
  wf (g_db g) → answering →
  (answer (fetch f tid mid) n g = (no_ref, Some (Sentinel ErrUnknownMessage)) ∧
   final (fetch f tid mid) n g = g) ∨
  ∃ m k, answer (GetByID tid mid) n (g_db g) = Ok m ∧ (
    let rest :=
      if negb (HasMediaReference m) then ret (no_ref, Some (Sentinel ErrNoMedia))
      else if bool_decide (derefString (m_MediaStatus m) = MediaUnavailable)
      then ret (with_outcome MediaUnavailable "" 0 (ref_of m), Some (Sentinel ErrMediaUnavailable))
      else bind (on_disk m) (λ cached, match cached with
        | Some size =>
            ret (with_outcome MediaAvailable (derefString (m_MediaPath m)) size (ref_of m), None)
        | None =>
            if negb (bool_decide (ToLower (derefString (m_MediaType m)) ∈ mf_allowed f))
            then ret (ref_of m, Some (Sentinel ErrMediaTypeNotAllowed))
            else if oversize f m then ret (ref_of m, Some (Sentinel ErrMediaTooLarge))
            else download f tid m (ref_of m)
        end) in
    answer (fetch f tid mid) n g = answer rest k g ∧
    final (fetch f tid mid) n g = final rest k g).
Proof.
  intros Hwf Ha. unfold fetch. rewrite bind_answer, bind_final, GetByID_eq, on_db_answer.
  destruct (answer (GetByID tid mid) n (g_db g)) as [m|e] eqn:Em.
  - right. by exists m, (next (on_db (GetByID tid mid)) n g).
  - left. assert (He : e = Sentinel ErrNotFound).
    { revert Em. unfold GetByID. case_decide; [by intros [= <-]|].
      erewrite try_answer by (by apply read_rows_answer). unfold answer, ret. simpl.
      destruct (select _ _ _ _); simpl; [by intros [= <-]|done]. }
    by subst e.
Qed.
(** The row after its bookkeeping was written. *)
Definition recorded (m : Message) (upd : MediaUpdate) (g g' : gateway) : Prop :=
  ∃ t, g_db g' = set_messages (update_where (owned_id (m_TenantID m) (m_ID m))
                                (apply_media upd t) (messages (g_db g))) (g_db g).

Section one_message.
Context (tid : string) (m : Message).

(** The row is one the lookup answered. *)
Definition looked_up (s : db) : Prop :=
  tid ≠ "" ∧ m_ID m ≠ "" ∧ messages s !! m_ID m = Some m ∧ m_TenantID m = tid.

Lemma UpdateMedia_recorded upd n g :
  answering → looked_up (g_db g) →
  ∃ n' g', on_db (UpdateMedia tid (m_ID m) upd) n g = (Ok (), n', g') ∧
    recorded m upd g g' ∧ g_files g' = g_files g.
Proof.
  intros Ha (Ht & Hi & Hrow & Hten).
  destruct (UpdateMedia_run tid (m_ID m) upd n (g_db g) m Ha Ht Hi Hrow) as (t & n' & Hrun).
  { by split. }
  unfold recorded. rewrite on_db_run. unfold answer, next, final. rewrite Hrun. simpl.
  eexists _, _. split_and!; [done| |done]. exists t. by rewrite Hten.
Qed.

Definition failure_update (cause : error) (t : Z) : MediaUpdate :=
  {| u_Path := None; u_Status := if isExpiredMedia cause then MediaUnavailable else MediaFailed;
     u_Error := Error cause; u_FetchedAt := t |}.

Definition failure_answer (cause : error) : error :=
  if isExpiredMedia cause then Sentinel ErrMediaUnavailable else Wrap "wa: download media" cause.

Lemma recordFailure_recorded cause n g :
  answering → looked_up (g_db g) →
  ∃ n' g' t, recordFailure tid (m_ID m) cause n g = (failure_answer cause, n', g') ∧
    recorded m (failure_update cause t) g g'.
Proof.
  intros Ha Hm. unfold recordFailure. unfold bind at 1, now, draw.
  destruct (UpdateMedia_recorded (failure_update cause (o_now n)) (S n) g Ha Hm)
    as (n' & g' & Hrun & Hr & _).
  exists n', g', (o_now n). unfold bind.
  unfold failure_update in Hrun. rewrite Hrun. split; [done|exact Hr].
Qed.

Lemma writeMediaFile_run path data n g r n' g' :
  writeMediaFile path data n g = (r, n', g') →
  g_db g' = g_db g ∧
  match r with
  | Ok _ => g_files g' !! path = Some (File data)
  | Err e => isExpiredMedia e = false
  end.
Proof.
  unfold writeMediaFile, try, bind, ret, MkdirAll.
  assert (Hw : ∀ k g1 r' k' g2, WriteFile path data k g1 = (r', k', g2) →
            g_db g2 = g_db g1 ∧ match r' with
              | Ok _ => g_files g2 !! path = Some (File data)
              | Err e => isExpiredMedia e = false end).
  { intros k g1 r' k' g2. unfold WriteFile.
    destruct (g_files g1 !! path) as [[|?]|]; [by intros [= <- <- <-]|..].
    all: destruct (o_write k) as [[? [?|]]|]; intros [= <- <- <-]; simpl; try done.
    all: by rewrite lookup_insert_eq. }
  destruct (o_mkdir n); [by intros [= <- <- <-]|].
  assert (Hend : ∀ k g1,
    (let '(a, n'', s') := WriteFile path data k g1 in
     match a with
     | Ok _ => λ (n : nat) (s : gateway), (Ok (), n, s)
     | Err e => λ n s, (Err (Wrap "wa: write media file" e), n, s)
     end n'' s') = (r, n', g') →
    g_db g1 = g_db g →
    g_db g' = g_db g ∧ match r with
      | Ok _ => g_files g' !! path = Some (File data)
      | Err e => isExpiredMedia e = false end).
  { intros k g1 Hrun Hdb. destruct (WriteFile path data k g1) as [[a n''] s'] eqn:E.
    apply Hw in E as [E1 E2]. destruct a; injection Hrun as <- <- <-; by rewrite E1. }
  destruct (g_files g !! Dir path) as [[|?]|]; [|by intros [= <- <- <-]|].
  all: intros Hrun; by eapply Hend.
Qed.

(** The bytes WhatsApp answered the tenant's client for this message, within the
    limit. *)
Definition downloaded (g : gateway) (data : string) : Prop :=
  (Z.of_nat (String.length data) <= mf_maxBytes f)%Z ∧
  ∃ c k, g_clients g !! tid = Some c ∧ DownloadMediaWithPath k c (args_of m) = Ok data.

Lemma writeMediaFile_calls path data : evolves (keeps g_calls) (writeMediaFile path data).
Proof. by apply writeMediaFile_frame; [apply _|..]. Qed.

(** Every way a download can end. *)
Lemma download_outcome ref n g a n' g' :
  answering → looked_up (g_db g) → download f tid m ref n g = (a, n', g') →
  (∃ s, a = (ref, Some (Sentinel s)) ∧ g_db g' = g_db g ∧
     s ∈ [ErrUnsafeMediaPath; ErrNotPaired; ErrMediaTooLarge]) ∨
  (∃ cause t, a = (ref, Some (failure_answer cause)) ∧
     recorded m (failure_update cause t) g g') ∨
  (∃ path data t, a = (with_outcome MediaAvailable path (Z.of_nat (String.length data)) ref, None) ∧
     mediaPathFor (mf_dir f) tid (m_ID m) (mr_MimeType ref) = Ok path ∧
     g_files g' !! path = Some (File data) ∧
     recorded m {| u_Path := Some path; u_Status := MediaAvailable; u_Error := "";
                   u_FetchedAt := t |} g g' ∧
     downloaded g data ∧ g_calls g' = g_calls g ++ [(tid, CallDownload (args_of m))]).
Proof.
  intros Ha Hm. unfold download.
  destruct (mediaPathFor (mf_dir f) tid (m_ID m) (mr_MimeType ref)) as [path|e] eqn:Ep.
  2: { intros [= <- <- <-]. left. exists ErrUnsafeMediaPath.
       destruct (mediaPathFor_cases (mf_dir f) tid (m_ID m) (mr_MimeType ref))
         as [(_ & E)|(_ & p & E & _)]; rewrite E in Ep; [|done].
       injection Ep as <-. split_and!; [done..|by_decide]. }
  destruct (logged_in_client_run tid n g) as [(c & Hc & _ & E)|(k & E & _)];
    rewrite (bind_run _ _ _ _ _ _ _ E).
  2: { intros [= <- <- <-]. left. exists ErrNotPaired. split_and!; [done..|by_decide]. }
  unfold bind at 1, ask.
  set (g1 := log_call _ _ _). assert (Hm1 : looked_up (g_db g1)) by done.
  destruct (DownloadMediaWithPath (S n) c (args_of m)) as [data|e] eqn:Edl.
  2: { destruct (recordFailure_recorded e (S (S n)) g1 Ha Hm1) as (k & g2 & t & Er & Hrec).
       rewrite (bind_run _ _ _ _ _ _ _ Er). intros [= <- <- <-]. right. left. by exists e, t. }
  unfold keep_download. case_decide as Hlen.
  { intros [= <- <- <-]. left. exists ErrMediaTooLarge. split_and!; [done..|by_decide]. }
  pose proof (writeMediaFile_calls path data (S (S n)) g1) as Ecalls. unfold keeps, final in Ecalls.
  destruct (writeMediaFile path data (S (S n)) g1) as [[w k] g2] eqn:Ew. simpl in Ecalls.
  rewrite (bind_run _ _ _ _ _ _ _ Ew). apply writeMediaFile_run in Ew as [Edb Ew].
  assert (Hm2 : looked_up (g_db g2)) by (by rewrite Edb).
  destruct w as [u|e].
  - unfold bind at 1, now, draw.
    destruct (UpdateMedia_recorded {| u_Path := Some path; u_Status := MediaAvailable;
        u_Error := ""; u_FetchedAt := o_now k |} (S k) g2 Ha Hm2) as (k' & g3 & Eu & Hrec & Hf).
    pose proof (on_db_calls (UpdateMedia tid (m_ID m) {| u_Path := Some path; u_Status := MediaAvailable;
        u_Error := ""; u_FetchedAt := o_now k |}) (S k) g2) as Ecalls'. unfold keeps, final in Ecalls'.
    rewrite Eu in Ecalls'. simpl in Ecalls'.
    rewrite (bind_run _ _ _ _ _ _ _ Eu). intros [= <- <- <-]. right. right.
    exists path, data, (o_now k). split_and!; [done..|by rewrite Hf| | |by rewrite Ecalls', Ecalls].
    + unfold recorded in *. by rewrite Edb in Hrec.
    + split; [lia|]. by exists c, (S n).
  - destruct (recordFailure_recorded e k g2 Ha Hm2) as (k' & g3 & t & Er & Hrec).
    rewrite (bind_run _ _ _ _ _ _ _ Er). intros [= <- <- <-]. right. left. exists e, t.
    split; [done|]. unfold recorded in *. by rewrite Edb in Hrec.
Qed.
End one_message.

(** A later lookup finds the row as it was recorded. *)
Lemma lookup_recorded tid mid n n' m upd g g' g2 :
  wf (g_db g) → answering → answer (GetByID tid mid) n (g_db g) = Ok m →
  recorded m upd g g' → g_db g2 = g_db g' →
  wf (g_db g2) ∧ ∃ t, answer (GetByID tid mid) n' (g_db g2) = Ok (apply_media upd t m).
Proof.
  intros Hwf Ha Hm [t Hr] ->.
  assert (Hten : m_TenantID m = tid).
  { by apply GetByID_stored in Hm as (_ & _ & _ & [? _]). }
  assert (Hwf' : wf (g_db g')).
  { rewrite Hr. apply update_messages_sound; [|done]. intros. apply apply_media_same. }
  split; [done|]. exists t.
  apply (GetByID_updated tid mid n n' (g_db g) (g_db g') m (apply_media upd t)); try done.
  - intros o. apply apply_media_same.
  - rewrite Hr, Hten. done.
Qed.

(** [uuid.NewString] never answers the empty string. *)
Definition ids_given (g : gateway) : Prop := messages (g_db g) !! "" = None.

Lemma looked_up_found tid mid n g m :
  wf (g_db g) → ids_given g → answer (GetByID tid mid) n (g_db g) = Ok m →
  looked_up tid m (g_db g).
Proof.
  intros Hwf Hid Hm. apply GetByID_stored in Hm as (Ht & _ & Hrow & [Hten _]); [|done].
  split_and!; [done| |done..]. intros E. rewrite E, Hid in Hrow. done.
Qed.

(** The answer to a message recorded as expired. *)
Lemma fetch_unavailable f2 tid mid n g m :
  answer (GetByID tid mid) n (g_db g) = Ok m → HasMediaReference m = true →
  m_MediaStatus m = Some MediaUnavailable →
  answer (fetch f2 tid mid) n g =
    (with_outcome MediaUnavailable "" 0 (ref_of m), Some (Sentinel ErrMediaUnavailable)) ∧
  final (fetch f2 tid mid) n g = g.
Proof.
  intros Hm Href Hst. unfold fetch. rewrite bind_answer, bind_final, GetByID_eq, on_db_answer, Hm.
  rewrite Href, Hst. done.
Qed.

(** The answer to a message whose file is there. *)
Lemma fetch_cached f2 tid mid n g m path data :
  answer (GetByID tid mid) n (g_db g) = Ok m → HasMediaReference m = true →
  m_MediaStatus m ≠ Some MediaUnavailable → m_MediaPath m = Some path → path ≠ "" →
  g_files g !! path = Some (File data) → (∀ k, o_stat k = None) →
  answer (fetch f2 tid mid) n g =
    (with_outcome MediaAvailable path (Z.of_nat (String.length data)) (ref_of m), None) ∧
  final (fetch f2 tid mid) n g = g.
Proof.
  intros Hm Href Hst Hp Hne Hf Hs. unfold fetch.
  rewrite bind_answer, bind_final, GetByID_eq, on_db_answer, Hm, Href. simpl.
  rewrite bool_decide_eq_false_2.
  2: { destruct (m_MediaStatus m); simpl; [congruence|done]. }
  rewrite bind_answer, bind_final. unfold on_disk. rewrite Hp. simpl.
  rewrite decide_False by done. unfold answer, final, stat_file. simpl. by rewrite Hs, Hf.
Qed.

(** C25: once WhatsApp has answered that an attachment is gone, every later
    fetch of that message answers so at once: no call to WhatsApp, no change
    of the state, whatever the configuration, the files and the clients are
    by then. *)
Theorem expiry_is_final tid mid n g ref :
  wf (g_db g) → ids_given g → answering →
  answer (fetch f tid mid) n g = (ref, Some (Sentinel ErrMediaUnavailable)) →
  ∀ f2 n' g2, g_db g2 = g_db (final (fetch f tid mid) n g) →
    (answer (fetch f2 tid mid) n' g2).2 = Some (Sentinel ErrMediaUnavailable) ∧
    final (fetch f2 tid mid) n' g2 = g2.
Proof.
  intros Hwf Hid Ha Hans f2 n' g2 Hg2.
  destruct (fetch_run tid mid n g Hwf Ha) as [[E _]|(m & k & Hm & E & Ef)];
    [by rewrite E in Hans|]. rewrite E in Hans. rewrite Ef in Hg2. clear E Ef.
  destruct (HasMediaReference m) eqn:Href; simpl in *; [|done].
  case_bool_decide as Hst.
  { assert (Hst' : m_MediaStatus m = Some MediaUnavailable)
      by (by destruct (m_MediaStatus m) as [x|]; simpl in *; [subst|]).
    assert (Hm' : answer (GetByID tid mid) n' (g_db g2) = Ok m).
    { rewrite Hg2. apply GetByID_iff; [done..|]. by apply (GetByID_iff tid mid n). }
    destruct (fetch_unavailable f2 tid mid n' g2 m Hm' Href Hst') as [-> ->]. done. }
  rewrite bind_answer in Hans. rewrite bind_final, on_disk_eq in Hg2. rewrite on_disk_eq in Hans.
  destruct (answer (on_disk m) k g); [done|].
  case_bool_decide; simpl in *; [|done]. destruct (oversize f m); [done|].
  destruct (download f tid m (ref_of m) (next (on_disk m) k g) g) as [[a n1] g'] eqn:Ed.
  unfold answer in Hans. unfold final in Hg2. rewrite Ed in Hans, Hg2. simpl in *. subst a.
  destruct (download_outcome tid m (ref_of m) _ g _ n1 g' Ha
              (looked_up_found tid mid n g m Hwf Hid Hm) Ed)
    as [(s & Hs & _ & Hin)|[(cause & t & Hc & Hrec)|(? & ? & ? & ? & _)] ]; [| |done].
  - injection Hs as -> <-. rewrite !elem_of_cons, elem_of_nil in Hin. naive_solver.
  - injection Hc as _ Hc. unfold failure_answer in Hc.
    destruct (isExpiredMedia cause) eqn:Hx; [|done].
    destruct (lookup_recorded tid mid n n' m _ g g' g2 Hwf Ha Hm Hrec Hg2) as [_ [t' Hm'] ].
    destruct (fetch_unavailable f2 tid mid n' g2 _ Hm') as [-> ->]; [done|..|done].
    simpl. by rewrite Hx.
Qed.

(** C24: a successful fetch answers a file on disk.  Either the file recorded for
    the message was there, and is answered as it is with the size it has,
    without a call and without a change; or the attachment is downloaded, in
    one call, and the file at the path the answer names holds exactly the bytes
    WhatsApp answered.  Fetching again answers the same from the file: no call
    to WhatsApp, no change of the state.  (A file that is there is not checked:
    [truncated_file_served] is one that an earlier write left cut short.) *)
Theorem fetch_idempotent tid mid n g ref :
  wf (g_db g) → ids_given g → answering → (∀ k, o_stat k = None) →
  answer (fetch f tid mid) n g = (ref, None) →
  let g' := final (fetch f tid mid) n g in
  mr_Status ref = MediaAvailable ∧
  (∃ m data, answer (GetByID tid mid) n (g_db g) = Ok m ∧
     g_files g' !! mr_Path ref = Some (File data) ∧
     mr_SizeBytes ref = Z.of_nat (String.length data) ∧
     (g' = g ∧ m_MediaPath m = Some (mr_Path ref) ∨
      downloaded tid m g data ∧
      mediaPathFor (mf_dir f) tid (m_ID m) (derefString (m_MimeType m)) = Ok (mr_Path ref) ∧
      g_calls g' = g_calls g ++ [(tid, CallDownload (args_of m))])) ∧
  ∀ f2 n' g2, g_db g2 = g_db g' → g_files g2 !! mr_Path ref = g_files g' !! mr_Path ref →
    answer (fetch f2 tid mid) n' g2 = (ref, None) ∧ final (fetch f2 tid mid) n' g2 = g2.
Proof.
  intros Hwf Hid Ha Hs Hans. cbv zeta.
  destruct (fetch_run tid mid n g Hwf Ha) as [[E _]|(m & k & Hm & E & Ef)];
    [by rewrite E in Hans|]. rewrite E in Hans. rewrite Ef. clear E Ef.
  destruct (HasMediaReference m) eqn:Href; simpl in *; [|done].
  case_bool_decide as Hst; [done|].
  assert (Hst' : m_MediaStatus m ≠ Some MediaUnavailable) by (intros E; by rewrite E in Hst).
  rewrite bind_answer, on_disk_eq in Hans. rewrite bind_final, on_disk_eq.
  destruct (answer (on_disk m) k g) as [size|] eqn:Hd.
  - injection Hans as <-. unfold on_disk in Hd. case_decide as Hp; [done|].
    unfold answer, stat_file in Hd. simpl in Hd. rewrite Hs in Hd.
    destruct (g_files g !! derefString (m_MediaPath m)) as [[|data]|] eqn:Hf; try done.
    injection Hd as <-. simpl. unfold final, ret. simpl. split_and!; [done| |].
    { exists m, data. split_and!; [done..|]. left. split; [done|].
      by destruct (m_MediaPath m). }
    intros f2 n' g2 Hdb Hfile.
    apply (fetch_cached f2 tid mid n' g2 m (derefString (m_MediaPath m)) data); try done.
    + rewrite Hdb. apply GetByID_iff; [done..|]. by apply (GetByID_iff tid mid n).
    + by destruct (m_MediaPath m).
    + by rewrite Hfile.
  - case_bool_decide; simpl in *; [|done]. destruct (oversize f m); [done|].
    destruct (download f tid m (ref_of m) (next (on_disk m) k g) g) as [[a n1] g'] eqn:Ed.
    unfold answer in Hans. unfold final. rewrite Ed in *. simpl in *. subst a.
    destruct (download_outcome tid m (ref_of m) _ g _ n1 g' Ha
                (looked_up_found tid mid n g m Hwf Hid Hm) Ed)
      as [(s & Hs' & _)|[(cause & t & Hc & _)|(path & data & t & Hr & Hpath & Hf & Hrec & Hdata & Hcalls)] ];
      [done..|].
    injection Hr as ->. simpl. split_and!; [done| |].
    { exists m, data. split_and!; [done..|]. by right. }
    intros f2 n' g2 Hdb Hfile.
    destruct (lookup_recorded tid mid n n' m _ g g' g2 Hwf Ha Hm Hrec Hdb) as [_ [t' Hm'] ].
    assert (Hne : path ≠ "").
    { intros ->. destruct (mediaPathFor_cases (mf_dir f) tid (m_ID m) (mr_MimeType (ref_of m)))
        as [(_ & E)|(_ & p & E & _ & Hparts & _)]; rewrite E in Hpath; [done|].
      injection Hpath as ->. by destruct (clean_parts (mf_dir f)). }
    apply (fetch_cached f2 tid mid n' g2 _ path data Hm'); try done. by rewrite Hfile.
Qed.
End theorems.

(** ** Witnesses: a voice note that is served, and one that has expired *)

Definition plain_texts : ErrorTexts := {| download_text _ := "download failed" |}.

Definition demo_fetcher : mediaFetcher :=
  {| mf_dir := "./media"; mf_maxBytes := 5000; mf_allowed := {["ptt"]} |}.

Section demo.
Context (dl : result string) (disk : Disk).

Definition demo_fetch (g : @gateway plain_jids (plain_clients dl)) (n : nat) :=
  fetch (H := demo_unicode) (H0 := demo_oracle) (H1 := plain_media) (H2 := plain_jids)
    (H3 := plain_clients dl) (H4 := disk) (H5 := plain_texts) demo_fetcher "acme" "3EB0NOTE" n g.
End demo.

Definition served : result string := Ok "OggS...".
Definition gone : result string := Err (Wrap "download" (Sentinel ErrMediaDownloadFailedWith410)).

Lemma note_ids dl : ids_given (H2 := plain_jids) (H3 := plain_clients dl) (demo_gateway dl note_db).
Proof. unfold ids_given. vm_compute. reflexivity. Qed.

Lemma fetch_network_last_witness :
  g_calls (demo_fetch served plain_disk (demo_gateway served note_db) 0).2 ≠ [].
Proof.
  destruct (fetch_network_last (H := demo_unicode) (H0 := demo_oracle) (H1 := plain_media)
    (H2 := plain_jids) (H3 := plain_clients served) (H4 := plain_disk) (H5 := plain_texts)
    demo_fetcher "acme" "3EB0NOTE" 0 (demo_gateway served note_db) note_wf)
    as [E|(m & c & path & k & _ & _ & _ & _ & _ & _ & _ & _ & _ & _ & E)].
  - exfalso. vm_compute in E. discriminate E.
  - unfold final in E. unfold demo_fetch. rewrite E. discriminate.
Defined.

Lemma fetch_confined_witness :
  ∃ m, m_WAMessageID m = "3EB0NOTE" ∧
    confined (H2 := plain_jids) (H3 := plain_clients served) demo_fetcher "acme" (m_ID m)
      (demo_gateway served note_db)
      (demo_fetch served plain_disk (demo_gateway served note_db) 0).2.
Proof.
  destruct (fetch_confined (H := demo_unicode) (H0 := demo_oracle) (H1 := plain_media)
    (H2 := plain_jids) (H3 := plain_clients served) (H4 := plain_disk) (H5 := plain_texts)
    demo_fetcher "acme" "3EB0NOTE" 0 (demo_gateway served note_db) note_wf)
    as [[_ E]|(m & Hm & [_ [Hid|Hid] ] & Hc)].
  - exfalso. apply (f_equal size) in E. vm_compute in E. discriminate E.
  - exfalso. assert (E : messages note_db !! "3EB0NOTE" = None) by (vm_compute; reflexivity).
    rewrite Hid in Hm. simpl in Hm. rewrite E in Hm. discriminate Hm.
  - exists m. split; [exact Hid|exact Hc].
Defined.

Lemma expiry_is_final_witness :
  let g' := (demo_fetch gone plain_disk (demo_gateway gone note_db) 0).2 in
  (demo_fetch gone plain_disk g' 99).1.1.2 = Some (Sentinel ErrMediaUnavailable) ∧
  (demo_fetch gone plain_disk g' 99).2 = g'.
Proof.
  destruct (answer (fetch (H := demo_unicode) (H0 := demo_oracle) (H1 := plain_media)
    (H2 := plain_jids) (H3 := plain_clients gone) (H4 := plain_disk) (H5 := plain_texts)
    demo_fetcher "acme" "3EB0NOTE") 0 (demo_gateway gone note_db)) as [ref e] eqn:E.
  assert (He : e = Some (Sentinel ErrMediaUnavailable)).
  { transitivity (ref, e).2; [reflexivity|]. rewrite <- E. vm_compute. reflexivity. }
  subst e.
  exact (expiry_is_final (H := demo_unicode) (H0 := demo_oracle) (H1 := plain_media)
    (H2 := plain_jids) (H3 := plain_clients gone) (H4 := plain_disk) (H5 := plain_texts)
    demo_fetcher "acme" "3EB0NOTE" 0 (demo_gateway gone note_db) ref note_wf (note_ids gone)
    demo_answering E demo_fetcher 99 _ eq_refl).
Defined.

Lemma fetch_idempotent_witness :
  let g' := (demo_fetch served plain_disk (demo_gateway served note_db) 0).2 in
  ∃ ref, (demo_fetch served plain_disk (demo_gateway served note_db) 0).1.1 = (ref, None) ∧
    mr_SizeBytes ref = 7%Z ∧ (demo_fetch served plain_disk g' 99).1.1 = (ref, None).
Proof.
  intros g'.
  destruct (answer (fetch (H := demo_unicode) (H0 := demo_oracle) (H1 := plain_media)
    (H2 := plain_jids) (H3 := plain_clients served) (H4 := plain_disk) (H5 := plain_texts)
    demo_fetcher "acme" "3EB0NOTE") 0 (demo_gateway served note_db)) as [ref e] eqn:E.
  assert (He : e = None)
    by (transitivity (ref, e).2; [reflexivity|rewrite <- E; vm_compute; reflexivity]).
  subst e. exists ref. split; [exact E|]. split.
  - transitivity (mr_SizeBytes (ref, @None error).1); [reflexivity|].
    rewrite <- E. vm_compute. reflexivity.
  - destruct (fetch_idempotent (H := demo_unicode) (H0 := demo_oracle) (H1 := plain_media)
      (H2 := plain_jids) (H3 := plain_clients served) (H4 := plain_disk) (H5 := plain_texts)
      demo_fetcher "acme" "3EB0NOTE" 0 (demo_gateway served note_db) ref note_wf (note_ids served)
      demo_answering (λ _, eq_refl) E) as (_ & _ & Hag).
    exact (proj1 (Hag demo_fetcher 99 g' eq_refl eq_refl)).
Defined.

(** ** A file cut short is served as the attachment

    The file of a fetched message is lost; the next fetch downloads it again,
    its write fails after four bytes, and the failure is recorded.  The path
    stays in the row, so the fetch after that answers the four bytes as if
    they were the attachment, although the row says the last attempt failed. *)

Definition first_fetch := demo_fetch served plain_disk (demo_gateway served note_db) 0.
Definition lost_file := @set_files plain_jids (plain_clients served) ∅ first_fetch.2.
Definition cut_fetch := demo_fetch served full_disk lost_file 100.
Definition later_fetch := demo_fetch served plain_disk cut_fetch.2 200.

Theorem truncated_file_served :
  mr_SizeBytes first_fetch.1.1.1 = 7%Z ∧
  (∃ e, cut_fetch.1.1.2 = Some e) ∧
  later_fetch.1.1.2 = None ∧ mr_SizeBytes later_fetch.1.1.1 = 4%Z ∧
  mr_Status later_fetch.1.1.1 = MediaAvailable.
Proof.
  split; [vm_compute; reflexivity|]. split; [eexists; vm_compute; reflexivity|].
  split; [vm_compute; reflexivity|]. split; vm_compute; reflexivity.
Qed.
