(* ===== verification/ManagerOps.v ===== *)
(** * What the session manager promises ([SessionManager] of [session.go])

    The operations of the manager as one instruction set.  Whatever is called
    for a tenant, and whatever event arrives for it, acts for that tenant
    only and never touches an API key; the three ways a message comes to be
    stored file it under one address. *)

From S2P Require Import Prelude GoText GoUnicode GoEff Models Sql Store SessionRepo MessageRepo.
From S2P Require Import ApiKeyRepo MessageQueries Address Config Pending WaAddress MediaReference.
From S2P Require Import MediaPath Gateway History Manager Contacts Media StoreTheorems Demo.

Inductive manager_op `{JidOps} :=
  | OpStartPairing (fuel : nat) (phone : string)
  | OpStatus
  | OpSendText (toJID body : string)
  | OpLogout
  | OpFindContacts (query : string)
  | OpBeginSync (chatJID : string) (count : Z)
  | OpFinishSync (w : waiting_sync) (by_ : wake)
  | OpFetchMedia (messageID : string)
  | OpEvent (evt : wa_event)
  | OpGroupNames (i : nat).             (* a goroutine the events started *)

Section ops.
Context `{Unicode} `{Oracle} `{MediaTypes} `{WaClient} `{Disk} `{ErrorTexts}.
Context (f : mediaFetcher) (scope : HistorySyncScope).

Definition ignore {St A} (m : eff St A) : eff St () := bind m (λ _, ret ()).

Definition run_manager (tid : string) (o : manager_op) : eff gateway () :=
  match o with
  | OpStartPairing fuel phone => ignore (StartPairing fuel tid phone)
  | OpStatus => ignore (Status tid)
  | OpSendText toJID body => ignore (SendText tid toJID body)
  | OpLogout => ignore (Logout tid)
  | OpFindContacts query => ignore (FindContacts tid query)
  | OpBeginSync chatJID count => ignore (begin_sync tid chatJID count)
  | OpFinishSync w b => ignore (finish_sync w b)
  | OpFetchMedia mid => ignore (fetch f tid mid)
  | OpEvent evt => handleEvent scope tid evt
  | OpGroupNames i => run_background tid i
  end.

Fixpoint run_all (l : list (string * manager_op)) : eff gateway () :=
  match l with
  | [] => ret ()
  | (tid, o) :: l => bind (run_manager tid o) (λ _, run_all l)
  end.

(** ** Every operation acts for its tenant *)

Lemma GetByTenant_same tid : evolves same_tables (GetByTenant tid).
Proof. apply evolves_GetByTenant, _. Qed.

Ltac acts :=
  repeat match goal with
  | |- evolves _ (bind _ _) => apply evolves_bind; [apply _| |intros ?]
  | |- evolves _ (try _ _ _) => apply evolves_try; [apply _| |intros ?]
  | |- evolves _ (ret _) => refine (evolves_ret _ _)
  | |- evolves _ (draw _) => refine (evolves_draw _ _)
  | |- evolves _ now => refine (evolves_now _)
  | |- evolves _ NewID => refine (evolves_new_id _)
  | |- evolves _ (ask _ _ _) => apply ask_acts
  | |- evolves _ (client_of _) => apply client_of_evolves, _
  | |- evolves _ (lidsFor _) => apply lidsFor_evolves, _
  | |- evolves _ (ownJID _) => apply ownJID_evolves, _
  | |- evolves _ (logged_in_client _) => apply logged_in_client_evolves, _
  | |- evolves _ (canonicalise _ _ _) => apply canonicalise_evolves, _
  | |- evolves _ (countUnresolved _ _) => apply countUnresolved_acts
  | |- evolves _ (on_db _) =>
      first [apply UpdateStatus_acts|apply Upsert_acts|apply UpsertBatch_acts
            |apply same_tables_acts; solve [eauto using ListByChat_same, SearchChats_same,
               ChatRepo.chat_Search_same, GetByTenant_same]]
  | |- evolves _ (match ?x with _ => _ end) => destruct x
  | |- evolves _ (if ?x then _ else _) => destruct x
  end.

Lemma set_clients_acts tid (g : gateway) v :
  (∀ other, other ≠ tid → v !! other = g_clients g !! other) → acts_for tid g (set_clients v g).
Proof. intros Hv. split; try done. exists []. by rewrite app_nil_r. Qed.

Lemma set_background_acts tid (g : gateway) l :
  acts_for tid g (set_background (<[tid := l]> (g_background g)) g).
Proof.
  split; try done; [exists []; by rewrite app_nil_r|]. intros other Ho. simpl.
  by rewrite lookup_insert_ne.
Qed.

Lemma set_client_acts tid c : evolves (acts_for tid) (set_client tid c).
Proof.
  apply modify_evolves. intros g. apply set_clients_acts. intros other Ho.
  by rewrite lookup_insert_ne.
Qed.

Lemma deviceFor_acts tid x : evolves (acts_for tid) (deviceFor x).
Proof. unfold deviceFor. acts. Qed.

Lemma clientFor_acts tid : evolves (acts_for tid) (clientFor tid).
Proof.
  unfold clientFor, session_device, settle_client, newClient. acts; [apply deviceFor_acts|apply set_client_acts].
Qed.

Lemma qr_loop_acts tid fuel c : evolves (acts_for tid) (qr_loop fuel c).
Proof. induction fuel as [|fuel IH]; simpl; acts; done. Qed.

Lemma StartPairing_acts tid fuel phone : evolves (acts_for tid) (StartPairing fuel tid phone).
Proof.
  unfold StartPairing, pairWithCode, pairWithQR, connected. acts; [apply clientFor_acts|..];
    apply qr_loop_acts.
Qed.

Lemma SendText_acts tid toJID body : evolves (acts_for tid) (SendText tid toJID body).
Proof. unfold SendText, sentRecord. acts. Qed.

Lemma take_client_acts tid : evolves (acts_for tid) (take_client tid).
Proof. intros n g. apply set_clients_acts. intros other Ho. by rewrite lookup_delete_ne. Qed.

Lemma Logout_acts tid : evolves (acts_for tid) (Logout tid).
Proof. unfold Logout. acts. apply take_client_acts. Qed.

Lemma with_messages_acts tid l : evolves (acts_for tid) (with_messages tid l).
Proof. induction l as [|c l IH]; simpl; acts. done. Qed.

Lemma FindContacts_acts tid q : evolves (acts_for tid) (FindContacts tid q).
Proof. unfold FindContacts. acts. all: apply with_messages_acts. Qed.

(** The row of a live message: whose it is, where it is filed, which way it
    went, what it says and who wrote it. *)
Definition filed_live (tid : string) (e : live_message) (m : Message) : Prop :=
  m_TenantID m = tid ∧ m_WAMessageID m = lm_ID e ∧
  m_Direction m = (if src_IsFromMe (lm_Source e) then DirectionOut else DirectionIn) ∧
  m_Body m = extractText (lm_Message e) ∧
  ∃ (lids : option client) n k,
    m_ChatJID m = jid_String (ToNonAD
      (canonicalJID (resolver_of lids n) (src_Chat (lm_Source e)) (chatAlt (lm_Source e))).1) ∧
    m_SenderJID m = jid_String (ToNonAD
      (canonicalJID (resolver_of lids k) (src_Sender (lm_Source e)) (src_SenderAlt (lm_Source e))).1).

Lemma live_row_filed tid e lids n k id created :
  filed_live tid e (live_row tid e
    (canonicalJID (resolver_of lids n) (src_Chat (lm_Source e)) (chatAlt (lm_Source e))).1
    (canonicalJID (resolver_of lids k) (src_Sender (lm_Source e)) (src_SenderAlt (lm_Source e))).1
    id created).
Proof. unfold filed_live, live_row. case_decide; simpl; split_and!; try done; by exists lids, n, k. Qed.

(** A live message is one append, of its row. *)
Lemma persistMessage_run tid e n g :
  ∃ lids created g', (g' = g ∨ ∃ v, g' = set_unresolved v g) ∧
    let row := live_row tid e
      (canonicalJID (resolver_of lids n) (src_Chat (lm_Source e)) (chatAlt (lm_Source e))).1
      (canonicalJID (resolver_of lids (S n)) (src_Sender (lm_Source e)) (src_SenderAlt (lm_Source e))).1
      (o_uuid (S (S n))) created in
    final (persistMessage tid e) n g = final (on_db (Append row)) (4 + n) g'.
Proof.
  unfold persistMessage.
  set (lids := match g_clients g !! tid with
               | Some c => if has_LIDs c then Some c else None | None => None end).
  assert (El : lidsFor tid n g = (lids, n, g)) by done.
  set (chat := canonicalJID (resolver_of lids n) (src_Chat (lm_Source e)) (chatAlt (lm_Source e))).
  set (sender := canonicalJID (resolver_of lids (S n)) (src_Sender (lm_Source e))
                   (src_SenderAlt (lm_Source e))).
  rewrite (bind_run_final _ _ _ _ _ _ _ El).
  assert (Ec : canonicalise lids (src_Chat (lm_Source e)) (chatAlt (lm_Source e)) n g =
            (chat, S n, g)) by done.
  rewrite (bind_run_final _ _ _ _ _ _ _ Ec).
  assert (Es : canonicalise lids (src_Sender (lm_Source e)) (src_SenderAlt (lm_Source e)) (S n) g =
            (sender, S (S n), g)) by done.
  rewrite (bind_run_final _ _ _ _ _ _ _ Es).
  assert (Eu : ∃ g', countUnresolved chat.2 sender.2 (S (S n)) g = ((), S (S n), g') ∧
            (g' = g ∨ ∃ v, g' = set_unresolved v g)).
  { unfold countUnresolved. case_decide; [exists g; by split; [|left] |].
    eexists. split; [done|]. right. by eexists. }
  destruct Eu as (g' & Eu & Hg'). rewrite (bind_run_final _ _ _ _ _ _ _ Eu).
  exists lids, (o_now (S (S (S n)))), g'. split; [done|].
  unfold liveRecord, NewID, new_id, now. rewrite !bind_final. by unfold final, ret.
Qed.

Lemma persistMessage_evolves (R : relation gateway) `{!PreOrder R} tid e :
  (∀ v g, R g (set_unresolved v g)) →
  (∀ m, filed_live tid e m → evolves R (on_db (Append m))) →
  evolves R (persistMessage tid e).
Proof.
  intros Hc Happ n g. destruct (persistMessage_run tid e n g) as (lids & created & g' & Hg & ->).
  trans g'; [by destruct Hg as [->|[v ->] ]|]. apply Happ, live_row_filed.
Qed.

Lemma persistMessage_acts tid e : evolves (acts_for tid) (persistMessage tid e).
Proof.
  apply persistMessage_evolves; [apply _| |].
  - intros v g. split; try done. exists []. by rewrite app_nil_r.
  - intros m [<- _]. apply Append_acts.
Qed.

Lemma handleEvent_acts tid evt : evolves (acts_for tid) (handleEvent scope tid evt).
Proof.
  unfold handleEvent, updateStatus, rememberGroupName. destruct evt; acts.
  - apply persistMessage_acts.
  - apply persistHistorySync_acts.
  - apply modify_evolves. intros g. apply set_background_acts.
Qed.

Lemma run_background_acts tid i : evolves (acts_for tid) (run_background tid i).
Proof.
  unfold run_background, syncGroupNames. acts. intros n g. unfold final, take_background.
  destruct (_ !! i); [apply set_background_acts|done].
Qed.

Lemma fetch_acts tid mid : evolves (acts_for tid) (fetch f tid mid).
Proof.
  assert (Hfiles : ∀ g (v : gmap string node), acts_for tid g (set_files v g)).
  { intros g v. split; try done. exists []. by rewrite app_nil_r. }
  assert (Hupd : ∀ id upd, evolves (acts_for tid) (on_db (UpdateMedia tid id upd)))
    by (intros; apply UpdateMedia_acts).
  unfold fetch. apply evolves_bind; [apply _|apply same_tables_acts, GetByID_same|].
  intros [m|e]; [|refine (evolves_ret _ _)].
  destruct (negb _); [refine (evolves_ret _ _)|]. destruct (bool_decide _); [refine (evolves_ret _ _)|].
  apply evolves_bind; [apply _| |intros cached].
  { intros n g. by rewrite on_disk_eq. }
  destruct cached; [refine (evolves_ret _ _)|].
  destruct (negb _); [refine (evolves_ret _ _)|]. destruct (oversize f m); [refine (evolves_ret _ _)|].
  unfold download. destruct (mediaPathFor _ _ _ _); [|refine (evolves_ret _ _)].
  acts; [by apply keep_download_frame; [apply _|..]|by apply recordFailure_frame; [apply _|]].
Qed.

Lemma ignore_acts {A} tid (m : eff gateway A) : evolves (acts_for tid) m → evolves (acts_for tid) (ignore m).
Proof. intros Hm. unfold ignore. acts. done. Qed.

Lemma run_manager_acts tid o : evolves (acts_for tid) (run_manager tid o).
Proof.
  destruct o; simpl; try apply ignore_acts.
  - apply StartPairing_acts.
  - unfold Status. acts.
  - apply SendText_acts.
  - apply Logout_acts.
  - apply FindContacts_acts.
  - apply begin_sync_acts.
  - apply finish_sync_acts.
  - apply fetch_acts.
  - apply handleEvent_acts.
  - apply run_background_acts.
Qed.

(** ** Isolation *)

(** C4: whatever the manager does for a tenant, on a call or on an event, it
    does for that tenant: it writes only that tenant's rows and loses none, it
    replaces only that tenant's client, it calls WhatsApp only as that tenant,
    it starts and runs only that tenant's goroutines, and it leaves every API
    key alone. *)
Theorem manager_acts_for_its_tenant tid o n g :
  let g' := final (run_manager tid o) n g in
  (∀ other, other ≠ tid → tenant_data other (g_db g) (g_db g') ∧
     g_clients g' !! other = g_clients g !! other ∧
     g_background g' !! other = g_background g !! other) ∧
  db_le (g_db g) (g_db g') ∧ (wf (g_db g) → wf (g_db g')) ∧
  api_keys (g_db g') = api_keys (g_db g) ∧
  ∃ l, g_calls g' = g_calls g ++ l ∧ Forall (λ tc, tc.1 = tid) l.
Proof.
  destruct (run_manager_acts tid o n g) as [Ht [Hle Hwf] Hk Hc Hl Hb]. split_and!; try done.
  intros other Ho. split_and!; auto.
Qed.

Lemma run_all_evolves (R : relation gateway) `{!PreOrder R} l :
  (∀ tid o, (tid, o) ∈ l → evolves R (run_manager tid o)) → evolves R (run_all l).
Proof.
  induction l as [|[tid o] l IH]; intros HR; simpl; [by apply evolves_ret|].
  apply evolves_bind; [done|apply HR; left|]. intros _. apply IH. intros. apply HR. by right.
Qed.

(** API keys outlive sessions.  However often tenants are paired, logged
    out, disconnected and paired again, and whatever else the manager does in
    between, every API key authenticates exactly as before. *)
Theorem keys_outlive_sessions l n g keyHash :
  let g' := final (run_all l) n g in
  api_keys (g_db g') = api_keys (g_db g) ∧
  ∀ k, answer (GetByHash keyHash) k (g_db g') = answer (GetByHash keyHash) k (g_db g).
Proof.
  intros g'.
  assert (Hk : api_keys (g_db g') = api_keys (g_db g)).
  { assert (Hev : evolves (keeps (λ g, api_keys (g_db g))) (run_all l)); [|apply Hev].
    apply run_all_evolves; [apply _|]. intros tid o _ n' g0.
    apply (af_keys _ _ _ (run_manager_acts tid o n' g0)). }
  split; [done|]. intros k. unfold GetByHash. case_decide; [done|].
  assert (Hf : find_live keyHash (g_db g') = find_live keyHash (g_db g))
    by (unfold find_live; by rewrite Hk).
  unfold read_row, answer, try, bind, query. destruct (o_sql k); simpl; [done|].
  rewrite Hf. by destruct (find_live keyHash (g_db g)).
Qed.
End ops.

(** ** One conversation, three ways in *)

Section filing.
Context `{Unicode} `{Oracle} `{MediaTypes} `{JidLaws} `{!WaClient}.
Context (scope : HistorySyncScope).
Implicit Types (m : gmap string string).

(** Filed where reading the conversation finds it. *)
Lemma filed_in_conversation s tid jid row :
  addressable jid → m_TenantID row = tid →
  same_conversation (lids s) (m_ChatJID row) (plain_address jid) →
  MessageQueries.conversation s tid (plain_address jid) row.
Proof. intros Hj Ht Hc. split; [done|]. by rewrite (proj1 (proj2 (plain_address_bare jid Hj))). Qed.



Lemma quiet_gains {A} P (mm : eff db A) :
  evolves (λ s s', messages s' = messages s) mm → evolves (gains P) (on_db mm).
Proof.
  intros He. apply on_db_evolves. intros n s i row Hrow. left. by rewrite <- (He n s).
Qed.


#[local] Instance messages_kept : PreOrder (λ s s' : db, messages s' = messages s).
Proof. split; [done|]. intros s1 s2 s3 Ha Hb. congruence. Qed.


Lemma UpsertBatch_gains P tid l : evolves (gains P) (on_db (ChatRepo.UpsertBatch tid l)).
Proof.
  apply quiet_gains, ChatRepo.UpsertBatch_evolves; [apply _|]. intros jid name t s a s' _.
  unfold ChatRepo.upsertChat. case_decide; [|done]. by intros [= <- <-].
Qed.






(** ** Sending *)

Lemma ownJID_run tid n g c :
  g_clients g !! tid = Some c →
  ownJID tid n g = (match Store_ID n c with Some o => ToNonAD o | None => EmptyJID end, S n, g).
Proof. intros Hc. unfold ownJID, bind, client_of, draw, ret. by rewrite Hc. Qed.

Lemma sentRecord_run resp chat own n g :
  ∃ ts n', (if IsZero (resp_Timestamp resp) then ∃ q, ts = o_now q else ts = resp_Timestamp resp) ∧
    sentRecord (St := gateway) resp chat own n g =
      ({| sm_WAMessageID := resp_ID resp; sm_ChatJID := jid_String (ToNonAD chat);
          sm_SenderJID := jid_String (ToNonAD own); sm_Timestamp := ts |}, n', g).
Proof.
  unfold sentRecord, bind, ret, now, draw.
  destruct (IsZero _); do 2 eexists; (split; [|reflexivity]); [by exists n|done].
Qed.

Lemma SendText_run tid toJID body n g :
  (∃ e, answer (SendText tid toJID body) n g = Err e ∧
     (g_calls (final (SendText tid toJID body) n g) = g_calls g ∨
      ∃ chat, g_calls (final (SendText tid toJID body) n g) = g_calls g ++ [(tid, CallSend chat body)])) ∨
  ∃ sent jid lids k j own resp,
    answer (SendText tid toJID body) n g = Ok sent ∧ parseJID toJID = Ok jid ∧
    let chat := (canonicalJID (resolver_of lids k) jid EmptyJID).1 in
    g_calls (final (SendText tid toJID body) n g) = g_calls g ++ [(tid, CallSend chat body)] ∧
    (∃ c, g_clients g !! tid = Some c ∧ SendMessage j c chat body = Ok resp ∧
       ∃ q, own = match Store_ID q c with Some o => ToNonAD o | None => EmptyJID end) ∧
    sm_ChatJID sent = jid_String (ToNonAD chat) ∧ sm_WAMessageID sent = resp_ID resp ∧
    sm_SenderJID sent = jid_String (ToNonAD own) ∧
    (if IsZero (resp_Timestamp resp) then ∃ q, sm_Timestamp sent = o_now q
     else sm_Timestamp sent = resp_Timestamp resp).
Proof.
  unfold SendText. destruct (logged_in_client_run tid n g) as [(c & Hc & _ & E)|(k & E & _)];
    run_with E.
  2: { left. eexists. split; [done|by left]. }
  set (lids := if has_LIDs c then Some c else None).
  assert (El : lidsFor tid (S n) g = (lids, S n, g))
    by (unfold lidsFor, bind, client_of, ret; by rewrite Hc).
  run_with El.
  set (d := sendDestination (resolver_of lids (S n)) toJID).
  assert (Ed : draw (λ n, sendDestination (resolver_of lids n) toJID) (S n) g = (d, S (S n), g)) by done.
  run_with Ed.
  unfold d, sendDestination. destruct (parseJID toJID) as [jid|e] eqn:Ej.
  2: { left. eexists. split; [done|by left]. }
  destruct (canonicalJID (resolver_of lids (S n)) jid EmptyJID) as [chat isCanonical] eqn:Ec.
  destruct (countUnresolved isCanonical true (S (S n)) g) as [[u n1] g1] eqn:Eu.
  run_with Eu.
  assert (Hg1 : g_calls g1 = g_calls g ∧ g_clients g1 = g_clients g).
  { unfold countUnresolved, modify, ret in Eu. case_decide; injection Eu as _ _ <-; done. }
  destruct Hg1 as [Hcalls Hcl].
  set (g2 := log_call tid (CallSend chat body) g1).
  assert (Es : ask tid (CallSend chat body) (λ n, SendMessage n c chat body) n1 g1 =
            (SendMessage n1 c chat body, S n1, g2)) by done.
  run_with Es.
  assert (Hg2 : g_calls g2 = g_calls g ++ [(tid, CallSend chat body)]) by (simpl; by rewrite Hcalls).
  destruct (SendMessage n1 c chat body) as [resp|e] eqn:Er.
  2: { left. eexists. split; [done|]. right. by exists chat. }
  right. pose proof (ownJID_run tid (S n1) g2 c) as Eo. simpl in Eo. rewrite Hcl in Eo.
  specialize (Eo Hc). run_with Eo. set (own := match Store_ID (S n1) c with Some _ => _ | None => _ end).
  destruct (sentRecord_run resp chat own (S (S n1)) g2) as (ts & n3 & Hz & Et). run_with Et.
  eexists _, jid, lids, (S n), n1, own, resp. rewrite Ec. simpl. split_and!; try done.
  exists c. split_and!; try done. by exists (S n1).
Qed.

(** C15: a send reports where it went.  A successful send makes one call, as the
    tenant's own client, to an address in its plain form, and reports the
    identifier WhatsApp gave the message, its time (the clock's when WhatsApp
    gives none), the address it was sent to and the tenant's own plain address:
    neither the address nor the sender is taken from the response.  A row stored
    under the reported address is where reading the conversation the caller
    named finds it. *)
Theorem SendText_files_where_sent tid toJID body n g sent :
  one_index (lids (g_db g)) → answer (SendText tid toJID body) n g = Ok sent →
  let g' := final (SendText tid toJID body) n g in
  ∃ jid chat own c resp j q, parseJID toJID = Ok jid ∧
    g_clients g !! tid = Some c ∧ SendMessage j c chat body = Ok resp ∧
    g_calls g' = g_calls g ++ [(tid, CallSend chat body)] ∧
    sm_WAMessageID sent = resp_ID resp ∧
    (if IsZero (resp_Timestamp resp) then ∃ k, sm_Timestamp sent = o_now k
     else sm_Timestamp sent = resp_Timestamp resp) ∧
    own = match Store_ID q c with Some o => ToNonAD o | None => EmptyJID end ∧
    sm_ChatJID sent = plain_address chat ∧ sm_SenderJID sent = plain_address own ∧
    (addressable jid → ToNonAD chat = chat ∧
       ∀ row, m_TenantID row = tid → m_ChatJID row = sm_ChatJID sent →
         MessageQueries.conversation (g_db g') tid (plain_address jid) row).
Proof.
  intros Hone Hans g'.
  assert (El : lids (g_db g') = lids (g_db g)).
  { destruct (SendText_acts tid toJID body n g) as [_ [Hle _] _ _ _ _]. unfold g', lids.
    by rewrite (le_lid_map _ _ Hle). }
  destruct (SendText_run tid toJID body n g) as [(e & E & _)|
    (sent' & jid & ls & k & j & own & resp & E & Hj & Hcalls & (c & Hc & Hresp & q & Hq) & Hchat &
     Hid & Hs & Hts)];
    rewrite E in Hans; [done|]. injection Hans as ->.
  exists jid, (canonicalJID (resolver_of ls k) jid EmptyJID).1, own, c, resp, j, q.
  do 9 (split; [done|]). intros Hadd.
  destruct (resolved_conversation _ ls k jid EmptyJID Hone Hadd (alt_agrees_empty _ jid)) as [En Hcv].
  split; [done|]. intros row Ht Hrow. apply filed_in_conversation; [done..|].
  by rewrite El, Hrow, Hchat, En.
Qed.
End filing.

(** ** Pairing *)

Section pairing.
Context `{Unicode} `{Oracle} `{WaClient}.

(** The channel of QR codes, as whatsmeow documents it ([GetQRChannel]): an item
    that is neither a code nor an error of pairing tells how the scan ended,
    and is the last one before the channel is closed. *)
Definition qr_channel_closes : Prop :=
  ∀ n c, qr_next n c = QrItem QrOther → ∀ i, qr_next (S n) c ≠ QrItem i.

(** So the loop waits twice at most, whatever the timer and the caller do. *)
Lemma qr_loop_enough fuel c n g :
  qr_channel_closes → 2 ≤ fuel → qr_loop fuel c n g = qr_loop 2 c n g.
Proof.
  intros Hq Hf. destruct fuel as [|[|fuel] ]; [lia..|]. simpl. unfold bind, draw.
  destruct (qr_next n c) as [[]| | |] eqn:E; try done.
  destruct (qr_next (S n) c) as [i| | |] eqn:E'; try done. by destruct (Hq n c E i).
Qed.

(** The QR code a pairing answers is one the channel delivered. *)
Definition qr_credential (c : client) (x : PairingResult) : Prop :=
  pr_Mode x = PairingModeQR ∧ pr_PairCode x = "" ∧ ∃ k, qr_next k c = QrItem (QrCode (pr_QR x)).

Lemma qr_loop_answers c n g :
  qr_channel_closes →
  ∃ r n', qr_loop 2 c n g = (Some r, n', g) ∧ ∀ x, r = Ok x → qr_credential c x.
Proof.
  intros Hq. simpl. unfold bind, draw.
  destruct (qr_next n c) as [[]| | |] eqn:E; try (do 2 eexists; split; [done|]; try done).
  { intros x [= <-]. split_and!; [done..|by exists n]. }
  destruct (qr_next (S n) c) as [i| | |] eqn:E'; [by destruct (Hq n c E i)|..];
    do 2 eexists; (split; [done|]); done.
Qed.

(** The pair code is the one WhatsApp gave the client for that phone. *)
Definition code_credential (tid phone : string) (c : client) (g : gateway) (x : PairingResult) : Prop :=
  pr_Mode x = PairingModeCode ∧ pr_QR x = "" ∧
  (∃ k, PairPhone k c phone = Ok (pr_PairCode x)) ∧
  ∃ l, g_calls g = l ++ [(tid, CallPairPhone phone)].

Lemma connected_run tid c what n g :
  ∃ r n' g', connected tid c what n g = (r, n', g') ∧ g_clients g' = g_clients g.
Proof.
  unfold connected, bind, draw, ret, ask. destruct (IsConnected n c); by do 3 eexists.
Qed.

Lemma pairWithCode_answers tid c phone n g :
  g_clients (final (pairWithCode tid c phone) n g) = g_clients g ∧
  ∀ x, answer (pairWithCode tid c phone) n g = Ok x →
    code_credential tid phone c (final (pairWithCode tid c phone) n g) x.
Proof.
  unfold pairWithCode, try. destruct (connected_run tid c "wa: connect for pair code" n g)
    as ([u|e] & n' & g' & E & Hc); run_with E; [|done].
  unfold answer, final, bind, ask, ret. destruct (PairPhone n' c phone) as [code|e] eqn:Ep; simpl; [|done].
  split; [done|]. intros x [= <-]. split_and!; [done..|by exists n'|by eexists].
Qed.

Lemma pairWithQR_enough fuel tid c n g :
  qr_channel_closes → 2 ≤ fuel → pairWithQR fuel tid c n g = pairWithQR 2 tid c n g.
Proof.
  intros Hq Hf. unfold pairWithQR, bind at 1 3. destruct (ask _ _ _ n g) as [[[u|e] n1] g1]; [|done].
  unfold bind. destruct (connected _ _ _ n1 g1) as [[[v|e] n2] g2]; [|done].
  by apply qr_loop_enough.
Qed.

Lemma pairWithQR_answers tid c n g :
  qr_channel_closes →
  ∃ r, answer (pairWithQR 2 tid c) n g = Some r ∧
    g_clients (final (pairWithQR 2 tid c) n g) = g_clients g ∧ ∀ x, r = Ok x → qr_credential c x.
Proof.
  intros Hq. unfold pairWithQR.
  assert (E : ask tid CallQR (λ n, GetQRChannel n c) n g =
            (GetQRChannel n c, S n, log_call tid CallQR g)) by done.
  run_with E. destruct (GetQRChannel n c) as [u|e]; [|by eexists].
  destruct (connected_run tid c "wa: connect for qr" (S n) (log_call tid CallQR g))
    as ([v|e] & n' & g' & E' & Hc); run_with E'; [|by eexists].
  destruct (qr_loop_answers c n' g' Hq) as (r & n2 & E2 & Hr). unfold answer, final. rewrite E2.
  by exists r.
Qed.

Lemma clientFor_answers tid n g c :
  answer (clientFor tid) n g = Ok c → g_clients (final (clientFor tid) n g) !! tid = Some c.
Proof.
  unfold clientFor. assert (E : client_of tid n g = (g_clients g !! tid, n, g)) by done.
  run_with E. destruct (g_clients g !! tid) as [d|] eqn:Ed; [by intros [= <-]|].
  intros (d & n' & g' & _ & Ha & ->)%try_Ok. revert Ha.
  unfold settle_client, newClient, set_client, modify, client_of, draw, bind, ret, answer, final.
  destruct (g_clients g' !! tid) as [c'|] eqn:Ec; simpl; intros [= <-]; [done|].
  by rewrite lookup_insert_eq.
Qed.

Lemma StartPairing_enough fuel tid phone n g :
  qr_channel_closes → 2 ≤ fuel → StartPairing fuel tid phone n g = StartPairing 2 tid phone n g.
Proof.
  intros Hq Hf. unfold StartPairing, bind at 1 5.
  destruct (clientFor tid n g) as [[[c|e] n1] g1]; [|done].
  unfold bind at 1 4, draw. destruct (IsLoggedIn n1 c); [done|].
  unfold bind at 1 3. destruct (on_db _ _ g1) as [[moved n2] g2]. cbv zeta.
  destruct (match moved with Ok _ => None | Err e => _ end); [done|].
  case_decide; [done|]. by apply pairWithQR_enough.
Qed.

(** C34: pairing ends, and hands out the credential WhatsApp gave.  The channel
    of QR codes being closed after the item that ends it, the call returns after
    two waits at most, and what it returns does not depend on how long it might
    have gone on.  When it succeeds, the tenant's client was not logged in; with
    a phone the pair code is the one WhatsApp answered that client for that
    phone, in the last call made, and there is no QR code; without one the QR
    code is one the channel of that client delivered, and there is no pair
    code.  A client that is logged in is refused, and nothing is done. *)
Theorem StartPairing_ends fuel tid phone n g :
  qr_channel_closes → 2 ≤ fuel →
  let run := StartPairing fuel tid phone in
  (∃ r, answer run n g = Some r ∧
     ∀ x, r = Ok x → ∃ c, g_clients (final run n g) !! tid = Some c ∧
       (∃ k, IsLoggedIn k c = false) ∧
       (phone ≠ "" → code_credential tid phone c (final run n g) x) ∧
       (phone = "" → qr_credential c x)) ∧
  (∀ fuel', 2 ≤ fuel' → StartPairing fuel' tid phone n g = run n g) ∧
  (∀ c, g_clients g !! tid = Some c → IsLoggedIn n c = true →
     (∃ e, answer run n g = Some (Err e)) ∧ final run n g = g).
Proof.
  intros Hq Hf run.
  assert (Hrun : run n g = StartPairing 2 tid phone n g) by by apply StartPairing_enough.
  unfold answer at 1 2, final at 1 2 3. rewrite !Hrun. split_and!.
  - destruct (clientFor tid n g) as [[res n1] g1] eqn:E.
    pose proof (clientFor_answers tid n g) as Hclient. unfold answer, final in Hclient.
    rewrite E in Hclient. simpl in Hclient.
    fold (answer (StartPairing 2 tid phone) n g) (final (StartPairing 2 tid phone) n g).
    unfold StartPairing. run_with E. destruct res as [c|e]; [|by eexists].
    specialize (Hclient c eq_refl).
    assert (El : draw (λ n, IsLoggedIn n c) n1 g1 = (IsLoggedIn n1 c, S n1, g1)) by done.
    run_with El. destruct (IsLoggedIn n1 c) eqn:Elog; [by eexists|].
    pose proof (on_db_run (UpdateStatus tid SessionPending "") (S n1) g1) as Eu. run_with Eu.
    set (g2 := set_db _ g1). set (n2 := next _ _ _). cbv zeta.
    assert (Hc2 : g_clients g2 !! tid = Some c) by done.
    destruct (match answer _ _ _ with Ok _ => None | Err e => _ end) as [e|]; [by eexists|].
    case_decide as Hp.
    + destruct (pairWithCode_answers tid c phone n2 g2) as [Hk Hx].
      unfold answer, final in Hk, Hx. destruct (pairWithCode tid c phone n2 g2) as [[r n3] g3] eqn:E3.
      run_with E3. exists r. split; [done|]. simpl in Hk, Hx. intros x Hr. exists c.
      unfold final, ret. simpl. rewrite Hk. split_and!; [done|by exists n1| |done].
      intros _. by apply Hx.
    + destruct (pairWithQR_answers tid c n2 g2 Hq) as (r & Hr & Hk & Hx). exists r. split; [done|].
      intros x Ex. exists c. rewrite Hk. split_and!; [done|by exists n1|done|]. intros _. by apply Hx.
  - intros fuel' Hf'. by apply StartPairing_enough.
  - intros c Hc Hl.
    assert (Ec : clientFor tid n g = (Ok c, n, g))
      by (unfold clientFor, bind, client_of, ret; by rewrite Hc).
    unfold StartPairing. rewrite (bind_run _ _ _ _ _ _ _ Ec).
    assert (El : draw (λ n, IsLoggedIn n c) n g = (true, S n, g)) by (unfold draw; by rewrite Hl).
    rewrite (bind_run _ _ _ _ _ _ _ El). split; [by eexists|done].
Qed.

(** ** Logging out *)

Lemma client_gone tid n (g : gateway) :
  g_clients g !! tid = None → logged_in_client tid n g = (None, n, g).
Proof. unfold logged_in_client, bind, client_of, ret. by intros ->. Qed.

(** Logging out takes the client away whatever WhatsApp answers.  After it
    the tenant can neither send nor ask for history, until it pairs again, and
    no such attempt reaches WhatsApp; a second logout says the tenant is not
    paired and changes nothing. *)
Theorem Logout_forgets_the_client tid n g :
  let g' := final (Logout tid) n g in
  g_clients g' !! tid = None ∧
  (∀ toJID body k, SendText tid toJID body k g' = (Err (Sentinel ErrNotPaired), k, g')) ∧
  (∀ chatJID count k, begin_sync tid chatJID count k g' = (Err (Sentinel ErrNotPaired), k, g')) ∧
  (∀ k, answer (Logout tid) k g' = Err (Sentinel ErrNotPaired) ∧ final (Logout tid) k g' = g').
Proof.
  intros g'. assert (Hgone : g_clients g' !! tid = None).
  { unfold g', Logout, take_client, bind, ret, final, ask. simpl.
    destruct (g_clients g !! tid) as [c|] eqn:Ec; simpl; [|apply lookup_delete_eq].
    destruct (LogoutDevice n c) as [u|e]; simpl; [|apply lookup_delete_eq].
    rewrite on_db_run. simpl.
    destruct (answer _ _ _) as [v|e]; simpl; [|destruct (errors_Is e ErrNotFound); simpl];
      apply lookup_delete_eq. }
  clearbody g'. split_and!; [done|..].
  - intros toJID body k. unfold SendText.
    by rewrite (bind_run _ _ _ _ _ _ _ (client_gone tid k g' Hgone)).
  - intros chatJID count k. unfold begin_sync.
    by rewrite (bind_run _ _ _ _ _ _ _ (client_gone tid k g' Hgone)).
  - intros k. unfold Logout, take_client, bind, ret, answer, final. simpl. rewrite Hgone. simpl.
    split; [done|]. destruct g'. unfold set_clients. simpl in *. f_equal. by apply delete_id.
Qed.
End pairing.

(** ** Witnesses *)




Lemma SendText_files_where_sent_witness :
  let run := SendText (H0 := demo_oracle) (H2 := plain_jids) (H3 := plain_clients (Ok ""))
    "acme" "15285906083900@lid" "hola" in
  let g := demo_gateway (Ok "") demo_db in
  ∃ sent, answer run 0 g = Ok sent ∧ sm_ChatJID sent = "573004725680@s.whatsapp.net" ∧
    ∀ row, m_TenantID row = "acme" → m_ChatJID row = sm_ChatJID sent →
      MessageQueries.conversation (g_db (final run 0 g)) "acme" "15285906083900@lid" row.
Proof.
  intros run g.
  destruct (answer run 0 g) as [sent|e] eqn:E; [|vm_compute in E; discriminate E].
  exists sent. split; [reflexivity|].
  destruct (SendText_files_where_sent (H0 := demo_oracle) (H2 := plain_jids) (H3 := plain_laws)
    (H4 := plain_clients (Ok "")) "acme" "15285906083900@lid" "hola" 0 g sent
    (full_index_one _ (demo_index (Ok ""))) E) as (jid & chat & own & c & resp & j & q & Hj & _ & _ & _ & _ & _ & _ & _ & _ & Hconv).
  split; [vm_compute in E; injection E as <-; reflexivity|].
  vm_compute in Hj. injection Hj as <-. apply Hconv, person_addressable.
Defined.

(** A tenant with a session and no client yet is paired either way. *)
Lemma StartPairing_ends_witness :
  let run phone := answer (StartPairing (H := demo_unicode) (H0 := demo_oracle) (H2 := plain_jids)
    (H3 := plain_clients (Ok "")) 5 "beta" phone) 0 (demo_gateway (Ok "") demo_more) in
  (∃ x, run "" = Some (Ok x) ∧ pr_QR x = "2@qr" ∧ pr_PairCode x = "") ∧
  (∃ x, run "573004725680" = Some (Ok x) ∧ pr_PairCode x = "ABCD-1234" ∧ pr_QR x = "").
Proof.
  intros run.
  assert (Hq : qr_channel_closes (H1 := plain_jids) (H2 := plain_clients (Ok ""))) by (intros n c E; discriminate E).
  split.
  - destruct (StartPairing_ends (H := demo_unicode) (H0 := demo_oracle) (H1 := plain_jids)
      (H2 := plain_clients (Ok "")) 5 "beta" "" 0 (demo_gateway (Ok "") demo_more) Hq)
      as [(r & Hr & Hx) _]; [lia|].
    destruct r as [x|e]; [|vm_compute in Hr; discriminate Hr]. exists x. split; [exact Hr|].
    destruct (Hx x eq_refl) as (c & _ & _ & _ & Hqr). destruct (Hqr eq_refl) as (_ & Hp & k & Hk).
    split; [injection Hk as Hk; symmetry; exact Hk|exact Hp].
  - destruct (StartPairing_ends (H := demo_unicode) (H0 := demo_oracle) (H1 := plain_jids)
      (H2 := plain_clients (Ok "")) 5 "beta" "573004725680" 0 (demo_gateway (Ok "") demo_more) Hq)
      as [(r & Hr & Hx) _]; [lia|].
    destruct r as [x|e]; [|vm_compute in Hr; discriminate Hr]. exists x. split; [exact Hr|].
    destruct (Hx x eq_refl) as (c & _ & _ & Hcode & _).
    destruct Hcode as (_ & Hn & (k & Hk) & _); [discriminate|].
    split; [injection Hk as Hk; symmetry; exact Hk|exact Hn].
Defined.
