(* ===== verification/ClientRegistry.v ===== *)
(** * The registry of clients under interleaving ([internal/wa/manager.go])

    [Manager.clients] is shared by every request and every event.  A caller of
    [clientFor] reads it under the lock, loads the session and the device
    without it, and takes it again to settle on a client; a [Logout] takes a
    client out under the lock and calls WhatsApp afterwards.  Here the locked
    sections of any number of callers are the steps of a transition system,
    each step one of the definitions [Manager] composes. *)

From S2P Require Import Prelude GoText GoUnicode GoEff Models Sql Store SessionRepo MessageRepo.
From S2P Require Import MessageQueries Config Pending WaAddress MediaReference Gateway History.
From S2P Require Import Manager Contacts Media ManagerOps StoreTheorems Demo.

(** Where a caller is. *)
Inductive phase `{WaClient} :=
  | Loading (tid : string)                  (* [clientFor] found no client *)
  | Settling (tid : string) (d : device)    (* ... and has the device *)
  | Holding (tid : string) (c : client)     (* [clientFor] returned *)
  | Refused (tid : string) (e : error)
  | Leaving (tid : string) (c : client).    (* [Logout] took the client out *)

(** Who took a client out: the caller of a [Logout], or [Close]. *)
Inductive taker := By (caller : nat) | Shutdown.

(** The gateway, its callers, and two histories per tenant that no code reads:
    the clients put in the registry, and those taken out of it and by whom. *)
Record world `{WaClient} := {
  w_gateway : gateway;
  w_callers : gmap nat phase;
  w_made : string → list client;
  w_gone : string → list (taker * client);
}.

Section registry.
Context `{Unicode} `{Oracle} `{MediaTypes} `{WaClient} `{Disk} `{ErrorTexts}.

Definition record_at {A} (tid : string) (x : list A) (h : string → list A) : string → list A :=
  λ t, if decide (t = tid) then h t ++ x else h t.

Definition moved (g : gateway) (k : nat) (p : phase) (w : world) : world :=
  {| w_gateway := g; w_callers := <[k := p]> (w_callers w);
     w_made := w_made w; w_gone := w_gone w |}.

(** The step of a caller that settles: it makes a client, or finds one. *)
Definition settled (k : nat) (tid : string) (d : device) (n : nat) (w : world) : world :=
  let run := settle_client tid d n (w_gateway w) in
  {| w_gateway := run.2; w_callers := <[k := Holding tid run.1.1]> (w_callers w);
     w_made := match g_clients (w_gateway w) !! tid with
               | Some _ => w_made w
               | None => record_at tid [run.1.1] (w_made w)
               end;
     w_gone := w_gone w |}.

Definition left (k : nat) (tid : string) (c : client) (n : nat) (w : world) : world :=
  {| w_gateway := final (take_client tid) n (w_gateway w);
     w_callers := <[k := Leaving tid c]> (w_callers w);
     w_made := w_made w; w_gone := record_at tid [(By k, c)] (w_gone w) |}.

Definition shut (n : nat) (w : world) : world :=
  {| w_gateway := final Close n (w_gateway w); w_callers := w_callers w; w_made := w_made w;
     w_gone := λ tid, w_gone w tid ++
       (pair Shutdown <$> option_list (g_clients (w_gateway w) !! tid)) |}.

Inductive step : world → world → Prop :=
  | step_found k tid n c w :
      w_callers w !! k = None → answer (client_of tid) n (w_gateway w) = Some c →
      step w (moved (w_gateway w) k (Holding tid c) w)
  | step_missing k tid n w :
      w_callers w !! k = None → answer (client_of tid) n (w_gateway w) = None →
      step w (moved (w_gateway w) k (Loading tid) w)
  | step_loaded k tid n d g w :
      w_callers w !! k = Some (Loading tid) →
      answer (session_device tid) n (w_gateway w) = Ok d →
      g = final (session_device tid) n (w_gateway w) →
      step w (moved g k (Settling tid d) w)
  | step_refused k tid n e g w :
      w_callers w !! k = Some (Loading tid) →
      answer (session_device tid) n (w_gateway w) = Err e →
      g = final (session_device tid) n (w_gateway w) →
      step w (moved g k (Refused tid e) w)
  | step_settle k tid d n w :
      w_callers w !! k = Some (Settling tid d) → step w (settled k tid d n w)
  | step_leave k tid c n w :
      w_callers w !! k = None → answer (take_client tid) n (w_gateway w) = Some c →
      step w (left k tid c n w)
  | step_leave_nobody k tid n g w :
      w_callers w !! k = None → answer (take_client tid) n (w_gateway w) = None →
      g = final (take_client tid) n (w_gateway w) →
      step w (moved g k (Refused tid (Sentinel ErrNotPaired)) w)
  | step_close n w : step w (shut n w)
  (* anything else the gateway does meanwhile *)
  | step_elsewhere g w :
      keeps g_clients (w_gateway w) g →
      step w {| w_gateway := g; w_callers := w_callers w; w_made := w_made w; w_gone := w_gone w |}.

(** After [RestoreSessions]: every client was made there, and nobody calls. *)
Definition serving_from (g : gateway) : world :=
  {| w_gateway := g; w_callers := ∅;
     w_made := λ tid, option_list (g_clients g !! tid); w_gone := λ _, [] |}.

Definition reachable (w w' : world) : Prop := rtc step w w'.

(** ** The rest of the gateway leaves the registry alone *)

Lemma on_db_clients {A} (m : eff db A) : evolves (keeps g_clients) (on_db m).
Proof. intros n g. unfold final. by rewrite on_db_run. Qed.

Lemma on_pending_clients {A} (p : pendingHistory → A * pendingHistory) :
  evolves (keeps g_clients) (on_pending p).
Proof. intros n g. unfold final, on_pending. by destruct (p (g_pending g)). Qed.

Ltac elsewhere :=
  repeat match goal with
  | |- evolves _ (bind _ _) => apply evolves_bind; [apply _| |intros ?]
  | |- evolves _ (try _ _ _) => apply evolves_try; [apply _| |intros ?]
  | |- evolves _ (ret _) => refine (evolves_ret _ _)
  | |- evolves _ (draw _) => refine (evolves_draw _ _)
  | |- evolves _ now => refine (evolves_now _)
  | |- evolves _ (canonicalise _ _ _) => apply canonicalise_evolves, _
  | |- evolves _ (on_db _) => apply on_db_clients
  | |- evolves _ (on_pending _) => apply on_pending_clients
  | |- evolves _ (release_now _ _) => apply on_pending_clients
  | |- evolves _ (lidsFor _) => apply lidsFor_evolves, _
  | |- evolves _ (ownJID _) => apply ownJID_evolves, _
  | |- evolves _ (logged_in_client _) => apply logged_in_client_evolves, _
  | |- evolves _ (countUnresolved _ _) => by apply countUnresolved_evolves; [apply _|]
  | |- evolves _ (match ?x with _ => _ end) => destruct x
  | |- evolves _ (ask _ _ _) => done
  | |- evolves _ (client_of _) => done
  end.

Lemma session_device_clients tid : evolves (keeps g_clients) (session_device tid).
Proof. unfold session_device, deviceFor. elsewhere. Qed.

Lemma handleEvent_clients scope tid evt : evolves (keeps g_clients) (handleEvent scope tid evt).
Proof.
  unfold handleEvent, updateStatus, syncGroupNamesInBackground, rememberGroupName.
  destruct evt; elsewhere.
  - apply persistMessage_evolves; [apply _|done|intros; apply on_db_clients].
  - apply (persistHistorySync_evolves _ tid (λ _, True)); try done; intros; elsewhere.
  - done.
Qed.

Lemma take_background_clients tid i : evolves (keeps g_clients) (take_background tid i).
Proof. intros n g. unfold final, take_background. by destruct (_ !! i). Qed.

Lemma fetch_clients f tid mid : evolves (keeps g_clients) (fetch f tid mid).
Proof.
  unfold fetch. elsewhere; [by intros n g; rewrite on_disk_eq|].
  unfold download. elsewhere.
  - apply keep_download_frame; [apply _|intros; apply on_db_clients|done..].
  - apply recordFailure_frame; [apply _|intros; apply on_db_clients].
Qed.

(** Everything but [clientFor], [Logout] and [Close], so that the step
    [step_elsewhere] stands for each of them. *)
Lemma others_keep_clients f scope tid o :
  match o with OpStartPairing _ _ | OpLogout => True | _ =>
    evolves (keeps g_clients) (run_manager f scope tid o) end.
Proof.
  destruct o; try done; unfold run_manager, ignore; try (apply evolves_bind; [apply _| |intros ?; elsewhere]).
  - unfold Status. elsewhere.
  - unfold SendText, sentRecord. elsewhere.
  - assert (Hw : ∀ l, evolves (keeps g_clients) (with_messages tid l)).
    { induction l as [|c l IH]; simpl; elsewhere. done. }
    unfold FindContacts. elsewhere; apply Hw.
  - unfold begin_sync. elsewhere.
  - unfold finish_sync. elsewhere.
  - apply fetch_clients.
  - apply handleEvent_clients.
  - apply take_background_clients.
  - unfold syncGroupNames. elsewhere.
Qed.

(** ** The invariant *)

Record exact (w : world) : Prop := {
  (** clients are taken out in the order they were put in, and the one that
      was not taken out yet is the registered one *)
  ex_accounts : ∀ tid, w_made w tid =
    (w_gone w tid).*2 ++ option_list (g_clients (w_gateway w) !! tid);
  ex_holding : ∀ k tid c, w_callers w !! k = Some (Holding tid c) → c ∈ w_made w tid;
  ex_leaving : ∀ k tid c, w_callers w !! k = Some (Leaving tid c) → (By k, c) ∈ w_gone w tid;
  ex_takers : ∀ k tid c, (By k, c) ∈ w_gone w tid → w_callers w !! k = Some (Leaving tid c);
  ex_once : ∀ tid i j k c c', w_gone w tid !! i = Some (By k, c) →
    w_gone w tid !! j = Some (By k, c') → i = j;
}.

Lemma record_at_same {A} tid (x : list A) h : record_at tid x h tid = h tid ++ x.
Proof. unfold record_at. by rewrite decide_True. Qed.

Lemma record_at_other {A} tid other (x : list A) h : other ≠ tid → record_at tid x h other = h other.
Proof. intros Hne. unfold record_at. by rewrite decide_False. Qed.

(** A move of one caller that touches neither history nor registry, to a
    phase that makes no new claim. *)
Lemma exact_moved g k p w :
  exact w → keeps g_clients (w_gateway w) g →
  (∀ tid c, w_callers w !! k ≠ Some (Leaving tid c)) →
  (∀ tid c, p = Holding tid c → c ∈ w_made w tid) → (∀ tid c, p ≠ Leaving tid c) →
  exact (moved g k p w).
Proof.
  intros [Ha Hh Hl Ht Ho] Hg Hk Hp Hp'. split; simpl.
  - intros tid. by rewrite Hg.
  - intros j tid c [[<- E]|[_ Hj]]%lookup_insert_Some; [by apply Hp|by eapply Hh].
  - intros j tid c [[<- E]|[_ Hj]]%lookup_insert_Some; [by destruct (Hp' tid c)|by apply Hl].
  - intros j tid c Hj. apply Ht in Hj. rewrite lookup_insert_ne; [done|].
    intros ->. by destruct (Hk tid c).
  - done.
Qed.

Lemma settle_client_run tid d n g :
  (∃ c, g_clients g !! tid = Some c ∧ settle_client tid d n g = (c, n, g)) ∨
  g_clients g !! tid = None ∧
  settle_client tid d n g =
    (NewClient n d, S n, set_clients (<[tid := NewClient n d]> (g_clients g)) g).
Proof.
  unfold settle_client, bind, client_of. destruct (g_clients g !! tid) as [c|]; [left|by right].
  by exists c.
Qed.

Lemma exact_settled k tid d n w :
  exact w → w_callers w !! k = Some (Settling tid d) → exact (settled k tid d n w).
Proof.
  intros Hw Hk. unfold settled.
  destruct (settle_client_run tid d n (w_gateway w)) as [(c & Hc & ->)|[Hc ->]]; rewrite Hc; simpl.
  - refine (exact_moved _ k (Holding tid c) w Hw _ _ _ _); [done|by rewrite Hk| |done].
    intros ? ? [= <- <-]. rewrite (ex_accounts w Hw), Hc. apply elem_of_app. right. by left.
  - destruct Hw as [Ha Hh Hl Ht Ho]. split; simpl.
    + intros t. destruct (decide (t = tid)) as [->|Hne].
      * by rewrite record_at_same, lookup_insert_eq, Ha, Hc, app_nil_r.
      * by rewrite record_at_other, lookup_insert_ne, Ha.
    + intros j t c [[<- [= <- <-]]|[_ Hj]]%lookup_insert_Some.
      * rewrite record_at_same. apply elem_of_app. right. by left.
      * apply Hh in Hj. unfold record_at. case_decide; [|done]. apply elem_of_app. by left.
    + intros j t c [[_ [=]]|[_ Hj]]%lookup_insert_Some. by apply Hl.
    + intros j t c Hj%Ht. rewrite lookup_insert_ne; [done|]. intros ->. by rewrite Hk in Hj.
    + done.
Qed.

Lemma exact_left k tid c n w :
  exact w → w_callers w !! k = None → g_clients (w_gateway w) !! tid = Some c →
  exact (left k tid c n w).
Proof.
  intros [Ha Hh Hl Ht Ho] Hk Hc.
  assert (Hnew : ∀ t c', (By k, c') ∉ w_gone w t) by (intros t c' Hj%Ht; congruence).
  split; simpl.
  - intros t. destruct (decide (t = tid)) as [->|Hne].
    + by rewrite record_at_same, lookup_delete_eq, Ha, Hc, fmap_app, app_nil_r.
    + by rewrite record_at_other, lookup_delete_ne, Ha.
  - intros j t c' [[_ [=]]|[_ Hj]]%lookup_insert_Some. by eapply Hh.
  - intros j t c' [[<- [= <- <-]]|[_ Hj]]%lookup_insert_Some.
    + rewrite record_at_same. apply elem_of_app. right. by left.
    + apply Hl in Hj. unfold record_at. case_decide; [|done]. apply elem_of_app. by left.
  - intros j t c'. destruct (decide (t = tid)) as [->|Hne].
    + rewrite record_at_same. intros [Hj|[= -> ->]%list_elem_of_singleton]%elem_of_app.
      * apply Ht in Hj. rewrite lookup_insert_ne; [done|congruence].
      * apply lookup_insert_eq.
    + rewrite record_at_other by done. intros Hj%Ht. rewrite lookup_insert_ne; [done|congruence].
  - intros t i j q c1 c2. destruct (decide (t = tid)) as [->|Hne].
    + rewrite record_at_same.
      intros [[_ Hi]|[-> [= <- <-]]]%lookup_snoc_Some [[_ Hj]|[-> E]]%lookup_snoc_Some.
      * by eapply Ho.
      * injection E as <- <-. by apply list_elem_of_lookup_2, Hnew in Hi.
      * by apply list_elem_of_lookup_2, Hnew in Hj.
      * done.
    + rewrite record_at_other by done. apply Ho.
Qed.

Lemma Close_clients n g : g_clients (final Close n g) = ∅.
Proof. done. Qed.

Lemma exact_shut n w : exact w → exact (shut n w).
Proof.
  intros [Ha Hh Hl Ht Ho].
  assert (Hby : ∀ t k c, (By k, c) ∈ w_gone w t ++
    (pair Shutdown <$> option_list (g_clients (w_gateway w) !! t)) → (By k, c) ∈ w_gone w t).
  { intros t k c [Hj|(c' & [=] & _)%list_elem_of_fmap]%elem_of_app. done. }
  split; simpl.
  - intros t. rewrite lookup_empty, app_nil_r, fmap_app, Ha. f_equal.
    by destruct (g_clients (w_gateway w) !! t).
  - done.
  - intros j t c Hj%Hl. apply elem_of_app. by left.
  - intros j t c Hj%Hby. by apply Ht.
  - intros t i j q c1 c2. destruct (g_clients (w_gateway w) !! t) as [c|]; simpl.
    + intros [[_ Hi]|[_ [=]]]%lookup_snoc_Some [[_ Hj]|[_ [=]]]%lookup_snoc_Some. by eapply Ho.
    + rewrite app_nil_r. apply Ho.
Qed.

Lemma exact_step w w' : step w w' → exact w → exact w'.
Proof.
  destruct 1 as [k tid n c w Hk Hc|k tid n w Hk Hc|k tid n d g w Hk Hd ->|k tid n e g w Hk Hd ->
    |k tid d n w Hk|k tid c n w Hk Hc|k tid n g w Hk Hc ->|n w|g w Hg]; intros Hw.
  - apply exact_moved; [done|done|by rewrite Hk| |done].
    intros ? ? [= <- <-]. unfold answer, client_of in Hc. simpl in Hc.
    rewrite (ex_accounts w Hw), Hc. apply elem_of_app. right. by left.
  - apply exact_moved; [done|done|by rewrite Hk|done|done].
  - apply exact_moved; [done|apply session_device_clients|by rewrite Hk|done|done].
  - apply exact_moved; [done|apply session_device_clients|by rewrite Hk|done|done].
  - by apply exact_settled.
  - by apply exact_left.
  - apply exact_moved; [done| |by rewrite Hk|done|done].
    unfold keeps, final, take_client. simpl. unfold answer, take_client in Hc. simpl in Hc.
    by rewrite delete_id.
  - by apply exact_shut.
  - destruct Hw as [Ha Hh Hl Ht Ho]. split; simpl; try done. intros tid. by rewrite Hg.
Qed.

Lemma exact_start g : exact (serving_from g).
Proof. split; simpl; try done. all: intros *; by rewrite ?lookup_empty, ?elem_of_nil. Qed.

Lemma reachable_exact g w : reachable (serving_from g) w → exact w.
Proof.
  intros Hr. assert (Hs := exact_start g). revert Hs. induction Hr; eauto using exact_step.
Qed.

(** ** A call that nobody interrupts *)

Lemma clientFor_steps k tid n w :
  w_callers w !! k = None →
  ∃ w', rtc step w w' ∧ w_gateway w' = final (clientFor tid) n (w_gateway w) ∧
    w_callers w' !! k = Some (match answer (clientFor tid) n (w_gateway w) with
                              | Ok c => Holding tid c
                              | Err e => Refused tid e
                              end).
Proof.
  intros Hk. unfold clientFor. rewrite bind_answer, bind_final.
  destruct (answer (client_of tid) n (w_gateway w)) as [c|] eqn:Hc.
  { eexists. split; [by eapply rtc_once, step_found|]. split; [done|]. apply lookup_insert_eq. }
  change (next (client_of tid) n (w_gateway w)) with n.
  change (final (client_of tid) n (w_gateway w)) with (w_gateway w).
  unfold try. rewrite bind_answer, bind_final.
  set (n' := next (session_device tid) n (w_gateway w)).
  set (g := final (session_device tid) n (w_gateway w)).
  set (w1 := moved (w_gateway w) k (Loading tid) w).
  assert (H1' : step w w1) by (by eapply step_missing).
  assert (Hk1 : w_callers w1 !! k = Some (Loading tid)) by apply lookup_insert_eq.
  destruct (answer (session_device tid) n (w_gateway w)) as [d|e] eqn:Hd.
  - set (w2 := moved g k (Settling tid d) w1).
    exists (settled k tid d n' w2). split_and!.
    + eapply rtc_l; [exact H1'|]. eapply rtc_l; [by eapply (step_loaded k tid n d g w1)|].
      apply rtc_once, step_settle, lookup_insert_eq.
    + by rewrite bind_final.
    + rewrite bind_answer. apply lookup_insert_eq.
  - exists (moved g k (Refused tid e) w1). split_and!; [|done|apply lookup_insert_eq].
    eapply rtc_l; [exact H1'|]. by eapply rtc_once, (step_refused k tid n e g w1).
Qed.

(** C23: one client per tenant, whoever asks.  However many callers look for,
    make and log out clients at the same time, and whatever else the gateway
    does meanwhile: the clients made for a tenant are those that were taken
    out, in the same order, and the one registered now, so none is lost and none
    is replaced; every caller that was given a client was given one that was
    registered; two logouts never take the same client; and until somebody
    takes a tenant's client out, every caller of that tenant has the registered
    one. *)
Theorem client_registry g w :
  reachable (serving_from g) w →
  (∀ tid, w_made w tid = (w_gone w tid).*2 ++ option_list (g_clients (w_gateway w) !! tid)) ∧
  (∀ k tid c, w_callers w !! k = Some (Holding tid c) → c ∈ w_made w tid) ∧
  (∀ k tid c, w_callers w !! k = Some (Leaving tid c) ↔ (By k, c) ∈ w_gone w tid) ∧
  (∀ tid i j k c c', w_gone w tid !! i = Some (By k, c) → w_gone w tid !! j = Some (By k, c') →
     i = j) ∧
  (∀ tid, w_gone w tid = [] → ∀ k c, w_callers w !! k = Some (Holding tid c) →
     g_clients (w_gateway w) !! tid = Some c).
Proof.
  intros [Ha Hh Hl Ht Ho]%reachable_exact. split_and!; [done|done|by split; auto|done|].
  intros tid Hg k c Hk%Hh. rewrite Ha, Hg in Hk. simpl in Hk.
  destruct (g_clients (w_gateway w) !! tid); simpl in Hk;
    [apply list_elem_of_singleton in Hk as ->|apply elem_of_nil in Hk]; done.
Qed.
End registry.

(** ** Witness: two requests to pair a tenant race *)

#[local] Existing Instance demo_unicode.
#[local] Existing Instance demo_oracle.
#[local] Existing Instance plain_jids.

Definition racing_clients : WaClient (H := plain_jids) := plain_clients (Ok "").

#[local] Existing Instance racing_clients.

(** The tenant has a session and no client yet. *)
Definition before_race : gateway :=
  set_clients ∅ (demo_gateway (Ok "") (final (EnsureForTenant "acme") 50 demo_db)).

Definition missing_at (k : nat) (w : world) : world := moved (w_gateway w) k (Loading "acme") w.
Definition loaded_at (k n : nat) (w : world) : world :=
  moved (final (session_device "acme") n (w_gateway w)) k
    (Settling "acme" (None : option plain_jid)) w.

Definition w1 := missing_at 0 (serving_from before_race).
Definition w2 := missing_at 1 w1.
Definition w3 := loaded_at 0 60 w2.
Definition w4 := loaded_at 1 70 w3.
Definition w5 := settled 1 "acme" (None : option plain_jid) 80 w4.
Definition after_race := settled 0 "acme" (None : option plain_jid) 90 w5.

Lemma race_runs : reachable (serving_from before_race) after_race.
Proof.
  apply rtc_l with w1; [apply (step_missing 0 "acme" 0); vm_compute; reflexivity|].
  apply rtc_l with w2; [apply (step_missing 1 "acme" 0); vm_compute; reflexivity|].
  apply rtc_l with w3; [apply (step_loaded 0 "acme" 60); [vm_compute; reflexivity..|reflexivity]|].
  apply rtc_l with w4; [apply (step_loaded 1 "acme" 70); [vm_compute; reflexivity..|reflexivity]|].
  apply rtc_l with w5; [apply step_settle; vm_compute; reflexivity|].
  apply rtc_once, step_settle. vm_compute. reflexivity.
Qed.

Lemma client_registry_witness :
  w_made after_race "acme" = [None] ∧
  ∀ k c, w_callers after_race !! k = Some (Holding "acme" c) →
    g_clients (w_gateway after_race) !! "acme" = Some c.
Proof.
  destruct (client_registry before_race after_race race_runs) as (_ & _ & _ & _ & Hone).
  split; [vm_compute; reflexivity|]. apply Hone. vm_compute. reflexivity.
Defined.
