(* ===== verification/FetchRace.v ===== *)
(** * Fetches of one attachment that run at the same time ([internal/wa/media.go])

    Nothing in [mediaFetcher.fetch] keeps two requests for the same attachment
    apart.  Here [fetch] is cut wherever another goroutine can come between:
    a query, a look at the disk, the lock of the clients, the network, the
    directory, the opening of the file, which truncates it, and the writing of
    its bytes.  [advance] is one such step, [fetch] is their sequence
    ([fetch_alone_steps]), and any number of fetches take their steps in any
    order. *)

From S2P Require Import Prelude GoText GoUnicode GoEff Models Sql Store MessageRepo.
From S2P Require Import MessageQueries Pending WaAddress MediaReference MediaPath Gateway Media.
From S2P Require Import StoreTheorems Demo.

(** Where a fetch is, and what it holds. *)
Inductive stage `{WaClient} :=
  | Looking
  | Statting (m : Message)
  | Asking (m : Message) (path : string)
  | Downloading (m : Message) (path : string) (c : client)
  | MakingDir (m : Message) (path data : string)
  | Opening (m : Message) (path data : string)
  | Filling (m : Message) (path data : string)
  | Failing (m : Message) (cause : error)
  | Recording (m : Message) (path data : string)
  | Answered (a : MediaRef * option error).

(** A write at the start of a file: what it does not cover stays. *)
Fixpoint overwrite (data old : string) : string :=
  match data, old with
  | "", _ => old
  | _, "" => data
  | String c data, String _ old => String c (overwrite data old)
  end.

Section stages.
Context `{Unicode} `{Oracle} `{MediaTypes} `{WaClient} `{Disk} `{ErrorTexts}.

(** The first half of [os.WriteFile]: [O_CREATE|O_TRUNC]. *)
Definition open_file (path : string) : eff gateway (result ()) := λ n g,
  match g_files g !! path, o_write n with
  | Some Directory, _ => (Err (External "is a directory"), S n, g)
  | _, Some (text, None) => (Err (External text), S n, g)
  | _, _ => (Ok (), n, set_files (<[path := File ""]> (g_files g)) g)
  end.

Definition written_over (path data : string) (g : gateway) : gateway :=
  match g_files g !! path with
  | Some (File old) => set_files (<[path := File (overwrite data old)]> (g_files g)) g
  | _ => g
  end.

(** The second half: the bytes, through the descriptor. *)
Definition fill_file (path data : string) : eff gateway (result ()) := λ n g,
  match o_write n with
  | None => (Ok (), S n, written_over path data g)
  | Some (text, k) =>
      (Err (External text), S n, written_over path (take_bytes (default 0 k) data) g)
  end.

Context (f : mediaFetcher) (tid mid : string).

(** What follows the lookup, before the disk is asked. *)
Definition after_lookup (m : Message) : stage :=
  if negb (HasMediaReference m) then Answered (no_ref, Some (Sentinel ErrNoMedia))
  else if bool_decide (derefString (m_MediaStatus m) = MediaUnavailable)
  then Answered (with_outcome MediaUnavailable "" 0 (ref_of m), Some (Sentinel ErrMediaUnavailable))
  else Statting m.

(** What follows the look at the disk, before the clients are asked. *)
Definition after_stat (m : Message) (cached : option Z) : stage :=
  match cached with
  | Some size =>
      Answered (with_outcome MediaAvailable (derefString (m_MediaPath m)) size (ref_of m), None)
  | None =>
      if negb (bool_decide (ToLower (mr_MediaType (ref_of m)) ∈ mf_allowed f))
      then Answered (ref_of m, Some (Sentinel ErrMediaTypeNotAllowed))
      else if oversize f m then Answered (ref_of m, Some (Sentinel ErrMediaTooLarge))
      else match mediaPathFor (mf_dir f) tid (m_ID m) (mr_MimeType (ref_of m)) with
           | Err e => Answered (ref_of m, Some e)
           | Ok path => Asking m path
           end
  end.

Definition after_download (m : Message) (path : string) (got : result string) : stage :=
  match got with
  | Err e => Failing m e
  | Ok data => if decide (mf_maxBytes f < Z.of_nat (String.length data))%Z
               then Answered (ref_of m, Some (Sentinel ErrMediaTooLarge))
               else MakingDir m path data
  end.

Definition advance (st : stage) : eff gateway stage :=
  (match st with
   | Looking =>
       let! found := on_db (GetByID tid mid) in
       ret (match found with
            | Err e => Answered (no_ref, Some (if errors_Is e ErrNotFound
                                               then Sentinel ErrUnknownMessage else e))
            | Ok m => after_lookup m
            end)
   | Statting m => let! cached := on_disk m in ret (after_stat m cached)
   | Asking m path =>
       let! downloader := logged_in_client tid in
       ret (match downloader with
            | None => Answered (ref_of m, Some (Sentinel ErrNotPaired))
            | Some c => Downloading m path c
            end)
   | Downloading m path c =>
       let! got := ask tid (CallDownload (args_of m))
                     (λ n, DownloadMediaWithPath n c (args_of m)) in
       ret (after_download m path got)
   | MakingDir m path data =>
       let! made := MkdirAll (Dir path) in
       ret (match made with
            | Err e => Failing m (Wrap "wa: create media directory" e)
            | Ok _ => Opening m path data
            end)
   | Opening m path data =>
       let! opened := open_file path in
       ret (match opened with
            | Err e => Failing m (Wrap "wa: write media file" e)
            | Ok _ => Filling m path data
            end)
   | Filling m path data =>
       let! filled := fill_file path data in
       ret (match filled with
            | Err e => Failing m (Wrap "wa: write media file" e)
            | Ok _ => Recording m path data
            end)
   | Failing m cause =>
       let! outcome := recordFailure tid (m_ID m) cause in
       ret (Answered (ref_of m, Some outcome))
   | Recording m path data =>
       let! fetchedAt := now in
       let! updated := on_db (UpdateMedia tid (m_ID m)
         {| u_Path := Some path; u_Status := MediaAvailable; u_Error := "";
            u_FetchedAt := fetchedAt |}) in
       ret (Answered (match updated with
            | Err e => (ref_of m, Some e)
            | Ok _ => (with_outcome MediaAvailable path (Z.of_nat (String.length data)) (ref_of m),
                       None)
            end))
   | Answered a => ret (Answered a)
   end)%go.

(** ** A fetch that nobody interrupts *)

Lemma overwrite_empty data : overwrite data "" = data.
Proof. by destruct data. Qed.

(** [os.WriteFile] is its two halves. *)
Lemma WriteFile_halves path data n g :
  WriteFile path data n g =
  (let! opened := open_file path in
   match opened with Ok _ => fill_file path data | Err e => ret (Err e) end)%go n g.
Proof.
  assert (Hw : ∀ s v, written_over path s (set_files (<[path := v]> (g_files g)) g) =
    match v with
    | File old => set_files (<[path := File (overwrite s old)]> (g_files g)) g
    | Directory => set_files (<[path := v]> (g_files g)) g
    end).
  { intros s [|old]; unfold written_over; simpl; rewrite lookup_insert_eq; [done|].
    unfold set_files; simpl. by rewrite insert_insert_eq. }
  unfold WriteFile, open_file, bind, ret.
  destruct (g_files g !! path) as [[|old]|]; [done|..].
  all: destruct (o_write n) as [[text [k|]]|] eqn:E; try done.
  all: unfold fill_file; by rewrite E, Hw, overwrite_empty.
Qed.

(** One step after the other, and nobody in between. *)
Definition alone_step (c c' : stage * nat * gateway) : Prop := advance c.1.1 c.1.2 c.2 = c'.

Lemma alone_take {A} (m : eff gateway A) (k : A → stage) st n g x n1 g1 c :
  advance st = bind m (λ x, ret (k x)) → m n g = (x, n1, g1) → rtc alone_step (k x, n1, g1) c →
  rtc alone_step (st, n, g) c.
Proof.
  intros Ha Hm. apply rtc_l. unfold alone_step. simpl. rewrite Ha. unfold bind. by rewrite Hm.
Qed.

Lemma failing_alone m cause n g :
  ∀ o n' g', recordFailure tid (m_ID m) cause n g = (o, n', g') →
    rtc alone_step (Failing m cause, n, g) (Answered (ref_of m, Some o), n', g').
Proof. intros o n' g' Hr. by eapply alone_take; [done|exact Hr|]. Qed.

Lemma keeping_alone m path data n g a n' g' :
  keep_download f tid m (ref_of m) path data n g = (a, n', g') →
  rtc alone_step (after_download m path (Ok data), n, g) (Answered a, n', g').
Proof.
  unfold keep_download. simpl. case_decide; [by intros [= <- <- <-]|].
  unfold writeMediaFile, try, bind at 1 2.
  destruct (MkdirAll (Dir path) n g) as [[ [u|e] n1] g1] eqn:E1.
  2: { simpl. unfold bind, ret. destruct (recordFailure _ _ _ n1 g1) as [[o n2] g2] eqn:E2.
       intros [= <- <- <-]. eapply alone_take; [done|exact E1|]. by apply failing_alone. }
  intros Hrun. eapply alone_take; [done|exact E1|]. simpl. revert Hrun.
  unfold bind at 1. rewrite WriteFile_halves. unfold bind at 1.
  destruct (open_file path n1 g1) as [[ [v|e] n2] g2] eqn:E2.
  2: { simpl. unfold bind, ret. destruct (recordFailure _ _ _ n2 g2) as [[o n3] g3] eqn:E3.
       intros [= <- <- <-]. eapply alone_take; [done|exact E2|]. by apply failing_alone. }
  intros Hrun. eapply alone_take; [done|exact E2|]. simpl. revert Hrun.
  destruct (fill_file path data n2 g2) as [[ [w|e] n3] g3] eqn:E3.
  2: { simpl. unfold bind, ret. destruct (recordFailure _ _ _ n3 g3) as [[o n4] g4] eqn:E4.
       intros [= <- <- <-]. eapply alone_take; [done|exact E3|]. by apply failing_alone. }
  intros Hrun. eapply alone_take; [done|exact E3|]. simpl. revert Hrun.
  intros Hrun. apply rtc_once. unfold alone_step. simpl. revert Hrun.
  unfold bind, ret, now, draw. by destruct (on_db _ _ _) as [[ [x|e] n4] g4]; intros [= <- <- <-].
Qed.

(** [fetch] is the sequence of its stages. *)
Lemma fetch_alone_steps n g a n' g' :
  fetch f tid mid n g = (a, n', g') → rtc alone_step (Looking, n, g) (Answered a, n', g').
Proof.
  unfold fetch, bind at 1.
  destruct (on_db (GetByID tid mid) n g) as [[ [m|e] n1] g1] eqn:E1; intros Hrun;
    (eapply alone_take; [done|exact E1|]); revert Hrun; [|by intros [= <- <- <-] ].
  unfold after_lookup. destruct (HasMediaReference m); simpl; [|by intros [= <- <- <-] ].
  case_bool_decide; [by intros [= <- <- <-]|]. unfold bind at 1.
  destruct (on_disk m n1 g1) as [[cached n2] g2] eqn:E2. intros Hrun.
  eapply alone_take; [done|exact E2|]. revert Hrun.
  destruct cached as [size|]; simpl; [by intros [= <- <- <-]|].
  case_bool_decide; simpl; [|by intros [= <- <- <-] ].
  destruct (oversize f m); [by intros [= <- <- <-]|]. unfold download. simpl.
  destruct (mediaPathFor _ _ _ _) as [path|e]; [|by intros [= <- <- <-] ]. unfold bind at 1.
  destruct (logged_in_client tid n2 g2) as [[ [c|] n3] g3] eqn:E3; intros Hrun;
    (eapply alone_take; [done|exact E3|]); revert Hrun; [|by intros [= <- <- <-] ].
  unfold bind at 1.
  destruct (ask _ _ _ n3 g3) as [[got n4] g4] eqn:E4. intros Hrun.
  eapply alone_take; [done|exact E4|]. revert Hrun.
  destruct got as [data|e]; [apply keeping_alone|]. simpl. unfold bind, ret.
  destruct (recordFailure _ _ _ n4 g4) as [[o n5] g5] eqn:E5. intros [= <- <- <-].
  by apply failing_alone.
Qed.
End stages.

(** ** Any number of fetches, in any order *)

(** The gateway and the fetches that were asked for, by the number of their
    request. *)
Record shared `{WaClient} := { sh_gateway : gateway; sh_fetches : gmap nat stage }.

Section race.
Context `{Unicode} `{Oracle} `{MediaTypes} `{WaClient} `{Disk} `{ErrorTexts}.
Context (f : mediaFetcher) (tid mid : string) (path : string).

(** What the rest of the gateway may do meanwhile: everything, as long as it
    answers the identifier by no other row, and leaves the file alone. *)
Record aside (g g' : gateway) : Prop := {
  as_wf : wf (g_db g) → wf (g_db g');
  as_rows : ∀ m, messages (g_db g') !! m_ID m = Some m → addressed_by tid mid m →
    messages (g_db g) !! m_ID m = Some m;
  as_file : g_files g' !! path = g_files g !! path;
}.

Inductive race_step : shared → shared → Prop :=
  | race_begin k s :
      sh_fetches s !! k = None →
      race_step s {| sh_gateway := sh_gateway s; sh_fetches := <[k := Looking]> (sh_fetches s) |}
  | race_advance k st st' n n' g s :
      sh_fetches s !! k = Some st → advance f tid mid st n (sh_gateway s) = (st', n', g) →
      race_step s {| sh_gateway := g; sh_fetches := <[k := st']> (sh_fetches s) |}
  | race_aside g s :
      aside (sh_gateway s) g →
      race_step s {| sh_gateway := g; sh_fetches := sh_fetches s |}.

Definition race_from (g : gateway) : shared := {| sh_gateway := g; sh_fetches := ∅ |}.

Context (m0 : Message) (content : string).

(** What the identifier answers: the message, with whatever bookkeeping. *)
Definition like (m : Message) : Prop :=
  same_message m0 m ∧ (m_MediaPath m = None ∨ m_MediaPath m = Some path).

Definition rows_like (s : db) : Prop :=
  wf s ∧ ∀ m, messages s !! m_ID m = Some m → addressed_by tid mid m → like m.

(** The file: not there, or a beginning of the content. *)
Definition some_content (g : gateway) : Prop :=
  g_files g !! path = None ∨ ∃ k, g_files g !! path = Some (File (take_bytes k content)).

(** What a fetch holds is the message, the path and the content; and from the
    opening on there is a file. *)
Definition holds (g : gateway) (st : stage) : Prop :=
  match st with
  | Looking => True
  | Statting m | Failing m _ => like m
  | Asking m p | Downloading m p _ => like m ∧ p = path
  | MakingDir m p data | Opening m p data => like m ∧ p = path ∧ data = content
  | Filling m p data | Recording m p data =>
      like m ∧ p = path ∧ data = content ∧ g_files g !! path ≠ None
  | Answered (ref, None) =>
      g_files g !! path ≠ None ∧ ∃ size, (0 <= size <= Z.of_nat (String.length content))%Z ∧
        ref = with_outcome MediaAvailable path size (ref_of m0)
  | Answered (_, Some _) => True
  end.

Definition filling (st : stage) : Prop := match st with Filling _ _ _ => True | _ => False end.

#[export] Instance filling_dec st : Decision (filling st).
Proof. destruct st; apply _. Defined.

Definition writes_complete : Prop := ∀ n, o_write n = None.

Definition whole (g : gateway) : Prop :=
  g_files g !! path = None ∨ g_files g !! path = Some (File content).

Record coherent (s : shared) : Prop := {
  co_rows : rows_like (g_db (sh_gateway s));
  co_file : some_content (sh_gateway s);
  co_holds : ∀ k st, sh_fetches s !! k = Some st → holds (sh_gateway s) st;
  co_whole : writes_complete → (∀ k st, sh_fetches s !! k = Some st → ¬ filling st) →
    whole (sh_gateway s);
}.

(** *** The bytes *)

Lemma overwrite_prefixes d i j :
  overwrite (take_bytes i d) (take_bytes j d) = take_bytes (max i j) d.
Proof.
  revert i j. induction d as [|c d IH]; intros [|i] [|j]; simpl; try done.
  by rewrite IH.
Qed.

Lemma overwrite_all d j : overwrite d (take_bytes j d) = d.
Proof.
  rewrite <- (take_bytes_all (String.length d) d) at 1 by done.
  rewrite overwrite_prefixes. apply take_bytes_all. lia.
Qed.

(** *** The rows *)

Definition keeps_rows (s s' : db) : Prop := rows_like s → rows_like s'.

#[local] Instance keeps_rows_preorder : PreOrder keeps_rows.
Proof. split; unfold keeps_rows; [by intros s|]. intros s1 s2 s3. auto. Qed.

Lemma UpdateMedia_rows_like id upd :
  (u_Path upd = None ∨ u_Path upd = Some path) →
  evolves keeps_rows (UpdateMedia tid id upd).
Proof.
  intros Hp. apply UpdateMedia_evolves; [apply _|]. intros t s [Hwf Hl]. split.
  { apply update_messages_sound; [|done]. intros. apply apply_media_same. }
  intros m Hm Hadd. simpl in Hm. apply update_where_Some in Hm as (o & Ho & E).
  assert (Hs : same_message o m).
  { subst m. case_decide; [apply apply_media_same|reflexivity]. }
  assert (Hid : m_ID o = m_ID m ∧ addressed_by tid mid o).
  { unfold addressed_by. by rewrite Hs. }
  destruct Hid as [Hid Hado]. rewrite <- Hid in Ho. destruct (Hl o Ho Hado) as [Ho0 Hop].
  split; [by etrans|]. rewrite E. case_decide; [|done]. simpl. destruct Hp as [->| ->]; auto.
Qed.

Lemma like_found g n m :
  rows_like (g_db g) → answer (GetByID tid mid) n (g_db g) = Ok m → like m.
Proof. intros [Hwf Hl] Hm. apply GetByID_stored in Hm as (_ & _ & Hr & Ha); auto. Qed.

(** What the fetch reads of a row does not depend on the bookkeeping. *)
Lemma like_reads m :
  like m → m_ID m = m_ID m0 ∧ args_of m = args_of m0 ∧ ref_of m = ref_of m0.
Proof. intros [Hs _]. unfold args_of, ref_of. by rewrite Hs. Qed.

(** *** The stages *)

Definition file_stays (g g' : gateway) : Prop := g_files g !! path ≠ None → g_files g' !! path ≠ None.

Lemma holds_later g g' st : file_stays g g' → holds g st → holds g' st.
Proof.
  unfold file_stays. intros Hf. destruct st as [| | | | | | | | |[ref [e|] ] ]; simpl; naive_solver.
Qed.

(** What one step of a fetch does to the file. *)
Definition file_step (st st' : stage) (g g' : gateway) : Prop :=
  filling st' ∨
  (filling st ∧ (writes_complete → g_files g' !! path = Some (File content))) ∨
  (¬ filling st ∧ g_files g' !! path = g_files g !! path).

Record advanced (st st' : stage) (g g' : gateway) : Prop := {
  ad_rows : rows_like (g_db g');
  ad_file : some_content g';
  ad_holds : holds g' st';
  ad_stays : file_stays g g';
  ad_step : file_step st st' g g';
}.

(** A step that leaves the file alone and keeps the rows. *)
Lemma advanced_same st st' g g' :
  rows_like (g_db g') → some_content g → g_files g' !! path = g_files g !! path →
  ¬ filling st → holds g st' → advanced st st' g g'.
Proof.
  intros Hr Hc Hf Hn Hh. assert (Hs : file_stays g g') by (unfold file_stays; by rewrite Hf).
  split; [done| |by eapply holds_later|done|by right; right].
  unfold some_content in *. by rewrite Hf.
Qed.

Context (Hpath : mediaPathFor (mf_dir f) tid (m_ID m0) (mr_MimeType (ref_of m0)) = Ok path).
Context (Hcontent : ∀ n c data, DownloadMediaWithPath n c (args_of m0) = Ok data → data = content).

Lemma path_facts : path ≠ "" ∧ Dir path ≠ path.
Proof.
  destruct (mediaPathFor_cases (mf_dir f) tid (m_ID m0) (mr_MimeType (ref_of m0)))
    as [(_ & E)|(_ & p & E & _ & Hp & Hd)]; rewrite E in Hpath; [done|].
  injection Hpath as ->. split; intros Heq.
  - rewrite Heq in Hp. by destruct (clean_parts (mf_dir f)).
  - rewrite Heq, Hp in Hd. apply (f_equal length) in Hd. rewrite !length_app in Hd. simpl in Hd. lia.
Qed.

Lemma after_lookup_holds g m : like m → holds g (after_lookup m).
Proof.
  intros Hl. unfold after_lookup. destruct (HasMediaReference m); simpl; [|done].
  by case_bool_decide.
Qed.

Lemma after_stat_holds g m n cached :
  some_content g → like m → answer (on_disk m) n g = cached → holds g (after_stat f tid m cached).
Proof.
  intros Hc Hl Hd. destruct (like_reads m Hl) as (Hid & _ & Href).
  unfold after_stat. destruct cached as [size|].
  - unfold on_disk in Hd. case_decide as Hp; [done|].
    destruct (proj2 Hl) as [E|E]; rewrite E in *; simpl in *; [done|].
    unfold answer, stat_file in Hd. simpl in Hd. destruct (o_stat n); [done|].
    destruct Hc as [E'|[k E'] ]; rewrite E' in *; [done|]. split; [done|].
    injection Hd as <-. eexists. split; [|by rewrite Href].
    pose proof (take_bytes_length k content). lia.
  - case_bool_decide; cbn [negb]; [|done]. destruct (oversize f m); [done|].
    rewrite Hid, Href, Hpath. done.
Qed.

Lemma open_file_advanced m n g r n' g' :
  rows_like (g_db g) → some_content g → like m → open_file path n g = (r, n', g') →
  let st' := match r with
             | Err e => Failing m (Wrap "wa: write media file" e)
             | Ok _ => Filling m path content
             end in
  advanced (Opening m path content) st' g g'.
Proof.
  intros Hr Hc Hl Ho. cbv zeta.
  assert (Hopen : ∀ v : gateway, v = set_files (<[path := File ""]> (g_files g)) g →
    advanced (Opening m path content) (Filling m path content) g v).
  { intros v ->. split; simpl; rewrite ?lookup_insert_eq; try done.
    - right. exists 0. simpl. rewrite lookup_insert_eq. by destruct content.
    - unfold file_stays. simpl. by rewrite lookup_insert_eq.
    - by left. }
  unfold open_file in Ho.
  destruct (g_files g !! path) as [ [|old]|]; [|destruct (o_write n) as [ [text [k|] ]|]..].
  all: injection Ho as <- _ <-; first [by apply Hopen|apply advanced_same; simpl; auto].
Qed.

Lemma fill_file_advanced m n g r n' g' :
  rows_like (g_db g) → some_content g → holds g (Filling m path content) →
  fill_file path content n g = (r, n', g') →
  let st' := match r with
             | Err e => Failing m (Wrap "wa: write media file" e)
             | Ok _ => Recording m path content
             end in
  advanced (Filling m path content) st' g g'.
Proof.
  intros Hr Hc (Hl & _ & _ & Hp) Hf. cbv zeta.
  destruct Hc as [E|[k E] ]; [done|].
  assert (Hw : ∀ i, written_over path (take_bytes i content) g =
    set_files (<[path := File (take_bytes (max i k) content)]> (g_files g)) g).
  { intros i. unfold written_over. by rewrite E, overwrite_prefixes. }
  assert (Hall := take_bytes_all (String.length content) content (le_n _)).
  assert (Hmax : take_bytes (max (String.length content) k) content = content)
    by (apply take_bytes_all; lia).
  unfold fill_file in Hf. destruct (o_write n) as [ [text j]|] eqn:Ew.
  - injection Hf as <- _ <-. rewrite Hw. split; simpl; rewrite ?lookup_insert_eq; try done.
    + right. eexists. simpl. by rewrite lookup_insert_eq.
    + unfold file_stays. simpl. by rewrite lookup_insert_eq.
    + right. left. split; [done|]. intros Hn. by rewrite Hn in Ew.
  - injection Hf as <- _ <-. rewrite <- Hall at 3. rewrite Hw, Hmax.
    split; simpl; rewrite ?lookup_insert_eq; try done.
    + right. exists (String.length content). simpl. by rewrite lookup_insert_eq, Hall.
    + unfold file_stays. simpl. by rewrite lookup_insert_eq.
    + right. left. split; [done|]. intros _. simpl. apply lookup_insert_eq.
Qed.

(** A move that keeps the rows and does not touch the disk. *)
Definition off_disk (g g' : gateway) : Prop :=
  keeps_rows (g_db g) (g_db g') ∧ g_files g' = g_files g.

#[local] Instance off_disk_preorder : PreOrder off_disk.
Proof.
  split; [by intros g|]. intros g1 g2 g3 [R1 F1] [R2 F2]. split; [by etrans|congruence].
Qed.

Lemma advanced_off_disk st st' g g' :
  off_disk g g' → rows_like (g_db g) → some_content g → ¬ filling st → holds g st' →
  advanced st st' g g'.
Proof. intros [Hr Hf] Hg Hc Hn Hh. apply advanced_same; auto. by rewrite Hf. Qed.

Lemma UpdateMedia_off_disk id upd :
  (u_Path upd = None ∨ u_Path upd = Some path) →
  evolves off_disk (on_db (UpdateMedia tid id upd)).
Proof.
  intros Hp n g. unfold final. rewrite on_db_run. split; [|done]. by apply UpdateMedia_rows_like.
Qed.

Lemma bind_ret_run {A B} (m : eff gateway A) (k : A → B) n g b n' g' :
  bind m (λ x, ret (k x)) n g = (b, n', g') → ∃ x, m n g = (x, n', g') ∧ b = k x.
Proof. unfold bind, ret. destruct (m n g) as [ [x n1] g1]. intros [= <- <- <-]. by exists x. Qed.

Lemma MkdirAll_parent r n n' g g' :
  MkdirAll (Dir path) n g = (r, n', g') →
  g_db g' = g_db g ∧ g_files g' !! path = g_files g !! path.
Proof.
  destruct path_facts as [_ Hd]. unfold MkdirAll.
  destruct (o_mkdir n); [|destruct (g_files g !! Dir path) as [ [|?]|] ]; intros [= <- _ <-]; simpl;
    rewrite ?lookup_insert_ne by done; done.
Qed.

(** Recording the outcome, good or bad. *)
Lemma recording_advanced st st' n g n' g' :
  match st with Failing _ _ | Recording _ _ _ => True | _ => False end →
  rows_like (g_db g) → some_content g → holds g st → advance f tid mid st n g = (st', n', g') →
  advanced st st' g g'.
Proof.
  intros Hst Hr Hc Hh Ha. destruct st as [| | | | | | |m cause|m p data|]; try done; simpl in Ha.
  - apply bind_ret_run in Ha as (o & Ho & ->).
    assert (He : evolves off_disk (recordFailure tid (m_ID m) cause)).
    { unfold recordFailure. apply evolves_bind; [apply _|refine (evolves_draw _ _)|intros t].
      apply evolves_bind; [apply _| |intros x; refine (evolves_ret _ _)].
      apply UpdateMedia_off_disk. by left. }
    apply advanced_off_disk; simpl; auto.
    specialize (He n g). unfold final in He. by rewrite Ho in He.
  - destruct Hh as (Hl & -> & -> & Hp). unfold bind at 1, now, draw in Ha.
    apply bind_ret_run in Ha as (u & Hu & ->).
    apply advanced_off_disk; simpl; auto.
    + assert (He := UpdateMedia_off_disk (m_ID m)). unfold evolves, final in He.
      match type of Hu with on_db (UpdateMedia _ _ ?upd) _ _ = _ => specialize (He upd) end.
      specialize (He (or_intror eq_refl) (S n) g). by rewrite Hu in He.
    + destruct u as [u|e]; simpl; [|done]. split; [done|]. eexists. split; [|].
      2: { by rewrite (proj2 (proj2 (like_reads m Hl))). }
      lia.
Qed.

Lemma advance_advanced st st' n g n' g' :
  rows_like (g_db g) → some_content g → holds g st → advance f tid mid st n g = (st', n', g') →
  advanced st st' g g'.
Proof.
  intros Hr Hc Hh Ha.
  destruct st as [|m|m p|m p c|m p data|m p data|m p data|m cause|m p data|a];
    try (by eapply recording_advanced); simpl in Hh, Ha;
    try (apply bind_ret_run in Ha as (x & Hx & ->)).
  - assert (x = answer (GetByID tid mid) n (g_db g) ∧ g' = g) as [-> ->].
    { rewrite <- on_db_answer. pose proof (GetByID_eq tid mid n g) as Hg.
      unfold answer, final in *. by rewrite Hx in *. }
    apply advanced_off_disk; [done..|auto|].
    destruct (answer (GetByID tid mid) n (g_db g)) as [m|e] eqn:Em; [|done].
    by eapply after_lookup_holds, like_found.
  - assert (x = answer (on_disk m) n g ∧ g' = g) as [-> ->].
    { pose proof (on_disk_eq m n g) as Hg. unfold answer, final in *. by rewrite Hx in *. }
    apply advanced_off_disk; [done..|auto|]. by eapply after_stat_holds.
  - destruct Hh as [Hl ->].
    destruct (logged_in_client_run tid n g) as [(c & _ & _ & E)|(k & E & _)];
      rewrite E in Hx; injection Hx as <- _ <-; apply advanced_off_disk; try done; auto.
  - destruct Hh as [Hl ->]. unfold ask in Hx. injection Hx as <- _ <-.
    apply advanced_off_disk; [done..|auto|]. rewrite (proj1 (proj2 (like_reads m Hl))).
    destruct (DownloadMediaWithPath n c (args_of m0)) as [data|e] eqn:Ed; simpl; [|done].
    case_decide; simpl; [done|]. split_and!; [done..|]. by eapply Hcontent.
  - destruct Hh as (Hl & -> & ->). apply MkdirAll_parent in Hx as [Hdb Hf].
    apply advanced_same; [by rewrite Hdb|done|done|auto|]. by destruct x.
  - destruct Hh as (Hl & -> & ->). by eapply open_file_advanced.
  - pose proof Hh as (_ & -> & -> & _). by eapply fill_file_advanced.
  - injection Ha as <- _ <-. apply advanced_off_disk; [done..|auto|done].
Qed.

(** *** The invariant *)

Lemma coherent_advance k st st' n n' g s :
  coherent s → sh_fetches s !! k = Some st →
  advance f tid mid st n (sh_gateway s) = (st', n', g) →
  coherent {| sh_gateway := g; sh_fetches := <[k := st']> (sh_fetches s) |}.
Proof.
  intros [Hr Hc Hh Hw] Hk Ha.
  destruct (advance_advanced st st' n (sh_gateway s) n' g Hr Hc (Hh k st Hk) Ha)
    as [Hr' Hc' Hh' Hs Hf].
  split; simpl; [done|done|..].
  - intros j st2 [ [<- <-]|[_ Hj] ]%lookup_insert_Some; [done|]. by eapply holds_later, Hh.
  - intros Hcomplete Hquiet. destruct Hf as [Hf|[ [Hf Hw']|[Hf Hsame] ] ].
    + by destruct (Hquiet k st'); [apply lookup_insert_eq|].
    + right. auto.
    + unfold whole. rewrite Hsame. apply Hw; [done|]. intros j st2 Hj.
      destruct (decide (j = k)) as [->|Hne]; [congruence|].
      apply (Hquiet j). by rewrite lookup_insert_ne.
Qed.

Lemma coherent_aside g s :
  coherent s → aside (sh_gateway s) g →
  coherent {| sh_gateway := g; sh_fetches := sh_fetches s |}.
Proof.
  intros [ [Hwf Hl] Hc Hh Hw] [Aw Ar Af]. split; simpl.
  - split; [auto|]. intros m Hm Hadd. auto.
  - unfold some_content in *. by rewrite Af.
  - intros k st Hk. eapply holds_later, Hh, Hk. unfold file_stays. by rewrite Af.
  - unfold whole in *. rewrite Af. auto.
Qed.

Lemma coherent_step s s' : race_step s s' → coherent s → coherent s'.
Proof.
  destruct 1 as [k s Hk|k st st' n n' g s Hk Ha|g s Ha]; intros Hs.
  - destruct Hs as [Hr Hc Hh Hw]. split; simpl; [done|done|..].
    + intros j st [ [<- <-]|[_ Hj] ]%lookup_insert_Some; [done|]. by eapply Hh.
    + intros Hcomplete Hquiet. apply Hw; [done|]. intros j st Hj. apply (Hquiet j).
      rewrite lookup_insert_ne; [done|]. intros ->. congruence.
  - by eapply coherent_advance.
  - by apply coherent_aside.
Qed.

Lemma coherent_reachable g s :
  rows_like (g_db g) → whole g → rtc race_step (race_from g) s → coherent s.
Proof.
  intros Hr Hw Hs. assert (Hc : coherent (race_from g)).
  { split; simpl; try done. destruct Hw as [E|E]; [by left|right].
    exists (String.length content). by rewrite take_bytes_all. }
  remember (race_from g) as s0 eqn:E. clear E. induction Hs; eauto using coherent_step.
Qed.

(** C28: any number of requests may fetch one attachment at the same time.  The
    server hands out the content the message's hash names; nothing else is
    assumed of the order of the steps, of the failures of the database, the
    disk and the network, or of what the rest of the gateway does besides.
    Every fetch that succeeds answers the one path of that message, with the
    message's own type; the file is there from then on and holds nothing but a
    beginning of the content; and when no write is under way and none failed,
    it holds the whole content. *)
Theorem concurrent_fetches_agree g s k ref :
  rows_like (g_db g) → whole g → rtc race_step (race_from g) s →
  sh_fetches s !! k = Some (Answered (ref, None)) →
  (∃ size, (0 <= size <= Z.of_nat (String.length content))%Z ∧
     ref = with_outcome MediaAvailable path size (ref_of m0)) ∧
  (∃ i, g_files (sh_gateway s) !! path = Some (File (take_bytes i content))) ∧
  (writes_complete → (∀ j st, sh_fetches s !! j = Some st → ¬ filling st) →
   g_files (sh_gateway s) !! path = Some (File content)).
Proof.
  intros Hr Hw Hs Hk. destruct (coherent_reachable g s Hr Hw Hs) as [_ Hc Hh Hq].
  destruct (Hh k _ Hk) as [Hf Href]. split_and!; [done| |].
  - destruct Hc as [?|?]; done.
  - intros Hcomplete Hquiet. by destruct (Hq Hcomplete Hquiet).
Qed.

(** A fetch that nobody interrupts is one of these runs. *)
Lemma alone_race k c c' :
  rtc (alone_step f tid mid) c c' →
  rtc race_step {| sh_gateway := c.2; sh_fetches := {[k := c.1.1]} |}
                {| sh_gateway := c'.2; sh_fetches := {[k := c'.1.1]} |}.
Proof.
  induction 1 as [|[ [st1 i1] g1] [ [st2 i2] g2] c Hm _ IH]; [done|].
  eapply rtc_l; [|exact IH]. simpl. rewrite <- (insert_singleton_eq k st2 st1).
  by apply (race_advance k st1 st2 i1 i2 g2 (Build_shared _ _ _ _)); [apply lookup_singleton_eq|].
Qed.

Lemma fetch_alone k n g a n' g' :
  fetch f tid mid n g = (a, n', g') →
  rtc race_step (race_from g) {| sh_gateway := g'; sh_fetches := {[k := Answered a]} |}.
Proof.
  intros Hrun%fetch_alone_steps. eapply rtc_l; [by apply (race_begin k (race_from g))|].
  exact (alone_race k (Looking, n, g) (Answered a, n', g') Hrun).
Qed.

(** *** Running a schedule *)

(** The requests named, each taking its next step when its turn comes; a
    request that was not there begins. *)
Fixpoint play (turns : list nat) (n : nat) (s : shared) : shared :=
  match turns with
  | [] => s
  | k :: turns =>
      match sh_fetches s !! k with
      | None => play turns n {| sh_gateway := sh_gateway s;
                                sh_fetches := <[k := Looking]> (sh_fetches s) |}
      | Some st =>
          let run := advance f tid mid st n (sh_gateway s) in
          play turns run.1.2 {| sh_gateway := run.2;
                                sh_fetches := <[k := run.1.1]> (sh_fetches s) |}
      end
  end.

Lemma play_runs turns n s : rtc race_step s (play turns n s).
Proof.
  revert n s. induction turns as [|k turns IH]; intros n s; simpl; [done|].
  destruct (sh_fetches s !! k) as [st|] eqn:Hk; (eapply rtc_l; [|apply IH]).
  - apply (race_advance k st _ n (advance f tid mid st n (sh_gateway s)).1.2); [done|].
    by destruct (advance f tid mid st n (sh_gateway s)) as [ [??]?].
  - by apply race_begin.
Qed.
End race.

(** ** Witness: two requests for the same voice note *)

#[local] Existing Instance demo_unicode.
#[local] Existing Instance demo_oracle.
#[local] Existing Instance plain_media.
#[local] Existing Instance plain_jids.
#[local] Existing Instance plain_disk.
#[local] Existing Instance plain_texts.

Definition note_clients : WaClient (H := plain_jids) := plain_clients served.

#[local] Existing Instance note_clients.

Definition note_gateway : gateway := demo_gateway served note_db.

(** The row the identifier answers, and the place of its file. *)
Definition note_row : Message :=
  match answer (GetByID "acme" "3EB0NOTE") 0 note_db with
  | Ok m => m
  | Err _ => note_message
  end.

Definition note_path : string :=
  match mediaPathFor "./media" "acme" (m_ID note_row) (mr_MimeType (ref_of note_row)) with
  | Ok p => p
  | Err _ => ""
  end.

Definition play_note (turns : list nat) : shared :=
  play demo_fetcher "acme" "3EB0NOTE" turns 0 (race_from note_gateway).

(** Both look, both download; one has written and recorded its file when the
    other opens it again, writes it and ends. *)
Definition both_turns : list nat :=
  [0; 1; 0; 1; 0; 1; 0; 1; 0; 1; 0; 1; 0; 0; 0; 1; 1; 1].

Lemma note_rows_like : rows_like "acme" "3EB0NOTE" note_path note_row note_db.
Proof.
  split; [exact note_wf|]. intros m Hm _.
  assert (Hall : bool_decide (map_Forall (λ _ m, m = note_row) (messages note_db)) = true)
    by (vm_compute; reflexivity).
  apply bool_decide_eq_true_1 in Hall. rewrite (Hall (m_ID m) m Hm).
  split; [reflexivity|]. left. vm_compute. reflexivity.
Qed.

(** An equation of closed terms, compared by the virtual machine. *)
Ltac by_vm := match goal with |- ?a = ?b => vm_cast_no_check (@eq_refl _ b) end.

(** Facts to be evaluated together. *)
Lemma evaluated {A B C D} (a a' : A) (b b' : B) (c c' : C) (d d' : D) :
  (a, b, c, d) = (a', b', c', d') → a = a' ∧ b = b' ∧ c = c' ∧ d = d'.
Proof. by intros [= -> -> -> ->]. Qed.

Definition note_answer (size : Z) : stage :=
  Answered (with_outcome MediaAvailable note_path size (ref_of note_row), None).

Lemma both_answered :
  let s := play_note both_turns in
  sh_fetches s !! 0 = Some (note_answer 7) ∧ sh_fetches s !! 1 = Some (note_answer 7) ∧
  length (g_calls (sh_gateway s)) = 2 ∧
  bool_decide (map_Forall (λ _ st, ¬ filling st) (sh_fetches s)) = true.
Proof. apply evaluated. by_vm. Qed.

Lemma concurrent_fetches_agree_witness :
  let s := play_note both_turns in
  sh_fetches s !! 0 = Some (note_answer 7) ∧ sh_fetches s !! 1 = Some (note_answer 7) ∧
  length (g_calls (sh_gateway s)) = 2 ∧
  g_files (sh_gateway s) !! note_path = Some (File "OggS...").
Proof.
  intros s. destruct both_answered as (H0 & H1 & Hcalls & Hquiet). fold s in H0, H1, Hcalls, Hquiet.
  split; [exact H0|]. split; [exact H1|]. split; [exact Hcalls|].
  destruct (concurrent_fetches_agree demo_fetcher "acme" "3EB0NOTE" note_path note_row "OggS..."
    ltac:(vm_compute; reflexivity) (λ _ _ data (E : served = Ok data), match E with eq_refl => eq_refl end)
    note_gateway s 1 (with_outcome MediaAvailable note_path 7 (ref_of note_row))
    note_rows_like (or_introl (lookup_empty _))
    (play_runs _ _ _ _ both_turns 0 (race_from note_gateway)) H1) as (_ & _ & Hwhole).
  apply Hwhole; [intros n; reflexivity|]. intros j st Hj.
  apply bool_decide_eq_true_1 in Hquiet. exact (Hquiet j st Hj).
Defined.

(** ** What nothing keeps apart

    Of two requests for an attachment both download it; and while the second
    writes, the file the first has already served is empty: a third request
    finds the recorded path and answers an attachment of no bytes. *)
Definition rewriting_turns : list nat :=
  [0; 1; 0; 1; 0; 1; 0; 1; 0; 1; 0; 1; 0; 0; 0; 1; 2; 2; 2].

Theorem half_written_served :
  let s := play_note rewriting_turns in
  sh_fetches s !! 0 = Some (note_answer 7) ∧ sh_fetches s !! 2 = Some (note_answer 0) ∧
  length (g_calls (sh_gateway s)) = 2 ∧ g_files (sh_gateway s) !! note_path = Some (File "").
Proof. apply evaluated. by_vm. Qed.
