(* ===== verification/Sessions.v ===== *)
(** * What the HTTP and MCP layers are built on

    The state of a server, with its database in it; the interface
    [SessionManager] of [internal/wa/session.go]; and the laws the handlers
    rely on, which the manager discharges in [Deployment]. *)

From S2P Require Import Prelude GoText GoUnicode GoEff Models Sql Store StoreOps Json Http Middleware.
From S2P Require ApiKeyRepo History Manager Contacts Media.

(** ** The state *)

Class ServerState (St : Type) := {
  st_db : St → db;
  st_set_db : db → St → St;
  (** [os.Open] and the [io.Copy] to the response: the bytes it copied *)
  open_file : string → eff St (result string);
}.

(** A repository call of a handler. *)
Definition on_store `{ServerState St} {A} (m : eff db A) : eff St A := zoom st_db st_set_db m.

(** The resolver of the server's middleware. *)
#[export] Instance server_resolver `{Oracle} `{ServerState St} : KeyResolver St :=
  {| ResolveKeyHash h := on_store (resolve h);
     MarkKeyUsed := Some (λ id, on_store (ApiKeyRepo.MarkUsed id)) |}.

(** ** The interface *)

Class SessionManager (St : Type) := {
  sessions_StartPairing : string → string → eff St (result Manager.PairingResult);
  sessions_Status : string → eff St (result Manager.SessionStatus);
  sessions_SendText : string → string → string → eff St (result Manager.SentMessage);
  sessions_Logout : string → eff St (result ());
  sessions_FindContacts : string → string → eff St (result (list Contacts.Contact));
  sessions_SyncHistory : string → string → Z → eff St (result History.SyncResult);
  sessions_FetchMedia : string → string → eff St (Media.MediaRef * option error);
}.

(** ** What an operation for a tenant may do to the database *)

(** It writes that tenant's rows and loses none. *)
Record touches (tid : string) (s s' : db) : Prop := {
  to_others : ∀ other, other ≠ tid → tenant_data other s s';
  to_sound : sound s s';
}.

#[export] Instance touches_preorder tid : PreOrder (touches tid).
Proof.
  split; [by split|]. intros s1 s2 s3 [T1 S1] [T2 S2]. split; [|by etrans].
  intros o Ho. etrans; [by apply T1|by apply T2].
Qed.

(** ... and it leaves the messages and the chat names of everybody alone. *)
Record administers (tid : string) (s s' : db) : Prop := {
  ad_touches : touches tid s s';
  ad_messages : messages s' = messages s;
  ad_chats : chats s' = chats s;
}.

#[export] Instance administers_preorder tid : PreOrder (administers tid).
Proof.
  split; [by split|]. intros s1 s2 s3 [T1 M1 C1] [T2 M2 C2].
  split; [by etrans|congruence..].
Qed.

(** ... and the keys of everybody. *)
Record serves (tid : string) (s s' : db) : Prop := {
  sv_touches : touches tid s s';
  sv_keys : api_keys s' = api_keys s;
}.

#[export] Instance serves_preorder tid : PreOrder (serves tid).
Proof.
  split; [by split|]. intros s1 s2 s3 [T1 K1] [T2 K2]. split; [by etrans|congruence].
Qed.

(** The same relations on the states of a server. *)
Definition in_store `{ServerState St} (R : relation db) (s s' : St) : Prop := R (st_db s) (st_db s').

#[export] Instance in_store_preorder `{ServerState St} R `{!PreOrder R} : PreOrder (in_store R).
Proof. split; [by intros s; unfold in_store|]. intros s1 s2 s3. unfold in_store. apply transitivity. Qed.

(** ** The laws *)

Class ServerLaws (St : Type) `{ServerState St} `{SessionManager St} := {
  st_get_set : ∀ d s, st_db (st_set_db d s) = d;
  open_file_reads : ∀ path, evolves (in_store eq) (open_file path);
  StartPairing_law : ∀ tid phone,
    evolves (in_store (administers tid)) (sessions_StartPairing tid phone);
  Status_law : ∀ tid, evolves (in_store (serves tid)) (sessions_Status tid);
  SendText_law : ∀ tid toJID text,
    evolves (in_store (serves tid)) (sessions_SendText tid toJID text);
  FindContacts_law : ∀ tid query,
    evolves (in_store (serves tid)) (sessions_FindContacts tid query);
  SyncHistory_law : ∀ tid chatJID count,
    evolves (in_store (serves tid)) (sessions_SyncHistory tid chatJID count);
  FetchMedia_law : ∀ tid messageID,
    evolves (in_store (serves tid)) (sessions_FetchMedia tid messageID);
}.

(** ** Lifting the store's lemmas *)

Section lifting.
Context `{ServerLaws St}.

Lemma on_store_run {A} (m : eff db A) n s :
  on_store m n s = (answer m n (st_db s), next m n (st_db s), st_set_db (final m n (st_db s)) s).
Proof. unfold on_store, zoom, answer, next, final. by destruct (m n (st_db s)) as [[a n'] s']. Qed.

Lemma on_store_answer {A} (m : eff db A) n s : answer (on_store m) n s = answer m n (st_db s).
Proof. unfold answer. by rewrite on_store_run. Qed.

Lemma on_store_next {A} (m : eff db A) n s : next (on_store m) n s = next m n (st_db s).
Proof. unfold next. by rewrite on_store_run. Qed.

Lemma on_store_db {A} (m : eff db A) n s :
  st_db (final (on_store m) n s) = final m n (st_db s).
Proof. unfold final. rewrite on_store_run. simpl. apply st_get_set. Qed.

Lemma on_store_evolves {A} (R : relation db) (m : eff db A) :
  evolves R m → evolves (in_store R) (on_store m).
Proof. intros Hm n s. unfold in_store. rewrite on_store_db. apply Hm. Qed.

Lemma evolves_in_store {A} (R R' : relation db) (m : eff St A) :
  (∀ s s', R s s' → R' s s') → evolves (in_store R) m → evolves (in_store R') m.
Proof. intros HR Hm n s. apply HR, Hm. Qed.

Lemma serves_touches {A} tid (m : eff St A) :
  evolves (in_store (serves tid)) m → evolves (in_store (touches tid)) m.
Proof. apply evolves_in_store. by intros ?? []. Qed.

Lemma same_tables_touches tid s s' : same_tables s s' → touches tid s s'.
Proof.
  intros Hs. split; [|by apply same_tables_sound]. intros o _. by apply same_tables_data.
Qed.

Lemma only_touches tid s s' : only_tenant tid s s' → sound s s' → touches tid s s'.
Proof. intros Ho Hs. split; [|done]. intros o Hne. apply (Ho o Hne). Qed.

(** A read, and a write for a tenant. *)
Lemma read_touches `{Unicode} `{Oracle} tid o tid' :
  evolves (in_store (touches tid)) (on_store (run_read tid' o)).
Proof.
  apply on_store_evolves. intros n s. apply same_tables_touches, run_read_same.
Qed.

Lemma write_touches {A} tid (m : eff db A) :
  evolves (only_tenant tid) m → evolves sound m → evolves (in_store (touches tid)) (on_store m).
Proof. intros Ho Hs. apply on_store_evolves. intros n s. by apply only_touches. Qed.
End lifting.
