(* ===== verification/TenantApi.v ===== *)
(** * The tenant surface ([internal/httpapi/tenant_handlers.go],
    [media_handlers.go], and the error mapping of [json.go])

    Each handler against the interface [SessionManager] and the repositories.
    A payload is the JSON value that is encoded, so what a response discloses
    is what the definition puts in it. *)

From S2P Require Import Prelude GoText GoUnicode GoEff GoTime Config Models Sql Store.
From S2P Require Import Address MessageRepo StoreOps Json JsonRoundTrip Http Middleware Sessions.
From S2P Require Import History Manager Contacts Media.

Abbreviation payload_response := (response json).

(** ** Errors ([writeWAError], [writeMediaError]): [None] is not mapped *)

Definition writeWAError (err : error) : option payload_response :=
  if errors_Is err ErrNotPaired
  then Some (Http.Write 409 CodeConflict "the tenant has no paired WhatsApp session")
  else if errors_Is err ErrUnknownTenant || errors_Is err ErrNotFound
  then Some (NotFound "session not found for this tenant")
  else if errors_Is err ErrInvalidJID
  then Some (InvalidRequest "the destination is not a valid WhatsApp JID")
  else if errors_Is err ErrNoAnchorMessage
  then Some (Http.Write 409 CodeConflict "this chat has no stored message to anchor a history request; it must appear in a pushed history sync or receive a message first")
  else if errors_Is err ErrSyncInProgress
  then Some (Http.Write 409 CodeConflict "a history sync for this chat is already running")
  else if errors_Is err ErrSyncTimeout
  then Some (Http.Write 504 CodeUnavailable "the phone did not answer the history request in time; it may still arrive, so try reading the chat again shortly")
  else None.

Definition writeMediaError (err : error) : option payload_response :=
  if errors_Is err ErrMediaUnavailable
  then Some (Http.Write 410 CodeGone "WhatsApp no longer has this media; it has expired and cannot be downloaded again")
  else if errors_Is err ErrMediaTooLarge
  then Some (Http.Write 413 CodeTooLarge "this attachment is larger than the gateway is configured to download")
  else if errors_Is err ErrMediaTypeNotAllowed
  then Some (Http.Write 415 CodeUnsupportedType "the gateway does not download this media type")
  else if errors_Is err ErrNoMedia
  then Some (NotFound "this message carries no downloadable media")
  else if errors_Is err ErrUnknownMessage || errors_Is err ErrNotFound
  then Some (NotFound "no such message for this tenant")
  else if errors_Is err ErrUnsafeMediaPath
  then Some (InvalidRequest "the message id cannot address a stored file")
  else writeWAError err.

(** [if writeWAError(w, err) { return }; ...; apierr.Internal(w)] *)
Definition wa_failure (err : error) : payload_response := default Internal (writeWAError err).
Definition media_failure (err : error) : payload_response := default Internal (writeMediaError err).

(** ** Payloads *)

Definition status_json (st : SessionStatus) : json :=
  JObject ([("tenant_id", JString (st_TenantID st)); ("status", JString (st_Status st))] ++
           omit_empty "wa_jid" (st_WAJID st) ++
           [("connected", JBool (st_Connected st)); ("logged_in", JBool (st_LoggedIn st))]).

(** [sendMessageRequest] *)
Record sendMessageRequest := { q_To : string; q_Body : string }.

Definition into_send (key : string) (j : json) (req : sendMessageRequest)
    : result sendMessageRequest :=
  if is_field "to" key then
    match into_string j (q_To req) with
    | Ok v => Ok {| q_To := v; q_Body := q_Body req |} | Err e => Err e end
  else if is_field "body" key then
    match into_string j (q_Body req) with
    | Ok v => Ok {| q_To := q_To req; q_Body := v |} | Err e => Err e end
  else Ok req.

(** [sendMessageResponse] *)
Definition sent_json (sent : SentMessage) : json :=
  JObject [("wa_message_id", JString (sm_WAMessageID sent)); ("to", JString (sm_ChatJID sent));
           ("sent_at", JTime (sm_Timestamp sent))].

(** [store.Chat] *)
Definition chat_json (c : Chat) : json :=
  JObject ([("chat_jid", JString (c_ChatJID c))] ++ omit_empty "name" (c_Name c) ++
           [("last_message_at", JTime (c_LastMessageAt c));
            ("last_message_body", JString (c_LastMessageBody c));
            ("last_direction", JString (c_LastDirection c));
            ("message_count", JInt (Z.of_nat (c_MessageCount c)))]).

Definition derefStatus (status : option string) : string := default "" status.

(** [media_available] of a row: the bytes are on disk. *)
Definition media_available (m : Message) : bool :=
  bool_decide (is_Some (m_MediaPath m)) &&
  bool_decide (derefStatus (m_MediaStatus m) = MediaAvailable).

(** [messageView]: the row without its path, its keys and its error. *)
Definition messageView (m : Message) : json :=
  JObject ([("id", JString (m_ID m)); ("tenant_id", JString (m_TenantID m));
            ("chat_jid", JString (m_ChatJID m)); ("sender_jid", JString (m_SenderJID m));
            ("wa_message_id", JString (m_WAMessageID m)); ("direction", JString (m_Direction m));
            ("body", JString (m_Body m))] ++
           omit_nil "media_type" JString (m_MediaType m) ++
           omit_nil "file_length" JInt (m_FileLength m) ++
           omit_nil "mime_type" JString (m_MimeType m) ++
           omit_nil "media_status" JString (m_MediaStatus m) ++
           omit_nil "media_fetched_at" JTime (m_MediaFetchedAt m) ++
           [("timestamp", JTime (m_Timestamp m)); ("created_at", JTime (m_CreatedAt m));
            ("media_available", JBool (media_available m))]).

Definition messageViews (messages : list Message) : list json := messageView <$> messages.

Definition sync_json (res : SyncResult) : json :=
  JObject [("chat_jid", JString (sr_ChatJID res)); ("inserted", JInt (Z.of_nat (sr_Inserted res)));
           ("oldest_timestamp", JTime (sr_OldestTimestamp res));
           ("more_available", JBool (sr_MoreAvailable res))].

(** [syncHistoryRequest], its only field *)
Definition into_count (key : string) (j : json) (count : Z) : result Z :=
  if is_field "count" key then into_int j count else Ok count.

Definition contact_json (c : Contact) : json :=
  JObject [("jid", JString (ct_JID c)); ("name", JString (ct_Name c));
           ("has_messages", JBool (ct_HasMessages c))].

(** The row of a message that was sent, as the HTTP and the MCP handler store
    it: everything but the body comes from the send. *)
Definition outbound_row (tenantID : string) (sent : SentMessage) (text id : string) (created : Z)
    : Message :=
  {| m_ID := id; m_TenantID := tenantID; m_ChatJID := sm_ChatJID sent;
     m_SenderJID := sm_SenderJID sent; m_WAMessageID := sm_WAMessageID sent;
     m_Direction := DirectionOut; m_Body := text;
     m_MediaType := None; m_MediaPath := None; m_DirectPath := None; m_MediaKey := None;
     m_FileEncSHA256 := None; m_FileSHA256 := None; m_MMSType := None; m_FileLength := None;
     m_MimeType := None; m_MediaStatus := None; m_MediaError := None; m_MediaFetchedAt := None;
     m_Timestamp := sm_Timestamp sent; m_CreatedAt := created |}.

(** ** Handlers *)

Section handlers.
Context `{Unicode} `{Oracle} {St : Type} `{ServerState St} `{SessionManager St}.

Definition api := handler St json.

(** [principal, ok := auth.PrincipalFrom(ctx); if !ok { ... }] *)
Definition as_principal (k : Principal → api) : api := λ r,
  let '(principal, ok) := PrincipalFrom r in
  if ok : bool then k principal r else ret (Unauthorized "api key required").

Definition handleGetSession : api :=
  as_principal (λ principal r,
    let! status := sessions_Status (p_TenantID principal) in
    ret (match status with
         | Err e => wa_failure e
         | Ok status => writeJSON 200 (status_json status)
         end))%go.

(** A row that cannot be stored is logged only: the message did leave. *)
Definition record_outbound (tenantID : string) (sent : SentMessage) (text : string) : eff St () :=
  (let! id := NewID in
   let! created := now in
   let! _ := on_store (Append (outbound_row tenantID sent text id created)) in
   ret ())%go.

(** The decoded body. *)
Definition send_body (r : request) : result sendMessageRequest :=
  decodeJSON (into_struct into_send {| q_To := ""; q_Body := "" |}) (r_Body r).

(** The body a client sends. *)
Definition send_json (to text : string) : json :=
  JObject [("to", JString to); ("body", JString text)].

Lemma send_body_encode r to text :
  valid to → valid text → r_Body r = encode (send_json to text) →
  (Z.of_nat (String.length (r_Body r)) ≤ maxRequestBody)%Z →
  send_body r = Ok {| q_To := to; q_Body := text |}.
Proof.
  intros Hto Htext Hb Hlen. unfold send_body. rewrite Hb in *.
  rewrite decodeJSON_encode by (done || by repeat split).
  cbn [clean_json List.map send_json fst snd]. by rewrite Hto, Htext.
Qed.

Definition handleSendMessage : api :=
  as_principal (λ principal r,
    match send_body r with
    | Err _ => ret (InvalidRequest "the request body must be a JSON object")
    | Ok req =>
        let to := TrimSpace (q_To req) in
        let text := TrimSpace (q_Body req) in
        if decide (to = "") then ret (InvalidRequest "to is required")
        else if decide (text = "") then ret (InvalidRequest "body is required")
        else
          let! sent := sessions_SendText (p_TenantID principal) to text in
          match sent with
          | Err e => ret (wa_failure e)
          | Ok sent =>
              let! _ := record_outbound (p_TenantID principal) sent text in
              ret (writeJSON 201 (sent_json sent))
          end
    end)%go.

Definition handleListChats : api :=
  as_principal (λ principal r,
    let! chats := on_store (ListChats (p_TenantID principal) (queryLimit r)) in
    ret (match chats with
         | Err _ => Internal
         | Ok chats => writeJSON 200 (JObject [("chats", JArray (chat_json <$> chats))])
         end))%go.

Definition handleListChatMessages : api :=
  as_principal (λ principal r,
    let chatJID := TrimSpace (PathValue r "jid") in
    if decide (chatJID = "") then ret (InvalidRequest "a chat jid is required")
    else
      let! messages := on_store (ListByChat (p_TenantID principal) chatJID (queryLimit r)) in
      ret (match messages with
           | Err _ => Internal
           | Ok messages =>
               writeJSON 200 (JObject [("chat_jid", JString chatJID);
                                       ("messages", JArray (messageViews messages))])
           end))%go.

Definition handleSyncChatHistory : api :=
  as_principal (λ principal r,
    let chatJID := TrimSpace (PathValue r "jid") in
    if decide (chatJID = "") then ret (InvalidRequest "a chat jid is required")
    else
      let count := match decodeJSON (into_struct into_count 0%Z) (r_Body r) with
                   | Ok count => Some count
                   | Err e => if errors_Is e ErrEmptyBody then Some 0%Z else None
                   end in
      match count with
      | None => ret (InvalidRequest "the request body must be a JSON object")
      | Some count =>
          let! res := sessions_SyncHistory (p_TenantID principal) chatJID (NormalizeSyncCount count) in
          ret (match res with
               | Err e => wa_failure e
               | Ok res => writeJSON 200 (sync_json res)
               end)
      end)%go.

Definition handleFindContacts : api :=
  as_principal (λ principal r,
    let query := TrimSpace (Query_Get r "q") in
    if decide (query = "") then ret (InvalidRequest "q is required")
    else
      let! contacts := sessions_FindContacts (p_TenantID principal) query in
      ret (match contacts with
           | Err e => wa_failure e
           | Ok contacts => writeJSON 200 (JObject [("contacts", JArray (contact_json <$> contacts))])
           end))%go.

(** ** Media *)

Definition defaultMediaContentType := "application/octet-stream".

Definition media_headers (ref : MediaRef) : gmap string string :=
  let declared := TrimSpace (mr_MimeType ref) in
  let contentType := if decide (declared = "") then defaultMediaContentType else declared in
  let length := if decide (0 < mr_SizeBytes ref)%Z
                then {["Content-Length" := Itoa (mr_SizeBytes ref)]} else ∅ in
  <["Content-Disposition" := "inline"]>
    (<["Cache-Control" := "private, no-store"]> (<["Content-Type" := contentType]> length)).

Definition handleGetMessageMedia : api :=
  as_principal (λ principal r,
    let messageID := TrimSpace (PathValue r "id") in
    if decide (messageID = "") then ret (InvalidRequest "a message id is required")
    else
      let! fetched := sessions_FetchMedia (p_TenantID principal) messageID in
      match fetched.2 with
      | Some e => ret (media_failure e)
      | None =>
          let! file := open_file (mr_Path fetched.1) in
          ret (match file with
               | Err _ => Internal
               | Ok data => Response 200 (media_headers fetched.1) (FileBody data)
               end)
      end)%go.
End handlers.

(** ** Payloads are documents *)

Lemma status_json_fits st d : (0 < d)%Z → fits d (status_json st).
Proof. intros Hd. apply flat_object_fits; [done|]. fields_flat. Qed.

Lemma sent_json_fits sent d : (0 < d)%Z → fits d (sent_json sent).
Proof. intros Hd. apply flat_object_fits; [done|]. fields_flat. Qed.

Lemma chat_json_fits c d : (0 < d)%Z → fits d (chat_json c).
Proof. intros Hd. apply flat_object_fits; [done|]. fields_flat. Qed.

Lemma messageView_fits m d : (0 < d)%Z → fits d (messageView m).
Proof. intros Hd. apply flat_object_fits; [done|]. fields_flat. Qed.

Lemma sync_json_fits res d : (0 < d)%Z → fits d (sync_json res).
Proof. intros Hd. apply flat_object_fits; [done|]. fields_flat. Qed.

Lemma contact_json_fits c d : (0 < d)%Z → fits d (contact_json c).
Proof. intros Hd. apply flat_object_fits; [done|]. fields_flat. Qed.

(** ** Every handler acts as the principal *)

Section acting.
Context `{Unicode} `{Oracle} `{ServerLaws St}.

Definition acts_as (h : handler St json) : Prop := ∀ r,
  evolves (in_store (match r_Principal r with
                     | Some p => touches (p_TenantID p)
                     | None => eq
                     end)) (h r).

Lemma as_principal_acts k :
  (∀ p r, evolves (in_store (touches (p_TenantID p))) (k p r)) → acts_as (as_principal k).
Proof.
  intros Hk r. unfold as_principal, PrincipalFrom.
  destruct (r_Principal r) as [p|]; [apply Hk|]. refine (evolves_ret _ _).
Qed.

(** The database calls of the handlers. *)
Lemma store_same_touches {A} tid (m : eff db A) :
  evolves same_tables m → evolves (in_store (touches tid)) (on_store m).
Proof. intros Hm. apply on_store_evolves. intros n s. apply same_tables_touches, Hm. Qed.

Lemma record_outbound_touches tid sent text :
  evolves (in_store (touches tid)) (record_outbound tid sent text).
Proof.
  unfold record_outbound. apply evolves_bind; [apply _|by apply evolves_new_id, _|intros id].
  apply evolves_bind; [apply _|by apply evolves_now, _|intros t].
  apply evolves_bind; [apply _| |intros _; by apply evolves_ret, _].
  apply write_touches; [apply (Append_only (outbound_row tid sent text id t))|apply Append_sound].
Qed.

Ltac acts_here :=
  repeat match goal with
  | |- acts_as _ => apply as_principal_acts; intros p r
  | |- evolves _ (bind _ _) => apply evolves_bind; [apply _| |intros ?]
  | |- evolves _ (ret _) => refine (evolves_ret _ _)
  | |- evolves _ (match ?x with _ => _ end) => destruct x
  | |- evolves _ (record_outbound _ _ _) => apply record_outbound_touches
  | |- evolves _ (on_store _) =>
      apply store_same_touches; solve [eauto using MessageQueries.ListByChat_same,
                                         MessageQueries.ListChats_same]
  | |- evolves _ (open_file _) =>
      eapply evolves_in_store; [|apply open_file_reads]; intros ?? ->; reflexivity
  | |- evolves _ _ =>
      apply serves_touches;
      first [apply Status_law|apply SendText_law|apply SyncHistory_law|apply FindContacts_law
            |apply FetchMedia_law]
  end.

Lemma handleGetSession_acts : acts_as handleGetSession.
Proof. unfold handleGetSession. acts_here. Qed.
Lemma handleSendMessage_acts : acts_as handleSendMessage.
Proof. unfold handleSendMessage. acts_here. Qed.
Lemma handleListChats_acts : acts_as handleListChats.
Proof. unfold handleListChats. acts_here. Qed.
Lemma handleListChatMessages_acts : acts_as handleListChatMessages.
Proof. unfold handleListChatMessages. acts_here. Qed.
Lemma handleSyncChatHistory_acts : acts_as handleSyncChatHistory.
Proof. unfold handleSyncChatHistory. acts_here. Qed.
Lemma handleFindContacts_acts : acts_as handleFindContacts.
Proof. unfold handleFindContacts. acts_here. Qed.
Lemma handleGetMessageMedia_acts : acts_as handleGetMessageMedia.
Proof. unfold handleGetMessageMedia. acts_here. Qed.
End acting.

(** ** What a failure says *)

(** The sentinel an error carries, if any. *)
Fixpoint cause (e : error) : option sentinel :=
  match e with Sentinel s => Some s | New _ | External _ => None | Wrap _ e => cause e end.

Lemma errors_Is_cause e s : errors_Is e s = bool_decide (cause e = Some s).
Proof.
  induction e as [s'|t|t|t e IH]; simpl; try done. apply bool_decide_ext. naive_solver.
Qed.

Definition media_status (c : option sentinel) : Z :=
  match c with
  | Some ErrMediaUnavailable => 410
  | Some ErrMediaTooLarge => 413
  | Some ErrMediaTypeNotAllowed => 415
  | Some (ErrNoMedia | ErrUnknownMessage | ErrNotFound | ErrUnknownTenant) => 404
  | Some (ErrUnsafeMediaPath | ErrInvalidJID) => 400
  | Some (ErrNotPaired | ErrNoAnchorMessage | ErrSyncInProgress) => 409
  | Some ErrSyncTimeout => 504
  | _ => 500
  end.

(** C29: a failed fetch is answered with the status that tells the truth about
    it, however deep the cause is wrapped: 410 for expired media and nothing
    else, 413 over the size limit, 415 outside the allowed types, 404, 400,
    409 or 504 for what the caller can act on, 500 for everything else.  The
    answer depends on the cause alone, so the text of no error, neither of the
    database nor of WhatsApp, reaches a client. *)
Theorem failures_tell_the_truth e :
  status (media_failure e) = media_status (cause e) ∧
  (status (media_failure e) = 410%Z ↔ cause e = Some ErrMediaUnavailable) ∧
  (cause e ∉ Some <$> [ErrMediaUnavailable; ErrMediaTooLarge; ErrMediaTypeNotAllowed; ErrNoMedia;
                       ErrUnknownMessage; ErrUnsafeMediaPath; ErrNotFound] →
   media_failure e = wa_failure e) ∧
  (∀ e', cause e' = cause e → media_failure e' = media_failure e ∧ wa_failure e' = wa_failure e) ∧
  (cause e = None → media_failure e = Internal ∧ wa_failure e = Internal).
Proof.
  unfold media_failure, wa_failure, writeMediaError, writeWAError.
  split_and!.
  - rewrite !errors_Is_cause. by destruct (cause e) as [[]|].
  - rewrite !errors_Is_cause. destruct (cause e) as [[]|]; simpl; split; intros; congruence.
  - rewrite !errors_Is_cause. destruct (cause e) as [[]|]; simpl; try done;
      intros Hno; destruct Hno; by_decide.
  - intros e' He. by rewrite !errors_Is_cause, He.
  - intros He. by rewrite !errors_Is_cause, He.
Qed.

(** ** Sending *)

Section sending.
Context `{Unicode} `{Oracle} `{ServerLaws St}.

(** A send is the whole run of one call of the engine and one attempt to store
    it; the outcome of the attempt does not show in the answer. *)
Lemma handleSendMessage_run r p req sent n s n1 s1 :
  r_Principal r = Some p → send_body r = Ok req →
  TrimSpace (q_To req) ≠ "" → TrimSpace (q_Body req) ≠ "" →
  sessions_SendText (p_TenantID p) (TrimSpace (q_To req)) (TrimSpace (q_Body req)) n s =
    (Ok sent, n1, s1) →
  answer (handleSendMessage r) n s = writeJSON 201 (sent_json sent) ∧
  final (handleSendMessage r) n s =
    final (record_outbound (p_TenantID p) sent (TrimSpace (q_Body req))) n1 s1.
Proof.
  intros Hp Hreq Hto Htext E.
  unfold handleSendMessage, as_principal, PrincipalFrom. rewrite Hp, Hreq. cbv zeta.
  rewrite !decide_False by done.
  run_with E.
  by rewrite bind_answer, bind_final.
Qed.

(** What a client reads of the text of a message. *)
Definition reads_text (m : Message) (text : string) : Prop :=
  ∃ view, parse (encode (messageView m)) = Some (view, "") ∧
    member view "body" = Some (JString text).

Lemma messageView_text m : reads_text m (clean (m_Body m)).
Proof.
  exists (clean_json (messageView m)). split; [|reflexivity].
  rewrite <- (sapp_nil_r (encode _)). apply parse_encode; [by apply messageView_fits|exact I].
Qed.

(** The messages of a conversation that a listing shows before [m]. *)
Definition shown_before (s : db) (tid jid : string) (m : Message) : gmap string Message :=
  where_ (λ o, MessageQueries.conversation s tid jid o ∧ newest_first o m ∧ o ≠ m) (messages s).

(** The bytes of an answer are a listing that holds the message, with that text. *)
Definition shows (resp : payload_response) (m : Message) (text : string) : Prop :=
  status resp = 200%Z ∧ ∃ listing views view,
    parse (body_bytes (content resp)) = Some (listing, newline) ∧
    member listing "messages" = Some (JArray views) ∧ view ∈ views ∧
    member view "wa_message_id" = Some (JString (clean (m_WAMessageID m))) ∧
    member view "body" = Some (JString text).

Lemma listing_shows (jid : string) (l : list Message) (m : Message) :
  m ∈ l →
  shows (writeJSON 200 (JObject [("chat_jid", JString jid); ("messages", JArray (messageViews l))]))
    m (clean (m_Body m)).
Proof.
  intros Hm. split; [done|].
  do 3 eexists. split_and!.
  - eapply document_bytes; [done|]. apply object_fits; [done|].
    repeat (apply Forall_cons; split); [exact I| |constructor].
    apply array_fits; [done|]. intros x. by apply messageView_fits.
  - reflexivity.
  - change (List.map clean_json (messageViews l)) with (clean_json <$> (messageView <$> l)).
    apply list_elem_of_fmap. exists (messageView m). split; [reflexivity|]. by apply list_elem_of_fmap_2.
  - reflexivity.
  - reflexivity.
Qed.

(** Listing a conversation shows every message of it that is not behind as many
    others as the listing is long. *)
Lemma handleListChatMessages_shows r p n s i m :
  answering → wf (st_db s) → lid_map_ok (lids (st_db s)) → r_Principal r = Some p →
  let jid := TrimSpace (PathValue r "jid") in
  jid ≠ "" → messages (st_db s) !! i = Some m →
  MessageQueries.conversation (st_db s) (p_TenantID p) jid m →
  size (shown_before (st_db s) (p_TenantID p) jid m) < normalizeLimit (queryLimit r) →
  shows (answer (handleListChatMessages r) n s) m (clean (m_Body m)).
Proof.
  intros Ha Hwf Hm Hp jid Hjid Hi Hconv Hsize.
  unfold handleListChatMessages, as_principal, PrincipalFrom. rewrite Hp. fold jid.
  rewrite decide_False by done. rewrite bind_answer, on_store_answer, MessageQueries.ListByChat_answer by done.
  apply listing_shows.
  set (P := MessageQueries.conversation (st_db s) (p_TenantID p) jid) in *.
  eapply (window_holds P (λ o, P o ∧ newest_first o m ∧ o ≠ m) newest_first
            (normalizeLimit (queryLimit r)) (messages (st_db s)) _ i); [|done|done|done|exact Hsize].
  apply (select_window _ _ m_ID). by apply MessageQueries.wf_message_key.
Qed.

(** C16: once the engine has sent the text of a request, the answer is 201 and
    carries what the engine reported, whatever then happens to the store,
    because the message did leave.  The store gains at most that message:
    outgoing, with the text sent, under the address its conversation is filed
    under.  When the store answers, the message is in it afterwards; unless it
    was there before, it is filed with that address, sender, text and time, and
    listing its conversation under any of its addresses answers JSON bytes
    whose messages hold it with that text, as long as fewer messages are ahead
    of it than the listing is long.  The text is the one the client put in the
    bytes of the request, when they are the JSON of a destination and a text in
    valid UTF-8. *)
Theorem send_is_recorded r p req sent n s n1 s1 :
  r_Principal r = Some p → send_body r = Ok req →
  let to := TrimSpace (q_To req) in
  let text := TrimSpace (q_Body req) in
  let tid := p_TenantID p in
  to ≠ "" → text ≠ "" → sessions_SendText tid to text n s = (Ok sent, n1, s1) →
  answer (handleSendMessage r) n s = writeJSON 201 (sent_json sent) ∧
  let after := final (handleSendMessage r) n s in
  let s' := st_db after in
  (∀ i m, messages s' !! i = Some m → messages (st_db s1) !! i = Some m ∨
     m_TenantID m = tid ∧ m_ChatJID m = sm_ChatJID sent ∧
     m_SenderJID m = sm_SenderJID sent ∧ m_WAMessageID m = sm_WAMessageID sent ∧
     m_Direction m = DirectionOut ∧ m_Body m = text ∧ reads_text m (clean text)) ∧
  (answering → tid ≠ "" → is_Some (tenants (st_db s) !! tid) →
   sm_ChatJID sent ≠ "" → sm_WAMessageID sent ≠ "" →
   o_uuid n1 ≠ "" → messages (st_db s1) !! o_uuid n1 = None →
   ∃ i m, messages s' !! i = Some m ∧ m_TenantID m = tid ∧
     m_WAMessageID m = sm_WAMessageID sent ∧
     ((∀ k o, messages (st_db s1) !! k = Some o → m_TenantID o = tid →
         m_WAMessageID o ≠ sm_WAMessageID sent) →
      m_ChatJID m = sm_ChatJID sent ∧ m_SenderJID m = sm_SenderJID sent ∧
      m_Direction m = DirectionOut ∧ m_Body m = text ∧
      (IsZero (sm_Timestamp sent) = false → m_Timestamp m = sm_Timestamp sent) ∧
      ∀ r' n', wf (st_db s) → lid_map_ok (lids s') → r_Principal r' = Some p →
        let jid := TrimSpace (PathValue r' "jid") in
        jid ≠ "" →
        canonical (lids s') (sm_ChatJID sent) = canonical (lids s') (nonADAddress jid) →
        size (shown_before s' tid jid m) < normalizeLimit (queryLimit r') →
        shows (answer (handleListChatMessages r') n' after) m (clean text))) ∧
  (∀ to' text', valid to' → valid text' → r_Body r = encode (send_json to' text') →
   (Z.of_nat (String.length (r_Body r)) ≤ maxRequestBody)%Z →
   to = TrimSpace to' ∧ text = TrimSpace text').
Proof.
  intros Hp Hreq to text tid Hto Htext Hsend.
  destruct (handleSendMessage_run r p req sent n s n1 s1 Hp Hreq Hto Htext Hsend) as [Ha Hfinal].
  split; [exact Ha|]. intros after s'.
  set (row := outbound_row tid sent text (o_uuid n1) (o_now (S n1))).
  assert (Hs' : s' = final (Append row) (S (S n1)) (st_db s1)).
  { unfold s', after. rewrite Hfinal. unfold record_outbound, NewID, new_id, now.
    rewrite !bind_final. unfold final at 1, ret. simpl. by rewrite on_store_db. }
  split_and!.
  - intros i m Hm. rewrite Hs' in Hm.
    destruct (Gateway.Append_adds (Gateway.filed_as row) row (λ x Hx, Hx) _ _ i m Hm)
      as [?|(? & ? & ? & ? & ? & Hb)]; [by left|right].
    split_and!; try done. rewrite <- (Hb : m_Body m = text). apply messageView_text.
  - intros Hans Ht [t Hten] Hc Hw Hu Hnew.
    assert (Hten' : is_Some (tenants (st_db s1) !! tid)).
    { assert (Hsv : evolves (in_store (serves tid)) (sessions_SendText tid to text)) by apply SendText_law.
      destruct (Hsv n s) as [[_ [Hle _]] _]. unfold final in Hle. rewrite Hsend in Hle.
      destruct (le_tenants _ _ Hle _ _ Hten) as (t' & Ht' & _). by exists t'. }
    destruct (Append_appended row (S (S n1)) (st_db s1)) as [_ Happ]; try done.
    destruct (appended_row _ _ _ Happ) as (i & m & Hi & [Hmt Hmw] & Hfull). rewrite <- Hs' in Hi.
    exists i, m. split_and!; [done..|]. intros Hno.
    destruct Hfull as (_ & Hmc & Hms & Hmd & Hmb & Hts).
    { intros (j & o & Hj & Ho1 & Ho2). exact (Hno j o Hj Ho1 Ho2). }
    split_and!; [done..|]. intros r' n' Hwf Hlid Hp' jid Hjid Hcanon Hsize.
    rewrite <- (Hmb : m_Body m = text). eapply handleListChatMessages_shows; try done.
    + pose proof (handleSendMessage_acts r n s) as Hacts. rewrite Hp in Hacts.
      destruct Hacts as [_ [_ Hwf'] ]. by apply Hwf'.
    + split; [done|]. by rewrite Hmc.
  - intros to' text' Hvto Hvtext Hb Hlen.
    rewrite (send_body_encode r to' text') in Hreq by done. by injection Hreq as <-.
Qed.
End sending.
