(* ===== verification/AdminApi.v ===== *)
(** * The admin surface ([internal/httpapi/admin_handlers.go])

    Tenants, keys and pairing.  The plaintext of a key is in exactly one
    response, and what is stored is its hash. *)

From S2P Require Import Prelude GoText GoUnicode GoEff Scope Key Models Sql Store.
From S2P Require Import Json JsonRoundTrip Http Middleware Sessions Manager Media TenantApi.
From S2P Require TenantRepo ApiKeyRepo SessionRepo.

(** ** Requests and payloads *)

(** [createTenantRequest] and [issueKeyRequest] *)
Record keyRequest := { kr_Name : string; kr_Scopes : list string }.

Definition into_key (key : string) (j : json) (req : keyRequest) : result keyRequest :=
  if is_field "name" key then
    match into_string j (kr_Name req) with
    | Ok v => Ok {| kr_Name := v; kr_Scopes := kr_Scopes req |} | Err e => Err e end
  else if is_field "scopes" key then
    match into_strings j (kr_Scopes req) with
    | Ok v => Ok {| kr_Name := kr_Name req; kr_Scopes := v |} | Err e => Err e end
  else Ok req.

Definition key_request : json → result keyRequest :=
  into_struct into_key {| kr_Name := ""; kr_Scopes := [] |}.

(** [startPairingRequest], its only field *)
Definition into_phone (key : string) (j : json) (phone : string) : result string :=
  if is_field "phone" key then into_string j phone else Ok phone.

Record issuedKey := {
  ik_ID : string;
  ik_Name : string;
  ik_KeyPrefix : string;
  ik_Scopes : list string;
  ik_Key : string;
}.

Definition issued_json (k : issuedKey) : json :=
  JObject [("id", JString (ik_ID k)); ("name", JString (ik_Name k));
           ("key_prefix", JString (ik_KeyPrefix k)); ("scopes", JStrings (ik_Scopes k));
           ("key", JString (ik_Key k))].

(** [createTenantResponse] *)
Definition created_json (t : Tenant) (k : issuedKey) : json :=
  JObject [("tenant_id", JString (t_ID t)); ("name", JString (t_Name t));
           ("created_at", JTime (t_CreatedAt t)); ("api_key", issued_json k)].

Definition pairing_json (res : PairingResult) : json :=
  JObject ([("mode", JString (match pr_Mode res with
                              | PairingModeCode => "code" | PairingModeQR => "qr" end))] ++
           omit_empty "pair_code" (pr_PairCode res) ++ omit_empty "qr" (pr_QR res)).

(** ** Payloads are documents *)

Lemma issued_json_fits k d : (1 < d)%Z → fits d (issued_json k).
Proof.
  intros Hd. apply object_fits; [lia|].
  repeat (apply Forall_cons; split; [try exact I|]); [|constructor].
  apply array_fits; [lia|]. by intros s.
Qed.

Lemma created_json_fits t k d : (2 < d)%Z → fits d (created_json t k).
Proof.
  intros Hd. apply object_fits; [lia|].
  repeat (apply Forall_cons; split; [try exact I|]); [|constructor].
  apply issued_json_fits. lia.
Qed.

Lemma pairing_json_fits res d : (0 < d)%Z → fits d (pairing_json res).
Proof. intros Hd. apply flat_object_fits; [done|]. fields_flat. Qed.

(** ** Handlers *)

Section handlers.
Context `{Unicode} `{Oracle} `{ErrorTexts} {St : Type} `{ServerState St} `{SessionManager St}.
Context (defaultScopes : list string).

Definition resolveScopes (requested : list string) : list string :=
  if decide (requested = []) then defaultScopes else requested.

Definition issueKey (tenantID name : string) (scopes : list string) : eff St (result issuedKey) :=
  (try! generated := GenerateKey tenantID in
   let! id := NewID in
   let! created := now in
   try! _ := on_store (ApiKeyRepo.Create
      {| k_ID := id; k_TenantID := tenantID; k_Name := name; k_KeyHash := Hash generated;
         k_KeyPrefix := Prefix generated; k_Scopes := scopes; k_CreatedAt := created;
         k_LastUsedAt := None; k_RevokedAt := None |}) in
   ret (Ok {| ik_ID := id; ik_Name := name; ik_KeyPrefix := Prefix generated;
              ik_Scopes := scopes; ik_Key := Plaintext generated |}))%go.

Definition handleCreateTenant : handler St json := λ r,
  (match decodeJSON key_request (r_Body r) with
   | Err _ => ret (InvalidRequest "the request body must be a JSON object")
   | Ok req =>
       let name := TrimSpace (kr_Name req) in
       if decide (name = "") then ret (InvalidRequest "name is required")
       else
         let scopes := resolveScopes (kr_Scopes req) in
         match ValidateScopes scopes with
         | Err e => ret (InvalidRequest (Error e))
         | Ok _ =>
             let! id := NewID in
             let! created := now in
             let tenant := {| t_ID := id; t_Name := name; t_CreatedAt := created |} in
             let! made := on_store (TenantRepo.Create tenant) in
             match made with
             | Err _ => ret Internal
             | Ok _ =>
                 let! session := on_store (SessionRepo.EnsureForTenant id) in
                 match session with
                 | Err _ => ret Internal
                 | Ok _ =>
                     let! issued := issueKey id "default" scopes in
                     ret (match issued with
                          | Err _ => Internal
                          | Ok issued => writeJSON 201 (created_json tenant issued)
                          end)
                 end
             end
         end
   end)%go.

(** [if _, err := s.db.Tenants().Get(ctx, tenantID); err != nil { ... }] *)
Definition for_tenant (tenantID : string) (k : eff St payload_response)
    : eff St payload_response :=
  (let! tenant := on_store (TenantRepo.Get tenantID) in
   match tenant with
   | Err e => ret (if errors_Is e ErrNotFound then NotFound "tenant not found" else Internal)
   | Ok _ => k
   end)%go.

Definition handleIssueKey : handler St json := λ r,
  let tenantID := PathValue r "id" in
  for_tenant tenantID (
    match (match decodeJSON key_request (r_Body r) with
           | Ok req => Some req
           | Err e => if errors_Is e ErrEmptyBody then Some {| kr_Name := ""; kr_Scopes := [] |}
                      else None
           end) with
    | None => ret (InvalidRequest "the request body must be a JSON object")
    | Some req =>
        let name := TrimSpace (kr_Name req) in
        if decide (name = "") then ret (InvalidRequest "name is required")
        else
          let scopes := resolveScopes (kr_Scopes req) in
          match ValidateScopes scopes with
          | Err e => ret (InvalidRequest (Error e))
          | Ok _ =>
              let! issued := issueKey tenantID name scopes in
              ret (match issued with
                   | Err _ => Internal
                   | Ok issued => writeJSON 201 (issued_json issued)
                   end)
          end
    end)%go.

Definition handleRevokeKey : handler St json := λ r,
  (let! revoked := on_store (ApiKeyRepo.Revoke (PathValue r "id") (PathValue r "keyID")) in
   ret (match revoked with
        | Err e => if errors_Is e ErrNotFound then NotFound "api key not found for this tenant"
                   else Internal
        | Ok _ => Response 204 ∅ NoBody
        end))%go.

Definition handleStartPairing : handler St json := λ r,
  let tenantID := PathValue r "id" in
  for_tenant tenantID (
    match (match decodeJSON (into_struct into_phone "") (r_Body r) with
           | Ok phone => Some phone
           | Err e => if errors_Is e ErrEmptyBody then Some "" else None
           end) with
    | None => ret (InvalidRequest "the request body must be a JSON object")
    | Some phone =>
        let! session := on_store (SessionRepo.EnsureForTenant tenantID) in
        match session with
        | Err _ => ret Internal
        | Ok _ =>
            let! res := sessions_StartPairing tenantID (TrimSpace phone) in
            ret (match res with
                 | Err e => wa_failure e
                 | Ok res => writeJSON 200 (pairing_json res)
                 end)
        end
    end)%go.
End handlers.

(** ** Every handler administers one tenant *)

Section administering.
Context `{Unicode} `{Oracle} `{ErrorTexts} `{ServerLaws St}.
Context (defaultScopes : list string).

(** Nothing of the conversations is written. *)
Definition conversations_kept (s s' : db) : Prop := messages s' = messages s ∧ chats s' = chats s.

#[export] Instance conversations_kept_preorder : PreOrder conversations_kept.
Proof. split; [done|]. unfold conversations_kept. intros s1 s2 s3 [] []. split; congruence. Qed.

Lemma write_administers {A} tid (m : eff db A) :
  evolves (only_tenant tid) m → evolves sound m → evolves conversations_kept m →
  evolves (in_store (administers tid)) (on_store m).
Proof.
  intros Ho Hs Hk. apply on_store_evolves. intros n s.
  split; [by apply only_touches|apply Hk..].
Qed.

Lemma same_tables_kept s s' : same_tables s s' → conversations_kept s s'.
Proof. by intros [->|[-> _]]. Qed.

Lemma Create_tenant_administers t :
  evolves (in_store (administers (t_ID t))) (on_store (TenantRepo.Create t)).
Proof.
  apply write_administers; [apply TenantRepo.tenant_Create_only|apply TenantRepo.tenant_Create_sound|].
  apply TenantRepo.tenant_Create_evolves; [apply _|]. intros u s a s' _ _.
  unfold TenantRepo.insert_tenant. case_match; [done|]. by intros [= _ <-].
Qed.

Lemma Create_key_administers k :
  evolves (in_store (administers (k_TenantID k))) (on_store (ApiKeyRepo.Create k)).
Proof.
  apply write_administers; [apply ApiKeyRepo.key_Create_only|apply ApiKeyRepo.key_Create_sound|].
  apply ApiKeyRepo.key_Create_evolves; [apply _|]. intros.
  match goal with Hi : ApiKeyRepo.insert_key _ _ = Some _ |- _ =>
    by apply ApiKeyRepo.insert_key_Some in Hi as (_ & _ & _ & ->) end.
Qed.

Lemma Ensure_administers tid :
  evolves (in_store (administers tid)) (on_store (SessionRepo.EnsureForTenant tid)).
Proof.
  apply write_administers; [apply SessionRepo.EnsureForTenant_only
                           |apply SessionRepo.EnsureForTenant_sound|].
  intros n s. destruct (SessionRepo.EnsureForTenant_sessions tid n s) as [m ->]. done.
Qed.

Lemma Revoke_administers tid kid :
  evolves (in_store (administers tid)) (on_store (ApiKeyRepo.Revoke tid kid)).
Proof.
  apply write_administers; [apply ApiKeyRepo.Revoke_only|apply ApiKeyRepo.Revoke_sound|].
  unfold ApiKeyRepo.Revoke, affected_some. evolve.
  match goal with Hu : ApiKeyRepo.update_keys _ _ _ = Some _ |- _ =>
    unfold ApiKeyRepo.update_keys in Hu; by injection Hu as _ <- end.
Qed.

Lemma Get_tenant_administers tid tid' :
  evolves (in_store (administers tid)) (on_store (TenantRepo.Get tid')).
Proof.
  apply on_store_evolves. apply evolves_read_row, _.
Qed.

Ltac administer :=
  repeat match goal with
  | |- evolves _ (bind _ _) => apply evolves_bind; [apply _| |intros ?]
  | |- evolves _ (try _ _ _) => apply evolves_try; [apply _| |intros ?]
  | |- evolves _ (ret _) => refine (evolves_ret _ _)
  | |- evolves _ now => refine (evolves_now _)
  | |- evolves _ NewID => refine (evolves_new_id _)
  | |- evolves _ (draw _) => refine (evolves_draw _ _)
  | |- evolves _ (match ?x with _ => _ end) => destruct x
  | |- evolves _ (on_store (TenantRepo.Get _)) => apply Get_tenant_administers
  | |- evolves _ (on_store (SessionRepo.EnsureForTenant _)) => apply Ensure_administers
  | |- evolves _ (on_store (ApiKeyRepo.Revoke _ _)) => apply Revoke_administers
  | |- evolves _ (sessions_StartPairing _ _) => apply StartPairing_law
  end.

Lemma issueKey_administers tid name scopes :
  evolves (in_store (administers tid)) (issueKey tid name scopes).
Proof.
  unfold issueKey, GenerateKey. administer. by apply (Create_key_administers (Build_APIKey _ tid _ _ _ _ _ _ _)).
Qed.

Lemma handleIssueKey_administers r :
  evolves (in_store (administers (PathValue r "id"))) (handleIssueKey defaultScopes r).
Proof. unfold handleIssueKey, for_tenant. administer; apply issueKey_administers. Qed.

Lemma handleRevokeKey_administers r :
  evolves (in_store (administers (PathValue r "id"))) (handleRevokeKey r).
Proof. unfold handleRevokeKey. administer. Qed.

Lemma handleStartPairing_administers r :
  evolves (in_store (administers (PathValue r "id"))) (handleStartPairing r).
Proof. unfold handleStartPairing, for_tenant. administer. Qed.

(** A new tenant is the one with the identifier that was drawn. *)
Lemma handleCreateTenant_administers r n s :
  ∃ tid, in_store (administers tid) s (final (handleCreateTenant defaultScopes r) n s).
Proof.
  exists (o_uuid n). unfold handleCreateTenant.
  destruct (decodeJSON _ _) as [req|e]; [|done]. cbv zeta.
  case_decide; [done|]. destruct (ValidateScopes _); [|done].
  unfold NewID, new_id. rewrite bind_final.
  change (answer (draw o_uuid) n s) with (o_uuid n). change (final (draw o_uuid) n s) with s.
  match goal with |- in_store ?R s (final ?m ?k s) =>
    enough (Hev : evolves (in_store R) m) by apply Hev end.
  administer; [by apply (Create_tenant_administers (Build_Tenant _ _ _))|apply issueKey_administers].
Qed.
End administering.

(** ** Keys *)

Section keys.
Context `{Unicode} `{Oracle} `{ErrorTexts} `{ServerLaws St}.
Context (defaultScopes : list string).

Lemma issueKey_Ok tid name scopes n s k :
  answer (issueKey tid name scopes) n s = Ok k →
  ∃ row, api_keys (st_db (final (issueKey tid name scopes) n s)) !! ik_ID k = Some row ∧
    r_ID row = ik_ID k ∧ r_KeyHash row = HashKey (ik_Key k) ∧ r_TenantID row = tid ∧
    r_RevokedAt row = None ∧ r_Scopes row = FormatScopes scopes ∧ ik_Scopes k = scopes ∧
    ik_Key k ≠ "".
Proof.
  unfold issueKey. intros (g & n1 & s1 & Hg & Hb & ->)%try_Ok.
  assert (Hkey : Hash g = HashKey (Plaintext g) ∧ Plaintext g ≠ "").
  { assert (Hg' : answer (GenerateKey tid) n s = Ok g) by (unfold answer; by rewrite Hg).
    unfold GenerateKey in Hg'. case_decide; [done|].
    apply try_Ok in Hg' as (raw & n2 & s2 & _ & Ha & _). by injection Ha as <-. }
  revert Hb. unfold NewID, new_id, now. rewrite !bind_answer, !bind_final.
  set (id := answer (draw o_uuid) n1 s1). set (t := answer (draw o_now) _ _).
  intros (u & n2 & s2 & Hc & Hk & ->)%try_Ok. destruct Hkey as [Hh Hp].
  unfold answer, ret in Hk. injection Hk as <-. cbn [ik_ID ik_Key ik_Scopes].
  rewrite on_store_run in Hc. injection Hc as Hc <- <-.
  destruct u. apply ApiKeyRepo.key_Create_Ok in Hc as (created & _ & Hrow).
  eexists. unfold final at 1, ret. cbn [snd]. rewrite st_get_set.
  split; [exact Hrow|]. by rewrite Hh.
Qed.

Lemma for_tenant_201 tid k n s :
  status (answer (for_tenant tid k) n s) = 201%Z →
  ∃ n1 s1, st_db s1 = st_db s ∧ is_Some (tenants (st_db s) !! tid) ∧
    answer (for_tenant tid k) n s = answer k n1 s1 ∧ final (for_tenant tid k) n s = final k n1 s1.
Proof.
  unfold for_tenant. rewrite bind_answer, bind_final, on_store_answer.
  destruct (answer (TenantRepo.Get tid) n (st_db s)) as [t|e] eqn:E.
  - intros _. eexists _, _. split_and!; [|..|done|done].
    + rewrite on_store_db. symmetry. apply (evolves_read_row eq).
    + apply read_row_Ok in E. by exists t.
  - unfold ret, answer. simpl. by destruct (errors_Is e ErrNotFound).
Qed.

Lemma handleIssueKey_201 r n s :
  status (answer (handleIssueKey defaultScopes r) n s) = 201%Z →
  ∃ name scopes issued n1 s1,
    st_db s1 = st_db s ∧ ValidateScopes scopes = Ok () ∧ name ≠ "" ∧
    answer (issueKey (PathValue r "id") name scopes) n1 s1 = Ok issued ∧
    content (answer (handleIssueKey defaultScopes r) n s) = JSONBody (issued_json issued) ∧
    final (handleIssueKey defaultScopes r) n s =
      final (issueKey (PathValue r "id") name scopes) n1 s1.
Proof.
  unfold handleIssueKey. cbv zeta. intros H201.
  pose proof H201 as (n1 & s1 & Hdb & _ & Ha & Hf)%for_tenant_201.
  rewrite Ha, Hf. rewrite Ha in H201. clear Ha Hf. revert H201.
  destruct (match decodeJSON key_request (r_Body r) with Ok req => Some req | Err e => _ end)
    as [req|]; [|done].
  case_decide as Hname; [done|].
  destruct (ValidateScopes _) as [[]|e] eqn:Ev; [|done].
  rewrite bind_answer, bind_final.
  destruct (answer (issueKey _ _ _) n1 s1) as [issued|e] eqn:Ei; [|done].
  intros _. by eexists _, _, issued, n1, s1.
Qed.

(** C7: an issued key works.  The plaintext in the answer to the request that
    issued it authenticates from then on as a principal of the tenant the key
    was issued for, and grants exactly the scopes the answer listed; what the
    database holds is its hash. *)
Theorem issued_key_authenticates r n s :
  wf (st_db s) → answering → status (answer (handleIssueKey defaultScopes r) n s) = 201%Z →
  let s' := final (handleIssueKey defaultScopes r) n s in
  ∃ issued row, content (answer (handleIssueKey defaultScopes r) n s) = JSONBody (issued_json issued) ∧
    api_keys (st_db s') !! ik_ID issued = Some row ∧ r_KeyHash row = HashKey (ik_Key issued) ∧
    ∀ r' n', BearerToken r' = ik_Key issued →
      ∃ p, resolved_as r' n' s' p ∧ p_TenantID p = PathValue r "id" ∧ p_KeyID p = ik_ID issued ∧
        ∀ required, HasScope (p_Scopes p) required = HasScope (ik_Scopes issued) required.
Proof.
  intros Hwf Hans H201 s'.
  assert (Hwf' : wf (st_db s')).
  { destruct (handleIssueKey_administers defaultScopes r n s) as [[_ [_ Hs]] _ _]. by apply Hs. }
  destruct (handleIssueKey_201 r n s H201) as (name & scopes & issued & n1 & s1 & _ & Hv & _ & Hi & Hc & Hf).
  destruct (issueKey_Ok _ _ _ _ _ _ Hi) as (row & Hrow & Hid & Hh & Ht & Hl & Hsc & Hsc' & Hne).
  rewrite <- Hf in Hrow. fold s' in Hrow.
  exists issued, row. split_and!; [done..|]. intros r' n' Hr'.
  exists (principal_of row). unfold resolved_as. rewrite Hr'. split_and!; try done.
  - cbn [ResolveKeyHash server_resolver]. rewrite on_store_answer.
    apply (resolve_found _ _ _ _ _ Hwf' Hans (HashKey_not_empty _) Hrow Hh Hl).
  - intros required. simpl. rewrite Hsc, Hsc'. by apply stored_scopes_grant.
Qed.

(** C8: a revoked key is refused.  A revocation that is answered 204 named a
    live key of that tenant, and afterwards, whatever happens to the database,
    no request that presents that key is ever authenticated again. *)
Theorem revoked_key_refused r n s :
  wf (st_db s) → status (answer (handleRevokeKey r) n s) = 204%Z →
  ∃ id row, api_keys (st_db s) !! id = Some row ∧ r_ID row = PathValue r "keyID" ∧
    r_TenantID row = PathValue r "id" ∧
    ∀ s2 r2 n2 p, sound (st_db (final (handleRevokeKey r) n s)) (st_db s2) →
      HashKey (BearerToken r2) = r_KeyHash row → ¬ resolved_as (St := St) r2 n2 s2 p.
Proof.
  intros Hwf. pose proof (handleRevokeKey_administers r n s) as [[_ [_ Hwf']] _ _].
  revert Hwf'. unfold handleRevokeKey. rewrite bind_answer, bind_final, on_store_answer.
  unfold final at 1 4, ret. simpl. rewrite !on_store_db.
  destruct (answer (ApiKeyRepo.Revoke _ _) n (st_db s)) as [[]|e] eqn:E.
  - intros Hwf' _. apply ApiKeyRepo.Revoke_Ok in E as (id & row & t & Hrow & Hid & Ht & Hrow').
    exists id, row. split_and!; [done..|]. intros s2 r2 n2 p [Hle Hwf2] Hh [_ Hres].
    cbn [ResolveKeyHash server_resolver] in Hres. rewrite on_store_answer in Hres.
    apply resolve_Ok in Hres as (i & row2 & Hi & Hh2 & Hl2 & _); [|apply HashKey_not_empty].
    destruct (le_keys _ _ Hle _ _ Hrow') as (row' & Hr' & Hkl).
    assert (i = id) as ->.
    { eapply (wf_key_hash _ (Hwf2 (Hwf' Hwf))); [exact Hi|exact Hr'|].
      rewrite Hh2, Hh. by rewrite (key_le_hash _ _ Hkl). }
    rewrite Hi in Hr'. injection Hr' as ->.
    rewrite (key_le_revoked _ _ Hkl) in Hl2 by by eexists. done.
  - intros _. unfold answer, ret. simpl. by destruct (errors_Is e ErrNotFound).
Qed.
End keys.
