(* ===== verification/ToolTypes.v ===== *)
(** * What the MCP tools answer ([internal/mcpserver/server.go])

    The structs of the answers and their JSON, as the tags give it.  The names
    are those of the source and are used qualified. *)

From S2P Require Import Prelude GoText Json Http.

(** ** Answers *)

Record Chat := {
  ChatJID : string;
  Name : string;
  LastMessageAt : string;
  LastMessageBody : string;
  LastDirection : string;
  MessageCount : Z;
}.

Record Message := {
  ID : string;
  m_ChatJID : string;
  SenderJID : string;
  m_WAMessageID : string;
  Direction : string;
  Body : string;
  m_MediaType : string;
  m_MimeType : string;
  MediaStatus : string;
  MediaAvailable : bool;
  Timestamp : string;
}.

Record GetMediaOutput := {
  MessageID : string;
  Path : string;
  MimeType : string;
  MediaType : string;
  Status : string;
  SizeBytes : Z;
}.

Record SendMessageOutput := { WAMessageID : string; To : string }.

Record ContactCandidate := { JID : string; c_Name : string; HasMessages : bool }.

Record SyncHistoryOutput := {
  s_ChatJID : string;
  Inserted : Z;
  OldestTimestamp : string;
  MoreAvailable : bool;
}.

Record ListChatsOutput := { Chats : list Chat }.
Record ListMessagesOutput := { l_ChatJID : string; Messages : list Message }.
Record FindContactOutput := { Contacts : list ContactCandidate }.

(** ** Their JSON *)

Definition json_of_chat (c : Chat) : json :=
  JObject ([("chat_jid", JString (ChatJID c))] ++ omit_empty "name" (Name c) ++
           [("last_message_at", JString (LastMessageAt c));
            ("last_message_body", JString (LastMessageBody c));
            ("last_direction", JString (LastDirection c));
            ("message_count", JInt (MessageCount c))]).

Definition json_of_message (m : Message) : json :=
  JObject ([("id", JString (ID m)); ("chat_jid", JString (m_ChatJID m));
            ("sender_jid", JString (SenderJID m)); ("wa_message_id", JString (m_WAMessageID m));
            ("direction", JString (Direction m)); ("body", JString (Body m))] ++
           omit_empty "media_type" (m_MediaType m) ++ omit_empty "mime_type" (m_MimeType m) ++
           omit_empty "media_status" (MediaStatus m) ++
           [("media_available", JBool (MediaAvailable m)); ("timestamp", JString (Timestamp m))]).

Definition json_of_media (o : GetMediaOutput) : json :=
  JObject ([("message_id", JString (MessageID o)); ("path", JString (Path o))] ++
           omit_empty "mime_type" (MimeType o) ++ omit_empty "media_type" (MediaType o) ++
           [("status", JString (Status o)); ("size_bytes", JInt (SizeBytes o))]).

Definition json_of_sent (o : SendMessageOutput) : json :=
  JObject [("wa_message_id", JString (WAMessageID o)); ("to", JString (To o))].

Definition json_of_candidate (c : ContactCandidate) : json :=
  JObject [("jid", JString (JID c)); ("name", JString (c_Name c));
           ("has_messages", JBool (HasMessages c))].

Definition json_of_sync (o : SyncHistoryOutput) : json :=
  JObject [("chat_jid", JString (s_ChatJID o)); ("inserted", JInt (Inserted o));
           ("oldest_timestamp", JString (OldestTimestamp o));
           ("more_available", JBool (MoreAvailable o))].

Definition json_of_chats (o : ListChatsOutput) : json :=
  JObject [("chats", JArray (json_of_chat <$> Chats o))].

Definition json_of_messages (o : ListMessagesOutput) : json :=
  JObject [("chat_jid", JString (l_ChatJID o)); ("messages", JArray (json_of_message <$> Messages o))].

Definition json_of_contacts (o : FindContactOutput) : json :=
  JObject [("contacts", JArray (json_of_candidate <$> Contacts o))].
