(* ===== verification/McpServer.v ===== *)
(** * The MCP tools ([internal/mcpserver/server.go])

    Each tool as a function of the principal in the context of its request
    and of its arguments, which the SDK has decoded and checked against the
    schema.  The SDK itself is a parameter of [Server]. *)

From S2P Require Import Prelude GoText GoUnicode GoEff GoTime Scope Models Sql Store.
From S2P Require Import MessageRepo StoreOps Json JsonRoundTrip Http Middleware Sessions TenantApi.
From S2P Require Import History Manager Contacts Media.
From S2P Require ToolTypes.

(** ** Calls and results *)

Record ListChatsInput := { lci_Limit : Z }.
Record ListMessagesInput := { lmi_ChatJID : string; lmi_Limit : Z }.
Record SendMessageInput := { smi_To : string; smi_Body : string }.
Record FindContactInput := { fci_Query : string }.
Record SyncHistoryInput := { shi_ChatJID : string; shi_Count : Z }.
Record GetMediaInput := { gmi_MessageID : string }.

Inductive tool_call :=
  | list_chats (in_ : ListChatsInput)
  | list_messages (in_ : ListMessagesInput)
  | send_message (in_ : SendMessageInput)
  | find_contact (in_ : FindContactInput)
  | sync_history (in_ : SyncHistoryInput)
  | get_media (in_ : GetMediaInput).

(** ** The tools as they are announced ([mcp.Tool]) *)

Record Tool := {
  tl_Name : string;
  tl_Title : string;
  tl_Description : string;
  tl_ReadOnlyHint : bool;
}.

Definition list_chats_tool : Tool :=
  {| tl_Name := "list_chats"; tl_Title := "List chats";
     tl_Description :=
       "List the WhatsApp conversations of the authenticated tenant, most recent activity first. " +:+
       "A group carries the name it shows on WhatsApp; a chat with no name known is identified by its JID alone.";
     tl_ReadOnlyHint := true |}.

Definition list_messages_tool : Tool :=
  {| tl_Name := "list_messages"; tl_Title := "List messages";
     tl_Description :=
       "List the messages of one WhatsApp conversation, newest first. " +:+
       "A message that carried an attachment reports media_type and media_status, so the listing always knows the attachment exists. " +:+
       "It NEVER downloads one: this call stays fast and predictable, and no media leaves WhatsApp's servers because of it. " +:+
       "To get the bytes of an attachment, call get_media with that message's id.";
     tl_ReadOnlyHint := true |}.

Definition send_message_tool : Tool :=
  {| tl_Name := "send_message"; tl_Title := "Send message";
     tl_Description :=
       "Send a WhatsApp text message as the authenticated tenant.";
     tl_ReadOnlyHint := false |}.

Definition find_contact_tool : Tool :=
  {| tl_Name := "find_contact"; tl_Title := "Find contact";
     tl_Description :=
       "Find the WhatsApp JID of a contact by name, business name or phone number, or of a GROUP by the name it shows on WhatsApp. " +:+
       "This is the first step when the user names a person rather than a JID: search here, then read the conversation with list_messages. " +:+
       "Each candidate reports has_messages; when it is false, or the stored conversation turns out to be too short to answer the question, " +:+
       "call sync_history for that JID to pull older messages and then read it again.";
     tl_ReadOnlyHint := true |}.

Definition sync_history_tool : Tool :=
  {| tl_Name := "sync_history"; tl_Title := "Sync chat history";
     tl_Description :=
       "Ask the user's phone for older messages of one conversation, then store them. " +:+
       "Use it when list_messages returns nothing, or too little to answer the question, after find_contact gave you the chat JID; " +:+
       "call list_messages again afterwards to read what arrived. " +:+
       "The chat MUST already have at least one stored message to anchor the request on: WhatsApp only returns the messages immediately " +:+
       "before a message it can identify, so a conversation the gateway has never seen cannot be backfilled and must first appear in a " +:+
       "pushed history sync or receive a message. " +:+
       "The call waits for the phone to answer and may take a few seconds; repeat it to walk further back while more_available is true.";
     tl_ReadOnlyHint := false |}.

Definition get_media_tool : Tool :=
  {| tl_Name := "get_media"; tl_Title := "Get media";
     tl_Description :=
       "Download the attachment of one WhatsApp message and return the local file path. " +:+
       "Use it after list_messages showed a message with a media_type. " +:+
       "The gateway stores only a reference to media when a message arrives, never the file, so this is what actually fetches the bytes; " +:+
       "the first call downloads and the later ones return the same file without touching the network. " +:+
       "Media that WhatsApp has already expired cannot be recovered by anyone: the call then says the media is unavailable, " +:+
       "which is a final answer and not worth retrying. " +:+
       "Voice notes have media_type ptt. Stickers and gifs are not downloaded by default.";
     tl_ReadOnlyHint := false |}.

(** What [New] registers, in order. *)
Definition registered : list Tool :=
  [list_chats_tool; list_messages_tool; send_message_tool; find_contact_tool; sync_history_tool;
   get_media_tool].

(** The announced tool a call is for. *)
Definition tool_of (c : tool_call) : Tool :=
  match c with
  | list_chats _ => list_chats_tool
  | list_messages _ => list_messages_tool
  | send_message _ => send_message_tool
  | find_contact _ => find_contact_tool
  | sync_history _ => sync_history_tool
  | get_media _ => get_media_tool
  end.

(** A tool fails in its output, for the model to read, never as a protocol
    error. *)
Inductive tool_result :=
  | toolError (message : string)
  | Output (out : json).

(** [requireScope]: the principal, or the error. *)
Definition requireScope (who : option Principal) (required : string) : Principal + tool_result :=
  match who with
  | Some principal =>
      if decide (p_TenantID principal = "")
      then inr (toolError "not authenticated: a tenant api key is required")
      else if negb (Principal_HasScope principal required)
      then inr (toolError ("missing required scope: " +:+ required))
      else inl principal
  | None => inr (toolError "not authenticated: a tenant api key is required")
  end.

(** ** Errors a model can act on *)

Definition describeSendError (err : error) : string :=
  if errors_Is err ErrNotPaired
  then "this tenant has no paired WhatsApp session; pair a number first"
  else if errors_Is err ErrInvalidJID
  then "the destination is not a valid WhatsApp JID or phone number"
  else if errors_Is err ErrUnknownTenant then "no WhatsApp session exists for this tenant"
  else "could not send the message".

Definition describeSyncError (err : error) : string :=
  if errors_Is err ErrNoAnchorMessage
  then "this chat has no stored message to anchor a history request on; it must appear in a pushed history sync or receive a message before it can be backfilled"
  else if errors_Is err ErrSyncInProgress
  then "a history sync for this chat is already running; wait for it to finish before asking again"
  else if errors_Is err ErrSyncTimeout
  then "the phone did not answer the history request in time; it may still arrive, so read the chat again shortly"
  else if errors_Is err ErrNotPaired
  then "this tenant has no paired WhatsApp session; pair a number first"
  else if errors_Is err ErrInvalidJID then "the chat is not a valid WhatsApp JID"
  else if errors_Is err ErrUnknownTenant then "no WhatsApp session exists for this tenant"
  else "could not sync the chat history".

Definition describeMediaError (err : error) : string :=
  if errors_Is err ErrMediaUnavailable
  then "WhatsApp no longer has this media; it has expired and cannot be downloaded by anyone, so do not retry"
  else if errors_Is err ErrMediaTooLarge
  then "this attachment is too large for the gateway to download"
  else if errors_Is err ErrMediaTypeNotAllowed
  then "the gateway does not download this media type; stickers and gifs are skipped by default"
  else if errors_Is err ErrNoMedia then "this message carries no downloadable media"
  else if errors_Is err ErrUnknownMessage
  then "no message with that id exists for this tenant; take the id from list_messages"
  else if errors_Is err ErrNotPaired
  then "this tenant has no paired WhatsApp session; pair a number first"
  else if errors_Is err ErrUnknownTenant then "no WhatsApp session exists for this tenant"
  else "could not download the media".

(** ** What the tools show *)

Definition formatTime (t : Z) : string := FormatRFC3339 t.

Definition tool_chat (c : Chat) : ToolTypes.Chat :=
  {| ToolTypes.ChatJID := c_ChatJID c;
     ToolTypes.Name := c_Name c;
     ToolTypes.LastMessageAt := formatTime (c_LastMessageAt c);
     ToolTypes.LastMessageBody := c_LastMessageBody c;
     ToolTypes.LastDirection := c_LastDirection c;
     ToolTypes.MessageCount := Z.of_nat (c_MessageCount c) |}.

(** A status without a file behind it is not an attachment one can read. *)
Definition tool_message (m : Message) : ToolTypes.Message :=
  {| ToolTypes.ID := m_ID m;
     ToolTypes.m_ChatJID := m_ChatJID m;
     ToolTypes.SenderJID := m_SenderJID m;
     ToolTypes.m_WAMessageID := m_WAMessageID m;
     ToolTypes.Direction := m_Direction m;
     ToolTypes.Body := m_Body m;
     ToolTypes.m_MediaType := default "" (m_MediaType m);
     ToolTypes.m_MimeType := default "" (m_MimeType m);
     ToolTypes.MediaStatus := default "" (m_MediaStatus m);
     ToolTypes.MediaAvailable :=
       match m_MediaStatus m with
       | Some status => bool_decide (is_Some (m_MediaPath m)) &&
                        bool_decide (status = MediaAvailable)
       | None => false
       end;
     ToolTypes.Timestamp := formatTime (m_Timestamp m) |}.

Definition tool_sent (sent : SentMessage) : ToolTypes.SendMessageOutput :=
  {| ToolTypes.WAMessageID := sm_WAMessageID sent; ToolTypes.To := sm_ChatJID sent |}.

Definition tool_contact (c : Contact) : ToolTypes.ContactCandidate :=
  {| ToolTypes.JID := ct_JID c; ToolTypes.c_Name := ct_Name c; ToolTypes.HasMessages := ct_HasMessages c |}.

Definition tool_sync (res : SyncResult) : ToolTypes.SyncHistoryOutput :=
  {| ToolTypes.s_ChatJID := sr_ChatJID res;
     ToolTypes.Inserted := Z.of_nat (sr_Inserted res);
     ToolTypes.OldestTimestamp := formatTime (sr_OldestTimestamp res);
     ToolTypes.MoreAvailable := sr_MoreAvailable res |}.

Definition tool_media (ref : MediaRef) : ToolTypes.GetMediaOutput :=
  {| ToolTypes.MessageID := mr_MessageID ref;
     ToolTypes.Path := mr_Path ref;
     ToolTypes.MimeType := mr_MimeType ref;
     ToolTypes.MediaType := mr_MediaType ref;
     ToolTypes.Status := mr_Status ref;
     ToolTypes.SizeBytes := mr_SizeBytes ref |}.

(** ** The tools *)

Section tools.
Context `{Unicode} `{Oracle} {St : Type} `{ServerState St} `{SessionManager St}.

(** Every tool checks its own scope first: authentication alone authorises
    nothing. *)
Definition with_scope (who : option Principal) (required : string)
    (tool : Principal → eff St tool_result) : eff St tool_result :=
  match requireScope who required with
  | inr refused => ret refused
  | inl principal => tool principal
  end.

Definition run_list_chats (who : option Principal) (in_ : ListChatsInput) : eff St tool_result :=
  with_scope who ScopeMessagesRead (λ principal,
    let! chats := on_store (ListChats (p_TenantID principal) (lci_Limit in_)) in
    ret (match chats with
         | Err _ => toolError "could not list chats"
         | Ok chats => Output (ToolTypes.json_of_chats {| ToolTypes.Chats := tool_chat <$> chats |})
         end))%go.

Definition run_list_messages (who : option Principal) (in_ : ListMessagesInput)
    : eff St tool_result :=
  with_scope who ScopeMessagesRead (λ principal,
    if decide (lmi_ChatJID in_ = "") then ret (toolError "chat_jid is required")
    else
      let! messages :=
        on_store (ListByChat (p_TenantID principal) (lmi_ChatJID in_) (lmi_Limit in_)) in
      ret (match messages with
           | Err _ => toolError "could not list messages"
           | Ok messages =>
               Output (ToolTypes.json_of_messages
                 {| ToolTypes.l_ChatJID := lmi_ChatJID in_; ToolTypes.Messages := tool_message <$> messages |})
           end))%go.

Definition run_send_message (who : option Principal) (in_ : SendMessageInput) : eff St tool_result :=
  with_scope who ScopeMessagesSend (λ principal,
    if decide (smi_To in_ = "") then ret (toolError "to is required")
    else if decide (smi_Body in_ = "") then ret (toolError "body is required")
    else
      let! sent := sessions_SendText (p_TenantID principal) (smi_To in_) (smi_Body in_) in
      match sent with
      | Err e => ret (toolError (describeSendError e))
      | Ok sent =>
          let! _ := record_outbound (p_TenantID principal) sent (smi_Body in_) in
          ret (Output (ToolTypes.json_of_sent (tool_sent sent)))
      end)%go.

Definition run_find_contact (who : option Principal) (in_ : FindContactInput) : eff St tool_result :=
  with_scope who ScopeMessagesRead (λ principal,
    if decide (fci_Query in_ = "") then ret (toolError "query is required")
    else
      let! contacts := sessions_FindContacts (p_TenantID principal) (fci_Query in_) in
      ret (match contacts with
           | Err e => toolError (describeSyncError e)
           | Ok contacts => Output (ToolTypes.json_of_contacts {| ToolTypes.Contacts := tool_contact <$> contacts |})
           end))%go.

Definition run_sync_history (who : option Principal) (in_ : SyncHistoryInput)
    : eff St tool_result :=
  with_scope who ScopeMessagesRead (λ principal,
    if decide (shi_ChatJID in_ = "") then ret (toolError "chat_jid is required")
    else
      let! res := sessions_SyncHistory (p_TenantID principal) (shi_ChatJID in_)
                    (NormalizeSyncCount (shi_Count in_)) in
      ret (match res with
           | Err e => toolError (describeSyncError e)
           | Ok res => Output (ToolTypes.json_of_sync (tool_sync res))
           end))%go.

Definition run_get_media (who : option Principal) (in_ : GetMediaInput) : eff St tool_result :=
  with_scope who ScopeMediaRead (λ principal,
    if decide (TrimSpace (gmi_MessageID in_) = "") then ret (toolError "message_id is required")
    else
      let! fetched := sessions_FetchMedia (p_TenantID principal) (gmi_MessageID in_) in
      ret (match fetched.2 with
           | Some e => toolError (describeMediaError e)
           | None => Output (ToolTypes.json_of_media (tool_media fetched.1))
           end))%go.

(** The tools [New] registers. *)
Definition run_tool (who : option Principal) (c : tool_call) : eff St tool_result :=
  match c with
  | list_chats in_ => run_list_chats who in_
  | list_messages in_ => run_list_messages who in_
  | send_message in_ => run_send_message who in_
  | find_contact in_ => run_find_contact who in_
  | sync_history in_ => run_sync_history who in_
  | get_media in_ => run_get_media who in_
  end.
End tools.

(** ** What the tools may do *)

(** The permission a tool asks for. *)
Definition tool_scope (c : tool_call) : string :=
  match c with
  | send_message _ => ScopeMessagesSend
  | get_media _ => ScopeMediaRead
  | _ => ScopeMessagesRead
  end.

Section acting.
Context `{Unicode} `{Oracle} `{ServerLaws St}.

Ltac tool_here :=
  repeat match goal with
  | |- evolves _ (bind _ _) => apply evolves_bind; [apply _| |intros ?]
  | |- evolves _ (ret _) => refine (evolves_ret _ _)
  | |- evolves _ (match ?x with _ => _ end) => destruct x
  | |- evolves _ (record_outbound _ _ _) => apply record_outbound_touches
  | |- evolves _ (on_store _) =>
      apply store_same_touches; solve [eauto using MessageQueries.ListByChat_same,
                                         MessageQueries.ListChats_same]
  | |- evolves _ _ =>
      apply serves_touches;
      first [apply SendText_law|apply SyncHistory_law|apply FindContacts_law|apply FetchMedia_law]
  end.

Lemma requireScope_inl p q required : requireScope (Some p) required = inl q → q = p.
Proof. unfold requireScope. case_decide; [done|]. destruct (negb _); congruence. Qed.

Lemma with_scope_evolves R p required tool :
  PreOrder R → evolves R (tool p) → evolves R (with_scope (St := St) (Some p) required tool).
Proof.
  intros HR Ht. unfold with_scope. destruct (requireScope _ _) as [q|refused] eqn:E.
  - by apply requireScope_inl in E as ->.
  - refine (evolves_ret _ _).
Qed.

Lemma run_tool_touches p c :
  evolves (in_store (touches (p_TenantID p))) (run_tool (Some p) c).
Proof.
  unfold run_tool, run_list_chats, run_list_messages, run_send_message, run_find_contact,
    run_sync_history, run_get_media.
  destruct c; (apply with_scope_evolves; [apply _|]); tool_here.
Qed.

Lemma run_tool_nobody c :
  run_tool (St := St) None c = ret (toolError "not authenticated: a tenant api key is required").
Proof. by destruct c. Qed.

Lemma with_scope_granted p required :
  p_TenantID p ≠ "" → HasScope (p_Scopes p) required = true →
  with_scope (St := St) (Some p) required = λ tool, tool p.
Proof.
  intros Ht Hs. unfold with_scope, requireScope, Principal_HasScope. by rewrite decide_False, Hs by done.
Qed.

(** C11: no tool does anything for a caller without its permission.  Unless the
    request carries a tenant's principal that holds the scope of the tool, the
    tool says so, reads nothing and changes nothing: sending takes
    [messages:send], downloading takes [media:read], and a key that may only
    read can do neither. *)
Theorem tool_needs_its_scope who c n s :
  (∃ p, who = Some p ∧ p_TenantID p ≠ "" ∧ HasScope (p_Scopes p) (tool_scope c) = true) ∨
  (∃ message, run_tool who c n s = (toolError message, n, s) ∧
     ∀ n' s', run_tool who c n' s' = (toolError message, n', s')).
Proof.
  assert (E : ∃ tool, ∀ n s, run_tool who c n s = with_scope who (tool_scope c) tool n s)
    by (destruct c; by eexists).
  destruct E as [tool E]. setoid_rewrite E. unfold with_scope, requireScope, Principal_HasScope.
  destruct who as [p|]; [|right; by eexists].
  case_decide as Ht; [right; by eexists|].
  destruct (HasScope (p_Scopes p) (tool_scope c)) eqn:Hs; simpl; [left; by exists p|].
  right. by eexists.
Qed.

(** ** The tools and the routes agree *)

(** A request to send, as a client writes it. *)
Definition asks_to_send (r : request) (to text : string) : Prop :=
  valid to ∧ valid text ∧ r_Body r = encode (send_json to text) ∧
  (Z.of_nat (String.length (r_Body r)) ≤ maxRequestBody)%Z.

Lemma tool_media_available m :
  (match m_MediaStatus m with
   | Some status => bool_decide (is_Some (m_MediaPath m)) && bool_decide (status = MediaAvailable)
   | None => false
   end) = media_available m.
Proof.
  unfold media_available, derefStatus. destruct (m_MediaStatus m); simpl; [done|].
  by rewrite andb_false_r.
Qed.

(** One send, whoever asks for it: the call of the engine and, when the message
    left, the row of it. *)
Definition one_send (tid to text : string) : eff St (result SentMessage) :=
  (let! sent := sessions_SendText tid to text in
   match sent with
   | Err e => ret (Err e)
   | Ok sent => let! _ := record_outbound tid sent text in ret (Ok sent)
   end)%go.

(** How the tool and the route tell its outcome. *)
Definition told (res : result SentMessage) : tool_result :=
  match res with
  | Ok sent => Output (ToolTypes.json_of_sent (tool_sent sent))
  | Err e => toolError (describeSendError e)
  end.

Definition posted (res : result SentMessage) : payload_response :=
  match res with Ok sent => writeJSON 201 (sent_json sent) | Err e => wa_failure e end.

(** A run with its answer told differently. *)
Definition answering_with {A B} (f : A → B) (run : A * nat * St) : B * nat * St :=
  let '(a, n, s) := run in (f a, n, s).

Lemma tool_is_one_send p to text n s :
  p_TenantID p ≠ "" → HasScope (p_Scopes p) ScopeMessagesSend = true → to ≠ "" → text ≠ "" →
  run_tool (Some p) (send_message {| smi_To := to; smi_Body := text |}) n s =
  answering_with told (one_send (p_TenantID p) to text n s).
Proof.
  intros Ht Hs Hto Htext. unfold run_tool, run_send_message.
  rewrite (with_scope_granted p _ Ht Hs). cbn [smi_To smi_Body]. rewrite !decide_False by done.
  unfold one_send, bind, ret. destruct (sessions_SendText _ _ _ n s) as [[[sent|e] n1] s1]; [|done].
  by destruct (record_outbound _ _ _ n1 s1) as [[u n2] s2].
Qed.

Lemma route_is_one_send p r to text n s :
  r_Principal r = Some p → asks_to_send r to text → TrimSpace to ≠ "" → TrimSpace text ≠ "" →
  handleSendMessage r n s =
  answering_with posted (one_send (p_TenantID p) (TrimSpace to) (TrimSpace text) n s).
Proof.
  intros Hp (Hvto & Hvtext & Hbody & Hsize) Hto Htext.
  unfold handleSendMessage, as_principal, PrincipalFrom.
  rewrite Hp, (send_body_encode r to text) by done. cbn [q_To q_Body]. rewrite !decide_False by done.
  unfold one_send, bind, ret. destruct (sessions_SendText _ _ _ n s) as [[[sent|e] n1] s1]; [|done].
  by destruct (record_outbound _ _ _ n1 s1) as [[u n2] s2].
Qed.

(** What a failed send says, by its cause: the tool in words, the route by its
    status. *)
Definition send_failure (c : option sentinel) : string * Z :=
  match c with
  | Some ErrNotPaired => ("this tenant has no paired WhatsApp session; pair a number first", 409%Z)
  | Some ErrInvalidJID => ("the destination is not a valid WhatsApp JID or phone number", 400%Z)
  | Some ErrUnknownTenant => ("no WhatsApp session exists for this tenant", 404%Z)
  | Some ErrNotFound => ("could not send the message", 404%Z)
  | Some (ErrNoAnchorMessage | ErrSyncInProgress) => ("could not send the message", 409%Z)
  | Some ErrSyncTimeout => ("could not send the message", 504%Z)
  | _ => ("could not send the message", 500%Z)
  end.

(** C30: the two ways in are one gateway.  Sending through the tool and sending
    through the route are the same call of the engine followed by the same
    attempt to store its row: what the engine reports is told by both, a
    message that left as its id and address, a failure by its cause.  The route
    trims what it is given and refuses what is blank; the tool refuses only
    what is empty and passes the rest on as it is, so they agree on what is
    trimmed already.  Listing a conversation through either answers the same
    rows of the same tenant, and both report an attachment as downloaded for
    the same rows. *)
Theorem tools_match_routes p r n s :
  r_Principal r = Some p → p_TenantID p ≠ "" →
  (∀ to text, HasScope (p_Scopes p) ScopeMessagesSend = true → asks_to_send r to text →
     let tool to text := run_tool (Some p) (send_message {| smi_To := to; smi_Body := text |}) n s in
     let route := handleSendMessage r n s in
     (TrimSpace to ≠ "" → TrimSpace text ≠ "" →
        ∃ res n' s', tool (TrimSpace to) (TrimSpace text) = (told res, n', s') ∧
          route = (posted res, n', s') ∧
          one_send (p_TenantID p) (TrimSpace to) (TrimSpace text) n s = (res, n', s')) ∧
     (TrimSpace to = "" ∨ TrimSpace text = "" → ∃ message, route = (InvalidRequest message, n, s)) ∧
     (to ≠ "" → text ≠ "" → tool to text = answering_with told (one_send (p_TenantID p) to text n s)) ∧
     (to = "" ∨ text = "" → ∃ message, tool to text = (toolError message, n, s))) ∧
  (∀ e, describeSendError e = (send_failure (cause e)).1 ∧
        status (wa_failure e) = (send_failure (cause e)).2) ∧
  (∀ chatJID, HasScope (p_Scopes p) ScopeMessagesRead = true →
     chatJID ≠ "" → TrimSpace chatJID = chatJID → PathValue r "jid" = chatJID →
     match answer (on_store (ListByChat (p_TenantID p) chatJID (queryLimit r))) n s with
     | Ok rows =>
         answer (run_tool (Some p) (list_messages
           {| lmi_ChatJID := chatJID; lmi_Limit := queryLimit r |})) n s =
           Output (ToolTypes.json_of_messages
             {| ToolTypes.l_ChatJID := chatJID; ToolTypes.Messages := tool_message <$> rows |}) ∧
         answer (handleListChatMessages r) n s =
           writeJSON 200 (JObject [("chat_jid", JString chatJID); ("messages", JArray (messageView <$> rows))])
     | Err _ =>
         answer (run_tool (Some p) (list_messages
           {| lmi_ChatJID := chatJID; lmi_Limit := queryLimit r |})) n s =
           toolError "could not list messages" ∧
         answer (handleListChatMessages r) n s = Internal
     end) ∧
  ∀ m, member (ToolTypes.json_of_message (tool_message m)) "media_available" = Some (JBool (media_available m)) ∧
       member (messageView m) "media_available" = Some (JBool (media_available m)).
Proof.
  intros Hp Ht. split_and!.
  - intros to text Hs Hask tool route. split_and!.
    + intros Hto Htext.
      destruct (one_send (p_TenantID p) (TrimSpace to) (TrimSpace text) n s) as [[res n'] s'] eqn:E.
      exists res, n', s'. unfold tool, route.
      by rewrite tool_is_one_send, (route_is_one_send p r to text), E by done.
    + intros Hblank. destruct Hask as (Hvto & Hvtext & Hbody & Hsize).
      unfold route, handleSendMessage, as_principal, PrincipalFrom.
      rewrite Hp, (send_body_encode r to text) by done. cbn [q_To q_Body].
      destruct (decide (TrimSpace to = "")); [by eexists|].
      destruct Hblank as [|Hb]; [done|]. rewrite (decide_True _ _ Hb). by eexists.
    + intros Hto Htext. by apply tool_is_one_send.
    + intros Hblank. unfold tool, run_tool, run_send_message. rewrite (with_scope_granted p _ Ht Hs).
      cbn [smi_To smi_Body]. destruct (decide (to = "")); [by eexists|].
      destruct Hblank as [|Hb]; [done|]. rewrite (decide_True _ _ Hb). by eexists.
  - intros e. unfold describeSendError, wa_failure, writeWAError. rewrite !errors_Is_cause.
    by destruct (cause e) as [[]|].
  - intros chatJID Hs Hne Htrim Hpath.
    unfold run_tool, run_list_messages. rewrite (with_scope_granted p _ Ht Hs).
    unfold handleListChatMessages, as_principal, PrincipalFrom. rewrite Hp, Hpath, Htrim.
    rewrite !decide_False by done. rewrite !bind_answer.
    by destruct (answer (on_store _) n s).
  - intros m. unfold tool_message, messageView. rewrite tool_media_available.
    generalize (media_available m) JTime JInt. intros b time int.
    unfold member, ToolTypes.json_of_message, omit_empty, omit_nil. split.
    + repeat case_decide; reflexivity.
    + by destruct (m_MediaType m), (m_FileLength m), (m_MimeType m), (m_MediaStatus m),
        (m_MediaFetchedAt m).
Qed.
End acting.
