(* ===== verification/Routing.v ===== *)
(** * The routes ([Server.routes] of [internal/httpapi/server.go])

    The table of patterns, and what [http.ServeMux] does with a request before
    a handler sees it: a path that is not clean is redirected, a clean one is
    decoded segment by segment and matched, and what matches nothing is
    answered 404 or 405. *)

From S2P Require Import Prelude GoText GoUnicode GoEff Sql MediaPath Json Http.

(** ** The routing table *)

Inductive segment := Lit (s : string) | Wild (name : string).

Inductive endpoint :=
  | EHealthz | ECreateTenant | EIssueKey | ERevokeKey | EStartPairing
  | EGetSession | ESendMessage | EListChats | EListChatMessages | ESyncChatHistory
  | EFindContacts | EGetMessageMedia | EMcp.

#[export] Instance segment_eq_dec : EqDecision segment.
Proof. solve_decision. Defined.
#[export] Instance endpoint_eq_dec : EqDecision endpoint.
Proof. solve_decision. Defined.

(** A pattern: its method, none for all of them, its path and its handler. *)
Definition patterns : list (option string * list segment * endpoint) :=
  [(Some "GET", [Lit "healthz"], EHealthz);
   (Some "POST", [Lit "v1"; Lit "tenants"], ECreateTenant);
   (Some "POST", [Lit "v1"; Lit "tenants"; Wild "id"; Lit "keys"], EIssueKey);
   (Some "DELETE", [Lit "v1"; Lit "tenants"; Wild "id"; Lit "keys"; Wild "keyID"], ERevokeKey);
   (Some "POST", [Lit "v1"; Lit "tenants"; Wild "id"; Lit "sessions"; Lit "pair"], EStartPairing);
   (Some "GET", [Lit "v1"; Lit "sessions"], EGetSession);
   (Some "POST", [Lit "v1"; Lit "messages"], ESendMessage);
   (Some "GET", [Lit "v1"; Lit "chats"], EListChats);
   (Some "GET", [Lit "v1"; Lit "chats"; Wild "jid"; Lit "messages"], EListChatMessages);
   (Some "POST", [Lit "v1"; Lit "chats"; Wild "jid"; Lit "sync"], ESyncChatHistory);
   (Some "GET", [Lit "v1"; Lit "contacts"], EFindContacts);
   (Some "GET", [Lit "v1"; Lit "messages"; Wild "id"; Lit "media"], EGetMessageMedia);
   (None, [Lit "mcp"], EMcp)].

(** The wildcards of a path that matches.  [ServeMux] decodes a segment before
    it compares, so [%2F] is not matched by a wildcard either. *)
Fixpoint match_path (pattern : list segment) (path : list string) : option (gmap string string) :=
  match pattern, path with
  | [], [] => Some ∅
  | Lit l :: pattern, s :: path => if decide (l = s) then match_path pattern path else None
  | Wild name :: pattern, s :: path =>
      if decide (s = "/") then None else <[name := s]> <$> match_path pattern path
  | _, _ => None
  end.

(** The segments of an escaped path, each decoded; one that is escaped wrongly is
    taken as it is, and a trailing slash is the segment [/]. *)
Definition pathUnescape (s : string) : string := default s (PathUnescape s).

Fixpoint decoded (raw : list string) : list string :=
  match raw with
  | [] => []
  | [s] => [if decide (s = "") then "/" else pathUnescape s]
  | s :: raw => pathUnescape s :: decoded raw
  end.

Definition path_segments (path : string) : list string :=
  match path with
  | EmptyString => []
  | String _ path => decoded (split_on "/" path)
  end.

(** A pattern for [GET] also serves [HEAD]. *)
Definition method_matches (pattern : option string) (method : string) : bool :=
  match pattern with
  | None => true
  | Some m => bool_decide (m = method) || (bool_decide (m = "GET") && bool_decide (method = "HEAD"))
  end.

Definition find_route (r : request) : option (endpoint * gmap string string) :=
  head (omap (λ p, let '(m, path, e) := p in
                   if method_matches m (r_Method r)
                   then (λ values, (e, values)) <$> match_path path (path_segments (r_Path r))
                   else None) patterns).

(** The methods that would match the path. *)
Definition allowed_methods (r : request) : list string :=
  let methods := omap (λ p, let '(m, path, _) := p in
                            match match_path path (path_segments (r_Path r)) with
                            | Some _ => m
                            | None => None
                            end)
                   patterns in
  merge_sort text_le (if decide ("GET" ∈ methods) then "HEAD" :: methods else methods).

(** ** The router's own answers *)

Definition text_header : gmap string string :=
  {["Content-Type" := "text/plain; charset=utf-8"; "X-Content-Type-Options" := "nosniff"]}.

Definition mux_error (r : request) : response json :=
  match allowed_methods r with
  | [] => Response 404 text_header (TextBody "404 page not found")
  | methods => Response 405 (<["Allow" := String.concat ", " methods]> text_header)
                 (TextBody "Method Not Allowed")
  end.

(** [cleanPath] of [net/http] *)
Definition cleanPath (p : string) : string :=
  if decide (p = "") then "/"
  else
    let p := if is_rooted p then p else "/" +:+ p in
    let np := Clean p in
    if decide (is_Some (strip_suffix "/" p) ∧ np ≠ "/") then np +:+ "/" else np.

(** The redirect from a path that is not clean to the clean one.  Its status
    and its text differ between versions of Go. *)
Class Redirects := { redirect : request → response json }.

Class RedirectLaws `{Redirects} := {
  redirect_status : ∀ r, (300 ≤ status (redirect r) < 400)%Z;
  redirect_text : ∀ r, ∃ text, content (redirect r) = TextBody text;
}.

(** [ServeMux.ServeHTTP]: the handler and the wildcards, or an answer of its
    own.  A request in asterisk form ([GET *]) is refused. *)
Definition mux `{Redirects} (r : request) : (endpoint * gmap string string) + response json :=
  if decide (r_Path r = "*") then inr (Response 400 ∅ NoBody)
  else if decide (r_Method r ≠ "CONNECT" ∧ cleanPath (r_Path r) ≠ r_Path r) then inr (redirect r)
  else match find_route r with
       | Some routed => inl routed
       | None => inr (mux_error r)
       end.

(** ** The API as it is documented

    The table of endpoints of the README: a call, its method, the segments of
    its path and the credential it asks for; and the handler that serves it,
    with the arguments it reads from the path. *)
Inductive api_call :=
  | GetHealthz
  | PostTenants
  | PostKeys (tenant : string)
  | DeleteKey (tenant key : string)
  | PostPair (tenant : string)
  | GetSessions
  | PostMessages
  | GetChats
  | GetChatMessages (jid : string)
  | PostChatSync (jid : string)
  | GetContacts
  | GetMedia (message : string)
  | PostMcp.

Inductive credential := Public | Admin | Scope (required : string) | TenantKey.

Record documented := {
  d_Method : string;
  d_Path : list string;
  d_Credential : credential;
  d_Endpoint : endpoint;
  d_Values : list (string * string);
}.

Definition documentation (c : api_call) : documented :=
  match c with
  | GetHealthz => Build_documented "GET" ["healthz"] Public EHealthz []
  | PostTenants => Build_documented "POST" ["v1"; "tenants"] Admin ECreateTenant []
  | PostKeys t =>
      Build_documented "POST" ["v1"; "tenants"; t; "keys"] Admin EIssueKey [("id", t)]
  | DeleteKey t k =>
      Build_documented "DELETE" ["v1"; "tenants"; t; "keys"; k] Admin ERevokeKey
        [("id", t); ("keyID", k)]
  | PostPair t =>
      Build_documented "POST" ["v1"; "tenants"; t; "sessions"; "pair"] Admin EStartPairing
        [("id", t)]
  | GetSessions => Build_documented "GET" ["v1"; "sessions"] (Scope "sessions:read") EGetSession []
  | PostMessages =>
      Build_documented "POST" ["v1"; "messages"] (Scope "messages:send") ESendMessage []
  | GetChats => Build_documented "GET" ["v1"; "chats"] (Scope "messages:read") EListChats []
  | GetChatMessages jid =>
      Build_documented "GET" ["v1"; "chats"; jid; "messages"] (Scope "messages:read")
        EListChatMessages [("jid", jid)]
  | PostChatSync jid =>
      Build_documented "POST" ["v1"; "chats"; jid; "sync"] (Scope "messages:read")
        ESyncChatHistory [("jid", jid)]
  | GetContacts =>
      Build_documented "GET" ["v1"; "contacts"] (Scope "messages:read") EFindContacts []
  | GetMedia id =>
      Build_documented "GET" ["v1"; "messages"; id; "media"] (Scope "media:read")
        EGetMessageMedia [("id", id)]
  | PostMcp => Build_documented "POST" ["mcp"] TenantKey EMcp []
  end.

(** What a client puts into a request line. *)
Fixpoint path_of (l : list string) : string :=
  match l with
  | [] => ""
  | s :: l => String "/" (PathEscape s +:+ path_of l)
  end.

(** An argument that a path can carry: not empty, no dot segment, not [/]. *)
Definition carried (s : string) : Prop := s ∉ [""; "."; ".."; "/"].

#[export] Instance carried_dec s : Decision (carried s).
Proof. unfold carried. apply _. Defined.

Definition asks (c : api_call) (r : request) : Prop :=
  r_Method r = d_Method (documentation c) ∧ r_Path r = path_of (d_Path (documentation c)) ∧
  Forall carried (d_Path (documentation c)).

(** ** The patterns never compete *)

Fixpoint overlap (p q : list segment) : bool :=
  match p, q with
  | [], [] => true
  | Lit a :: p, Lit b :: q => bool_decide (a = b) && overlap p q
  | _ :: p, _ :: q => overlap p q
  | _, _ => false
  end.

Lemma match_overlap p q path v w :
  match_path p path = Some v → match_path q path = Some w → overlap p q = true.
Proof.
  revert q path v w. induction p as [|sp p IH]; intros q path v w.
  { destruct path; [|done]. destruct q as [|sq q]; [done|]. by destruct sq. }
  destruct path as [|c path]; [by destruct sp|].
  destruct q as [|sq q]; [by destruct sp|].
  destruct sp as [a|a], sq as [b|b]; simpl; intros Hp Hq;
    repeat match goal with
    | H : _ <$> _ = Some _ |- _ => apply fmap_Some in H as (? & ? & _)
    | H : (if decide _ then _ else _) = Some _ |- _ => case_decide; try done
    end; subst; rewrite ?bool_decide_eq_true_2 by done; simpl; by eapply IH.
Qed.

Definition methods_overlap (m m' : option string) : bool :=
  match m, m' with
  | Some m, Some m' => bool_decide (m = m')
  | _, _ => true
  end.

Lemma matches_overlap m m' method :
  m ≠ Some "HEAD" → m' ≠ Some "HEAD" →
  method_matches m method = true → method_matches m' method = true → methods_overlap m m' = true.
Proof.
  destruct m as [m|], m' as [m'|]; simpl; try done. intros Hm Hm'.
  rewrite !orb_true_iff, !andb_true_iff, !bool_decide_eq_true. naive_solver.
Qed.

Definition disjoint_table : bool :=
  forallb (λ p, forallb (λ q, bool_decide (p = q) ||
                              negb (methods_overlap p.1.1 q.1.1 && overlap p.1.2 q.1.2)) patterns) patterns.

(** At most one pattern serves a request, so the order of the table is
    irrelevant. *)
Lemma patterns_disjoint p q path method vp vq :
  p ∈ patterns → q ∈ patterns → method_matches p.1.1 method = true →
  method_matches q.1.1 method = true →
  match_path p.1.2 path = Some vp → match_path q.1.2 path = Some vq → p = q.
Proof.
  intros Hp Hq Hmp Hmq Hvp Hvq.
  assert (Htable : disjoint_table = true) by (vm_compute; reflexivity).
  assert (Hhead : Forall (λ p, p.1.1 ≠ Some "HEAD") patterns) by by_decide.
  rewrite Forall_forall in Hhead. unfold disjoint_table in Htable. rewrite forallb_forall in Htable.
  specialize (Htable p (proj1 (list_elem_of_In _ _) Hp)). rewrite forallb_forall in Htable.
  specialize (Htable q (proj1 (list_elem_of_In _ _) Hq)).
  rewrite (matches_overlap _ _ _ (Hhead p Hp) (Hhead q Hq) Hmp Hmq),
    (match_overlap _ _ _ _ _ Hvp Hvq) in Htable.
  by rewrite orb_false_r, bool_decide_eq_true in Htable.
Qed.


(** A pattern that matches is the one that serves. *)
Lemma find_route_in r p v :
  p ∈ patterns → method_matches p.1.1 (r_Method r) = true →
  match_path p.1.2 (path_segments (r_Path r)) = Some v → find_route r = Some (p.2, v).
Proof.
  intros Hp Hm Hv. unfold find_route. set (f := λ p, _).
  assert (Hf : f p = Some (p.2, v)).
  { unfold f. destruct p as [[m path] e]. simpl in *. by rewrite Hm, Hv. }
  assert (Hall : ∀ x, x ∈ omap f patterns → x = (p.2, v)).
  { intros x (q & Hq & Hx)%list_elem_of_omap.
    enough (q = p) as -> by congruence.
    unfold f in Hx. destruct q as [[m path] e]. destruct (method_matches m (r_Method r)) eqn:Hmq; [|done].
    apply fmap_Some in Hx as (w & Hw & _). symmetry. by eapply patterns_disjoint. }
  assert (Hin : (p.2, v) ∈ omap f patterns) by (apply list_elem_of_omap; eauto).
  destruct (omap f patterns) as [|x l]; [by apply elem_of_nil in Hin|].
  simpl. f_equal. apply Hall. by left.
Qed.

(** ** An escaped path arrives as its segments *)

Lemma split_path_of s l :
  split_on "/" (PathEscape s +:+ path_of l) = PathEscape s :: (PathEscape <$> l).
Proof.
  revert s. induction l as [|t l IH]; intros s; simpl.
  - rewrite sapp_nil_r. apply split_on_clean, PathEscape_no_slash.
  - by rewrite split_on_app, IH by apply PathEscape_no_slash.
Qed.

Lemma PathEscape_not_empty s : s ≠ "" → PathEscape s ≠ "".
Proof. intros Hs E. apply Hs, (PathEscape_inj s ""), E. Qed.

Lemma decoded_escaped l : Forall carried l → decoded (PathEscape <$> l) = l.
Proof.
  induction 1 as [|s l Hs Hl IH]; [done|]. simpl.
  assert (Hu : pathUnescape (PathEscape s) = s)
    by (unfold pathUnescape; by rewrite PathUnescape_PathEscape).
  destruct l as [|t l]; simpl in *; [|by rewrite Hu, IH].
  rewrite decide_False; [by rewrite Hu|]. apply PathEscape_not_empty. intros ->. apply Hs. by left.
Qed.

Lemma path_segments_of l : l ≠ [] → Forall carried l → path_segments (path_of l) = l.
Proof.
  destruct l as [|s l]; [done|]. intros _ Hl. simpl.
  rewrite split_path_of. by apply (decoded_escaped (s :: l)).
Qed.

Lemma PathEscape_ordinary s : carried s → ordinary (PathEscape s).
Proof.
  intros Hs. split_and!; [|intros E|intros E|apply PathEscape_no_slash].
  - apply PathEscape_not_empty. intros ->. apply Hs. by left.
  - apply Hs. apply (PathEscape_inj s ".") in E as ->. right. by left.
  - apply Hs. apply (PathEscape_inj s "..") in E as ->. right. right. by left.
Qed.

Lemma path_of_render l : l ≠ [] → path_of l = render true (PathEscape <$> l).
Proof.
  unfold render. induction l as [|s l IH]; [done|]. intros _. simpl in *. do 2 f_equal.
  destruct l as [|t l]; simpl; [apply sapp_nil_r|].
  f_equal.
  assert (E : path_of (t :: l) = "/" +:+ join_with "/" (PathEscape <$> t :: l)) by by apply IH.
  simpl in E. injection E as E. by rewrite E.
Qed.

Lemma cleanPath_of l : l ≠ [] → Forall carried l → cleanPath (path_of l) = path_of l.
Proof.
  intros Hne Hl. unfold cleanPath.
  assert (Hord : Forall ordinary (PathEscape <$> l)).
  { apply Forall_fmap. eapply Forall_impl; [exact Hl|]. apply PathEscape_ordinary. }
  assert (Hc : clean_segs true (PathEscape <$> l)).
  { exists [], (PathEscape <$> l). split_and!; [done|constructor|done|done]. }
  assert (Hclean : Clean (path_of l) = path_of l).
  { rewrite path_of_render by done. unfold Clean.
    by destruct (clean_parts_render true _ Hc) as [-> ->]. }
  assert (Hslash : strip_suffix "/" (path_of l) = None).
  { destruct (strip_suffix _ _) as [t|] eqn:E; [exfalso|done]. apply strip_suffix_spec in E.
    assert (Hs : split_on "/" (path_of l) = "" :: (PathEscape <$> l)).
    { destruct l as [|s l]; [done|]. simpl. by rewrite split_path_of. }
    rewrite E, (split_on_join t "") in Hs. simpl in Hs.
    destruct (exists_last Hne) as (l' & x & ->).
    rewrite fmap_app, (app_comm_cons _ _ "") in Hs. apply app_inj_tail in Hs as [_ Hx].
    apply Forall_app in Hl as [_ [Hx' _]%Forall_cons]. apply (PathEscape_not_empty x); [|done].
    intros ->. apply Hx'. by left. }
  destruct l as [|s l]; [done|]. rewrite decide_False by done. cbv zeta.
  change (is_rooted (path_of (s :: l))) with true. cbv iota. rewrite Hslash.
  rewrite decide_False by (by intros [[? [=]] _]).
  exact Hclean.
Qed.

Ltac find := repeat first [apply list_elem_of_here|apply list_elem_of_further].

(** A documented call reaches its handler with its arguments. *)
Lemma asks_routed `{Redirects} c r :
  asks c r → ∃ values, mux r = inl (d_Endpoint (documentation c), values) ∧
    Forall (λ '(name, v), values !! name = Some v) (d_Values (documentation c)).
Proof.
  intros (Hm & Hp & Hc). unfold mux.
  assert (Hne : d_Path (documentation c) ≠ []) by by destruct c.
  rewrite Hp, cleanPath_of by done. rewrite decide_False by (by destruct c).
  rewrite decide_False by naive_solver.
  assert (Hr : ∃ m pat v, (m, pat, d_Endpoint (documentation c)) ∈ patterns ∧
            method_matches m (r_Method r) = true ∧
            match_path pat (d_Path (documentation c)) = Some v ∧
            Forall (λ '(name, x), v !! name = Some x) (d_Values (documentation c))).
  { assert (Hcar : ∀ s, s ∈ d_Path (documentation c) → s ≠ "/").
    { intros s Hs ->. eapply Forall_forall in Hc; [|done]. apply Hc. by_decide. }
    rewrite Hm. destruct c; simpl in *; do 3 eexists;
      (split; [unfold patterns; find|]);
      (split; [reflexivity|]); simpl; rewrite ?(decide_False (P := _ = "/")) by (apply Hcar; find);
      (split; [reflexivity|]); repeat constructor; by simplify_map_eq. }
  destruct Hr as (m & pat & v & Hin & Hmm & Hv & Hvals).
  exists v. split; [|done].
  rewrite (find_route_in r (m, pat, d_Endpoint (documentation c)) v); [done..|].
  by rewrite Hp, path_segments_of.
Qed.
