(* ===== verification/Server.v ===== *)
(** * The HTTP server ([internal/httpapi/server.go])

    The middleware in front of the handler of each route, the rewriting of the
    router's own errors, and the MCP endpoint; the router is [Routing.mux]. *)

From S2P Require Import Prelude GoText GoUnicode GoEff Scope Sha256 Key Models Sql Store StoreOps.
From S2P Require Import Json JsonRoundTrip Http Middleware Sessions Media TenantApi AdminApi McpServer Routing.
From S2P Require ApiKeyRepo.

(** ** Construction ([New]) *)

(** [Config]: of the database and the manager, whether they were given. *)
Record ServerConfig := {
  sc_AdminToken : string;
  sc_DB : bool;
  sc_Sessions : bool;
  sc_DefaultScopes : list string;
  sc_MCPAllowedOrigins : list string;
}.

(** [Server], without the handles it shares with the rest of the process. *)
Record Server := {
  sv_adminToken : string;
  sv_defaultScopes : list string;
  sv_mcpOrigins : list string;
}.

(** [New] *)
Definition New_server `{Unicode} (cfg : ServerConfig) : result Server :=
  if decide (sc_AdminToken cfg = "") then Err (New "httpapi: admin token is required")
  else if negb (sc_DB cfg) then Err (New "httpapi: database is required")
  else if negb (sc_Sessions cfg) then Err (New "httpapi: session manager is required")
  else
    let defaultScopes := if decide (sc_DefaultScopes cfg = []) then [ScopeMessagesSend]
                         else sc_DefaultScopes cfg in
    match ValidateScopes defaultScopes with
    | Err e => Err e
    | Ok _ => Ok {| sv_adminToken := sc_AdminToken cfg; sv_defaultScopes := defaultScopes;
                    sv_mcpOrigins := sc_MCPAllowedOrigins cfg |}
    end.

(** ** The rewriting of the router's own errors *)

(** [errorRewriter.WriteHeader] and [Write] *)
Definition errorRewriter (resp : response json) : response json :=
  if decide (headers resp !! "Content-Type" = Some "application/json") then resp
  else
    let rewritten code message :=
      Response (status resp) (<["Content-Type" := "application/json"]> (headers resp))
        (ErrorBody code message) in
    if decide (status resp = 404%Z) then rewritten CodeNotFound "no such endpoint"
    else if decide (status resp = 405%Z)
    then rewritten CodeInvalidRequest "method not allowed for this endpoint"
    else resp.

(** ** The MCP endpoint

    The SDK's Streamable HTTP handler, in stateless mode: what it does to the
    gateway it does through the tools, which see the context of the very
    request it is serving. *)
Class McpTransport (St : Type) := {
  serve_mcp : (tool_call → eff St tool_result) → handler St json;
}.

Class McpTransportLaws (St : Type) `{McpTransport St} := {
  serve_mcp_tools : ∀ (R : relation St) `{!PreOrder R} tools r,
    (∀ c, evolves R (tools c)) → evolves R (serve_mcp tools r);
}.

Section server.
Context `{Unicode} `{Oracle} `{ErrorTexts} {St : Type}.
Context `{ServerState St} `{SessionManager St} `{McpTransport St} `{!Redirects}.
Context (adminToken : string) (defaultScopes allowedOrigins : list string).

Definition handleHealthz : handler St json := λ _,
  ret (writeJSON 200 (JObject [("status", JString "ok")])).

Definition mcpHandler : handler St json := λ r, serve_mcp (run_tool (r_Principal r)) r.

Definition route (e : endpoint) : handler St json :=
  match e with
  | EHealthz => handleHealthz
  | ECreateTenant => RequireAdmin adminToken (handleCreateTenant defaultScopes)
  | EIssueKey => RequireAdmin adminToken (handleIssueKey defaultScopes)
  | ERevokeKey => RequireAdmin adminToken handleRevokeKey
  | EStartPairing => RequireAdmin adminToken handleStartPairing
  | EGetSession => RequireScope ScopeSessionsRead handleGetSession
  | ESendMessage => RequireScope ScopeMessagesSend handleSendMessage
  | EListChats => RequireScope ScopeMessagesRead handleListChats
  | EListChatMessages => RequireScope ScopeMessagesRead handleListChatMessages
  | ESyncChatHistory => RequireScope ScopeMessagesRead handleSyncChatHistory
  | EFindContacts => RequireScope ScopeMessagesRead handleFindContacts
  | EGetMessageMedia => RequireScope ScopeMediaRead handleGetMessageMedia
  | EMcp => RequireAllowedOrigin allowedOrigins (RequireTenant mcpHandler)
  end.

Definition routes : handler St json := λ r,
  match mux r with
  | inl (e, values) => route e (with_path_values values r)
  | inr resp => ret resp
  end.

(** [jsonErrors] *)
Definition jsonErrors (next : handler St json) : handler St json := λ r,
  (let! resp := next r in ret (errorRewriter resp))%go.

Definition serve : handler St json := jsonErrors routes.
End server.

(** [Server.Handler] *)
Definition Handler `{Unicode} `{Oracle} `{ErrorTexts} {St : Type} `{ServerState St}
    `{SessionManager St} `{McpTransport St} `{!Redirects} (s : Server) : handler St json :=
  serve (sv_adminToken s) (sv_defaultScopes s) (sv_mcpOrigins s).

(** ** Who a request acts as *)

Section guarded.
Context `{Unicode} `{Oracle} `{ServerLaws St}.

(** The principal of the live key a request presents. *)
Definition authentic (r : request) (s : db) (p : Principal) : Prop :=
  BearerToken r ≠ "" ∧ ∃ id row, api_keys s !! id = Some row ∧
    r_KeyHash row = HashKey (BearerToken r) ∧ r_RevokedAt row = None ∧ p = principal_of row.

(** What a request is answered whose credential does not do. *)
Definition refusal (resp : response json) : Prop :=
  ∃ message, resp = Unauthorized message ∨ resp = Forbidden message ∨ resp = Internal.

Lemma refusal_401 message : refusal (Unauthorized message).
Proof. exists message. by left. Qed.
Lemma refusal_403 message : refusal (Forbidden message).
Proof. exists message. right. by left. Qed.
Lemma refusal_500 : refusal Internal.
Proof. exists "". by right; right. Qed.

Lemma authenticateTenant_acts (r : request) n s who n' s' :
  wf (st_db s) → authenticateTenant (P := json) r n s = (who, n', s') →
  (∃ p, who = inl p ∧ authentic r (st_db s) p ∧ touches (p_TenantID p) (st_db s) (st_db s') ∧
     ApiKeyRepo.but_use (st_db s) (st_db s')) ∨
  (∃ resp, who = inr resp ∧ refusal resp ∧ st_db s' = st_db s).
Proof.
  intros Hwf. unfold authenticateTenant.
  case_decide; [intros [= <- <- <-]; right; eexists; split_and!; [done|apply refusal_401|done]|].
  cbn [ResolveKeyHash MarkKeyUsed server_resolver].
  rewrite (bind_run _ _ _ _ _ _ _ (on_store_run _ _ _)).
  assert (Hdb : st_db (st_set_db (final (resolve (HashKey (BearerToken r))) n (st_db s)) s) = st_db s).
  { rewrite st_get_set. unfold resolve. rewrite bind_final. unfold final at 1, ret. simpl.
    symmetry. apply ApiKeyRepo.GetByHash_reads. }
  destruct (answer (resolve _) n (st_db s)) as [p|e] eqn:E.
  - apply resolve_Ok in E as (id & row & Hrow & Hh & Hl & Hp); [|apply HashKey_not_empty].
    rewrite (bind_run _ _ _ _ _ _ _ (on_store_run _ _ _)).
    unfold ret. intros [= <- <- <-]. left. exists p. rewrite st_get_set, Hdb. split_and!; [done|by split; [|exists id, row]| |apply ApiKeyRepo.MarkUsed_but_use].
    subst p. simpl. destruct (wf_keys _ Hwf _ _ Hrow) as [Hid _]. rewrite Hid.
    apply only_touches; [by apply ApiKeyRepo.MarkUsed_only|apply ApiKeyRepo.MarkUsed_sound].
  - destruct (errors_Is e ErrKeyNotFound); unfold ret; intros [= <- <- <-]; right; eexists;
      (split_and!; [done| |done]); [apply refusal_401|apply refusal_500].
Qed.

(** A live key lets its request through when the store answers. *)
Lemma authenticateTenant_admits (r : request) n s p :
  wf (st_db s) → answering → authentic r (st_db s) p →
  ∃ n' s', authenticateTenant (P := json) r n s = (inl p, n', s') ∧
    ApiKeyRepo.but_use (st_db s) (st_db s').
Proof.
  intros Hwf Ha Hp. destruct (authenticateTenant (P := json) r n s) as [[who n'] s'] eqn:E.
  exists n', s'.
  destruct (authenticateTenant_acts r n s who n' s' Hwf E) as [(p' & -> & _ & _ & Hu)|(resp & -> & _)].
  - split; [|done]. do 2 f_equal. f_equal. revert E. destruct Hp as (Ht & id & row & Hrow & Hh & Hl & ->).
    unfold authenticateTenant. rewrite decide_False by done.
    cbn [ResolveKeyHash MarkKeyUsed server_resolver]. rewrite (bind_run _ _ _ _ _ _ _ (on_store_run _ _ _)).
    rewrite (resolve_found _ _ _ id row) by (done || apply HashKey_not_empty).
    rewrite (bind_run _ _ _ _ _ _ _ (on_store_run _ _ _)). by intros [= <- _ _].
  - exfalso. revert E. destruct Hp as (Ht & id & row & Hrow & Hh & Hl & ->).
    unfold authenticateTenant. rewrite decide_False by done.
    cbn [ResolveKeyHash MarkKeyUsed server_resolver]. rewrite (bind_run _ _ _ _ _ _ _ (on_store_run _ _ _)).
    rewrite (resolve_found _ _ _ id row) by (done || apply HashKey_not_empty).
    by rewrite (bind_run _ _ _ _ _ _ _ (on_store_run _ _ _)).
Qed.

(** What a guarded handler may do: nothing, or what its principal may. *)
Definition within (r : request) (s s' : St) : Prop :=
  st_db s' = st_db s ∨
  ∃ p, authentic r (st_db s) p ∧ touches (p_TenantID p) (st_db s) (st_db s').

Lemma authenticated_acts (k : Principal → eff St (response json)) r n s :
  wf (st_db s) → (∀ p, evolves (in_store (touches (p_TenantID p))) (k p)) →
  within r s (final (bind (authenticateTenant (P := json) r)
                       (λ who, match who with inr refused => ret refused | inl p => k p end)) n s).
Proof.
  intros Hwf Hk. destruct (authenticateTenant (P := json) r n s) as [[who n'] s'] eqn:E.
  rewrite (bind_run_final _ _ _ _ _ _ _ E).
  destruct (authenticateTenant_acts r n s who n' s' Hwf E)
    as [(p & -> & Hp & Ht & _)|(resp & -> & _ & Hs)].
  - right. exists p. split; [done|]. etrans; [exact Ht|]. apply (Hk p n' s').
  - by left.
Qed.

(** Refused, and nothing written but the time a key was last used. *)
Definition refused (m : eff St (response json)) n s : Prop :=
  refusal (answer m n s) ∧ ApiKeyRepo.but_use (st_db s) (st_db (final m n s)).

Lemma authenticated_refuses (k : Principal → eff St (response json)) r n s :
  wf (st_db s) →
  (∀ p n' s', authentic r (st_db s) p → ∃ resp, k p n' s' = (resp, n', s') ∧ refusal resp) →
  refused (bind (authenticateTenant (P := json) r)
                (λ who, match who with inr resp => ret resp | inl p => k p end)) n s.
Proof.
  intros Hwf Hk. destruct (authenticateTenant (P := json) r n s) as [[who n'] s'] eqn:E.
  unfold refused, answer, final. rewrite (bind_run _ _ _ _ _ _ _ E).
  destruct (authenticateTenant_acts r n s who n' s' Hwf E)
    as [(p & -> & Hp & _ & Hu)|(resp & -> & Hresp & Hs)].
  - by destruct (Hk p n' s' Hp) as (resp & -> & Hresp).
  - split; [done|]. simpl. by rewrite Hs.
Qed.

Lemma RequireScope_refuses required (h : handler St json) r n s :
  wf (st_db s) → (∀ p, authentic r (st_db s) p → Principal_HasScope p required = false) →
  refused (RequireScope required h r) n s.
Proof.
  intros Hwf Hno.
  apply (authenticated_refuses (λ p, if negb (Principal_HasScope p required)
    then ret (Forbidden ("missing required scope: " +:+ required)) else h (with_principal p r)));
    [done|].
  intros p n' s' Hp. rewrite (Hno p Hp). eexists. split; [done|apply refusal_403].
Qed.

Lemma RequireTenant_refuses (h : handler St json) r n s :
  wf (st_db s) → (∀ p, ¬ authentic r (st_db s) p) → refused (RequireTenant h r) n s.
Proof.
  intros Hwf Hno. apply (authenticated_refuses (λ p, h (with_principal p r))); [done|].
  intros p n' s' Hp. by destruct (Hno p).
Qed.

Lemma acts_as_principal h r p :
  acts_as h → evolves (in_store (touches (p_TenantID p))) (h (with_principal p r)).
Proof. intros Hh. apply (Hh (with_principal p r)). Qed.

Lemma RequireScope_within required h r n s :
  wf (st_db s) → acts_as h → within r s (final (RequireScope required h r) n s).
Proof.
  intros Hwf Hh.
  apply (authenticated_acts (λ p, if negb (Principal_HasScope p required)
    then ret (Forbidden ("missing required scope: " +:+ required)) else h (with_principal p r)));
    [done|].
  intros p. destruct (negb _); [refine (evolves_ret _ _)|by apply acts_as_principal].
Qed.

Lemma RequireTenant_within h r n s :
  wf (st_db s) → acts_as h → within r s (final (RequireTenant h r) n s).
Proof.
  intros Hwf Hh. apply (authenticated_acts (λ p, h (with_principal p r))); [done|].
  intros p. by apply acts_as_principal.
Qed.
End guarded.

(** ** The server *)

Section promises.
Context `{Unicode} `{Oracle} `{ErrorTexts} `{ServerLaws St} `{!McpTransport St, !McpTransportLaws St, !Redirects}.
Context (adminToken : string) (defaultScopes allowedOrigins : list string).

#[local] Abbreviation serve := (serve adminToken defaultScopes allowedOrigins).

Lemma mcpHandler_acts : acts_as mcpHandler.
Proof.
  intros r. apply serve_mcp_tools; [destruct (r_Principal r); apply _|]. intros c.
  destruct (r_Principal r) as [p|]; [apply run_tool_touches|].
  rewrite run_tool_nobody. refine (evolves_ret _ _).
Qed.

Lemma serve_final r n s :
  (∃ e values, mux r = inl (e, values) ∧
     final (serve r) n s =
     final (route adminToken defaultScopes allowedOrigins e (with_path_values values r)) n s) ∨
  (∃ resp, mux r = inr resp ∧ serve r n s = (errorRewriter resp, n, s)).
Proof.
  unfold Server.serve, jsonErrors, routes. destruct (mux r) as [[e values]|resp].
  - left. exists e, values. split; [done|]. by rewrite bind_final.
  - right. by exists resp.
Qed.

(** What a request does: what its key may, or, with the admin token, what an
    administrator may. *)
Lemma serve_cases r n s :
  wf (st_db s) →
  within r s (final (serve r) n s) ∨
  VerifyAdminToken adminToken (BearerToken r) = true ∧
    ∃ tid, in_store (administers tid) s (final (serve r) n s).
Proof.
  intros Hwf. destruct (serve_final r n s) as [(e & values & _ & ->)|(resp & _ & E)].
  2: { left; left. unfold final. by rewrite E. }
  set (r' := with_path_values values r).
  change (within r s) with (within r' s). change (BearerToken r) with (BearerToken r').
  assert (Hadm : ∀ next : handler St json, (∀ n s, ∃ tid, in_store (administers tid) s
             (final (next (with_principal {| IsAdmin := true; p_TenantID := ""; p_KeyID := "";
                                             p_Scopes := [] |} r')) n s)) →
            within r' s (final (RequireAdmin adminToken next r') n s) ∨
            VerifyAdminToken adminToken (BearerToken r') = true ∧
            ∃ tid, in_store (administers tid) s (final (RequireAdmin adminToken next r') n s)).
  { intros next Hnext. unfold RequireAdmin. destruct (VerifyAdminToken _ _); [right|by left; left].
    split; [done|apply Hnext]. }
  destruct e; simpl; try (left; apply RequireScope_within; [done|]); try (apply Hadm; intros n0 s0).
  - by left; left.
  - apply handleCreateTenant_administers.
  - eexists. apply handleIssueKey_administers.
  - eexists. apply handleRevokeKey_administers.
  - eexists. apply handleStartPairing_administers.
  - apply handleGetSession_acts.
  - apply handleSendMessage_acts.
  - apply handleListChats_acts.
  - apply handleListChatMessages_acts.
  - apply handleSyncChatHistory_acts.
  - apply handleFindContacts_acts.
  - apply handleGetMessageMedia_acts.
  - left. unfold RequireAllowedOrigin. cbv zeta. repeat case_decide; [| |by left];
      (apply RequireTenant_within; [done|apply mcpHandler_acts]).
Qed.

(** No request loses a row or breaks a constraint. *)
Lemma serve_sound r n s :
  wf (st_db s) → sound (st_db s) (st_db (final (serve r) n s)).
Proof.
  intros Hwf. destruct (serve_cases r n s Hwf) as [[->|(p & _ & Ht)]|(_ & tid & Ha)]; [done|apply Ht|].
  apply Ha.
Qed.

(** C1: whatever a request that does not present the admin token asks for, on
    whatever route and through whatever tool, it changes no data of any tenant
    but the one whose live API key it presents, and it loses nothing and breaks
    no constraint of the database.  A request with neither the admin token nor
    a live key leaves the database as it is.  (What the admin token may do is
    [admin_only_administers].) *)
Theorem server_isolates_tenants r n s :
  wf (st_db s) → VerifyAdminToken adminToken (BearerToken r) = false →
  let s' := final (serve r) n s in
  (∀ other, (∀ p, authentic r (st_db s) p → p_TenantID p ≠ other) →
     tenant_data other (st_db s) (st_db s')) ∧
  ((∀ p, ¬ authentic r (st_db s) p) → st_db s' = st_db s) ∧
  db_le (st_db s) (st_db s') ∧ wf (st_db s').
Proof.
  intros Hwf Hadmin s'.
  destruct (serve_cases r n s Hwf) as [[Hsame|(p & Hp & Ht & Hle & Hwf')]|[Ha _]]; [| |congruence].
  - fold s' in Hsame. rewrite Hsame. by split_and!.
  - fold s' in Ht, Hle, Hwf'. split_and!; [|naive_solver|done|auto].
    intros other Hother. apply Ht. intros ->. by apply (Hother p).
Qed.

(** [admits r s c r']: the request presents the credential that is asked for,
    and is handed to the handler as [r']. *)
Definition admits (r : request) (s : db) (c : credential) (r' : request) : Prop :=
  match c with
  | Public => r' = r
  | Admin =>
      VerifyAdminToken adminToken (BearerToken r) = true ∧
      r' = with_principal {| IsAdmin := true; p_TenantID := ""; p_KeyID := ""; p_Scopes := [] |} r
  | Scope required =>
      ∃ p, authentic r s p ∧ Principal_HasScope p required = true ∧ r' = with_principal p r
  | TenantKey => ∃ p, authentic r s p ∧ r' = with_principal p r
  end.

Definition admitted (r : request) (s : db) (c : credential) : Prop := ∃ r', admits r s c r'.

Lemma not_admitted_scope r s required :
  ¬ admitted r s (Scope required) → ∀ p, authentic r s p → Principal_HasScope p required = false.
Proof. intros Hno p Hp. apply not_true_iff_false. intros Hs. apply Hno. eexists. by exists p. Qed.

Lemma route_refuses c values r n s :
  wf (st_db s) → ¬ admitted r (st_db s) (d_Credential (documentation c)) →
  refused (route adminToken defaultScopes allowedOrigins (d_Endpoint (documentation c))
             (with_path_values values r)) n s.
Proof.
  intros Hwf Hno. set (r' := with_path_values values r).
  assert (Hadm : ∀ h : handler St json, VerifyAdminToken adminToken (BearerToken r') = false →
            refused (RequireAdmin adminToken h r') n s).
  { intros h Hv. unfold refused, RequireAdmin. rewrite Hv. split; [apply refusal_401|done]. }
  assert (Hno' : d_Credential (documentation c) = Admin → VerifyAdminToken adminToken (BearerToken r) = false).
  { intros Ec. rewrite Ec in Hno. apply not_true_iff_false. intros Hv. apply Hno. by eexists. }
  destruct c; simpl in *; try (apply Hadm; by apply Hno');
    try (apply RequireScope_refuses; [done|]; exact (not_admitted_scope r _ _ Hno));
    [by destruct Hno; eexists|].
  unfold RequireAllowedOrigin. cbv zeta.
  repeat case_decide; try (apply RequireTenant_refuses; [done|]; intros p Hp; apply Hno; eexists; by exists p).
  split; [apply refusal_403|done].
Qed.

(** What serves a documented call. *)
Definition documented_handler (c : api_call) : handler St json :=
  match c with
  | GetHealthz => handleHealthz
  | PostTenants => handleCreateTenant defaultScopes
  | PostKeys _ => handleIssueKey defaultScopes
  | DeleteKey _ _ => handleRevokeKey
  | PostPair _ => handleStartPairing
  | GetSessions => handleGetSession
  | PostMessages => handleSendMessage
  | GetChats => handleListChats
  | GetChatMessages _ => handleListChatMessages
  | PostChatSync _ => handleSyncChatHistory
  | GetContacts => handleFindContacts
  | GetMedia _ => handleGetMessageMedia
  | PostMcp => mcpHandler
  end.

Lemma route_admits c (r r' : request) n s :
  wf (st_db s) → answering → (c = PostMcp → TrimSpace (Header_Get r "Origin") = "") →
  admits r (st_db s) (d_Credential (documentation c)) r' →
  ∃ n' s', ApiKeyRepo.but_use (st_db s) (st_db s') ∧
    route adminToken defaultScopes allowedOrigins (d_Endpoint (documentation c)) r n s =
    documented_handler c r' n' s'.
Proof.
  intros Hwf Ha Horigin.
  assert (Hscope : ∀ required (h : handler St json),
            (∃ p, authentic r (st_db s) p ∧ Principal_HasScope p required = true ∧
               r' = with_principal p r) →
            ∃ n' s', ApiKeyRepo.but_use (st_db s) (st_db s') ∧ RequireScope required h r n s = h r' n' s').
  { intros required h (p & Hp & Hs & ->).
    destruct (authenticateTenant_admits r n s p Hwf Ha Hp) as (n' & s' & E & Hu).
    exists n', s'. split; [done|]. unfold RequireScope. rewrite (bind_run _ _ _ _ _ _ _ E). by rewrite Hs. }
  destruct c; simpl; try (by apply Hscope); try (intros [Hv ->]; exists n, s; split; [done|];
    unfold RequireAdmin; by rewrite Hv).
  - intros ->. by exists n, s.
  - intros (p & Hp & ->). destruct (authenticateTenant_admits r n s p Hwf Ha Hp) as (n' & s' & E & Hu).
    exists n', s'. split; [done|]. unfold RequireAllowedOrigin. cbv zeta.
    rewrite decide_True by by apply Horigin. unfold RequireTenant. by rewrite (bind_run _ _ _ _ _ _ _ E).
Qed.

Lemma errorRewriter_refusal resp : refusal resp → errorRewriter resp = resp.
Proof. by intros (message & [->|[->| ->]]). Qed.

(** C10: the API is the one the README lists.  Each call of its table, made with
    the method and the path it gives and arguments escaped as a URL wants
    them, whatever bytes they are made of (other than none, the dot segments
    and a lone slash), reaches the handler of that call with exactly these
    arguments.  With the credential the table names, the admin token or a live
    key that holds the scope, the handler runs as the holder of the credential
    (on the MCP endpoint, from no browser); without it the call is answered
    401, 403 or, when the store fails, 500.  On the way nothing is written but
    the time the key was last used. *)
Theorem documented_api c r n s :
  wf (st_db s) → asks c r →
  ∃ values, mux r = inl (d_Endpoint (documentation c), values) ∧
    Forall (λ '(name, v), PathValue (with_path_values values r) name = v)
      (d_Values (documentation c)) ∧
    (∀ r', answering → (c = PostMcp → TrimSpace (Header_Get r "Origin") = "") →
     admits (with_path_values values r) (st_db s) (d_Credential (documentation c)) r' →
     ∃ n' s', ApiKeyRepo.but_use (st_db s) (st_db s') ∧
       serve r n s = jsonErrors (documented_handler c) r' n' s') ∧
    (¬ admitted r (st_db s) (d_Credential (documentation c)) → refused (serve r) n s).
Proof.
  intros Hwf Hasks. destruct (asks_routed c r Hasks) as (values & Hmux & Hvals).
  exists values. split_and!; [done| | |].
  - eapply Forall_impl; [exact Hvals|]. intros [name v] Hv. unfold PathValue. simpl. by rewrite Hv.
  - intros r' Ha Horigin Hadm.
    destruct (route_admits c (with_path_values values r) r' n s Hwf Ha Horigin Hadm) as (n' & s' & Hu & E).
    exists n', s'. split; [done|]. unfold Server.serve, jsonErrors, routes. rewrite Hmux.
    unfold bind. by rewrite E.
  - intros Hno. destruct (route_refuses c values r n s Hwf Hno) as [Hr Hu].
    unfold refused, Server.serve, jsonErrors, routes. rewrite Hmux, bind_final, bind_answer.
    split; [|exact Hu]. unfold answer at 1, ret. simpl. by rewrite errorRewriter_refusal.
Qed.

(** C9: the admin token manages tenants and never acts as one.  A request that
    presents it, unless a live key has that very hash, writes no message and
    no chat name of anybody, and what it does change belongs to one tenant:
    the one it creates or the one it names. *)
Theorem admin_only_administers r n s :
  wf (st_db s) → VerifyAdminToken adminToken (BearerToken r) = true →
  (∀ p, ¬ authentic r (st_db s) p) →
  let s' := final (serve r) n s in
  messages (st_db s') = messages (st_db s) ∧ chats (st_db s') = chats (st_db s) ∧
  ∃ tid, ∀ other, other ≠ tid → tenant_data other (st_db s) (st_db s').
Proof.
  intros Hwf Hadmin Hnokey s'.
  enough (Had : ∃ tid, in_store (administers tid) s s').
  { destruct Had as (tid & [[Ht _] Hm Hc]). split_and!; try done. by exists tid. }
  destruct (serve_cases r n s Hwf) as [[Hsame|(p & Hp & _)]|[_ Had]]; [|by destruct (Hnokey p)|done].
  exists "". unfold in_store, s'. by rewrite Hsame.
Qed.
End promises.

(** ** One error format *)

Section shape.
Context `{Unicode} `{Oracle} `{ErrorTexts} {St : Type}.
Context `{ServerState St} `{SessionManager St} `{McpTransport St} `{!Redirects, !RedirectLaws}.
Context (adminToken : string) (defaultScopes allowedOrigins : list string).

(** What a client has to parse: a failure is of the error shape, and what is
    JSON is a document. *)
Record well_formed (resp : response json) : Prop := {
  wf_failure : (400 ≤ status resp)%Z →
    headers resp !! "Content-Type" = Some "application/json" ∧
    ∃ code message, content resp = ErrorBody code message;
  wf_document : ∀ j, document (content resp) = Some j → fits max_nesting j;
}.

Lemma Write_well_formed c code message : well_formed (Http.Write c code message).
Proof.
  split; [intros _; split; [done|]; by eexists _, _|]. intros j [= <-]. apply error_json_fits.
Qed.

Lemma Unauthorized_well_formed message : well_formed (Unauthorized message).
Proof.
  split; [intros _; split; [done|]; by eexists _, _|]. intros j [= <-]. apply error_json_fits.
Qed.

Lemma success_well_formed c h b :
  (c < 400)%Z → (∀ j, document b = Some j → fits max_nesting j) → well_formed (Response c h b).
Proof. intros Hc Hb. split; simpl; [lia|done]. Qed.

Lemma wa_failure_well_formed e : well_formed (wa_failure e).
Proof. unfold wa_failure, writeWAError. repeat case_match; simpl; apply Write_well_formed. Qed.

Lemma media_failure_well_formed e : well_formed (media_failure e).
Proof.
  unfold media_failure, writeMediaError.
  repeat (case_match; [apply Write_well_formed|]). apply wa_failure_well_formed.
Qed.

(** A payload is a document. *)
Ltac payload :=
  match goal with
  | |- fits _ (status_json _) => by apply status_json_fits
  | |- fits _ (sent_json _) => by apply sent_json_fits
  | |- fits _ (sync_json _) => by apply sync_json_fits
  | |- fits _ (chat_json _) => by apply chat_json_fits
  | |- fits _ (messageView _) => by apply messageView_fits
  | |- fits _ (contact_json _) => by apply contact_json_fits
  | |- fits _ (issued_json _) => by apply issued_json_fits
  | |- fits _ (created_json _ _) => by apply created_json_fits
  | |- fits _ (pairing_json _) => by apply pairing_json_fits
  | |- fits _ (JString _) => exact I
  | |- fits _ (JArray _) => apply array_fits; [done|intros ?; payload]
  | |- fits _ (JObject _) =>
      apply object_fits; [done|]; repeat (apply Forall_cons; split; [cbn [snd]; payload|]); constructor
  end.

Ltac shaped :=
  repeat match goal with
  | |- answers _ (bind _ _) => eapply (answers_bind (λ _, True)); [apply answers_any|intros ? _]
  | |- answers _ (ret _) => apply answers_ret
  | |- answers _ (match ?x with _ => _ end) => destruct x
  | |- well_formed (match ?x with _ => _ end) => destruct x
  | |- well_formed (Unauthorized _) => apply Unauthorized_well_formed
  | |- well_formed (wa_failure _) => apply wa_failure_well_formed
  | |- well_formed (media_failure _) => apply media_failure_well_formed
  | |- well_formed (writeJSON _ _) =>
      apply success_well_formed; [lia|intros ? [= <-]; payload]
  | |- well_formed (Response _ _ _) => apply success_well_formed; [lia|done]
  | |- well_formed _ => apply Write_well_formed
  end.

Lemma as_principal_shaped k r :
  (∀ p r, answers well_formed (k p r)) → answers well_formed (as_principal (St := St) k r).
Proof. intros Hk. unfold as_principal. destruct (PrincipalFrom r) as [p [|]]; [apply Hk|shaped]. Qed.

Lemma for_tenant_shaped tid (k : eff St payload_response) :
  answers well_formed k → answers well_formed (for_tenant tid k).
Proof. intros Hk. unfold for_tenant. shaped. done. Qed.

Lemma RequireAdmin_shaped (h : handler St json) r :
  (∀ r, answers well_formed (h r)) → answers well_formed (RequireAdmin adminToken h r).
Proof. intros Hh. unfold RequireAdmin. shaped. apply Hh. Qed.

Lemma RequireScope_shaped required (h : handler St json) r :
  (∀ r, answers well_formed (h r)) → answers well_formed (RequireScope required h r).
Proof.
  intros Hh. unfold RequireScope.
  eapply (answers_bind (λ who, match who with inr resp => well_formed resp | inl _ => True end)).
  - unfold authenticateTenant. cbn [ResolveKeyHash MarkKeyUsed server_resolver].
    case_decide; [apply answers_ret, Unauthorized_well_formed|].
    eapply (answers_bind (λ _, True)); [apply answers_any|]. intros [p|e] _.
    + eapply (answers_bind (λ _, True)); [apply answers_any|]. intros _ _. by apply answers_ret.
    + destruct (errors_Is e ErrKeyNotFound); apply answers_ret;
        [apply Unauthorized_well_formed|apply Write_well_formed].
  - intros [p|resp] Hr; [|by apply answers_ret]. shaped. apply Hh.
Qed.

Lemma route_shaped e r :
  e ≠ EMcp → answers well_formed (route adminToken defaultScopes allowedOrigins e r).
Proof.
  intros He. destruct e; simpl; try done.
  all: try (apply RequireAdmin_shaped; intros r'); try (apply RequireScope_shaped; intros r');
    try (apply as_principal_shaped; intros p r0); cbv beta zeta.
  - unfold handleHealthz. shaped.
  - unfold handleCreateTenant. cbv beta zeta. shaped.
  - unfold handleIssueKey. cbv beta zeta. apply for_tenant_shaped. shaped.
  - unfold handleRevokeKey. cbv beta. shaped.
  - unfold handleStartPairing. cbv beta zeta. apply for_tenant_shaped. shaped.
  - shaped.
  - shaped.
  - shaped.
  - shaped.
  - shaped.
  - shaped.
  - shaped.
Qed.

Lemma errorRewriter_keeps resp : well_formed resp → well_formed (errorRewriter resp).
Proof.
  intros Hw. unfold errorRewriter. cbv zeta. case_decide; [exact Hw|].
  repeat (case_decide; [split; [intros _; split; [apply lookup_insert_eq|by eexists _, _]|];
                        intros j [= <-]; apply error_json_fits|]).
  exact Hw.
Qed.

Lemma mux_error_rewritten r : well_formed (errorRewriter (mux_error r)).
Proof.
  unfold mux_error. destruct (allowed_methods r) as [|m l].
  - split; [intros _; split; [done|]; by eexists _, _|]. intros j [= <-]. apply error_json_fits.
  - unfold errorRewriter. cbv zeta. cbn [headers status].
    rewrite lookup_insert_ne by done. rewrite decide_False by done.
    repeat case_decide; try done; (split;
      [intros _; split; [apply lookup_insert_eq|by eexists _, _]
      |intros j [= <-]; apply error_json_fits]).
Qed.

(** The router's own answers, rewritten: a redirect is left alone. *)
Lemma mux_answers r resp :
  r_Path r ≠ "*" → mux r = inr resp →
  well_formed (errorRewriter resp) ∧
  (status (errorRewriter resp) ∈ [404; 405]%Z ∨
   (300 ≤ status (errorRewriter resp) < 400)%Z ∧ errorRewriter resp = redirect r).
Proof.
  intros Hstar. unfold mux. rewrite decide_False by done. case_decide as Hc.
  - intros [= <-]. pose proof (redirect_status r) as Hst.
    assert (Hsame : errorRewriter (redirect r) = redirect r).
    { unfold errorRewriter. case_decide; [done|]. by rewrite !decide_False by lia. }
    rewrite Hsame. split; [|by right]. destruct (redirect_text r) as [text Ht].
    split; [lia|]. rewrite Ht. done.
  - destruct (find_route r) as [routed|]; [done|]. intros [= <-].
    split; [apply mux_error_rewritten|]. left. unfold mux_error, errorRewriter.
    destruct (allowed_methods r); simpl; [by left|]. right. by repeat case_decide; left.
Qed.

Lemma serve_well_formed r n s :
  r_Path r ≠ "*" → (∀ values, mux r ≠ inl (EMcp, values)) →
  well_formed (answer (serve adminToken defaultScopes allowedOrigins r) n s).
Proof.
  intros Hstar Hmcp. unfold serve, jsonErrors. rewrite bind_answer.
  unfold routes. destruct (mux r) as [[e values]|resp] eqn:E.
  - apply errorRewriter_keeps, route_shaped. intros ->. by apply (Hmcp values).
  - by apply (mux_answers r).
Qed.

(** C32: clients parse one format, but for one path.  Off the MCP endpoint and
    the path [*] every answer of the server with a status of 400 or more, whether a handler, a middleware
    or the router itself wrote it, is JSON of the error shape, and the bytes of
    every JSON answer are one document and a newline, which a reader of JSON
    takes for the value that was answered (with the bytes of its strings that
    are no UTF-8 replaced).  What the router answers itself, an error written
    that way or the redirect from a path that is not clean, leaves the state
    alone.  The path [*] is the exception: the router refuses it, and the
    refusal is passed on without a body. *)
Theorem errors_have_one_shape r n s :
  (∀ values, mux r ≠ inl (EMcp, values)) →
  let run := serve adminToken defaultScopes allowedOrigins r in
  let resp := answer run n s in
  (r_Path r = "*" → run n s = (Response 400 ∅ NoBody, n, s)) ∧
  (r_Path r ≠ "*" → (400 ≤ status resp)%Z →
   headers resp !! "Content-Type" = Some "application/json" ∧
   ∃ code message, content resp = ErrorBody code message ∧
     parse (body_bytes (content resp)) = Some (error_json (clean code) (clean message), newline)) ∧
  (∀ payload, content resp = JSONBody payload →
     parse (body_bytes (content resp)) = Some (clean_json payload, newline)) ∧
  (∀ own, r_Path r ≠ "*" → mux r = inr own →
   final run n s = s ∧
   (status resp ∈ [404; 405]%Z ∨ (300 ≤ status resp < 400)%Z ∧ resp = redirect r)).
Proof.
  intros Hmcp run resp.
  assert (Hasterisk : r_Path r = "*" → run n s = (Response 400 ∅ NoBody, n, s)).
  { intros Hr. unfold run, serve, jsonErrors, routes, mux. by rewrite decide_True. }
  split_and!; [exact Hasterisk|..].
  - intros Hstar Hst. pose proof (serve_well_formed r n s Hstar Hmcp) as [Hfail _].
    change (answer _ n s) with resp in Hfail. destruct (Hfail Hst) as (Hct & code & message & Hc). split; [done|].
    exists code, message. split; [done|]. rewrite Hc.
    apply (document_bytes (ErrorBody code message) _ eq_refl), error_json_fits.
  - intros payload Hc. destruct (decide (r_Path r = "*")) as [Hr|Hstar].
    { exfalso. apply Hasterisk in Hr. unfold resp, answer in Hc. by rewrite Hr in Hc. }
    pose proof (serve_well_formed r n s Hstar Hmcp) as [_ Hdoc].
    change (answer _ n s) with resp in Hdoc. rewrite Hc in *. by apply (document_bytes (JSONBody payload)), Hdoc.
  - intros own Hstar E. unfold resp, run, serve, jsonErrors, routes. rewrite bind_final, bind_answer, E.
    unfold answer, final, ret. simpl. split; [done|]. by apply mux_answers.
Qed.
End shape.
