(* ===== verification/Deployment.v ===== *)
(** * The gateway as it is deployed ([cmd/gateway/main.go])

    The manager behind the HTTP server: it satisfies the interface the
    handlers are proved against.  Two waits end by what the environment does:
    the wait for a QR code after so many items of the channel, the wait for a
    reply after the events of that tenant that arrive meanwhile. *)

From S2P Require Import Prelude GoText GoUnicode GoEff Scope Sha256 Key Models Sql Store StoreOps.
From S2P Require Import SessionRepo Config Json Http Middleware Pending WaAddress MediaReference Gateway.
From S2P Require Import History Manager Contacts Media ManagerOps Sessions.

(** What happens to a tenant by itself: an event, or one of the goroutines that
    events started gets to run. *)
Inductive arrival `{JidOps} :=
  | Event (evt : wa_event)
  | GroupNames (i : nat).

Class Waits `{JidOps} := {
  (** items of the QR channel before the timer of [pairWithQR] fires *)
  qr_items : nat;
  (** what happens to the tenant while [SyncHistory] waits, and what ends its wait *)
  meanwhile : nat → list arrival;
  wakes : nat → wake;
}.

(** [os.Open] may fail; [io.Copy] may stop early. *)
Class FileReads := {
  o_open : nat → option string;
  o_copy : nat → option nat;
}.

Section deployment.
Context `{Unicode} `{Oracle} `{MediaTypes} `{WaClient} `{Disk} `{ErrorTexts} `{!Waits, !FileReads}.
Context (f : mediaFetcher) (scope : HistorySyncScope).

Definition read_file (path : string) : eff gateway (result string) := λ n g,
  (match o_open n with
   | Some text => Err (External text)
   | None =>
       match g_files g !! path with
       | None => Err (External "no such file or directory")
       | Some Directory => Ok ""
       | Some (File data) => Ok (match o_copy n with Some k => take_bytes k data | None => data end)
       end
   end, S n, g).

#[export] Instance gateway_state : ServerState gateway :=
  {| st_db := g_db; st_set_db := set_db; open_file := read_file |}.

(** Out of items, the timer has fired. *)
Definition StartPairing_timed (tenantID phone : string) : eff gateway (result PairingResult) :=
  (let! res := StartPairing qr_items tenantID phone in
   ret (default (Err (New "wa: timed out waiting for a qr code")) res))%go.

Definition handle_arrival (tenantID : string) (a : arrival) : eff gateway () :=
  match a with
  | Event evt => handleEvent scope tenantID evt
  | GroupNames i => run_background tenantID i
  end.

Fixpoint handle_all (tenantID : string) (events : list arrival) : eff gateway () :=
  (match events with
   | [] => ret ()
   | a :: events => let! _ := handle_arrival tenantID a in handle_all tenantID events
   end)%go.

(** [SyncHistory]: without a reply to receive, the deadline ends it. *)
Definition SyncHistory (tenantID chatJID : string) (count : Z) : eff gateway (result SyncResult) :=
  (let! started := begin_sync tenantID chatJID count in
   match started with
   | Err e => ret (Err e)
   | Ok w =>
       let! events := draw meanwhile in
       let! _ := handle_all tenantID events in
       let! by_ := draw wakes in
       let! res := finish_sync w by_ in
       match res with
       | Some res => ret res
       | None => let! res := finish_sync w Deadline in
                 ret (default (Err (Sentinel ErrSyncTimeout)) res)
       end
   end)%go.

#[export] Instance gateway_sessions : SessionManager gateway :=
  {| sessions_StartPairing := StartPairing_timed;
     sessions_Status := Status;
     sessions_SendText := SendText;
     sessions_Logout := Logout;
     sessions_FindContacts := FindContacts;
     sessions_SyncHistory := SyncHistory;
     sessions_FetchMedia := fetch f |}.

(** ** It satisfies the interface *)

Lemma acts_serves {A} tid (m : eff gateway A) :
  evolves (acts_for tid) m → evolves (in_store (serves tid)) m.
Proof. intros Hm n g. destruct (Hm n g) as [Ht Hs Hk _ _]. by split. Qed.

Lemma handle_arrival_acts tid a : evolves (acts_for tid) (handle_arrival tid a).
Proof. destruct a; [apply handleEvent_acts|apply run_background_acts]. Qed.

Lemma handle_all_acts tid l : evolves (acts_for tid) (handle_all tid l).
Proof.
  induction l as [|evt l IH]; simpl; [refine (evolves_ret _ _)|].
  apply evolves_bind; [apply _|apply handle_arrival_acts|done].
Qed.

Lemma SyncHistory_acts tid chatJID count : evolves (acts_for tid) (SyncHistory tid chatJID count).
Proof.
  unfold SyncHistory. apply evolves_bind; [apply _|apply begin_sync_acts|].
  intros [w|e]; [|refine (evolves_ret _ _)].
  apply evolves_bind; [apply _|refine (evolves_draw _ _)|intros events].
  apply evolves_bind; [apply _|apply handle_all_acts|intros _].
  apply evolves_bind; [apply _|refine (evolves_draw _ _)|intros by_].
  apply evolves_bind; [apply _|apply finish_sync_acts|].
  intros [res|]; [refine (evolves_ret _ _)|].
  apply evolves_bind; [apply _|apply finish_sync_acts|]. intros res. refine (evolves_ret _ _).
Qed.

(** Pairing leaves the conversations alone. *)
Definition same_conversations : relation gateway :=
  keeps (λ g, (messages (g_db g), chats (g_db g))).

Lemma quiet_db {A} (m : eff db A) :
  evolves only_sessions m ∨ reads m → evolves same_conversations (on_db m).
Proof.
  intros Hm n g. unfold same_conversations, keeps. unfold final. rewrite on_db_run. simpl.
  destruct Hm as [Hm|Hm]; [by destruct (Hm n (g_db g)) as [x ->]|by rewrite <- (Hm n (g_db g))].
Qed.

Lemma StartPairing_quiet fuel tid phone : evolves same_conversations (StartPairing fuel tid phone).
Proof.
  assert (Hqr : ∀ c, evolves same_conversations (qr_loop fuel c)).
  { intros c. induction fuel as [|k IH]; simpl; [refine (evolves_ret _ _)|].
    apply evolves_bind; [apply _|refine (evolves_draw _ _)|].
    intros [[]| | |]; first [done|refine (evolves_ret _ _)]. }
  unfold StartPairing, clientFor, session_device, settle_client, newClient, deviceFor, pairWithCode, pairWithQR, connected, set_client.
  repeat match goal with
  | |- evolves _ (bind _ _) => apply evolves_bind; [apply _| |intros ?]
  | |- evolves _ (try _ _ _) => apply evolves_try; [apply _| |intros ?]
  | |- evolves _ (ret _) => refine (evolves_ret _ _)
  | |- evolves _ (draw _) => refine (evolves_draw _ _)
  | |- evolves _ (ask _ _ _) => by apply ask_evolves
  | |- evolves _ (modify _) => by apply modify_evolves
  | |- evolves _ (client_of _) => apply client_of_evolves, _
  | |- evolves _ (on_db (GetByTenant _)) => apply quiet_db; right; apply session_GetByTenant_reads
  | |- evolves _ (on_db (UpdateStatus _ _ _)) => apply quiet_db; left; apply UpdateStatus_sessions
  | |- evolves _ (qr_loop _ _) => apply Hqr
  | |- evolves _ (match ?x with _ => _ end) => destruct x
  end.
Qed.

Lemma StartPairing_timed_administers tid phone :
  evolves (in_store (administers tid)) (StartPairing_timed tid phone).
Proof.
  unfold StartPairing_timed. apply evolves_bind; [apply _| |intros ?; refine (evolves_ret _ _)].
  intros n g. destruct (StartPairing_acts tid qr_items phone n g) as [Ht Hs _ _ _].
  pose proof (StartPairing_quiet qr_items tid phone n g) as Hq.
  unfold same_conversations, keeps in Hq. injection Hq as Hm Hc. by split; [split| |].
Qed.

#[export] Instance gateway_laws : ServerLaws gateway.
Proof.
  split.
  - done.
  - intros path n g. done.
  - apply StartPairing_timed_administers.
  - intros tid. apply acts_serves. intros n g. pose proof (run_manager_acts f scope tid OpStatus n g) as Hm.
    simpl in Hm. unfold ignore in Hm. by rewrite bind_final in Hm.
  - intros tid to text. apply acts_serves, SendText_acts.
  - intros tid q. apply acts_serves, FindContacts_acts.
  - intros tid jid count. apply acts_serves, SyncHistory_acts.
  - intros tid mid. apply acts_serves, fetch_acts.
Qed.
End deployment.
