(* ===== verification/DemoServer.v ===== *)
(** * A server that runs

    The deployed gateway over the concrete environment of [Demo], answering
    requests: the witnesses of the theorems about the HTTP and MCP layers. *)

From S2P Require Import Prelude GoText GoUnicode GoEff Scope Sha256 Key Models Sql Store StoreOps.
From S2P Require Import StoreTheorems Config Json JsonRoundTrip Http Middleware WaAddress MediaReference Gateway Demo.
From S2P Require Import History Manager Media Sessions TenantApi AdminApi McpServer Routing Server Deployment.
From S2P Require ManagerOps.

#[local] Existing Instance demo_unicode.
#[local] Existing Instance demo_oracle.
#[local] Existing Instance plain_media.
#[local] Existing Instance plain_jids.
#[local] Existing Instance plain_laws.
#[local] Existing Instance plain_disk.
#[local] Existing Instance plain_texts.

#[local] Instance served_clients : WaClient (H := plain_jids) := plain_clients served.

(** The redirect of Go 1.26, without its page. *)
#[export] Instance plain_redirects : Redirects :=
  {| redirect r := Response 307 {["Location" := cleanPath (r_Path r)]} (TextBody "") |}.

#[export] Instance plain_redirect_laws : RedirectLaws.
Proof. split; [simpl; lia|]. intros r. by exists "". Qed.

(** The timers leave three items of the channel; nothing arrives meanwhile. *)
#[local] Instance plain_waits : Waits :=
  {| qr_items := 5; meanwhile _ := []; wakes _ := Deadline |}.

#[local] Instance plain_reads : FileReads := {| o_open _ := None; o_copy _ := None |}.

#[local] Instance demo_sessions : SessionManager gateway :=
  gateway_sessions demo_fetcher HistorySyncScopeDM.

#[local] Instance demo_laws : ServerLaws gateway := gateway_laws demo_fetcher HistorySyncScopeDM.

(** An MCP endpoint: a session that lists the chats and answers. *)
#[local] Instance plain_mcp : McpTransport gateway :=
  {| serve_mcp tools r := (let! _ := tools (list_chats {| lci_Limit := 20 |}) in ret (Response 200 ∅ NoBody))%go |}.

#[local] Instance plain_mcp_laws : McpTransportLaws gateway.
Proof.
  split. intros R HR tools r Ht. unfold serve_mcp, plain_mcp.
  apply evolves_bind; [apply _|apply Ht|intros ?]. refine (evolves_ret _ _).
Qed.

(** ** The requests *)

Definition admin_token := "an-admin-token".

Definition serving := serve (St := gateway) admin_token [ScopeMessagesSend] [].

Definition start : gateway := demo_gateway served key_db.

Definition with_body (body : string) (r : request) : request :=
  {| r_Method := r_Method r; r_Path := r_Path r; r_Header := r_Header r; r_Query := r_Query r;
     r_Body := body; r_PathValues := r_PathValues r; r_Principal := r_Principal r |}.

Definition as_admin (r : request) : request :=
  {| r_Method := r_Method r; r_Path := r_Path r;
     r_Header := {["Authorization" := ("Bearer " +:+ admin_token)]}; r_Query := r_Query r;
     r_Body := r_Body r; r_PathValues := r_PathValues r; r_Principal := r_Principal r |}.

Definition send_request : request :=
  with_body (encode (JObject [("to", JString "573004725680"); ("body", JString "hola")]))
    (demo_request "POST" "/v1/messages").

Definition issue_request : request :=
  with_body (encode (JObject [("name", JString "laptop")]))
    (as_admin (demo_request "POST" "/v1/tenants/acme/keys")).

Definition key_path : gmap string string := {["id" := "acme"; "keyID" := "k9"]}.

Definition acme : Principal :=
  {| IsAdmin := false; p_TenantID := "acme"; p_KeyID := "k9"; p_Scopes := ["messages:*"] |}.

(** ** The witnesses *)

Lemma start_wf : wf (st_db start).
Proof. unfold start, demo_gateway. cbn [st_db gateway_state g_db]. exact key_wf. Qed.

Lemma acme_keys :
  map_Forall (λ _ row, r_KeyHash row = HashKey demo_token → r_TenantID row = "acme") (api_keys key_db).
Proof. by_decide. Qed.

Lemma acme_only method path body p :
  authentic (with_body body (demo_request method path)) key_db p → p_TenantID p = "acme".
Proof.
  intros (_ & id & row & Hrow & Hh & _ & ->). apply (acme_keys id row Hrow). exact Hh.
Qed.

Definition sending := sessions_SendText (St := gateway) "acme" "573004725680" "hola" 100 start.

Definition hola_sent : SentMessage :=
  {| sm_WAMessageID := "3EB0SENT"; sm_ChatJID := "573004725680@s.whatsapp.net";
     sm_SenderJID := "573114276555@s.whatsapp.net"; sm_Timestamp := 102 |}.

Lemma hola_goes_out : sending = (Ok hola_sent, sending.1.2, sending.2).
Proof.
  assert (E : sending.1.1 = Ok hola_sent) by (vm_compute; reflexivity).
  rewrite <- E. by destruct sending as [[? ?] ?].
Qed.

(** The conversation is listed under the other address of the person. *)
Definition list_request : request :=
  with_principal acme (with_path_values {["jid" := "15285906083900@lid"]}
    (demo_request "GET" "/v1/chats/15285906083900@lid/messages")).

Lemma send_is_recorded_witness :
  let run := handleSendMessage (with_principal acme send_request) in
  let after := final run 100 start in
  answer run 100 start = writeJSON 201 (sent_json hola_sent) ∧
  ∃ i m, messages (st_db after) !! i = Some m ∧ m_WAMessageID m = "3EB0SENT" ∧
    shows (answer (handleListChatMessages list_request) 200 after) m (clean "hola").
Proof.
  intros run after.
  destruct (send_is_recorded (with_principal acme send_request) acme
    {| q_To := "573004725680"; q_Body := "hola" |} hola_sent 100 start sending.1.2 sending.2
    eq_refl) as (Ha & _ & Hin & _);
    [vm_compute; reflexivity|discriminate|discriminate|exact hola_goes_out|].
  split; [exact Ha|].
  destruct Hin as (i & m & Hm & _ & Hw & Hnew);
    [exact demo_answering|discriminate|vm_compute; eauto|discriminate|discriminate
    |vm_compute; discriminate|vm_compute; reflexivity|].
  exists i, m. split; [exact Hm|]. split; [exact Hw|].
  assert (Hno : map_Forall (λ _ o, m_WAMessageID o ≠ "3EB0SENT") (messages (st_db sending.2)))
    by by_decide.
  destruct Hnew as (_ & _ & _ & _ & _ & Hshows); [intros k o Ho _; exact (Hno k o Ho)|].
  apply Hshows.
  - exact start_wf.
  - assert (El : Address.lids (st_db after) = one_person) by (vm_compute; reflexivity).
    fold run after. rewrite El. exact one_person_ok.
  - reflexivity.
  - vm_compute. discriminate.
  - vm_compute. reflexivity.
  - apply Nat.le_lt_trans with (size (messages (st_db after))).
    + apply map_subseteq_size, map_filter_subseteq.
    + apply Nat.ltb_lt. vm_compute. reflexivity.
Defined.

Lemma issued_key_authenticates_witness :
  let run := handleIssueKey [ScopeMessagesSend] (with_path_values key_path issue_request) in
  ∃ issued, content (answer run 100 start) = JSONBody (issued_json issued) ∧
    ∀ r', BearerToken r' = ik_Key issued → ∀ n', ∃ p,
      resolved_as r' n' (final run 100 start) p ∧ p_TenantID p = "acme".
Proof.
  intros run.
  destruct (issued_key_authenticates [ScopeMessagesSend] (with_path_values key_path issue_request)
    100 start start_wf demo_answering) as (issued & row & Hc & _ & _ & Hk);
    [vm_compute; reflexivity|].
  exists issued. split; [exact Hc|]. intros r' Hr' n'.
  destruct (Hk r' n' Hr') as (p & Hp & Ht & _). exists p. split; [exact Hp|].
  rewrite Ht. vm_compute. reflexivity.
Defined.

Lemma revoked_key_refused_witness :
  let run := handleRevokeKey (with_path_values key_path
               (as_admin (demo_request "DELETE" "/v1/tenants/acme/keys/k9"))) in
  status (answer run 100 start) = 204%Z ∧
  ¬ ∃ p, resolved_as (demo_request "GET" "/v1/chats") 200 (final run 100 start) p.
Proof.
  intros run. split; [vm_compute; reflexivity|]. intros [p Hp]. revert Hp.
  destruct (revoked_key_refused (with_path_values key_path
      (as_admin (demo_request "DELETE" "/v1/tenants/acme/keys/k9"))) 100 start start_wf)
    as (id & row & Hrow & Hid & _ & Hno); [vm_compute; reflexivity|].
  apply Hno; [reflexivity|].
  assert (Hall : map_Forall (λ _ row, r_ID row = "k9" → r_KeyHash row = HashKey demo_token)
                   (api_keys key_db)) by by_decide.
  rewrite (Hall id row Hrow Hid). reflexivity.
Defined.

(** The same text through either: both answer what the engine reported. *)
Lemma tools_match_routes_witness :
  let tool := run_tool (Some acme) (send_message {| smi_To := "573004725680"; smi_Body := "hola" |}) 100 start in
  let route := handleSendMessage (with_principal acme send_request) 100 start in
  tool.1.1 = Output (ToolTypes.json_of_sent (tool_sent hola_sent)) ∧
  route.1.1 = writeJSON 201 (sent_json hola_sent) ∧ tool.2 = route.2.
Proof.
  intros tool route.
  destruct (tools_match_routes acme (with_principal acme send_request) 100 start eq_refl)
    as [Hsend _]; [discriminate|].
  destruct (Hsend "573004725680" "hola") as [Hboth _]; [vm_compute; reflexivity| |].
  { split_and!; [by apply ascii_valid..|reflexivity|vm_compute; discriminate]. }
  destruct Hboth as (res & n' & s' & Htool & Hroute & Hres);
    [vm_compute; discriminate|vm_compute; discriminate|].
  assert (E : one_send "acme" "573004725680" "hola" 100 start = (Ok hola_sent, n', s')).
  { assert (Er : answer (one_send "acme" "573004725680" "hola") 100 start = Ok hola_sent)
      by (vm_compute; reflexivity).
    change (one_send "acme" "573004725680" "hola" 100 start = (res, n', s')) in Hres.
    unfold answer in Er. rewrite Hres in Er. simpl in Er. rewrite <- Er. exact Hres. }
  change (one_send "acme" "573004725680" "hola" 100 start = (res, n', s')) in Hres.
  rewrite E in Hres. injection Hres as <-.
  unfold tool, route. split_and!.
  - change (tool = (told (Ok hola_sent), n', s')) in Htool. fold tool. by rewrite Htool.
  - fold route. change (route = (posted (Ok hola_sent), n', s')) in Hroute. by rewrite Hroute.
  - change (tool = (told (Ok hola_sent), n', s')) in Htool.
    change (route = (posted (Ok hola_sent), n', s')) in Hroute. fold tool route. by rewrite Htool, Hroute.
Defined.

Lemma server_isolates_tenants_witness :
  let s' := final (serving send_request) 100 start in
  st_db s' ≠ key_db ∧ tenant_data "beta" key_db (st_db s') ∧ wf (st_db s').
Proof.
  destruct (server_isolates_tenants admin_token [ScopeMessagesSend] [] send_request 100 start start_wf)
    as (Hothers & _ & _ & Hwf); [vm_compute; reflexivity|].
  intros s'. split; [|split; [|exact Hwf]].
  - intros E. apply (f_equal (λ s, size (messages s))) in E. vm_compute in E. discriminate E.
  - apply Hothers. intros p Hp. by rewrite (acme_only _ _ _ p Hp).
Defined.

Lemma admin_only_administers_witness :
  let s' := final (serving issue_request) 100 start in
  messages (st_db s') = messages key_db ∧ api_keys (st_db s') ≠ api_keys key_db.
Proof.
  destruct (admin_only_administers admin_token [ScopeMessagesSend] [] issue_request 100 start start_wf)
    as (Hm & _ & _); [vm_compute; reflexivity| |].
  - intros p (_ & id & row & Hrow & Hh & _).
    assert (Hall : map_Forall (λ _ row, r_KeyHash row ≠ HashKey admin_token) (api_keys key_db))
      by by_decide.
    apply (Hall id row Hrow). rewrite Hh. vm_compute. reflexivity.
  - intros s'. split; [exact Hm|].
    intros E. apply (f_equal size) in E. vm_compute in E. discriminate E.
Defined.

(** Media through a key that may only read and send messages; the id of the
    message has a slash in it. *)
Lemma documented_api_witness :
  let r := demo_request "GET" "/v1/messages/a%2F7/media" in
  (∃ values, mux r = inl (EGetMessageMedia, values) ∧
     PathValue (with_path_values values r) "id" = "a/7") ∧
  status (answer (serving r) 100 start) = 403%Z ∧ refused (serving r) 100 start.
Proof.
  intros r.
  destruct (documented_api admin_token [ScopeMessagesSend] [] (GetMedia "a/7") r 100 start start_wf)
    as (values & Hmux & Hvalues & _ & Href).
  { split_and!; [reflexivity|reflexivity|by_decide]. }
  split_and!; [|vm_compute; reflexivity|].
  - exists values. split; [exact Hmux|]. by apply Forall_cons in Hvalues as [Hid _].
  - apply Href. intros (r' & p & (_ & id & row & Hrow & _ & _ & ->) & Hscope & _).
    assert (Hall : map_Forall (λ _ row, Principal_HasScope (principal_of row) "media:read" = false)
                     (api_keys key_db)) by by_decide.
    specialize (Hall id row Hrow). simpl in Hall. by rewrite Hall in Hscope.
Defined.

Lemma errors_have_one_shape_witness :
  let answered := answer (serving (demo_request "GET" "/v1/nowhere")) 100 start in
  status answered = 404%Z ∧
  ∃ code message, parse (body_bytes (content answered)) =
    Some (error_json (clean code) (clean message), newline).
Proof.
  intros answered.
  destruct (errors_have_one_shape admin_token [ScopeMessagesSend] []
    (demo_request "GET" "/v1/nowhere") 100 start) as (_ & Hshape & _).
  { intros values. vm_compute. discriminate. }
  assert (E : status answered = 404%Z) by (vm_compute; reflexivity).
  split; [exact E|]. fold serving in Hshape. fold answered in Hshape.
  destruct Hshape as (_ & code & message & _ & Hp); [discriminate|rewrite E; discriminate|].
  exists code, message. exact Hp.
Defined.
