(* ===== verification/ToolHints.v ===== *)
(** * The hints of the MCP tools ([internal/mcpserver/server.go])

    Clients run a tool announced with [ReadOnlyHint] without asking the user.
    Here the hint is checked against what the tools of the deployed gateway
    do. *)

From S2P Require Import Prelude GoText GoUnicode GoEff Models Sql Store MessageRepo MessageQueries.
From S2P Require Import StoreOps StoreTheorems Config Json Http Middleware Pending WaAddress.
From S2P Require Import MediaReference Gateway Demo History Manager Contacts Media ManagerOps.
From S2P Require Import Sessions TenantApi McpServer Server Deployment DemoServer.

(** A call that asks WhatsApp a question and sends, moves or ends nothing. *)
Definition asks `{JidOps} (c : wa_call) : Prop :=
  match c with CallContacts | CallIsOnWhatsApp _ => True | _ => False end.

Section hints.
Context `{Unicode} `{Oracle} `{MediaTypes} `{WaClient} `{Disk} `{ErrorTexts} `{!Waits, !FileReads}.
Context (f : mediaFetcher) (scope : HistorySyncScope).

#[local] Existing Instance gateway_state.
#[local] Instance hinted_sessions : SessionManager gateway := gateway_sessions f scope.

(** Nothing changes but the record of the questions asked, and the flag that
    whatsmeow's index has been seen. *)
Record looks (g g' : gateway) : Prop := {
  lk_db : same_tables (g_db g) (g_db g');
  lk_files : g_files g' = g_files g;
  lk_clients : g_clients g' = g_clients g;
  lk_pending : g_pending g' = g_pending g;
  lk_unresolved : g_unresolved g' = g_unresolved g;
  lk_calls : ∃ l, g_calls g' = g_calls g ++ l ∧ Forall (λ tc, asks tc.2) l;
  lk_background : g_background g' = g_background g;
}.

#[export] Instance looks_preorder : PreOrder looks.
Proof.
  split.
  - intros g. split; try done. exists []. by rewrite app_nil_r.
  - intros g1 g2 g3 [D1 F1 C1 P1 U1 (l1 & E1 & A1) B1] [D2 F2 C2 P2 U2 (l2 & E2 & A2) B2].
    split; [by etrans|congruence..| |congruence]. exists (l1 ++ l2). rewrite E2, E1, app_assoc.
    split; [done|]. by apply Forall_app.
Qed.

Lemma on_db_looks {A} (m : eff db A) : evolves same_tables m → evolves looks (on_db m).
Proof.
  intros Hm n g. unfold final. rewrite on_db_run. split; try done; [apply Hm|].
  exists []. by rewrite app_nil_r.
Qed.

Lemma ask_looks {A} tid c (q : nat → A) : asks c → evolves looks (ask tid c q).
Proof.
  intros Hc. apply ask_evolves. intros g. split; try done. exists [(tid, c)].
  split; [done|]. by constructor.
Qed.

Lemma with_messages_looks tid l : evolves looks (with_messages tid l).
Proof.
  induction l as [|c l IH]; simpl; [refine (evolves_ret _ _)|].
  apply evolves_try; [apply _|apply on_db_looks, ListByChat_same|intros stored].
  apply evolves_try; [apply _|done|intros rest]. refine (evolves_ret _ _).
Qed.

Lemma FindContacts_looks tid q : evolves looks (FindContacts tid q).
Proof.
  unfold FindContacts. case_decide; [refine (evolves_ret _ _)|].
  apply evolves_bind; [apply _|apply logged_in_client_evolves, _|].
  intros [c|]; [|refine (evolves_ret _ _)].
  apply evolves_try; [apply _|by apply ask_looks|intros book].
  apply evolves_bind; [apply _| |intros found].
  { destruct (isAllDigits _); [|refine (evolves_ret _ _)].
    apply evolves_bind; [apply _|by apply ask_looks|intros r]. refine (evolves_ret _ _). }
  apply evolves_try; [apply _|apply on_db_looks, SearchChats_same|intros stored].
  apply evolves_try; [apply _|apply on_db_looks, ChatRepo.chat_Search_same|intros named].
  apply with_messages_looks.
Qed.

Lemma with_scope_looks who required (tool : Principal → eff gateway tool_result) :
  (∀ p, evolves looks (tool p)) → evolves looks (with_scope who required tool).
Proof.
  intros Ht. unfold with_scope. destruct (requireScope who required); [apply Ht|refine (evolves_ret _ _)].
Qed.

(** C31: the read-only hint is true.  Each call is for exactly one announced
    tool, found by its name; and a tool announced as read-only, whoever calls it
    with whatever arguments and whatever fails, writes no row, no file, no
    client and no pending request, and asks WhatsApp for nothing but contacts:
    it never sends, never requests history and never downloads. *)
Theorem read_only_tools_read who c n g :
  filter (λ t, tl_Name t = tl_Name (tool_of c)) registered = [tool_of c] ∧
  (tl_ReadOnlyHint (tool_of c) = true → looks g (final (run_tool who c) n g)).
Proof.
  split; [by destruct c; vm_compute|]. intros Hro.
  enough (Hl : evolves looks (run_tool who c)) by apply Hl.
  destruct c; try discriminate Hro; unfold run_tool, run_list_chats, run_list_messages, run_find_contact;
    apply with_scope_looks; intros p.
  - apply evolves_bind; [apply _|apply on_db_looks, ListChats_same|intros r]. refine (evolves_ret _ _).
  - case_decide; [refine (evolves_ret _ _)|].
    apply evolves_bind; [apply _|apply on_db_looks, ListByChat_same|intros r]. refine (evolves_ret _ _).
  - case_decide; [refine (evolves_ret _ _)|].
    apply evolves_bind; [apply _|apply FindContacts_looks|intros r]. refine (evolves_ret _ _).
Qed.
End hints.

(** ** Witness: looking a phone number up *)

#[local] Existing Instance demo_unicode.
#[local] Existing Instance demo_oracle.
#[local] Existing Instance plain_media.
#[local] Existing Instance plain_jids.
#[local] Existing Instance plain_disk.
#[local] Existing Instance plain_texts.
#[local] Existing Instance served_clients.
#[local] Existing Instance plain_waits.
#[local] Existing Instance plain_reads.
#[local] Existing Instance demo_sessions.

Definition looked_up_run : eff gateway tool_result :=
  run_tool (Some acme) (find_contact {| fci_Query := "573004725680" |}).

Lemma read_only_tools_read_witness :
  length (g_calls (final looked_up_run 100 start)) = 2 ∧
  looks start (final looked_up_run 100 start).
Proof.
  split; [vm_compute; reflexivity|].
  exact (proj2 (read_only_tools_read demo_fetcher HistorySyncScopeDM (Some acme)
    (find_contact {| fci_Query := "573004725680" |}) 100 start) eq_refl).
Defined.
