(* ===== verification/Migrate.v ===== *)
(** * Opening and upgrading the database ([internal/store/store.go])

    [Open] and [Migrate], with the scripts of [internal/store/migrations]: the
    tables and columns each one adds, and the repair of addresses that
    [0003_canonical_addresses.sql] makes.  Indexes that only make queries
    faster are left out; the connection string is in [Host]. *)

From S2P Require Import Prelude GoText GoUnicode GoEff Models Sql Store Address StoreTheorems.

Implicit Types (m : Message) (lids : gmap string string).

(** ** The file, and the connection that has it open

    The tables of the gateway, the columns the second script adds to
    [messages], their rows, and whether the connection holds the temporary
    view that stands in for whatsmeow's index. *)
Record file := {
  f_tables : gset string;
  f_columns : gset string;
  f_view : bool;
  f_db : db;
}.

Definition set_tables (v : gset string) (f : file) : file :=
  {| f_tables := v; f_columns := f_columns f; f_view := f_view f; f_db := f_db f |}.
Definition set_columns (v : gset string) (f : file) : file :=
  {| f_tables := f_tables f; f_columns := v; f_view := f_view f; f_db := f_db f |}.
Definition set_view (v : bool) (f : file) : file :=
  {| f_tables := f_tables f; f_columns := f_columns f; f_view := v; f_db := f_db f |}.
Definition set_rows (v : db) (f : file) : file :=
  {| f_tables := f_tables f; f_columns := f_columns f; f_view := f_view f; f_db := v |}.

(** [Open]: a new connection has no temporary view, and the new repositories
    have not seen whatsmeow's index. *)
Definition Open (f : file) : file := set_view false (set_rows (set_lid_ready false (f_db f)) f).

Definition migrationsTable := "wc_schema_migrations".

(** ** The scripts *)

Definition core_tables : gset string := {["tenants"; "api_keys"; "sessions"; "messages"]}.

Definition media_columns : gset string :=
  {["direct_path"; "media_key"; "file_enc_sha256"; "file_sha256"; "file_length"; "mime_type";
    "mms_type"; "media_status"; "media_error"; "media_fetched_at"]}.

(** No WhatsApp message is stored twice for a tenant. *)
Definition no_duplicates (s : db) : bool :=
  bool_decide (map_Forall (λ i m, map_Forall (λ j o,
    m_TenantID m = m_TenantID o → m_WAMessageID m = m_WAMessageID o → i = j) (messages s))
    (messages s)).

(** [0001_init.sql]: creating the unique index checks the rows there are. *)
Definition init_script (f : file) : option file :=
  if no_duplicates (f_db f) then Some (set_tables (core_tables ∪ f_tables f) f) else None.

(** The columns [ALTER TABLE ... ADD COLUMN] adds are NULL in every row. *)
Definition without_media m : Message :=
  {| m_ID := m_ID m; m_TenantID := m_TenantID m; m_ChatJID := m_ChatJID m;
     m_SenderJID := m_SenderJID m; m_WAMessageID := m_WAMessageID m;
     m_Direction := m_Direction m; m_Body := m_Body m; m_MediaType := m_MediaType m;
     m_MediaPath := m_MediaPath m; m_DirectPath := None; m_MediaKey := None;
     m_FileEncSHA256 := None; m_FileSHA256 := None; m_MMSType := None; m_FileLength := None;
     m_MimeType := None; m_MediaStatus := None; m_MediaError := None; m_MediaFetchedAt := None;
     m_Timestamp := m_Timestamp m; m_CreatedAt := m_CreatedAt m |}.

(** [0002_media_reference.sql]: a column that exists already is an error. *)
Definition media_script (f : file) : option file :=
  if decide ("messages" ∈ f_tables f ∧ f_columns f ## media_columns)
  then Some (set_columns (media_columns ∪ f_columns f)
               (set_rows (set_messages (without_media <$> messages (f_db f)) (f_db f)) f))
  else None.

(** [0004_chats.sql] *)
Definition chats_script (f : file) : option file :=
  Some (set_tables ({["chats"]} ∪ f_tables f) f).

(** *** [0003_canonical_addresses.sql] *)

(** [substr(a, 1, instr(a, '@') - 1)], [substr(a, instr(a, '@') + 1)] and the
    user without its device *)
Definition address_user (a : string) : string :=
  match cut "@" a with Some (u, _) => u | None => "" end.
Definition address_server (a : string) : string :=
  match cut "@" a with Some (_, t) => t | None => "" end.
Definition bare_user (u : string) : string :=
  match cut ":" u with Some (v, _) => v | None => u end.

(** The row of [wc_canonical_addresses] for one column. *)
Definition repaired lids (a : string) : string :=
  let server := address_server a in
  let user := bare_user (address_user a) in
  if decide (server = "") then a
  else if decide (server = "lid") then
    match lids !! user with
    | Some pn => pn +:+ "@s.whatsapp.net"
    | None => user +:+ "@lid"
    end
  else user +:+ "@" +:+ server.

(** The first UPDATE: only the rows that move are written. *)
Definition moves lids m : Prop :=
  repaired lids (m_ChatJID m) ≠ m_ChatJID m ∨ repaired lids (m_SenderJID m) ≠ m_SenderJID m.

#[export] Instance moves_dec lids m : Decision (moves lids m).
Proof. unfold moves. apply _. Defined.

Definition repoint lids m : Message :=
  with_addresses (repaired lids (m_ChatJID m)) (repaired lids (m_SenderJID m)) (m_Direction m) m.

(** [wc_canonical_own_numbers]: the tenant's own address, from its session. *)
Definition own_address (s : db) (tenantID : string) : option string :=
  match sessions s !! tenantID ≫= s_WAJID with
  | Some jid => if decide (address_user jid = "") then None
                else Some (bare_user (address_user jid) +:+ "@s.whatsapp.net")
  | None => None
  end.

(** The second UPDATE. *)
Definition sent_by_tenant (s : db) m : Prop :=
  m_Direction m = DirectionIn ∧ own_address s (m_TenantID m) = Some (m_SenderJID m).

#[export] Instance sent_by_tenant_dec s m : Decision (sent_by_tenant s m).
Proof. unfold sent_by_tenant. apply _. Defined.

Definition mark_sent m : Message := with_addresses (m_ChatJID m) (m_SenderJID m) DirectionOut m.

Definition repair lids (s : db) : db :=
  let s := set_messages (update_where (moves lids) (repoint lids) (messages s)) s in
  set_messages (update_where (sent_by_tenant s) mark_sent (messages s)) s.

(** The index as the script sees it: a temporary view hides a table. *)
Definition visible_index (f : file) : option (gmap string string) :=
  if f_view f then Some ∅ else lid_map (f_db f).

Definition canonical_script (f : file) : option file :=
  match visible_index f with
  | None => None
  | Some lids =>
      if decide ("messages" ∈ f_tables f ∧ "sessions" ∈ f_tables f) then
        if no_duplicates (f_db f) then Some (set_rows (repair lids (f_db f)) f) else None
      else None
  end.

(** ** The runner *)

(** [migrationFS] *)
Definition migrationFS : list (string * (file → option file)) :=
  [("0001_init.sql", init_script); ("0002_media_reference.sql", media_script);
   ("0003_canonical_addresses.sql", canonical_script); ("0004_chats.sql", chats_script)].

Definition read_script (name : string) : option (file → option file) :=
  snd <$> head (filter (λ e, e.1 = name) migrationFS).

Definition migration_names : list string :=
  merge_sort text_le (filter (λ name, is_Some (strip_suffix ".sql" name)) migrationFS.*1).

(** The rows of [wc_schema_migrations]. *)
Definition ledger (f : file) : gset string := applied (f_db f).

Definition record_migration (name : string) (f : file) : option file :=
  if decide (name ∈ ledger f) then None
  else Some (set_rows (set_applied ({[name]} ∪ ledger f) (f_db f)) f).

Section runner.
Context `{Oracle}.

Definition applyMigration (name : string) : eff file (result ()) :=
  (try! applied := query (λ f, bool_decide (name ∈ ledger f))
     or Wrap ("store: check migration " +:+ name) in
   if applied : bool then ret (Ok ())
   else
     match read_script name with
     | None => ret (Err (Wrap ("store: read migration " +:+ name) (External "file does not exist")))
     | Some body =>
         transaction (Wrap ("store: begin migration " +:+ name))
                     (Wrap ("store: commit migration " +:+ name))
           (try! _ := exec (λ f, pair () <$> body f) or Wrap ("store: apply migration " +:+ name) in
            try! _ := exec (λ f, pair () <$> record_migration name f)
              or Wrap ("store: record migration " +:+ name) in
            ret (Ok ()))
     end)%go.

Fixpoint apply_all (names : list string) : eff file (result ()) :=
  (match names with
   | [] => ret (Ok ())
   | name :: names => try! _ := applyMigration name in apply_all names
   end)%go.

(** The view is created only where the table is absent; the answer is the
    cleanup. *)
Definition create_stand_in (f : file) : option (() * file) :=
  if f_view f then None else Some ((), set_view true f).

Definition drop_stand_in : eff file (result ()) :=
  (try! _ := exec (λ f, if f_view f then Some ((), set_view false f) else None)
     or Wrap "store: drop lid map stand-in" in
   ret (Ok ()))%go.

Definition ensureLIDMapReadable : eff file (result (eff file (result ()))) :=
  (try! present := zoom f_db set_rows
     (tableExists lidMapTable (λ s, bool_decide (is_Some (lid_map s)))) in
   if present : bool then ret (Ok (ret (Ok ())))
   else
     try! _ := exec create_stand_in or Wrap "store: create lid map stand-in" in
     ret (Ok drop_stand_in))%go.

Definition create_ledger (f : file) : file := set_tables ({[migrationsTable]} ∪ f_tables f) f.

(** The body of [Migrate], between the stand-in and its deferred cleanup. *)
Definition apply_migrations : eff file (result ()) :=
  (try! _ := exec (λ f, Some ((), create_ledger f)) or Wrap "store: create migrations table" in
   apply_all migration_names)%go.

Definition Migrate : eff file (result ()) :=
  (try! done_ := ensureLIDMapReadable in
   let! err := apply_migrations in
   let! cleanupErr := done_ in
   ret (match err, cleanupErr with
        | Ok _, Err e => Err e
        | err, _ => err
        end))%go.
End runner.

(** ** What a run does: a prefix of the scripts, each whole *)

Definition step (name : string) (f : file) : option file :=
  if decide (name ∈ ledger f) then Some f
  else body ← read_script name; f' ← body f; record_migration name f'.

Fixpoint steps (names : list string) (f : file) : option file :=
  match names with
  | [] => Some f
  | name :: names => f' ← step name f; steps names f'
  end.

Lemma steps_app l1 l2 f : steps (l1 ++ l2) f = steps l1 f ≫= steps l2.
Proof. revert f. induction l1 as [|x l1 IH]; intros f; simpl; [done|]. by destruct (step x f); simpl. Qed.

Lemma steps_recorded l f : (∀ name, name ∈ l → name ∈ ledger f) → steps l f = Some f.
Proof.
  induction l as [|x l IH]; simpl; [done|]. intros Hl.
  unfold step. rewrite decide_True by (apply Hl; set_solver). apply IH. set_solver.
Qed.

Section runs.
Context `{Oracle}.

Lemma applyMigration_run name n f :
  (answer (applyMigration name) n f = Ok () ∧
   step name f = Some (final (applyMigration name) n f)) ∨
  (∃ e, answer (applyMigration name) n f = Err e ∧ final (applyMigration name) n f = f ∧
     (answering → step name f = None)).
Proof.
  unfold applyMigration, step. run.
  destruct (o_sql n) eqn:E0.
  { right. eexists. split_and!; try done. intros Ha. by rewrite Ha in E0. }
  case_bool_decide as Hin; simpl; [rewrite decide_True by done; by left|].
  rewrite decide_False by done.
  destruct (read_script name) as [body|]; simpl; [|right; by eexists].
  destruct (o_sql (S n)) eqn:E1.
  { right. eexists. split_and!; try done. intros Ha. by rewrite Ha in E1. }
  simpl. destruct (o_sql (S (S n))) eqn:E2.
  { right. eexists. split_and!; try done. intros Ha. by rewrite Ha in E2. }
  destruct (body f) as [f1|]; simpl; [|right; by eexists].
  destruct (o_sql (S (S (S n)))) eqn:E3.
  { right. eexists. split_and!; try done. intros Ha. by rewrite Ha in E3. }
  destruct (record_migration name f1) as [f2|]; simpl; [|right; by eexists].
  destruct (o_sql (S (S (S (S n))))) eqn:E4; simpl; [|by left].
  right. eexists. split_and!; try done. intros Ha. by rewrite Ha in E4.
Qed.

Lemma apply_all_run names n f :
  ∃ before after, names = before ++ after ∧ steps before f = Some (final (apply_all names) n f) ∧
    ((answer (apply_all names) n f = Ok () ∧ after = []) ∨
     (∃ e, answer (apply_all names) n f = Err e ∧ (answering → steps names f = None))).
Proof.
  revert n f. induction names as [|x names IH]; intros n f.
  { exists [], []. split_and!; try done. by left. }
  simpl. unfold try. rewrite bind_final, bind_answer.
  destruct (applyMigration_run x n f) as [[-> Hs]|(e & -> & Hf & Hn)].
  - destruct (IH (next (applyMigration x) n f) (final (applyMigration x) n f))
      as (before & after & -> & Hb & Hrest).
    exists (x :: before), after. split_and!; [done|simpl; by rewrite Hs|].
    by rewrite Hs.
  - exists [], (x :: names). rewrite Hf. split_and!; try done. right. eexists.
    split; [done|]. intros Ha. by rewrite (Hn Ha).
Qed.
End runs.

(** ** Which files the gateway leaves behind *)

(** The first [k] scripts have run: the ledger, the tables, the columns and the
    rows say so. *)
Record at_stage (k : nat) (f : file) : Prop := {
  at_ledger : ledger f = list_to_set (take k migration_names);
  at_tables : f_tables f ∖ {[migrationsTable]} =
    (if decide (1 ≤ k) then core_tables else ∅) ∪ (if decide (4 ≤ k) then {["chats"]} else ∅);
  at_columns : f_columns f = if decide (2 ≤ k) then media_columns else ∅;
  at_rows : wf (f_db f);
  at_core : k = 0 → tenants (f_db f) = ∅;
  at_media : k < 2 → ∀ id m, messages (f_db f) !! id = Some m → without_media m = m;
  at_chats : k < 4 → chats (f_db f) = ∅;
}.

(** What a script may change in the rows: the addresses and the directions of
    messages, and the ledger. *)
Definition kept_rows (s : db) :=
  (tenants s, api_keys s, sessions s, chats s, lid_map s, with_addresses "" "" "" <$> messages s).

Record readdressed (f f' : file) : Prop := {
  ra_rows : kept_rows (f_db f') = kept_rows (f_db f);
  ra_view : f_view f' = f_view f;
  ra_ready : lid_ready (f_db f') = lid_ready (f_db f);
  ra_tables : f_tables f ⊆ f_tables f';
}.

#[export] Instance readdressed_preorder : PreOrder readdressed.
Proof. split; [by intros f|]. intros f1 f2 f3 [] []. split; [congruence..|set_solver]. Qed.

Lemma readdressed_visible f f' : readdressed f f' → visible_index f' = visible_index f.
Proof.
  intros [E V _ _]. unfold visible_index. rewrite V.
  assert (lid_map (f_db f') = lid_map (f_db f)) as ->; [|done].
  apply (f_equal (λ x, x.1.2)) in E. exact E.
Qed.

Lemma fmap_with_address_eq (m1 m2 : gmap string Message) :
  (∀ i, with_addresses "" "" "" <$> m1 !! i = with_addresses "" "" "" <$> m2 !! i) →
  with_addresses "" "" "" <$> m1 = with_addresses "" "" "" <$> m2.
Proof. intros Hi. apply map_eq. intros i. by rewrite !lookup_fmap. Qed.

Lemma repair_kept lids s : kept_rows (repair lids s) = kept_rows s.
Proof.
  unfold kept_rows, repair. simpl. f_equal. apply fmap_with_address_eq. intros i.
  rewrite !update_where_lookup. destruct (messages s !! i) as [m|]; simpl; [|done].
  by repeat case_decide.
Qed.

Lemma repair_lookup lids s i m :
  messages (repair lids s) !! i = Some m →
  ∃ o, messages s !! i = Some o ∧ m_ChatJID m = repaired lids (m_ChatJID o) ∧
    m_SenderJID m = repaired lids (m_SenderJID o) ∧
    m = with_addresses (m_ChatJID m) (m_SenderJID m) (m_Direction m) o ∧
    m_Direction m = (if decide (m_Direction o = DirectionIn ∧
                                own_address s (m_TenantID o) = Some (m_SenderJID m))
                     then DirectionOut else m_Direction o).
Proof.
  unfold repair. simpl. rewrite !update_where_lookup.
  destruct (messages s !! i) as [o|]; simpl; [|done].
  intros [= <-]. exists o. split; [done|].
  assert (Hm : (if decide (moves lids o) then repoint lids o else o) = repoint lids o).
  { case_decide as Hmv; [done|]. unfold moves in Hmv. unfold repoint.
    destruct (decide (repaired lids (m_ChatJID o) = m_ChatJID o)) as [->|]; [|naive_solver].
    destruct (decide (repaired lids (m_SenderJID o) = m_SenderJID o)) as [->|]; [|naive_solver].
    by destruct o. }
  rewrite Hm. clear Hm. set (s1 := set_messages _ _).
  destruct (decide (sent_by_tenant s1 (repoint lids o))) as [Hd|Hd]; split_and!; try done.
  - by rewrite decide_True by exact Hd.
  - by rewrite decide_False by exact Hd.
Qed.

Lemma repaired_empty lids a : a ≠ "" → repaired lids a ≠ "".
Proof.
  intros Ha. unfold repaired. cbv zeta. case_decide; [done|].
  assert (Hne : ∀ u t : string, u +:+ String "@" t ≠ "") by (by intros []).
  case_decide; [destruct (lids !! _)|]; apply Hne.
Qed.

(** Only the addressing of messages differs. *)
Lemma readdressed_wf s s' :
  kept_rows s' = kept_rows s → lid_ready s' = lid_ready s →
  (∀ i m, messages s' !! i = Some m → ∃ o, messages s !! i = Some o ∧
     m = with_addresses (m_ChatJID m) (m_SenderJID m) (m_Direction m) o ∧
     (m_ChatJID o ≠ "" → m_ChatJID m ≠ "") ∧
     (m_Direction m = m_Direction o ∨ m_Direction m = DirectionOut)) →
  wf s → wf s'.
Proof.
  intros Hk Hr Hm []. injection Hk as Ht Hkeys Hs Hc Hl _.
  split; rewrite ?Ht, ?Hkeys, ?Hs, ?Hc, ?Hl, ?Hr; try done.
  - intros id m (o & Ho & -> & Hne & Hd)%Hm. destruct (wf_messages _ _ Ho) as (? & ? & ? & ? & ?).
    simpl in *. split_and!; auto. destruct Hd as [-> | ->]; done.
  - intros i j m o (m' & Hm' & -> & _)%Hm (o' & Ho' & -> & _)%Hm. simpl. by eapply wf_wa_id.
Qed.

Lemma repair_wf lids s : wf s → wf (repair lids s).
Proof.
  apply readdressed_wf; [apply repair_kept|done|].
  intros i m (o & Ho & Hc & _ & Hm & Hd)%repair_lookup. exists o. split_and!; try done.
  - rewrite Hc. apply repaired_empty.
  - rewrite Hd. case_decide; auto.
Qed.

Lemma dom_update_where (P : Message → Prop) `{∀ v, Decision (P v)} f (t : gmap string Message) :
  dom (update_where P f t) = dom t.
Proof.
  apply set_eq. intros i. by rewrite !elem_of_dom, update_where_lookup, fmap_is_Some.
Qed.

Lemma repair_dom lids s : dom (messages (repair lids s)) = dom (messages s).
Proof. unfold repair. simpl. by rewrite !dom_update_where. Qed.

(** The guard of the repair holds whenever the schema does. *)
Lemma wf_no_duplicates s : wf s → no_duplicates s = true.
Proof.
  intros Hwf. apply bool_decide_eq_true_2. intros i m Hi j o Hj Ht Hw. by eapply (wf_wa_id _ Hwf).
Qed.

(** *** Each script takes its stage to the next *)

Lemma migration_names_eq : migration_names =
  ["0001_init.sql"; "0002_media_reference.sql"; "0003_canonical_addresses.sql"; "0004_chats.sql"].
Proof. vm_compute. reflexivity. Qed.

#[local] Opaque migration_names.

Lemma ledger_grows k name f :
  migration_names !! k = Some name → ledger f = list_to_set (take k migration_names) →
  {[name]} ∪ ledger f = list_to_set (take (S k) migration_names).
Proof. intros Hk ->. rewrite (take_S_r _ _ _ Hk), list_to_set_app_L. set_solver. Qed.

Lemma ledger_at k f name :
  at_stage k f → (name ∈ ledger f ↔ name ∈ take k migration_names).
Proof. intros Hf. by rewrite (at_ledger _ _ Hf), elem_of_list_to_set. Qed.

Lemma union_minus (t u : gset string) x : x ∉ t → (t ∪ u) ∖ {[x]} = t ∪ u ∖ {[x]}.
Proof. set_solver. Qed.

Lemma table_at k f (name : string) :
  at_stage k f → name ≠ migrationsTable →
  name ∈ (if decide (1 ≤ k) then core_tables else ∅) ∪ (if decide (4 ≤ k) then {["chats"]} else ∅) →
  name ∈ f_tables f.
Proof. intros Hf Hn. rewrite <- (at_tables _ _ Hf). set_solver. Qed.

Lemma step_runs k name body f f1 :
  at_stage k f → name ∉ take k migration_names → read_script name = Some body → body f = Some f1 →
  ledger f1 = ledger f →
  step name f = Some (set_rows (set_applied ({[name]} ∪ ledger f) (f_db f1)) f1).
Proof.
  intros Hf Hn Hb E Hl. unfold step. rewrite decide_False by (by rewrite (ledger_at _ _ _ Hf)).
  rewrite Hb. simpl. rewrite E. simpl. unfold record_migration.
  rewrite Hl, decide_False by (by rewrite (ledger_at _ _ _ Hf)). done.
Qed.

Ltac by_names := rewrite migration_names_eq; by_decide.

Lemma set_applied_wf a s : wf s → wf (set_applied a s).
Proof. intros []. by split. Qed.

Lemma init_step f :
  at_stage 0 f → ∃ f', step "0001_init.sql" f = Some f' ∧ at_stage 1 f' ∧ readdressed f f'.
Proof.
  intros Hf. eexists. split; [|split].
  - apply (step_runs 0 _ init_script); [done|by_names|done| |].
    + unfold init_script. by rewrite wf_no_duplicates by apply Hf.
    + done.
  - destruct Hf as [Hl Ht Hc Hw Ho Hm Hch]. split; simpl; try done.
    + by refine (ledger_grows _ _ _ _ Hl); rewrite migration_names_eq.
    + rewrite union_minus, Ht by by_decide. reflexivity.
    + by apply set_applied_wf.
    + intros _. apply Hm. lia.
    + intros _. apply Hch. lia.
  - split; try done. simpl. set_solver.
Qed.

Lemma media_step f :
  at_stage 1 f →
  ∃ f', step "0002_media_reference.sql" f = Some f' ∧ at_stage 2 f' ∧ readdressed f f'.
Proof.
  intros Hf.
  assert (Hrows : without_media <$> messages (f_db f) = messages (f_db f)).
  { apply map_eq. intros i. rewrite lookup_fmap. destruct (messages (f_db f) !! i) as [m|] eqn:E;
      [|done]. simpl. f_equal. apply (at_media _ _ Hf ltac:(lia) i m E). }
  eexists. split; [|split].
  - apply (step_runs 1 _ media_script); [done|by_names|done| |].
    + unfold media_script. rewrite decide_True; [done|]. split.
      * apply (table_at 1); [done|done|]. by_decide.
      * rewrite (at_columns _ _ Hf). simpl. set_solver.
    + done.
  - destruct Hf as [Hl Ht Hc Hw Ho Hm Hch]. split; simpl; rewrite ?Hrows; try done.
    + by refine (ledger_grows _ _ _ _ Hl); rewrite migration_names_eq.
    + rewrite Hc. simpl. set_solver.
    + apply set_applied_wf. by destruct (f_db f), Hw.
    + lia.
    + intros _. apply Hch. lia.
  - split; try done. unfold kept_rows. simpl. by rewrite Hrows.
Qed.

Lemma canonical_step f lids :
  at_stage 2 f → visible_index f = Some lids →
  ∃ f', step "0003_canonical_addresses.sql" f = Some f' ∧ at_stage 3 f' ∧ readdressed f f' ∧
    messages (f_db f') = messages (repair lids (f_db f)).
Proof.
  intros Hf Hv. eexists. split; [|split; [|split]].
  - apply (step_runs 2 _ canonical_script); [done|by_names|done| |].
    + unfold canonical_script. rewrite Hv, decide_True.
      * by rewrite wf_no_duplicates by apply Hf.
      * split; (apply (table_at 2); [done|done|by_decide]).
    + done.
  - destruct Hf as [Hl Ht Hc Hw Ho Hm Hch]. split; simpl; try done.
    + by refine (ledger_grows _ _ _ _ Hl); rewrite migration_names_eq.
    + by apply set_applied_wf, repair_wf.
    + lia.
    + intros _. apply Hch. lia.
  - split; try done. pose proof (repair_kept lids (f_db f)) as E. unfold kept_rows in *. exact E.
  - done.
Qed.

Lemma chats_step f :
  at_stage 3 f → ∃ f', step "0004_chats.sql" f = Some f' ∧ at_stage 4 f' ∧ readdressed f f'.
Proof.
  intros Hf. eexists. split; [|split].
  - by apply (step_runs 3 _ chats_script); [|by_names|..].
  - destruct Hf as [Hl Ht Hc Hw Ho Hm Hch]. split; simpl; try done.
    + by refine (ledger_grows _ _ _ _ Hl); rewrite migration_names_eq.
    + rewrite union_minus, Ht by by_decide. simpl. set_solver.
    + by apply set_applied_wf.
    + lia.
    + lia.
  - split; try done. simpl. set_solver.
Qed.

(** ** Upgrading *)

Lemma next_step k name f lids :
  at_stage k f → migration_names !! k = Some name → visible_index f = Some lids →
  ∃ f', step name f = Some f' ∧ at_stage (S k) f' ∧ readdressed f f'.
Proof.
  rewrite migration_names_eq. intros Hf Hk Hv.
  destruct k as [|[|[|[|k]]]]; simplify_eq/=.
  - by apply init_step.
  - by apply media_step.
  - destruct (canonical_step f lids Hf Hv) as (f' & ? & ? & ? & _). by exists f'.
  - by apply chats_step.
Qed.

Lemma steps_drop k f lids :
  k ≤ 4 → at_stage k f → visible_index f = Some lids →
  ∃ f', steps (drop k migration_names) f = Some f' ∧ at_stage 4 f' ∧ readdressed f f'.
Proof.
  intros Hk. remember (4 - k) as j eqn:Hj. revert k f Hk Hj. induction j as [|j IH]; intros k f Hk Hj Hf Hv.
  - assert (k = 4) as -> by lia. exists f. by rewrite migration_names_eq.
  - destruct (migration_names !! k) as [name|] eqn:En.
    2: { apply lookup_ge_None in En. rewrite migration_names_eq in En. simpl in En. lia. }
    destruct (next_step k name f lids Hf En Hv) as (f1 & Hs & Hf1 & Hr1).
    destruct (IH (S k) f1) as (f' & Hs' & Hf' & Hr'); [lia..|done| |].
    { by rewrite (readdressed_visible _ _ Hr1). }
    exists f'. split_and!; [|done|by etrans]. rewrite (drop_S _ _ _ En). simpl. by rewrite Hs.
Qed.

Lemma steps_taken k f : at_stage k f → steps (take k migration_names) f = Some f.
Proof. intros Hf. apply steps_recorded. intros name. by rewrite (ledger_at _ _ _ Hf). Qed.

(** All the scripts, whatever has run already. *)
Lemma steps_all k f lids :
  k ≤ 4 → at_stage k f → visible_index f = Some lids →
  ∃ f', steps migration_names f = Some f' ∧ at_stage 4 f' ∧ readdressed f f'.
Proof.
  intros Hk Hf Hv. destruct (steps_drop k f lids Hk Hf Hv) as (f' & Hs & Hf' & Hr).
  exists f'. split; [|done]. rewrite <- (take_drop k migration_names), steps_app, (steps_taken _ _ Hf).
  exact Hs.
Qed.

(** The first [i] scripts lead to stage [i], or stay where the file was. *)
Lemma steps_stage i k f f1 lids :
  i ≤ 4 → at_stage k f → visible_index f = Some lids → steps (take i migration_names) f = Some f1 →
  at_stage (i `max` k) f1 ∧ readdressed f f1.
Proof.
  intros Hi Hf Hv. revert f1. induction i as [|i IH]; intros f1.
  { simpl. by intros [= <-]. }
  destruct (migration_names !! i) as [name|] eqn:En.
  2: { apply lookup_ge_None in En. rewrite migration_names_eq in En. simpl in En. lia. }
  rewrite (take_S_r _ _ _ En), steps_app, bind_Some. intros (f2 & H2 & Hs).
  destruct (IH ltac:(lia) f2 H2) as [Hf2 Hr2]. clear IH.
  simpl in Hs. destruct (step name f2) as [f3|] eqn:E3; [|done]. injection Hs as <-.
  destruct (decide (i < k)) as [Hik|Hik].
  - replace (i `max` k) with k in Hf2 by lia. replace (S i `max` k) with k by lia.
    unfold step in E3. rewrite decide_True in E3; [by injection E3 as <-|].
    apply (ledger_at _ _ _ Hf2). apply list_elem_of_lookup. exists i.
    by rewrite lookup_take_lt.
  - replace (i `max` k) with i in Hf2 by lia. replace (S i `max` k) with (S i) by lia.
    destruct (next_step i name f2 lids Hf2 En) as (f4 & H4 & Hf4 & Hr4).
    { by rewrite (readdressed_visible _ _ Hr2). }
    assert (f4 = f3) as -> by congruence. split; [done|by etrans].
Qed.

(** After any prefix of the scripts, the others are still to run and they lead
    to the same file. *)
Lemma steps_prefix k f lids l1 l2 f1 :
  at_stage k f → k ≤ 4 → visible_index f = Some lids → migration_names = l1 ++ l2 →
  steps l1 f = Some f1 →
  (∃ j, j ≤ 4 ∧ at_stage j f1) ∧ readdressed f f1 ∧
  steps migration_names f1 = steps migration_names f.
Proof.
  intros Hf Hk Hv El Hs.
  assert (Hl1 : l1 = take (length l1) migration_names) by (by rewrite El, take_app_length).
  assert (Hi : length l1 ≤ 4).
  { apply (f_equal length) in El. rewrite migration_names_eq, length_app in El. simpl in El. lia. }
  pose proof Hs as Hs'. rewrite Hl1 in Hs'.
  destruct (steps_stage _ _ _ _ _ Hi Hf Hv Hs') as [Hf1 Hr].
  split_and!; [exists (length l1 `max` k); split; [lia|done]|done|].
  rewrite El, !steps_app, Hs, steps_recorded; [done|].
  intros name Hn. apply (ledger_at _ _ _ Hf1).
  rewrite Hl1 in Hn. apply list_elem_of_lookup in Hn as [j [Hj Hlt]%lookup_take_Some].
  apply list_elem_of_lookup. exists j. rewrite lookup_take_lt; [done|lia].
Qed.

(** The connection with its stand-in. *)
Definition stand_in (f : file) : file :=
  if decide (lid_map (f_db f) = None) then set_view true f else f.

(** What [Migrate] works on. *)
Definition prepared (f : file) : file := create_ledger (stand_in f).

Lemma at_stage_view k v f : at_stage k f → at_stage k (set_view v f).
Proof. intros []. by split. Qed.

Lemma at_stage_prepared k f : at_stage k f → at_stage k (prepared f).
Proof.
  intros Hf. unfold prepared, stand_in.
  assert (Hled : ∀ f, at_stage k f → at_stage k (create_ledger f)).
  { intros f' []. split; try done. simpl. rewrite <- at_tables0. set_solver. }
  case_decide; [|by apply Hled]. by apply Hled, at_stage_view.
Qed.

Lemma prepared_visible f :
  f_view f = false → ∃ lids, visible_index (prepared f) = Some lids ∧ lids = default ∅ (lid_map (f_db f)).
Proof.
  intros Hv. unfold prepared, stand_in, visible_index. case_decide as E; simpl.
  - by rewrite E; eexists.
  - rewrite Hv. destruct (lid_map (f_db f)) as [lids|]; [|done]. by exists lids.
Qed.

Lemma at_stage_Open k f : at_stage k f → at_stage k (Open f).
Proof. intros [? ? ? Hw ? ? ?]. split; try done. by destruct Hw; split. Qed.

Lemma Open_idem f : Open (Open f) = Open f.
Proof. done. Qed.

Section migrate.
Context `{Oracle}.

Lemma drop_stand_in_run f n :
  f_view f = true →
  (drop_stand_in n f = (Ok (), S n, set_view false f)) ∨
  (∃ e, drop_stand_in n f = (Err e, S n, f) ∧ ¬ answering).
Proof.
  intros Hv. unfold drop_stand_in. run. rewrite Hv.
  destruct (o_sql n) eqn:E; [right|by left]. eexists. split; [done|]. intros Ha. by rewrite Ha in E.
Qed.

Lemma apply_migrations_run f n :
  (∃ e, apply_migrations n f = (Err e, S n, f) ∧ ¬ answering) ∨
  apply_migrations n f = apply_all migration_names (S n) (create_ledger f).
Proof.
  unfold apply_migrations, try, bind, exec.
  destruct (o_sql n) eqn:E; [left|by right].
  eexists. split; [done|]. intros Ha. by rewrite Ha in E.
Qed.

Lemma ensure_run f n :
  f_view f = false →
  (∃ e n', ensureLIDMapReadable n f = (Err e, n', f) ∧ ¬ answering) ∨
  (lid_map (f_db f) ≠ None ∧ ensureLIDMapReadable n f = (Ok (ret (Ok ())), S n, f)) ∨
  (lid_map (f_db f) = None ∧ ensureLIDMapReadable n f = (Ok drop_stand_in, S (S n), set_view true f)).
Proof.
  intros Hv. unfold ensureLIDMapReadable, tableExists, zoom, create_stand_in. run.
  assert (Hset : set_rows (f_db f) f = f) by (by destruct f).
  destruct (o_sql n) eqn:E0; simpl.
  { left. rewrite Hset. eexists _, _. split; [done|]. intros Ha. by rewrite Ha in E0. }
  case_bool_decide as Hl; simpl; rewrite Hset.
  { right; left. split; [by destruct Hl as [? ->]|done]. }
  rewrite Hv. destruct (o_sql (S n)) eqn:E1.
  - left. eexists _, _. split; [done|]. intros Ha. by rewrite Ha in E1.
  - right; right. split; [|done]. by apply eq_None_not_Some.
Qed.

(** The body runs a prefix of the scripts, all of them when the driver answers. *)
Definition ran_a_prefix (f g : file) (r : result ()) : Prop :=
  ∃ l1 l2, migration_names = l1 ++ l2 ∧ steps l1 (create_ledger f) = Some g ∧
    (r = Ok () → l2 = []) ∧
    (answering → is_Some (steps migration_names (create_ledger f)) → r = Ok ()).

Lemma apply_migrations_cases f n :
  let '(r, _, g) := apply_migrations n f in
  (g = f ∧ (∃ e, r = Err e) ∧ ¬ answering) ∨ ran_a_prefix f g r.
Proof.
  destruct (apply_migrations_run f n) as [(e & -> & Ha)| ->]; [left; by eauto|].
  destruct (apply_all_run migration_names (S n) (create_ledger f)) as (l1 & l2 & El & Hs & Hr).
  unfold answer, final in *. destruct (apply_all _ _ _) as [[r n'] g]. simpl in *.
  right. exists l1, l2. split_and!; [done..|by destruct Hr as [[-> ->]|(e & -> & _)]|].
  intros Ha [f' Hf']. destruct Hr as [[-> ->]|(e & -> & Hno)]; [done|].
  by rewrite Hno in Hf' by done.
Qed.

Lemma ran_a_prefix_view k f g r :
  at_stage k f → k ≤ 4 → f_view f = false → ran_a_prefix (stand_in f) g r →
  f_view g = f_view (stand_in f).
Proof.
  intros Hf Hk Hv (l1 & l2 & El & Hs & _). destruct (prepared_visible f Hv) as (lids & Hvis & _).
  destruct (steps_prefix k (prepared f) lids l1 l2 g) as (_ & Hr & _); try done.
  { by apply at_stage_prepared. }
  apply (ra_view _ _ Hr).
Qed.

Lemma ran_a_prefix_outcome f g r r' :
  ran_a_prefix f g r → (r' = Ok () → r = Ok ()) → (answering → r' = r) → ran_a_prefix f g r'.
Proof.
  intros (l1 & l2 & El & Hs & Hok & Hr) Hi E. exists l1, l2. split_and!; [done..|auto|].
  intros Ha Hall. rewrite E by done. by apply Hr.
Qed.

(** The state of the file whatever fails on the way, and the outcome when
    nothing does. *)
Lemma Migrate_run k f n :
  at_stage k f → k ≤ 4 → f_view f = false →
  (Open (final Migrate n f) = Open f ∧ (∃ e, answer Migrate n f = Err e) ∧ ¬ answering) ∨
  ∃ g, ran_a_prefix (stand_in f) g (answer Migrate n f) ∧ Open (final Migrate n f) = Open g ∧
    (answer Migrate n f = Ok () → final Migrate n f = set_view false g).
Proof.
  intros Hf Hk Hv. pose proof (ensure_run f n Hv) as He.
  destruct He as [(e & n' & E & Ha)|[[Hl E]|[Hl E]]].
  - left. unfold final, answer, Migrate, try. rewrite (bind_run _ _ _ _ _ _ _ E). by eauto.
  - assert (Est : stand_in f = f) by (by unfold stand_in; case_decide).
    pose proof (ran_a_prefix_view k f) as Hview. rewrite Est in Hview |- *.
    pose proof (apply_migrations_cases f (S n)) as Hc.
    unfold answer, final, Migrate, try. rewrite (bind_run _ _ _ _ _ _ _ E).
    destruct (apply_migrations (S n) f) as [[r n1] g] eqn:Eb.
    rewrite (bind_run _ _ _ _ _ _ _ Eb). unfold bind, ret. simpl.
    destruct Hc as [(-> & [e ->] & Ha)|Hc]; [left; by eauto|].
    right. exists g. split_and!; [by destruct r|done|].
    intros _. rewrite Hv in Hview. specialize (Hview g r Hf Hk eq_refl Hc).
    destruct g. simpl in *. by subst.
  - assert (Est : stand_in f = set_view true f) by (by unfold stand_in; case_decide).
    pose proof (ran_a_prefix_view k f) as Hview. rewrite Est in Hview |- *.
    pose proof (apply_migrations_cases (set_view true f) (S (S n))) as Hc.
    unfold answer, final, Migrate, try. rewrite (bind_run _ _ _ _ _ _ _ E).
    destruct (apply_migrations (S (S n)) (set_view true f)) as [[r n1] g] eqn:Eb.
    rewrite (bind_run _ _ _ _ _ _ _ Eb).
    assert (Hg : f_view g = true).
    { destruct Hc as [(-> & _)|Hc]; [done|]. apply (Hview g r Hf Hk Hv Hc). }
    destruct (drop_stand_in_run g n1 Hg) as [Ed|(e & Ed & Ha)];
      rewrite (bind_run _ _ _ _ _ _ _ Ed); unfold ret; simpl;
      (destruct Hc as [(-> & [e' ->] & Hna)|Hc]; [left; by eauto|]); right; exists g;
      (split_and!; [|done|by destruct r]).
    + by destruct r.
    + by apply (ran_a_prefix_outcome _ _ _ _ Hc); [destruct r|intros ?].
Qed.

(** Whatever fails, the file is at some stage with the rows it had; success
    means the last stage. *)
Lemma Migrate_outcome k f n :
  at_stage k f → k ≤ 4 → f_view f = false →
  (∃ j, j ≤ 4 ∧ at_stage j (Open (final Migrate n f))) ∧
  kept_rows (f_db (final Migrate n f)) = kept_rows (f_db f) ∧
  (answer Migrate n f = Ok () →
     at_stage 4 (final Migrate n f) ∧ f_view (final Migrate n f) = false).
Proof.
  intros Hf Hk Hv. destruct (prepared_visible f Hv) as (lids & Hvis & _).
  assert (Hopen : ∀ f1, kept_rows (f_db (Open f1)) = kept_rows (f_db f1)) by done.
  rewrite <- (Hopen (final Migrate n f)).
  destruct (Migrate_run k f n Hf Hk Hv)
    as [(-> & [e ->] & _)|(g & (l1 & l2 & El & Hg & Hall & _) & -> & Hfin)].
  - split_and!; [|done..]. exists k. split; [done|by apply at_stage_Open].
  - destruct (steps_prefix k (prepared f) lids l1 l2 g) as ((j & Hj & Hstage) & Hr & _); try done.
    { by apply at_stage_prepared. }
    split_and!.
    + exists j. split; [done|by apply at_stage_Open].
    + rewrite Hopen, (ra_rows _ _ Hr). unfold prepared, stand_in. by case_decide.
    + intros Hok. rewrite (Hfin Hok). split; [|done]. apply at_stage_view.
      rewrite (Hall Hok), app_nil_r in El. subst l1.
      destruct (steps_all k (prepared f) lids Hk (at_stage_prepared _ _ Hf) Hvis) as (g' & Hs' & Hg' & _).
      fold (prepared f) in Hg. congruence.
Qed.

(** With a driver that answers, every script has run and the stand-in is gone. *)
Lemma Migrate_answering k f n :
  at_stage k f → k ≤ 4 → f_view f = false → answering →
  ∃ f', steps migration_names (prepared f) = Some f' ∧ at_stage 4 f' ∧ readdressed (prepared f) f' ∧
    answer Migrate n f = Ok () ∧ final Migrate n f = set_view false f'.
Proof.
  intros Hf Hk Hv Ha. destruct (prepared_visible f Hv) as (lids & Hvis & _).
  destruct (steps_all k (prepared f) lids Hk (at_stage_prepared _ _ Hf) Hvis) as (f' & Hs & Hf' & Hr).
  exists f'. destruct (Migrate_run k f n Hf Hk Hv) as [(_ & _ & Hna)|(g & (l1 & l2 & El & Hg & Hall & Hdone) & _ & Hfin)];
    [done|].
  pose proof (Hdone Ha (ex_intro _ f' Hs)) as Hok. rewrite (Hall Hok) in El. rewrite app_nil_r in El. subst l1.
  fold (prepared f) in Hg. rewrite Hs in Hg. injection Hg as <-. by rewrite (Hfin Hok).
Qed.

(** Opening the file again and preparing it gives the file back. *)
Lemma prepared_Open f g :
  f_view f = false → lid_ready (f_db f) = false → readdressed (prepared f) g → prepared (Open g) = g.
Proof.
  intros Hv Hready [Hrows Hview Hr Ht].
  assert (Hin : {[migrationsTable]} ∪ f_tables g = f_tables g) by (simpl in Ht; set_solver).
  assert (Hl : lid_map (f_db g) = lid_map (f_db f)).
  { apply (f_equal (λ x, x.1.2)) in Hrows. simpl in Hrows. rewrite Hrows.
    unfold stand_in. by case_decide. }
  assert (Hr' : lid_ready (f_db g) = false).
  { rewrite Hr. unfold prepared, stand_in. by case_decide. }
  assert (Hg : f_view g = bool_decide (lid_map (f_db f) = None)).
  { rewrite Hview. unfold prepared, stand_in. case_decide; simpl;
      [by rewrite bool_decide_eq_true_2|by rewrite bool_decide_eq_false_2]. }
  clear Hrows Hview Hr Ht. unfold prepared, stand_in.
  destruct g as [gt gc gv [] ]; simpl in *. subst lid_map lid_ready gv.
  case_decide; unfold create_ledger, set_tables; simpl; rewrite Hin.
  - by rewrite bool_decide_eq_true_2.
  - by rewrite bool_decide_eq_false_2.
Qed.

Lemma complete_tables g :
  at_stage 4 g → migrationsTable ∈ f_tables g →
  f_tables g = core_tables ∪ {["chats"; migrationsTable]}.
Proof.
  intros Hg Hin. rewrite (union_difference_singleton_L _ _ Hin), (at_tables _ _ Hg).
  rewrite !decide_True by lia. set_solver.
Qed.

(** C36: an upgrade completes.  From any file an earlier version of the gateway
    may have left, [Migrate] succeeds when the driver answers: every table and
    column is there, the ledger names every script, the stand-in for
    whatsmeow's index is gone, the constraints hold, and the rows are the ones
    there were but for the addresses and directions of messages.  Running it
    again, as every start does, changes nothing. *)
Theorem Migrate_upgrades k f n :
  at_stage k f → k ≤ 4 → answering →
  answer Migrate n (Open f) = Ok () ∧
  let f' := final Migrate n (Open f) in
  f_tables f' = core_tables ∪ {["chats"; migrationsTable]} ∧ f_columns f' = media_columns ∧
  ledger f' = list_to_set migrationFS.*1 ∧ f_view f' = false ∧ wf (f_db f') ∧
  kept_rows (f_db f') = kept_rows (f_db f) ∧
  ∀ n', answer Migrate n' (Open f') = Ok () ∧ final Migrate n' (Open f') = f'.
Proof.
  intros Hf Hk Ha.
  destruct (Migrate_answering k (Open f) n (at_stage_Open _ _ Hf) Hk eq_refl Ha)
    as (g & Hs & Hg & Hr & Hok & Hfin). rewrite Hfin. split; [done|]. cbv zeta.
  assert (Hopen : Open (set_view false g) = set_view false g).
  { pose proof (ra_ready _ _ Hr) as E. destruct g as [gt gc gv [] ]; simpl in *. unfold Open. simpl.
    rewrite E. unfold stand_in. by case_decide. }
  split_and!; try done; try apply Hg.
  - apply (complete_tables g Hg), (ra_tables _ _ Hr). simpl. set_solver.
  - simpl. rewrite (ra_rows _ _ Hr). unfold prepared, stand_in. by case_decide.
  - intros n'. rewrite Hopen.
    destruct (Migrate_answering 4 (set_view false g) n') as (g' & Hs' & _ & _ & -> & ->); try done.
    { by apply at_stage_view. }
    split; [done|]. rewrite <- Hopen in Hs'. change (Open (set_view false g)) with (Open g) in Hs'.
    rewrite (prepared_Open (Open f) g eq_refl eq_refl Hr) in Hs'.
    rewrite (steps_recorded migration_names) in Hs'; [by injection Hs' as <-|].
    intros name. rewrite (ledger_at _ _ _ Hg), migration_names_eq. done.
Qed.
End migrate.

(** C35: an interrupted upgrade is picked up.  Whatever statements of a first
    start fail, the next start whose driver answers completes the upgrade, and
    the file it leaves is the one an upgrade without any failure leaves. *)
Theorem interrupted_upgrade_completes (o1 o2 : Oracle) k f n1 n2 n3 :
  at_stage k f → k ≤ 4 → answering (H := o2) →
  let interrupted := final (Migrate (H := o1)) n1 (Open f) in
  answer (Migrate (H := o2)) n2 (Open interrupted) = Ok () ∧
  final (Migrate (H := o2)) n2 (Open interrupted) = final (Migrate (H := o2)) n3 (Open f).
Proof.
  intros Hf%at_stage_Open Hk Ha interrupted.
  destruct (Migrate_answering k (Open f) n3 Hf Hk eq_refl Ha) as (g & Hs & Hg & Hr & _ & ->).
  destruct (Migrate_run (H := o1) k (Open f) n1 Hf Hk eq_refl)
    as [(E & _)|(f1 & (l1 & l2 & El & Hf1 & _) & E & _)]; fold interrupted in E; rewrite E.
  - rewrite Open_idem.
    destruct (Migrate_answering k (Open f) n2 Hf Hk eq_refl Ha) as (g' & Hs' & _ & _ & -> & ->).
    split; [done|]. congruence.
  - destruct (prepared_visible (Open f) eq_refl) as (lids & Hvis & _).
    destruct (steps_prefix k (prepared (Open f)) lids l1 l2 f1) as ((j & Hj & Hstage) & Hr1 & Hsame);
      try done. { by apply at_stage_prepared. }
    destruct (Migrate_answering j (Open f1) n2 (at_stage_Open _ _ Hstage) Hj eq_refl Ha)
      as (g' & Hs' & _ & _ & -> & ->).
    split; [done|]. rewrite (prepared_Open (Open f) f1 eq_refl eq_refl Hr1), Hsame, Hs in Hs'. congruence.
Qed.

(** ** The repair of addresses *)

Lemma bare_user_cut u v w : cut ":" u = Some (v, w) → bare_user u = v.
Proof. unfold bare_user. by intros ->. Qed.

Lemma bare_user_plain u : has_byte ":" (bare_user u) = false.
Proof.
  unfold bare_user. destruct (cut ":" u) as [[v w]|] eqn:E.
  - by apply cut_Some in E as [_ ?].
  - by apply cut_None.
Qed.

Lemma bare_user_bare u : has_byte ":" u = false → bare_user u = u.
Proof. unfold bare_user. intros H%cut_None. by rewrite H. Qed.

Lemma bare_user_no_at a : has_byte "@" (bare_user (address_user a)) = false.
Proof.
  unfold bare_user, address_user. destruct (cut "@" a) as [[u t]|] eqn:E; [|done].
  apply cut_Some in E as [_ Hu]. destruct (cut ":" u) as [[v w]|] eqn:Ec; [|done].
  apply cut_Some in Ec as [-> _]. rewrite has_byte_app in Hu. by apply orb_false_iff in Hu as [? _].
Qed.

(** An address put together again from a user without device. *)
Lemma address_parts u t :
  has_byte "@" u = false → has_byte ":" u = false →
  address_server (u +:+ "@" +:+ t) = t ∧ bare_user (address_user (u +:+ "@" +:+ t)) = u.
Proof.
  intros Ha Hc. unfold address_server, address_user.
  change ("@" +:+ t) with (String "@" t). rewrite cut_app by done. split; [done|].
  by apply bare_user_bare.
Qed.

Section repair.
Context (lids : gmap string string) (Hlids : lid_map_ok lids).

Lemma repaired_parts u t :
  has_byte "@" u = false → has_byte ":" u = false → t ≠ "" →
  repaired lids (u +:+ "@" +:+ t) =
  if decide (t = "lid")
  then match lids !! u with Some pn => pn +:+ "@s.whatsapp.net" | None => u +:+ "@lid" end
  else u +:+ "@" +:+ t.
Proof.
  intros Ha Hc Ht. unfold repaired. cbv zeta. destruct (address_parts u t Ha Hc) as [-> ->].
  by rewrite decide_False by done.
Qed.

Lemma repaired_idem a : repaired lids (repaired lids a) = repaired lids a.
Proof.
  pose proof (bare_user_no_at a) as Ha. pose proof (bare_user_plain (address_user a)) as Hc.
  unfold repaired at 2 3. cbv zeta. case_decide as Hs; [by unfold repaired; rewrite decide_True|].
  set (u := bare_user (address_user a)) in *.
  case_decide as Hl.
  - destruct (lids !! u) as [pn|] eqn:E.
    + destruct (lid_bare _ Hlids _ _ E) as [_ (_ & Hpa & Hpc)].
      change (pn +:+ "@s.whatsapp.net") with (pn +:+ "@" +:+ "s.whatsapp.net").
      by rewrite repaired_parts.
    + change (u +:+ "@lid") with (u +:+ "@" +:+ "lid"). rewrite repaired_parts by done.
      by rewrite decide_True, E.
  - rewrite repaired_parts by done. by rewrite decide_False.
Qed.

(** On an address with a user and a server the script and the queries agree. *)
Lemma repaired_canonical a u t :
  splitAddress a = Some (u, t) → repaired lids a = canonical lids (nonADAddress a).
Proof.
  intros E. unfold nonADAddress. rewrite E. pose proof (splitAddress_Some _ _ _ E) as [Hbare _].
  revert E. unfold splitAddress, repaired, address_user, address_server.
  destruct (cut "@" a) as [[v s]|]; [|done]. case_decide as Hne; [done|].
  fold (bare_user v). cbv zeta. case_decide as Hu; [done|]. intros [= <- <-].
  rewrite decide_False by naive_solver. case_decide as Hl.
  - rewrite Hl. change "lid" with lidServer. rewrite canonical_lid. by destruct (lids !! _).
  - destruct (canonical_cases lids (bare_user v +:+ "@" +:+ s)) as [->|(l & p & Hlp & Ea & _)]; [done|].
    destruct (lid_bare _ Hlids _ _ Hlp) as [Hbl _].
    apply bare_inj in Ea as [_ ->]; naive_solver.
Qed.

(** The rows that the second UPDATE finds are gone after it. *)
Lemma repair_done s : update_where (moves lids) (repoint lids) (messages (repair lids s)) =
    messages (repair lids s) ∧
  update_where (sent_by_tenant (repair lids s)) mark_sent (messages (repair lids s)) =
    messages (repair lids s).
Proof.
  split; apply map_eq; intros i; rewrite update_where_lookup;
    (destruct (messages (repair lids s) !! i) as [m|] eqn:E; [|done]); simpl;
    (case_decide as Hm; [|done]).
  - apply repair_lookup in E as (o & _ & Hc & Hs & _). destruct Hm as [Hm|Hm]; exfalso; apply Hm.
    + by rewrite Hc, repaired_idem.
    + by rewrite Hs, repaired_idem.
  - exfalso. destruct Hm as [Hd Ho]. revert E. unfold repair. cbv zeta. simpl.
    rewrite update_where_lookup. destruct (update_where _ _ _ !! i) as [o|]; [|done]. simpl.
    case_decide as Hsent; intros [= <-]; [done|]. by apply Hsent.
Qed.

Lemma repair_idem s : repair lids (repair lids s) = repair lids s.
Proof.
  destruct (repair_done s) as [H1 H2]. unfold repair at 1. cbv zeta.
  rewrite H1. set (s' := repair lids s) in *.
  assert (E : set_messages (messages s') s' = s') by (by destruct s'). by rewrite E, H2.
Qed.
End repair.

(** C37: the repair of the third script puts every row where the gateway now
    reads and writes it.  A chat or a sender that has a user and a server
    becomes the canonical address of the same person, so a row is found under
    an address exactly when it carries that address's canonical form; an
    address the index does not know keeps its LID.  A received message of the
    tenant's own number becomes a sent one, no other direction changes, no row
    is lost or gained, and repairing again changes nothing. *)
Theorem repair_makes_canonical lids s i m :
  lid_map_ok lids → messages (repair lids s) !! i = Some m →
  ∃ o, messages s !! i = Some o ∧ m = with_addresses (m_ChatJID m) (m_SenderJID m) (m_Direction m) o ∧
    (is_Some (splitAddress (m_ChatJID o)) →
       m_ChatJID m = canonical lids (nonADAddress (m_ChatJID o)) ∧
       ∀ a, nonADAddress a = a → (m_ChatJID m ∈ aliases_of lids a ↔ m_ChatJID m = canonical lids a)) ∧
    (is_Some (splitAddress (m_SenderJID o)) →
       m_SenderJID m = canonical lids (nonADAddress (m_SenderJID o))) ∧
    m_Direction m = (if decide (m_Direction o = DirectionIn ∧
                                own_address s (m_TenantID o) = Some (m_SenderJID m))
                     then DirectionOut else m_Direction o) ∧
    dom (messages (repair lids s)) = dom (messages s) ∧ repair lids (repair lids s) = repair lids s.
Proof.
  intros Hl Hm. destruct (repair_lookup lids s i m Hm) as (o & Ho & Hc & Hs & Hw & Hd).
  exists o. split_and!; [done|done| | |done|apply repair_dom|by apply repair_idem].
  - intros [[u t] E]. pose proof (repaired_canonical lids Hl _ _ _ E) as Hcan.
    rewrite Hc. split; [done|]. intros a Ha.
    rewrite <- (aliases_canonical lids Hl a _ Ha), Hcan, canonical_idem. done.
  - intros [[u t] E]. rewrite Hs. by eapply repaired_canonical.
Qed.

(** ** Witnesses: the file of a gateway that has run two scripts *)

Definition old_file : file :=
  {| f_tables := core_tables ∪ {[migrationsTable]}; f_columns := media_columns; f_view := false;
     f_db := set_applied {["0001_init.sql"; "0002_media_reference.sql"]} demo_db |}.

Lemma old_file_stage : at_stage 2 old_file.
Proof.
  split; [| |reflexivity| | | |].
  all: try (intros; lia).
  - unfold ledger, old_file. cbn [f_db applied set_applied]. rewrite migration_names_eq.
    vm_compute. reflexivity.
  - rewrite decide_True, decide_False by lia. vm_compute. reflexivity.
  - apply set_applied_wf, demo_wf.
  - intros _. vm_compute. reflexivity.
Qed.

Lemma Migrate_upgrades_witness :
  let f' := final (Migrate (H := demo_oracle)) 5 (Open old_file) in
  answer (Migrate (H := demo_oracle)) 5 (Open old_file) = Ok () ∧
  "chats" ∈ f_tables f' ∧ answer (Migrate (H := demo_oracle)) 90 (Open f') = Ok ().
Proof.
  destruct (Migrate_upgrades (H := demo_oracle) 2 old_file 5 old_file_stage ltac:(lia) demo_answering)
    as (Hok & Ht & _ & _ & _ & _ & _ & Hagain).
  intros f'. split; [exact Hok|]. split; [|apply (Hagain 90)].
  fold f' in Ht. rewrite Ht. by_decide.
Defined.

(** The commit of the third script fails. *)
Definition failing_oracle : Oracle :=
  {| o_sql n := if decide (n = 8) then Some "disk I/O error" else None;
     o_constraint := o_constraint (Oracle := demo_oracle); o_now := o_now (Oracle := demo_oracle);
     o_uuid := o_uuid (Oracle := demo_oracle); o_rand := o_rand (Oracle := demo_oracle) |}.

Lemma interrupted_upgrade_completes_witness :
  let interrupted := final (Migrate (H := failing_oracle)) 0 (Open old_file) in
  (∃ e, answer (Migrate (H := failing_oracle)) 0 (Open old_file) = Err e) ∧
  final (Migrate (H := demo_oracle)) 40 (Open interrupted) =
  final (Migrate (H := demo_oracle)) 70 (Open old_file).
Proof.
  intros interrupted. split; [vm_compute; eauto|].
  apply (interrupted_upgrade_completes failing_oracle demo_oracle 2 old_file 0 40 70
           old_file_stage ltac:(lia) demo_answering).
Defined.

Lemma repair_makes_canonical_witness :
  m_ChatJID <$> messages (repair (lids demo_db) demo_db) !! "id-7" =
    Some (canonical (lids demo_db) "15285906083900@lid").
Proof.
  destruct (messages (repair (lids demo_db) demo_db) !! "id-7") as [m|] eqn:E.
  - destruct (repair_makes_canonical (lids demo_db) demo_db "id-7" m demo_lids_ok E)
      as (o & Ho & _ & Hchat & _).
    assert (Hc : m_ChatJID o = "15285906083900@lid").
    { apply (f_equal (fmap m_ChatJID)) in Ho. vm_compute in Ho. by injection Ho. }
    rewrite Hc in Hchat. destruct Hchat as [Hcan _]; [by eexists|]. simpl. by rewrite Hcan.
  - exfalso. apply (f_equal (fmap m_ChatJID)) in E. vm_compute in E. discriminate E.
Defined.
