(* ===== verification/Host.v ===== *)
(** * The host of the process ([buildDSN] and [Open] of [internal/store/store.go])

    What outlives a process: the databases, by the path they are opened under,
    and the directories.  The database in memory belongs to the process that
    opened it.  [filepath.Abs] reads the working directory, which is the
    environment's; a path with a character that an URI reserves ([?], [#] or
    [%]) is outside the model, because [buildDSN] does not escape it. *)

From S2P Require Import Prelude GoText GoUnicode GoEff Models Store Config MediaPath Gateway Migrate.

(** ** The connection string *)

(** [url.QueryEscape] *)
Fixpoint QueryEscape (s : string) : string :=
  match s with
  | EmptyString => ""
  | String c s =>
      (if unreserved c then String c ""
       else if decide (c = " "%char) then "+"
       else percent c)
      +:+ QueryEscape s
  end.

(** [url.Values.Encode] of the values of one key. *)
Definition Encode (key : string) (values : list string) : string :=
  join_with "&" ((λ v, QueryEscape key +:+ "=" +:+ QueryEscape v) <$> values).

(** Which database a path names. *)
Inductive database := Memory | OnDisk (path : string).

Definition pragmas : list string :=
  ["busy_timeout(5000)"; "foreign_keys(1)"; "journal_mode(WAL)"; "synchronous(NORMAL)"].

Definition dsn_text (d : database) : string :=
  match d with
  | Memory => "file::memory:?cache=shared&" +:+ Encode "_pragma" pragmas
  | OnDisk abs => "file:" +:+ abs +:+ "?" +:+ Encode "_pragma" pragmas
  end.

Definition in_memory (path : string) : bool :=
  bool_decide (path = "" ∨ is_Some (strip_suffix ":memory:" path)).

Example dsn_of_memory :
  dsn_text Memory = "file::memory:?cache=shared&_pragma=busy_timeout%285000%29&_pragma=foreign_keys%281%29&_pragma=journal_mode%28WAL%29&_pragma=synchronous%28NORMAL%29".
Proof. reflexivity. Qed.

(** ** The host *)

Record host := {
  h_databases : gmap string file;
  (** the database in memory of the running process *)
  h_memory : file;
  h_nodes : gmap string node;
}.

(** A database nobody has opened yet. *)
Definition new_file : file :=
  {| f_tables := ∅; f_columns := ∅; f_view := false; f_db := empty_db |}.

Definition mounted (d : database) (h : host) : file :=
  match d with
  | Memory => h_memory h
  | OnDisk path => default new_file (h_databases h !! path)
  end.

Definition remount (d : database) (f : file) (h : host) : host :=
  match d with
  | Memory => {| h_databases := h_databases h; h_memory := f; h_nodes := h_nodes h |}
  | OnDisk path => {| h_databases := <[path := f]> (h_databases h); h_memory := h_memory h;
                      h_nodes := h_nodes h |}
  end.

Definition set_nodes (v : gmap string node) (h : host) : host :=
  {| h_databases := h_databases h; h_memory := h_memory h; h_nodes := v |}.

(** The working directory, and what opening and pinging the database, and
    [container.Upgrade], do. *)
Class Machine := {
  o_cwd : nat → result string;
  o_open_db : nat → option string;
  o_upgrade : nat → option string;
  (** whatsmeow's index after its upgrade *)
  o_index : nat → option (gmap string string) → gmap string string;
}.

Section host.
Context `{Oracle} `{Disk} `{!Machine}.

(** [filepath.Abs] *)
Definition Abs {St} (path : string) : eff St (result string) :=
  if is_rooted path then ret (Ok (Clean path))
  else (try! wd := draw o_cwd in ret (Ok (Join2 wd path)))%go.

Definition buildDSN {St} (path : string) : eff St (result database) :=
  if in_memory path then ret (Ok Memory)
  else (try! abs := Abs path or Wrap "store: resolve database path" in ret (Ok (OnDisk abs)))%go.

(** [os.MkdirAll] on the host's directories *)
Definition mkdir (path : string) : eff host (result ()) := λ n h,
  match o_mkdir n, h_nodes h !! path with
  | Some text, _ => (Err (External text), S n, h)
  | None, Some (File _) => (Err (External "not a directory"), S n, h)
  | None, Some Directory => (Ok (), S n, h)
  | None, None => (Ok (), S n, set_nodes (<[path := Directory]> (h_nodes h)) h)
  end.

(** [store.Open] *)
Definition ping (d : database) : eff host (result ()) := λ n h,
  match o_open_db n with
  | Some text => (Err (External text), S n, h)
  | None =>
      let found := match d with Memory => new_file | OnDisk _ => mounted d h end in
      (Ok (), S n, remount d (Open found) h)
  end.

Definition open_db (path : string) : eff host (result database) :=
  (try! d := buildDSN path in
   try! _ := ping d or Wrap "store: ping database" in
   ret (Ok d))%go.
End host.

(** ** What a later process finds *)

(** The rows of the gateway, without whatsmeow's index, the ledger, and the
    addresses and directions an upgrade repairs. *)
Definition own_rows (s : db) : db :=
  {| tenants := tenants s; api_keys := api_keys s; sessions := sessions s;
     messages := with_addresses "" "" "" <$> messages s; chats := chats s;
     lid_map := None; lid_ready := false; applied := ∅ |}.

Lemma kept_own s s' : kept_rows s' = kept_rows s → own_rows s' = own_rows s.
Proof. unfold own_rows, kept_rows. congruence. Qed.

(** Every row of [s] is still in [s']: a tenant as it was, a key with its
    tenant, its hash, its scopes and, once revoked, its revocation, a session
    of the same tenant, a message with the same content. *)
Definition lasts (s s' : db) : Prop := db_le (own_rows s) (own_rows s').

#[export] Instance lasts_preorder : PreOrder lasts.
Proof. split; [by intros s; unfold lasts|]. intros s1 s2 s3. unfold lasts. apply transitivity. Qed.

Lemma own_rows_lasts s s' : own_rows s' = own_rows s → lasts s s'.
Proof. unfold lasts. by intros ->. Qed.

Lemma db_le_lasts s s' : db_le s s' → lasts s s'.
Proof.
  intros []. split; try done. simpl. intros i m Hm. rewrite lookup_fmap in Hm.
  destruct (messages s !! i) as [m0|] eqn:E; [|done]. injection Hm as <-.
  destruct (le_messages i m0 E) as (m' & E' & Hsame). exists (with_addresses "" "" "" m').
  rewrite lookup_fmap, E'. split; [done|]. unfold same_message in *. by rewrite Hsame at 1.
Qed.

(** A database a process can be started on: one that some of the upgrades
    have reached. *)
Definition bootable (f : file) : Prop := ∃ j, j ≤ 4 ∧ at_stage j (Open f).

Definition all_bootable (h : host) : Prop := map_Forall (λ _ f, bootable f) (h_databases h).

Lemma new_file_stage : at_stage 0 new_file.
Proof. by split. Qed.

Lemma new_file_bootable : bootable new_file.
Proof. exists 0. split; [lia|apply at_stage_Open, new_file_stage]. Qed.

(** What a process may do to the databases of the host: those it found stay
    bootable, and keep what they hold. *)
Record host_le (h h' : host) : Prop := {
  hl_bootable : all_bootable h → all_bootable h';
  hl_lasts : ∀ p f, h_databases h !! p = Some f →
    ∃ f', h_databases h' !! p = Some f' ∧ lasts (f_db f) (f_db f');
}.

#[export] Instance host_le_preorder : PreOrder host_le.
Proof.
  split.
  - intros h. split; [done|]. intros p f Hf. by exists f.
  - intros h1 h2 h3 [B1 L1] [B2 L2]. split; [auto|]. intros p f Hf.
    destruct (L1 p f Hf) as (f2 & Hf2 & H12). destruct (L2 p f2 Hf2) as (f3 & Hf3 & H23).
    exists f3. split; [done|by etrans].
Qed.

Lemma mounted_remount d f h : mounted d (remount d f h) = f.
Proof. destruct d; [done|]. simpl. by rewrite lookup_insert_eq. Qed.

Lemma mounted_set_nodes d v h : mounted d (set_nodes v h) = mounted d h.
Proof. by destruct d. Qed.

Lemma host_le_nodes v h : host_le h (set_nodes v h).
Proof. split; [done|]. intros p f Hf. by exists f. Qed.

Lemma host_le_remount d f h :
  bootable f → lasts (f_db (mounted d h)) (f_db f) → host_le h (remount d f h).
Proof.
  intros Hf Hl. destruct d as [|path]; simpl in *; [split; [done|intros p g Hg; by exists g]|].
  split.
  - intros Hall p g. simpl. intros [[<- <-]|[_ Hg]]%lookup_insert_Some; [done|by eapply Hall].
  - intros p g Hg. simpl. destruct (decide (p = path)) as [->|Hne].
    + exists f. rewrite lookup_insert_eq. rewrite Hg in Hl. done.
    + exists g. by rewrite lookup_insert_ne by done.
Qed.

Section host_facts.
Context `{Oracle} `{Disk} `{!Machine}.

Lemma mkdir_run path n h : ∃ r n' nodes, mkdir path n h = (r, n', set_nodes nodes h).
Proof.
  destruct h as [f mem nodes]. unfold mkdir. simpl.
  destruct (o_mkdir n), (nodes !! path) as [[]|]; do 3 eexists; reflexivity.
Qed.

Lemma buildDSN_run {St} path n (h : St) : ∃ r n', buildDSN path n h = (r, n', h).
Proof.
  unfold buildDSN. destruct (in_memory path); [by do 2 eexists|].
  unfold Abs, try, bind. destruct (is_rooted path); [by do 2 eexists|].
  unfold draw. destruct (o_cwd n); by do 2 eexists.
Qed.

(** What a path names on disk is what its absolute form names. *)
Lemma buildDSN_Ok {St} path n (h : St) d n' h' :
  buildDSN path n h = (Ok d, n', h') →
  if in_memory path then d = Memory
  else ∃ wd, d = OnDisk (if is_rooted path then Clean path else Join2 wd path).
Proof.
  unfold buildDSN. destruct (in_memory path); [by intros [= <-]|].
  unfold Abs, try, bind. destruct (is_rooted path); [intros [= <-]; by exists ""|].
  unfold draw. destruct (o_cwd n) as [wd|e]; [|done]. intros [= <-]. by exists wd.
Qed.

(** Opening: an error that leaves the host alone, or a connection to what was
    there, or to nothing yet. *)
Lemma open_db_run path n h :
  all_bootable h →
  (∃ e n', open_db path n h = (Err e, n', h)) ∨
  ∃ d f n', open_db path n h = (Ok d, n', remount d f h) ∧
    (∃ j, j ≤ 4 ∧ at_stage j f) ∧ f_view f = false ∧ host_le h (remount d f h).
Proof.
  intros Hall. unfold open_db, try, bind, ping.
  destruct (buildDSN_run path n h) as (r & n1 & ->). destruct r as [d|e]; [|left; by do 2 eexists].
  destruct (o_open_db n1) as [text|]; [left; by do 2 eexists|]. right.
  exists d. eexists _, _. split; [reflexivity|].
  destruct d as [|p].
  { split_and!; [|done|split; [done|intros p f Hf; by exists f]].
    exists 0. split; [lia|apply at_stage_Open, new_file_stage]. }
  assert (Hb : bootable (mounted (OnDisk p) h)).
  { simpl. destruct (h_databases h !! p) as [f|] eqn:E; [by eapply Hall|apply new_file_bootable]. }
  split_and!; [done|done|]. by apply host_le_remount.
Qed.
End host_facts.
