(* ===== verification/Daemon.v ===== *)
(** * The process ([cmd/gateway/main.go], [NewManager] of [internal/wa/manager.go])

    Boot: the configuration, the directories, the database and its upgrade,
    the manager, the sessions that were paired, and the server; then the
    requests and events the process takes.  How it ends, and what the next one
    finds, is in [Lifetime].  The timeouts of [http.Server] are not modelled,
    nor is logging. *)

From S2P Require Import Prelude GoText GoUnicode GoEff Scope Models Sql Store StoreOps.
From S2P Require Import SessionRepo Config Json Http Middleware Pending WaAddress MediaPath MediaReference Gateway.
From S2P Require Import StoreTheorems Demo Manager Media ManagerOps Sessions McpServer Routing Server Deployment.
From S2P Require Import DemoServer Migrate Host.

(** ** The health check *)

Section health.
Context `{Unicode} (getenv : string → string).

Definition healthcheckPort : string :=
  let fallback := let port := TrimSpace (getenv "PORT") in
                  if decide (port = "") then "8080" else port in
  let bindAddr := TrimSpace (getenv "BIND_ADDR") in
  if decide (bindAddr = "") then fallback
  else match SplitHostPort bindAddr with
       | Some (_, port) => if decide (port = "") then fallback else port
       | None => fallback
       end.

(** [get] is [http.Client.Get]: the status of the answer. *)
Definition probeHealth (get : string → result Z) : result () :=
  match get ("http://127.0.0.1:" +:+ healthcheckPort +:+ "/healthz") with
  | Err e => Err e
  | Ok status => if decide (status = 200%Z) then Ok ()
                 else Err (New ("healthz returned " +:+ Itoa status))
  end.
End health.

(** ** The manager's options *)

Record ManagerOptions := {
  mo_HistoryScope : option HistorySyncScope;     (* None: the empty string *)
  mo_HistoryTimeout : Z;
  mo_MediaDir : string;
  mo_MediaMaxBytes : Z;
  mo_MediaFetchTypes : list string;
}.

Definition with_defaults (opts : ManagerOptions) : ManagerOptions :=
  {| mo_HistoryScope := Some (default HistorySyncScopeDM (mo_HistoryScope opts));
     mo_HistoryTimeout := if decide (mo_HistoryTimeout opts ≤ 0)%Z
                          then DefaultHistorySyncTimeout else mo_HistoryTimeout opts;
     mo_MediaDir := if decide (mo_MediaDir opts = "") then DefaultMediaDir else mo_MediaDir opts;
     mo_MediaMaxBytes := if decide (mo_MediaMaxBytes opts ≤ 0)%Z
                         then DefaultMediaMaxBytes else mo_MediaMaxBytes opts;
     mo_MediaFetchTypes := if decide (mo_MediaFetchTypes opts = [])
                           then DefaultMediaFetchTypes else mo_MediaFetchTypes opts |}.

Definition options_of (cfg : Config.Gateway) : ManagerOptions :=
  {| mo_HistoryScope := Some (cfg_HistorySyncScope cfg); mo_HistoryTimeout := cfg_HistorySyncTimeout cfg;
     mo_MediaDir := cfg_MediaDir cfg; mo_MediaMaxBytes := cfg_MediaMaxBytes cfg;
     mo_MediaFetchTypes := cfg_MediaFetchTypes cfg |}.

(** The media fetcher [NewManager] builds. *)
Definition fetcher_of `{Unicode} (opts : ManagerOptions) : mediaFetcher :=
  let opts := with_defaults opts in
  {| mf_dir := mo_MediaDir opts; mf_maxBytes := mo_MediaMaxBytes opts;
     mf_allowed := allowedMediaTypes (mo_MediaFetchTypes opts) |}.

(** ** Booting *)

Definition set_lid_map (v : gmap string string) (s : db) : db :=
  {| tenants := tenants s; api_keys := api_keys s; sessions := sessions s;
     messages := messages s; chats := chats s; lid_map := Some v;
     lid_ready := lid_ready s; applied := applied s |}.

(** A gateway that has just started. *)
Record started `{WaClient} := {
  up_config : Config.Gateway;
  up_server : Server;
  up_fetcher : mediaFetcher;
  up_database : database;
  up_gateway : gateway;
}.

Section boot.
Context `{Unicode} `{Durations} `{Oracle} `{WaClient} `{Disk} `{!Machine}.

(** [NewManager]: whatsmeow upgrades its schema in the same database. *)
Definition NewManager (d : database) (opts : ManagerOptions) : eff host (result gateway) := λ n h,
  match o_upgrade n with
  | Some text => (Err (Wrap "wa: upgrade whatsmeow schema" (External text)), S n, h)
  | None =>
      let f := mounted d h in
      let s := set_lid_map (o_index n (lid_map (f_db f))) (f_db f) in
      (Ok (Gateway s (h_nodes h) ∅ newPendingHistory 0 [] ∅), S n, remount d (set_rows s f) h)
  end.

(** A computation of the gateway, in the process that holds it: what it does
    to the database and the files is there afterwards. *)
Definition in_process {A} (d : database) (g : gateway) (m : eff gateway A)
    : eff host (A * gateway) := λ n h,
  let '(a, n', g') := m n g in
  ((a, g'), n', set_nodes (g_files g') (remount d (set_rows (g_db g') (mounted d h)) h)).

(** The configuration of the server: [DefaultScopes] is left out. *)
Definition server_config (cfg : Config.Gateway) : ServerConfig :=
  {| sc_AdminToken := cfg_AdminToken cfg; sc_DB := true; sc_Sessions := true;
     sc_DefaultScopes := []; sc_MCPAllowedOrigins := cfg_MCPAllowedOrigins cfg |}.

(** [run] from the manager on, as far as serving. *)
Definition serve_from (cfg : Config.Gateway) (d : database) : eff host (result started) :=
  (try! g := NewManager d (options_of cfg) in
   let! restored := in_process d g RestoreSessions in
   try! server := ret (New_server (server_config cfg)) in
   ret (Ok {| up_config := cfg; up_server := server; up_fetcher := fetcher_of (options_of cfg);
              up_database := d; up_gateway := restored.2 |}))%go.

(** [run], as far as serving. *)
Definition boot (getenv : string → string) : eff host (result started) :=
  (try! cfg := ret (LoadGateway getenv) in
   try! _ := mkdir (Dir (cfg_DBPath cfg)) in
   try! _ := mkdir (cfg_MediaDir cfg) in
   try! d := open_db (cfg_DBPath cfg) in
   try! _ := zoom (mounted d) (remount d) Migrate in
   serve_from cfg d)%go.
End boot.

(** ** The health check asks where the gateway listens *)

Section health_facts.
Context `{Unicode} `{Durations}.

(** Whatever combination of BIND_ADDR and PORT the gateway accepts, the
    health check reads the number of the port it listens on: the two ways the
    environment is read, one that may refuse to start and one that may not,
    never disagree. *)
Theorem healthcheck_port_agrees getenv cfg :
  LoadGateway getenv = Ok cfg → Atoi (healthcheckPort getenv) = Some (cfg_Port cfg).
Proof.
  unfold LoadGateway. case_decide; [done|].
  destruct (resolveBindAddr _ _) as [[addr port]|e] eqn:Eb; [|done]. simpl.
  destruct (ParseHistorySyncScope _); [|done]. simpl.
  destruct (parseHistorySyncTimeout _); [|done]. simpl.
  destruct (ParseMediaMaxBytes _); [|done]. simpl.
  destruct (ParseMediaFetchTypes _); [|done]. simpl. intros [= <-]. simpl.
  apply resolve_cases in Eb as (host & _ & _ & _ & Hb). unfold bound_from in Hb. unfold healthcheckPort.
  cbv zeta. case_decide.
  - destruct Hb as [_ Hb]. case_decide; [by subst|done].
  - destruct Hb as (rawPort & -> & Hz). by rewrite decide_False by (by intros ->).
Qed.
End health_facts.

(** ** The limits of the environment are the limits of the fetches *)

Lemma options_kept `{Unicode} `{Durations} getenv cfg :
  LoadGateway getenv = Ok cfg → with_defaults (options_of cfg) = options_of cfg.
Proof.
  unfold LoadGateway. case_decide; [done|].
  destruct (resolveBindAddr _ _) as [[addr port]|e]; [|done]. simpl.
  destruct (ParseHistorySyncScope _) as [scope|]; [|done]. simpl.
  destruct (parseHistorySyncTimeout _) as [timeout|] eqn:Et; [|done]. simpl.
  destruct (ParseMediaMaxBytes _) as [maxBytes|] eqn:Em; [|done]. simpl.
  destruct (ParseMediaFetchTypes _) as [types|] eqn:Ef; [|done]. simpl. intros [= <-].
  apply parseHistorySyncTimeout_Ok in Et. apply ParseMediaMaxBytes_Ok in Em.
  apply ParseMediaFetchTypes_Ok in Ef as (Hne & _).
  unfold with_defaults, options_of. simpl. rewrite (decide_False (P := (timeout ≤ 0)%Z)) by lia.
  rewrite (decide_False (P := (maxBytes ≤ 0)%Z)), (decide_False (P := types = [])) by (done || lia).
  f_equal. rewrite decide_False; [done|]. unfold envOr. cbv zeta. by case_decide.
Qed.

(** ** Restoring the sessions *)

(** The tenant's session names the device it was paired as. *)
Definition paired (s : db) (tid : string) : Prop :=
  ∃ x raw, sessions s !! tid = Some x ∧ s_WAJID x = Some raw ∧ raw ≠ "".

Section restore.
Context `{Oracle} `{WaClient}.

(** Clients appear for paired tenants; nothing else changes but the calls. *)
Record restores (s : db) (g g' : gateway) : Prop := {
  rs_db : g_db g' = g_db g;
  rs_files : g_files g' = g_files g;
  rs_pending : g_pending g' = g_pending g;
  rs_clients : ∀ tid, is_Some (g_clients g' !! tid) → is_Some (g_clients g !! tid) ∨ paired s tid;
}.

#[export] Instance restores_preorder s : PreOrder (restores s).
Proof.
  split; [split; auto|]. intros g1 g2 g3 [D1 F1 P1 C1] [D2 F2 P2 C2]. split; try congruence.
  intros tid [Hc|Hc]%C2; auto.
Qed.

Lemma restore_all_restores s byJID l :
  (∀ x, x ∈ l → default "" (s_WAJID x) ≠ "" → paired s (s_TenantID x)) →
  evolves (restores s) (restore_all byJID l).
Proof.
  induction l as [|x l IH]; intros Hl; simpl; [refine (evolves_ret _ _)|].
  assert (Hrest : evolves (restores s) (restore_all byJID l)).
  { apply IH. intros y Hy. apply Hl. by right. }
  case_decide as Hraw; [done|]. destruct (byJID !! _) as [d|]; [|done].
  apply evolves_bind; [apply _|refine (evolves_draw _ _)|intros c].
  apply evolves_bind; [apply _| |intros _].
  - unfold set_client. apply modify_evolves. intros g. split; try done. simpl. intros tid.
    destruct (decide (tid = s_TenantID x)) as [->|Hne]; [|rewrite lookup_insert_ne by done; auto].
    intros _. right. apply Hl; [by left|done].
  - apply evolves_bind; [apply _|apply ask_evolves; intros g; split; auto|done].
Qed.

Lemma List_sessions n s l :
  wf s → answer SessionRepo.List_ n s = Ok l →
  ∀ x, x ∈ l → default "" (s_WAJID x) ≠ "" → paired s (s_TenantID x).
Proof.
  intros Hwf ->%read_rows_Ok x (y & -> & Hy)%list_elem_of_fmap Hraw.
  rewrite (merge_sort_Permutation session_order) in Hy. apply elem_of_rows in Hy as [tid Hy].
  destruct (wf_sessions _ Hwf _ _ Hy) as (E & _ & _). simpl in *. rewrite E.
  exists y. destruct (s_WAJID y) as [raw|]; [|done]. simpl in Hraw. exists raw.
  split_and!; try done. intros ->. by rewrite decide_True in Hraw.
Qed.

Lemma RestoreSessions_restores n g :
  wf (g_db g) → restores (g_db g) g (final RestoreSessions n g).
Proof.
  intros Hwf.
  assert (Hread : final (on_db SessionRepo.List_) n g = g).
  { unfold final. rewrite on_db_run. simpl.
    assert (E : final SessionRepo.List_ n (g_db g) = g_db g) by (symmetry; apply (evolves_read_rows eq)).
    rewrite E. apply set_db_same. }
  unfold RestoreSessions. rewrite bind_final, on_db_answer, Hread.
  destruct (answer SessionRepo.List_ n (g_db g)) as [l|e] eqn:E; [|done].
  rewrite bind_final. destruct (answer (draw GetAllDevices) _ _) as [devices|e]; [|done].
  rewrite bind_final. unfold final at 1, ret. simpl.
  apply restore_all_restores. by eapply List_sessions.
Qed.
End restore.

(** ** Booting *)

Section booting.
Context `{Unicode} `{Durations} `{Oracle} `{WaClient} `{Disk} `{!Machine}.

(** What the server is made of: the token is the configured one and not empty,
    and the key scopes the ones the package defaults to. *)
Lemma New_server_config cfg server :
  New_server (server_config cfg) = Ok server →
  server = {| sv_adminToken := cfg_AdminToken cfg; sv_defaultScopes := [ScopeMessagesSend];
              sv_mcpOrigins := cfg_MCPAllowedOrigins cfg |} ∧ cfg_AdminToken cfg ≠ "".
Proof.
  unfold New_server, server_config. simpl. case_decide as Hne; [done|]. by intros [= <-].
Qed.

Lemma set_lid_map_wf v s : wf s → wf (set_lid_map v s).
Proof. intros []. by split. Qed.

Lemma at_stage_rows k s f :
  at_stage k f → wf s → own_rows s = own_rows (f_db f) → applied s = applied (f_db f) →
  messages s = messages (f_db f) → at_stage k (set_rows s f).
Proof.
  intros [] Hwf Hrows Ha Hm. injection Hrows as Ht _ _ _ Hc.
  split; unfold ledger; simpl; rewrite ?Ha, ?Ht, ?Hc, ?Hm; done.
Qed.

(** A gateway as [NewManager] and [RestoreSessions] leave it. *)
Record fresh (g : gateway) : Prop := {
  fr_wf : wf (g_db g);
  fr_pending : g_pending g = newPendingHistory;
  fr_clients : ∀ tid, is_Some (g_clients g !! tid) → paired (g_db g) tid;
}.

Lemma serve_from_cases cfg d n h :
  at_stage 4 (mounted d h) → f_view (mounted d h) = false →
  let '(r, _, h') := serve_from cfg d n h in
  host_le h h' ∧ lasts (f_db (mounted d h)) (f_db (mounted d h')) ∧
  ∀ up, r = Ok up →
    up_config up = cfg ∧ New_server (server_config cfg) = Ok (up_server up) ∧
    up_fetcher up = fetcher_of (options_of cfg) ∧ up_database up = d ∧
    at_stage 4 (mounted d h') ∧ f_view (mounted d h') = false ∧
    g_db (up_gateway up) = f_db (mounted d h') ∧ fresh (up_gateway up).
Proof.
  intros Hf Hv. unfold serve_from, try, NewManager, in_process, bind.
  destruct (o_upgrade n) as [text|]; simpl; [done|].
  set (s := set_lid_map _ _). set (g0 := Gateway s _ _ _ _ _ _).
  assert (Hwf : wf s) by (by apply set_lid_map_wf, Hf).
  assert (Hs : own_rows s = own_rows (f_db (mounted d h))) by done.
  pose proof (RestoreSessions_restores (S n) g0 Hwf) as [Hdb _ Hpend Hcl].
  unfold final in *. destruct (RestoreSessions (S n) g0) as [[r n1] g1]. simpl in *.
  assert (Hstage : at_stage 4 (set_rows s (mounted d h))) by (by apply at_stage_rows).
  assert (Hle : ∀ v, host_le h (set_nodes v (remount d (set_rows s (mounted d h)) h))).
  { intros v. etrans; [|apply host_le_nodes]. apply host_le_remount.
    - exists 4. split; [done|by apply at_stage_Open].
    - by apply own_rows_lasts. }
  rewrite mounted_remount, Hdb. simpl.
  assert (Hsame : ∀ v w f, set_nodes v (remount d f (remount d w h)) = set_nodes v (remount d f h)).
  { intros v w f. destruct d; simpl; [done|]. by rewrite insert_insert_eq. }
  destruct (New_server _) as [server|e] eqn:En; simpl;
    rewrite Hsame, mounted_set_nodes, mounted_remount; simpl;
    (split; [apply Hle|split; [by apply own_rows_lasts|]]); [|by intros ?].
  intros up [= <-]. simpl. split_and!; try done.
  split; simpl; [by rewrite Hdb|done|]. intros tid [Hc|Hc]%Hcl.
  - rewrite lookup_empty in Hc. by destruct Hc.
  - by rewrite Hdb.
Qed.

Lemma boot_cases getenv n h :
  all_bootable h →
  let '(r, _, h') := boot getenv n h in
  host_le h h' ∧
  ∀ up, r = Ok up →
    let f' := mounted (up_database up) h' in
    LoadGateway getenv = Ok (up_config up) ∧
    New_server (server_config (up_config up)) = Ok (up_server up) ∧
    up_fetcher up = fetcher_of (options_of (up_config up)) ∧
    at_stage 4 f' ∧ f_view f' = false ∧ g_db (up_gateway up) = f_db f' ∧ fresh (up_gateway up).
Proof.
  intros Hall. unfold boot.
  unfold try at 1. unfold bind at 1. unfold ret at 1.
  destruct (LoadGateway getenv) as [cfg|e]; [|done].
  unfold try at 1. unfold bind at 1.
  destruct (mkdir_run (Dir (cfg_DBPath cfg)) n h) as (r1 & n1 & nodes1 & ->).
  pose proof (host_le_nodes nodes1 h) as L1. set (h1 := set_nodes nodes1 h) in *.
  destruct r1 as [_|e]; [|done]. unfold try at 1. unfold bind at 1.
  destruct (mkdir_run (cfg_MediaDir cfg) n1 h1) as (r2 & n2 & nodes2 & ->).
  pose proof (host_le_nodes nodes2 h1) as L2. set (h2 := set_nodes nodes2 h1) in *.
  assert (L02 : host_le h h2) by (by etrans).
  destruct r2 as [_|e]; [|done]. unfold try at 1. unfold bind at 1.
  destruct (open_db_run (cfg_DBPath cfg) n2 h2 (hl_bootable _ _ L02 Hall))
    as [(e & n3 & ->)|(d & f & n3 & -> & (k & Hk & Hf) & Hv & L3)]; [done|].
  set (h3 := remount d f h2) in *. assert (L03 : host_le h h3) by (by etrans).
  assert (Em : mounted d h3 = f) by apply mounted_remount.
  unfold try, bind, zoom. rewrite Em.
  destruct (Migrate_outcome k f n3 Hf Hk Hv) as ((j & Hj & Hstage) & Hrows & Hok).
  unfold answer, final in *. destruct (Migrate n3 f) as [[r3 n4] f4]. simpl in *.
  assert (L4 : host_le h3 (remount d f4 h3)).
  { apply host_le_remount; [by exists j|]. rewrite Em. by apply own_rows_lasts, kept_own. }
  assert (L04 : host_le h (remount d f4 h3)) by (by etrans).
  destruct r3 as [[]|e]; [|done]. destruct (Hok eq_refl) as [Hlast Hview].
  assert (Em4 : mounted d (remount d f4 h3) = f4) by apply mounted_remount.
  pose proof (serve_from_cases cfg d n4 (remount d f4 h3)) as Hs. rewrite Em4 in Hs.
  specialize (Hs Hlast Hview). destruct (serve_from cfg d n4 _) as [[r n5] h'].
  destruct Hs as (L5 & _ & Hup). split; [by etrans|].
  intros up E. by destruct (Hup up E) as (-> & ? & ? & -> & ? & ? & ? & ?).
Qed.
End booting.

(** ** Serving *)

Section serving.
Context `{Unicode} `{Durations} `{Oracle} `{MediaTypes} `{WaClient} `{Disk} `{ErrorTexts}.
Context `{!Machine, !Waits, !FileReads, !McpTransport gateway, !McpTransportLaws gateway, !Redirects}.

(** The handler of a started gateway, and the work it is given: requests, and
    what happens to a tenant by itself. *)
Definition handler_of (up : started) : handler gateway json :=
  let scope := cfg_HistorySyncScope (up_config up) in
  let sessions := gateway_sessions (up_fetcher up) scope in
  Handler (up_server up).

Inductive job :=
  | Request (r : request)
  | Arrival (tid : string) (a : arrival).

Definition do_job (up : started) (j : job) : eff gateway () :=
  match j with
  | Request r => let! _ := handler_of up r in ret ()
  | Arrival tid a => handle_arrival (cfg_HistorySyncScope (up_config up)) tid a
  end%go.

Fixpoint serve_all (up : started) (jobs : list job) : eff gateway () :=
  (match jobs with
   | [] => ret ()
   | j :: jobs => let! _ := do_job up j in serve_all up jobs
   end)%go.

Lemma do_job_sound up j n g : wf (g_db g) → sound (g_db g) (g_db (final (do_job up j) n g)).
Proof.
  intros Hwf. destruct j as [r|tid a]; simpl.
  - rewrite bind_final.
    pose proof (gateway_laws (up_fetcher up) (cfg_HistorySyncScope (up_config up))) as Hlaws.
    pose proof (serve_sound (H4 := Hlaws) (sv_adminToken (up_server up))
                  (sv_defaultScopes (up_server up)) (sv_mcpOrigins (up_server up)) r n g) as Hs. exact (Hs Hwf).
  - apply (af_sound tid), handle_arrival_acts.
Qed.

Lemma serve_all_sound up jobs n g :
  wf (g_db g) → sound (g_db g) (g_db (final (serve_all up jobs) n g)).
Proof.
  revert n g. induction jobs as [|j jobs IH]; intros n g Hwf; [done|].
  simpl. rewrite bind_final. pose proof (do_job_sound up j n g Hwf) as Hs.
  etrans; [exact Hs|]. apply IH. by apply Hs.
Qed.

Lemma at_stage_grown f s :
  at_stage 4 f → db_le (f_db f) s → wf s → at_stage 4 (set_rows s f).
Proof.
  intros Hf Hle Hwf. destruct Hf. split; try assumption; try (intros; lia).
  unfold ledger. simpl. by rewrite (le_applied _ _ Hle).
Qed.

(** C39: the gateway boots from whatever an earlier run left, and serves from a
    sound database.  However far the boot gets and whatever fails on the way,
    every database of the host can be taken up by the next boot and holds the
    rows it held.  A boot that reaches serving has loaded the configuration,
    completed the upgrade, and holds clients of paired tenants only; and
    whatever requests and events it then takes, in whatever order, the
    constraints still hold, no row is lost, and the database it leaves is one
    to boot from again. *)
Theorem boot_then_serve getenv n h :
  all_bootable h →
  let h' := final (boot getenv) n h in
  host_le h h' ∧
  ∀ up, answer (boot getenv) n h = Ok up →
    let f' := mounted (up_database up) h' in
    LoadGateway getenv = Ok (up_config up) ∧
    up_server up = {| sv_adminToken := cfg_AdminToken (up_config up);
                      sv_defaultScopes := [ScopeMessagesSend];
                      sv_mcpOrigins := cfg_MCPAllowedOrigins (up_config up) |} ∧
    sv_adminToken (up_server up) ≠ "" ∧
    mf_dir (up_fetcher up) = cfg_MediaDir (up_config up) ∧
    mf_maxBytes (up_fetcher up) = cfg_MediaMaxBytes (up_config up) ∧
    (∀ tid, is_Some (g_clients (up_gateway up) !! tid) → paired (g_db (up_gateway up)) tid) ∧
    g_db (up_gateway up) = f_db f' ∧
    ∀ jobs n',
      let s' := g_db (final (serve_all up jobs) n' (up_gateway up)) in
      db_le (g_db (up_gateway up)) s' ∧ wf s' ∧ at_stage 4 (set_rows s' f').
Proof.
  intros Hall. pose proof (boot_cases getenv n h Hall) as Hb. cbv zeta.
  destruct (boot getenv n h) as [[r n1] h'] eqn:Eb. destruct Hb as [Hle Hup].
  assert (final (boot getenv) n h = h') as -> by (unfold final; by rewrite Eb).
  assert (answer (boot getenv) n h = r) as -> by (unfold answer; by rewrite Eb).
  split; [done|]. intros up E.
  destruct (Hup up E) as (Hcfg & Hserver & Hfetch & Hlast & Hv & Hdb & [Hwf _ Hcl]).
  rewrite Hfetch. unfold fetcher_of. rewrite (options_kept _ _ Hcfg). simpl.
  pose proof (New_server_config _ _ Hserver) as [Hsv Hne].
  split_and!; try done; [by rewrite Hsv|].
  intros jobs n'. destruct (serve_all_sound up jobs n' (up_gateway up) Hwf) as [Hdle Hwf'].
  split_and!; [done|auto|]. apply at_stage_grown; [done| |auto]. by rewrite <- Hdb.
Qed.
End serving.

(** ** Witnesses *)

#[local] Existing Instance plain_durations.
#[local] Existing Instance demo_unicode.

Lemma healthcheck_port_agrees_witness :
  let getenv key := if decide (key = "ADMIN_TOKEN") then "s3cret"
                    else if decide (key = "BIND_ADDR") then " 0.0.0.0:09090 " else "" in
  healthcheckPort getenv = "09090" ∧ Atoi (healthcheckPort getenv) = Some 9090%Z.
Proof.
  intros getenv. split; [vm_compute; reflexivity|].
  destruct (LoadGateway getenv) as [cfg|e] eqn:E; [|vm_compute in E; discriminate E].
  rewrite (healthcheck_port_agrees getenv cfg E).
  vm_compute in E. injection E as <-. reflexivity.
Defined.

#[local] Existing Instance demo_oracle.
#[local] Existing Instance plain_media.
#[local] Existing Instance plain_jids.
#[local] Existing Instance served_clients.
#[local] Existing Instance plain_disk.
#[local] Existing Instance plain_texts.
#[local] Existing Instance plain_waits.
#[local] Existing Instance plain_reads.
#[local] Existing Instance plain_mcp.
#[local] Existing Instance plain_redirects.
#[local] Existing Instance plain_mcp_laws.

#[export] Instance plain_machine : Machine :=
  {| o_cwd _ := Ok "/srv"; o_open_db _ := None; o_upgrade _ := None; o_index _ index := default ∅ index |}.

(** The database of an earlier version, where the default setting looks. *)
Definition old_host : host :=
  {| h_databases := {["/srv/data/whats-cloud.db" := old_file]}; h_memory := new_file; h_nodes := ∅ |}.

Lemma old_host_bootable : all_bootable old_host.
Proof.
  unfold all_bootable. simpl. apply map_Forall_singleton. exists 2. split; [lia|].
  apply at_stage_Open, old_file_stage.
Qed.

Lemma boot_then_serve_witness :
  ∃ up, answer (boot demo_env) 0 old_host = Ok up ∧
    sv_defaultScopes (up_server up) = [ScopeMessagesSend] ∧
    wf (g_db (final (serve_all up [Request issue_request; Request send_request]) 200 (up_gateway up))).
Proof.
  destruct (boot_then_serve demo_env 0 old_host old_host_bootable) as [_ Hup].
  destruct (answer (boot demo_env) 0 old_host) as [up|e] eqn:E.
  - destruct (Hup up eq_refl) as (_ & Hserver & _ & _ & _ & _ & _ & Hserve).
    exists up. split; [reflexivity|]. split; [by rewrite Hserver|].
    apply (Hserve [Request issue_request; Request send_request] 200).
  - exfalso. assert (Ho : is_Ok (answer (boot demo_env) 0 old_host) = true) by (vm_compute; reflexivity).
    rewrite E in Ho. discriminate Ho.
Defined.
