(* ===== verification/Lifetime.v ===== *)
(** * The life of a deployment ([cmd/gateway/main.go])

    How a process ends, and what the processes that follow it find.  A process
    may be killed at any moment, in the middle of an upgrade or of a request:
    from that moment on no statement reaches the database and nothing is
    written to the disk, and a transaction that was not committed is undone. *)

From S2P Require Import Prelude GoText GoUnicode GoEff Models Sql Store StoreOps Config Json Http Middleware.
From S2P Require Import Pending WaAddress MediaReference Gateway Demo Manager Media ManagerOps Sessions.
From S2P Require Import StoreTheorems McpServer Routing Server Deployment DemoServer Migrate Host Daemon.

Section process.
Context `{Unicode} `{Durations} `{Oracle} `{MediaTypes} `{WaClient} `{Disk} `{ErrorTexts}.
Context `{!Machine, !Waits, !FileReads, !McpTransport gateway, !McpTransportLaws gateway, !Redirects}.

(** ** The life of the process *)

(** [run] as far as it comes, and what is deferred. *)
Definition work (getenv : string → string) (jobs : list job) (deferred : eff gateway ())
    : eff host (result ()) :=
  (try! up := boot getenv in
   let! _ := in_process (up_database up) (up_gateway up)
     (let! _ := serve_all up jobs in deferred) in
   ret (Ok ()))%go.

(** How it ends by itself: [ListenAndServe] fails, or a signal asks for the
    shutdown, which may miss its deadline. *)
Inductive ending :=
  | ListenError (text : string)
  | Interrupted (deadline : option string).

(** [run].  The requests that were being served when the signal came are among
    the jobs: [Shutdown] waits for them. *)
Definition run (getenv : string → string) (jobs : list job) (e : ending) : eff host (result ()) :=
  (try! _ := work getenv jobs Close in
   ret (match e with
        | ListenError text | Interrupted (Some text) => Err (External text)
        | Interrupted None => Ok ()
        end))%go.

(** [main]: the exit code. *)
Definition exit_code (r : result ()) : Z := match r with Ok _ => 0 | Err _ => 1 end.

Definition main (healthcheck : bool) (getenv : string → string) (get : string → result Z)
    (jobs : list job) (e : ending) : eff host Z :=
  (if healthcheck then ret (exit_code (probeHealth getenv get))
   else let! r := run getenv jobs e in ret (exit_code r))%go.

Lemma Close_sound g n : sound (g_db g) (g_db (final Close n g)).
Proof.
  assert (E : ∀ l, g_db (foldr (λ tid g, log_call tid CallDisconnect g) g l) = g_db g).
  { intros l. by induction l as [|tid l IH]. }
  by unfold Close, final, modify; simpl; rewrite E.
Qed.

Lemma process_sound up jobs (deferred : eff gateway ()) n g :
  evolves (λ g g', sound (g_db g) (g_db g')) deferred → wf (g_db g) →
  sound (g_db g) (g_db (final (let! _ := serve_all up jobs in deferred)%go n g)).
Proof.
  intros Hd Hwf. rewrite bind_final. etrans; [by apply (serve_all_sound up jobs)|]. apply Hd.
Qed.

Lemma in_process_le {A} d g (m : eff gateway A) n h :
  at_stage 4 (mounted d h) → g_db g = f_db (mounted d h) → wf (g_db g) →
  sound (g_db g) (g_db (final m n g)) → host_le h (final (in_process d g m) n h).
Proof.
  intros Hf Hdb Hwf. unfold final, in_process. destruct (m n g) as [[a n'] g']. simpl.
  intros [Hle Hwf']. etrans; [|apply host_le_nodes]. rewrite Hdb in Hle.
  apply host_le_remount; [|by apply db_le_lasts].
  exists 4. split; [done|]. apply at_stage_Open, at_stage_grown; auto.
Qed.

Lemma work_le getenv jobs deferred n h :
  evolves (λ g g', sound (g_db g) (g_db g')) deferred → all_bootable h →
  host_le h (final (work getenv jobs deferred) n h).
Proof.
  intros Hd Hall. pose proof (boot_cases getenv n h Hall) as Hb.
  unfold work, try. rewrite bind_final. destruct (boot getenv n h) as [[r n1] h'] eqn:Eb.
  unfold answer, next, final at 2. rewrite Eb. simpl. destruct Hb as [Hle Hup].
  destruct r as [up|err]; [|done].
  destruct (Hup up eq_refl) as (_ & _ & _ & Hlast & _ & Hdb & [Hwf _ _]).
  rewrite bind_final. etrans; [exact Hle|].
  by apply in_process_le, process_sound.
Qed.

Lemma main_le hc getenv get jobs e n h :
  all_bootable h → host_le h (final (main hc getenv get jobs e) n h).
Proof.
  intros Hall. unfold main, run, try. destruct hc; [done|]. rewrite !bind_final.
  assert (Hle : host_le h (final (work getenv jobs Close) n h)).
  { apply work_le; [|done]. intros n' g. apply Close_sound. }
  by destruct (answer (work getenv jobs Close) n h).
Qed.
End process.

(** ** Killed *)

Section killed.
Context `{Unicode} `{Durations} `{Oracle} `{MediaTypes} `{WaClient} `{Disk} `{ErrorTexts}.
Context `{!Machine, !Waits, !FileReads, !McpTransport gateway, !McpTransportLaws gateway, !Redirects}.
Context (moment : nat).

Definition stopped {A} (n : nat) (before after : A) : A := if decide (n < moment) then before else after.

(** From the moment on, every statement, every call of the file system and
    whatsmeow's upgrade of its tables have no effect. *)
#[local] Instance stopped_oracle : Oracle :=
  {| o_sql n := stopped n (o_sql n) (Some "killed"); o_constraint := o_constraint;
     o_now := o_now; o_uuid := o_uuid; o_rand := o_rand |}.
#[local] Instance stopped_disk : Disk :=
  {| o_stat n := stopped n (o_stat n) (Some "killed");
     o_mkdir n := stopped n (o_mkdir n) (Some "killed");
     o_write n := stopped n (o_write n) (Some ("killed", None)) |}.
#[local] Instance stopped_machine : Machine :=
  {| o_cwd := o_cwd; o_open_db n := stopped n (o_open_db n) (Some "killed");
     o_upgrade n := stopped n (o_upgrade n) (Some "killed"); o_index := o_index |}.

(** [run] up to the moment, with nothing deferred and nothing returned. *)
Definition die (getenv : string → string) (jobs : list job) : eff host () :=
  (let! _ := work getenv jobs (ret ()) in ret ())%go.

Lemma stopped_late {A} n (before after : A) : moment ≤ n → stopped n before after = after.
Proof. intros Hn. unfold stopped. rewrite decide_False by lia. done. Qed.

(** What reaches the database after the moment: no statement, and no commit of
    a transaction that was under way. *)
Lemma exec_stopped {St A} (stmt : St → option (A * St)) n s :
  moment ≤ n → final (exec stmt) n s = s.
Proof. intros Hn. unfold final, exec. simpl. by rewrite stopped_late. Qed.

Lemma commit_stopped {St A} b c (body : eff St (result A)) n s :
  moment ≤ next body (S n) s → final (transaction b c body) n s = s.
Proof.
  intros Hn. unfold next in Hn. unfold final, transaction, driver, query. simpl.
  destruct (stopped n _ _); [done|].
  destruct (body (S n) s) as [[[a|e] n2] s2]; [|done]. by rewrite stopped_late.
Qed.

Lemma die_le getenv jobs n h : all_bootable h → host_le h (final (die getenv jobs) n h).
Proof. intros Hall. unfold die. rewrite bind_final. by apply work_le. Qed.
End killed.

(** ** One process after another *)

Section lifetime.
Context `{Unicode} `{Durations} `{Oracle} `{MediaTypes} `{WaClient} `{Disk} `{ErrorTexts}.
Context `{!Machine, !Waits, !FileReads, !McpTransport gateway, !McpTransportLaws gateway, !Redirects}.

Inductive fate := Ends (e : ending) | Killed (moment : nat).

(** Started again and again, each time in an environment of its own. *)
Record life := {
  l_healthcheck : bool;
  l_getenv : string → string;
  l_get : string → result Z;
  l_jobs : list job;
  l_fate : fate;
}.

Definition live (l : life) : eff host () :=
  (match l_fate l with
   | Ends e => let! _ := main (l_healthcheck l) (l_getenv l) (l_get l) (l_jobs l) e in ret ()
   | Killed moment => if l_healthcheck l then ret () else die moment (l_getenv l) (l_jobs l)
   end)%go.

Fixpoint lives (l : list life) : eff host () :=
  (match l with
   | [] => ret ()
   | x :: l => let! _ := live x in lives l
   end)%go.

Lemma live_le x n h : all_bootable h → host_le h (final (live x) n h).
Proof.
  intros Hall. unfold live. destruct (l_fate x) as [e|moment].
  - rewrite bind_final. by apply main_le.
  - destruct (l_healthcheck x); [done|by apply die_le].
Qed.

(** C40: nothing that was stored is lost over the life of a deployment.
    However often the gateway is started, on the settings of each start and so
    on the database each start names, whatever it is asked and whatever
    fails, and however each process ends, by itself, by a signal or killed at
    any moment, in the middle of an upgrade or of a request: every database on disk can be taken up by the next start, and every
    tenant, key, session and message it held is still there, a revoked key
    still revoked. *)
Theorem lives_lose_nothing l n h :
  all_bootable h →
  let h' := final (lives l) n h in
  all_bootable h' ∧
  ∀ path f, h_databases h !! path = Some f →
    ∃ f', h_databases h' !! path = Some f' ∧ lasts (f_db f) (f_db f').
Proof.
  intros Hall. assert (Hle : host_le h (final (lives l) n h)).
  { revert n h Hall. induction l as [|x l IH]; intros n h Hall; [done|].
    simpl. rewrite bind_final. pose proof (live_le x n h Hall) as Hx.
    etrans; [exact Hx|]. apply IH. by apply Hx. }
  destruct Hle. auto.
Qed.
End lifetime.

(** ** Witness *)

#[local] Existing Instance plain_durations.
#[local] Existing Instance demo_unicode.
#[local] Existing Instance demo_oracle.
#[local] Existing Instance plain_media.
#[local] Existing Instance plain_jids.
#[local] Existing Instance served_clients.
#[local] Existing Instance plain_disk.
#[local] Existing Instance plain_texts.
#[local] Existing Instance plain_waits.
#[local] Existing Instance plain_reads.
#[local] Existing Instance plain_mcp.
#[local] Existing Instance plain_redirects.
#[local] Existing Instance plain_mcp_laws.

(** An upgrade that is killed, one that completes with a key issued before a
    kill, a start without an admin token, a health check, and a start that is
    shut down. *)
Definition demo_life healthcheck getenv jobs fate : life :=
  {| l_healthcheck := healthcheck; l_getenv := getenv; l_get _ := Ok 503%Z; l_jobs := jobs;
     l_fate := fate |}.

Definition demo_lives : list life :=
  [demo_life false demo_env [] (Killed 15);
   demo_life false demo_env [Request issue_request] (Killed 400);
   demo_life false (λ _, "") [] (Ends (Interrupted None));
   demo_life true demo_env [] (Killed 0);
   demo_life false demo_env [Request send_request] (Ends (Interrupted None))].

(** The kill comes in the middle of the upgrade: not all scripts are in the
    ledger, and the next start applies the rest. *)
Example killed_in_the_upgrade :
  let scripts h := size (applied (f_db (mounted (OnDisk "/srv/data/whats-cloud.db") h))) in
  (scripts old_host, scripts (final (lives (take 1 demo_lives)) 0 old_host),
   scripts (final (lives (take 2 demo_lives)) 0 old_host)) = (2, 3, 4).
Proof. vm_compute. reflexivity. Qed.

Lemma lives_lose_nothing_witness :
  ∃ f', h_databases (final (lives demo_lives) 0 old_host) !! "/srv/data/whats-cloud.db" = Some f' ∧
    lasts (f_db old_file) (f_db f').
Proof. apply (lives_lose_nothing demo_lives 0 old_host old_host_bootable). reflexivity. Defined.
